(* ===== verification/_CoqProject ===== *)
-Q . S2P
Prelude.v
GoStd.v
BaseFee.v
Sha256.v
Merkle.v
Bytecode.v
Json.v
JsonRaw.v
LogTypes.v
ScdoClient.v
ScdoNode.v
Semaphore.v
PendingPool.v
Checkpoint.v
Redis.v
Env.v
JsonCheckpoint.v
RedisPool.v
RedisCheckpoint.v
RunOnce.v
Scenario.v
RunOnceSpec.v
RunOnceTotal.v
Sync.v
RunOnceRefines.v
Service.v
Handlers.v
Protocol.v
Incidents.v
RealRPC.v
TaskLoop.v
LoopSteps.v
Runner.v
LoopInvariant.v
Daemon.v
Relayer.v
