(* ===== verification/Prelude.v ===== *)
(** * eip-toolkit: a verification library for its Go code

    The toolkit (src/go/) is a log-filter engine for Ethereum nodes
    ([go/logfilter]), the relayer of a lock/mint bridge ([go/bridge]), a client
    library for SCDO nodes ([go/scdo]) and two small calculators, a Merkle tree
    ([go/merkle]) and the EIP-1559 base fee ([go/eip1559]).  This library models
    the Go code as executable definitions and proves what it does, the places
    where that is not what its comments say included.

    ** How the code is modelled

    Sized integers are integers [Z] with the wrap-around of this file
    ([u64_add], [i64_mul]) after each operation that can leave the word;
    [*big.Int] is [Z].  Strings and byte slices are sequences of bytes; a Go map
    is a [gmap], with the order of [range] a parameter where it matters.  A
    function that returns early, blocks, panics or loops runs in the monad [M] of
    this file; [wp] says what holds where it goes on, returns, or is stuck.
    Loops take fuel, and a theorem says how much is enough.  Interfaces are type
    classes, so the engine is proved for every implementation; what the code
    takes from third parties (go-ethereum, Keccak, Redis, Kafka, the SQL driver, HTTP) is a parameter.
    The environment (when the context ends, which ready case a [select] takes,
    the time) is a set of functions of the number of looks taken at it, over
    which the theorems quantify.

    ** The files

    - [Prelude.v] (this file): words, the execution monad, sums over lists.
    - [GoStd.v]: the parts of Go's standard library the code uses: errors and
      [errors.Is], [strconv], [strings], [encoding/hex], [math/big].
    - [Sha256.v]: SHA-256, with the published test vectors.
    - [BaseFee.v]: go/eip1559/basefee.go.  [CalcNextBaseFee] stays within 12.5%,
      is monotone, and differs from the EIP exactly where an increase of less than
      1 wei is rounded away.
    - [Merkle.v]: go/merkle/merkle.go.  Every leaf's proof verifies, and what
      verifies is a leaf, unless two of the buffers hashed collide.
    - [Bytecode.v]: go/scdo/bytecode.go and hex.go.  What the REVERT patch changes
      (operands too), the errors of the hex wrapper, the round trip of [HexBig].
    - [Json.v]: the part of [encoding/json] the code uses: values,
      printing, parsing, decoding into Go values; parsing what was printed gives
      the value back.
    - [JsonRaw.v]: texts kept raw ([json.RawMessage]) and decoding into structs.
    - [LogTypes.v]: log records and their key, the dedup loop of [RunOnce], the
      metrics, and the interfaces [RPCQuerier], [CheckpointStore],
      [LogBatchHandler] and [PendingPool].
    - [ScdoClient.v]: go/scdo/jsonrpc.go, client.go, tx.go and wallet.go, over an
      interface of the HTTP client; go-ethereum's keys are parameters.
    - [ScdoNode.v]: what a node answers ([ScdoNode]), and that each call of the
      client gets what the node says: requests and answers round-trip as texts,
      a transaction reaches the node as it was given, errors come back.
    - [Semaphore.v]: [RPCSemaphore], and the system of many tasks that share one:
      a bound on the calls in flight, no deadlock, what the gauge counts.
    - [PendingPool.v]: the in-memory pool and the contract of a pool: what its calls
      do when they succeed ([PendingPoolLaws]) and when they fail ([PendingPoolSpec]).
    - [Checkpoint.v]: the memory and file checkpoint stores, their contract
      [CheckpointStoreSpec], and what a torn write leaves.
    - [Redis.v]: the Redis commands the code sends ([RedisClient]), their
      documented laws, and a server in memory that has them.
    - [Env.v]: [env] and [envUint64] of main.go, [strings.Split] and [TrimSpace],
      [time.ParseDuration] with its float64 fraction.
    - [JsonCheckpoint.v]: [fileCheckpoint] of main.go, its round trip and what a
      torn write leaves.
    - [RedisPool.v]: [RedisPendingPool]; it keeps [PendingPoolLaws], and
      [PendingPoolSpec] when no reply is lost, so what is proved of the engine under
      either holds with it; what its early return leaks and a lost reply drops.
    - [RedisCheckpoint.v]: [RedisCheckpointStore].
    - [RunOnce.v]: [LogTask.RunOnce], statement by statement: [fetch] is the code
      from the top of the loop to the two releases, [fetch_failed] the error
      branch, [process] the rest with [emit] its middle, [RunOnce_loop] the loop.
    - [Scenario.v]: a concrete node, handler and task, for the witnesses.
    - [RunOnceSpec.v]: the outcomes of one iteration ([iter_result]), proved of
      the code once; everything below is proved from them.
    - [RunOnceTotal.v]: a rule for the loop, what a round leaves alone,
      termination, rounds in which nothing fails, batch sizes of zero, nodes that
      refuse every range.
    - [Sync.v]: the abstract machine of a round (a checkpoint, a map of pending
      logs, the logs handed out) and its promises.
    - [RunOnceRefines.v]: [RunOnce] refines [Sync.v] for every pool with the
      contract and every node that answers from one chain.  Hence: nothing is
      lost between the first block and the checkpoint, everything deep enough is
      handed out, and how shallow a log handed out can be.
    - [Service.v]: a life of rounds and restarts with a pool that outlives the
      process: nothing is lost, and what is confirmed is delivered.
    - [Handlers.v]: [SQLBatchHandler] (a batch is stored whole or not at all, and
      [RunOnce] with it fills the table) and [KafkaBatchHandler].
    - [Protocol.v]: an automaton of the calls a round makes; the queries tile the
      range, and a block is saved only after its logs were accepted.
    - [Incidents.v]: runs evaluated by the kernel in which logs are handed out too
      early, lost, or handed out twice.
    - [RealRPC.v]: the retrying client; its backoff, and why no error it returns
      shrinks a batch.
    - [TaskLoop.v]: [LogTask.TaskLoop] and the watchdog of [TaskRunner.RunAll].
    - [LoopSteps.v]: [TaskLoop] and [RunOnce] cut at the looks at the context, the
      waits for a token, the query, the releases and the pause.
    - [Runner.v]: [TaskRunner.RunAll] with its goroutines, each by the steps of
      [LoopSteps.v] on the one global semaphore, [NewShutdownContext] and
      [StartMetricsServer], in every interleaving: what [RunAll] waits for, and
      that the shutdown completes.
    - [LoopInvariant.v]: a rule for invariants of [TaskLoop], and the promise of
      [Sync.v] for a whole run of it.
    - [Daemon.v]: [main] of main.go: where a process starts, that its task is well
      typed, how it ends, and what it has handed out.
    - [Relayer.v]: [bridge.Relayer].

    ** Bounds

    [RunOnce_loop] needs [todo] iterations, the blocks left plus the binary
    logarithm of the batch size ([enough]); [retry_loop] needs [maxRetries + 1]
    ([attempts]).  The parser of JSON has two units per character of the text
    ([parse_value_fuel]: more changes nothing), the one of durations one per
    character ([parse_terms_fuel]).  The theorems about rounds ask that the head of
    the chain plus a batch (and, where confirmation counts, plus the confirmations)
    fits in 64 bits; what happens without that is in [RunOnce.v]'s definitions and
    in [RunOnce_zero_batch] for the extreme case.

    ** What is not modelled

    What the metrics server answers.  In [Daemon.v] the server and the signal
    handler of main.go appear as a context that may end at any look.  The [main]
    functions of basefee.go and merkle.go print an example.  The Solidity contracts
    and the scripts are not Go code.  Mutexes are left out where one goroutine uses
    the state; tasks that run at the same time share the context, the global
    semaphore and the metrics only, and for these [Runner.v] and [Semaphore.v] have
    all interleavings.  Calls on a node, a pool, a store or a handler return, with
    an error or without; a nil interface or pointer in a task is expressed for the
    pool only, the one field [TaskLoop] tests.  Log messages are left out. *)

From stdpp Require Import base gmap list strings.
From Stdlib Require Import ZArith Lia.

(** ** Machine integers

    Go's [uint64] and [int64] values are integers kept in range by an explicit
    wrap-around after every operation that can leave it. *)

Local Open Scope Z_scope.

(** [2 ^ 63], [2 ^ 64] and the largest [uint64]. *)
Definition two64 : Z := 18446744073709551616.
Definition two63 : Z := 9223372036854775808.
Definition max_u64 : Z := 18446744073709551615.

Definition u64 (x : Z) : Z := x mod two64.
Definition u64_add (x y : Z) : Z := u64 (x + y).
Definition u64_sub (x y : Z) : Z := u64 (x - y).

(** [int64] (and [time.Duration], which is an [int64]): two's complement. *)
Definition i64 (x : Z) : Z := (x + two63) mod two64 - two63.
Definition i64_mul (x y : Z) : Z := i64 (x * y).
(** [1 << n] at type [int64]: the bit leaves the word for [n >= 64]. *)
Definition i64_shl1 (n : nat) : Z := i64 (Z.shiftl 1 (Z.of_nat n)).

Definition is_u64 (x : Z) : Prop := 0 <= x < two64.
Definition is_i64 (x : Z) : Prop := - two63 <= x < two63.

Create HintDb words.
Create Rewrite HintDb words.

Lemma two64_pos : 0 < two64.
Proof. reflexivity. Qed.

Lemma u64_range x : is_u64 (u64 x).
Proof. apply Z.mod_pos_bound, two64_pos. Qed.

Lemma u64_small x : is_u64 x -> u64 x = x.
Proof. apply Z.mod_small. Qed.

Lemma u64_add_range x y : is_u64 (u64_add x y).
Proof. apply u64_range. Qed.

Lemma u64_sub_range x y : is_u64 (u64_sub x y).
Proof. apply u64_range. Qed.

Lemma u64_add_small x y : 0 <= x + y < two64 -> u64_add x y = x + y.
Proof. apply Z.mod_small. Qed.

Lemma u64_sub_small x y : 0 <= x - y < two64 -> u64_sub x y = x - y.
Proof. apply Z.mod_small. Qed.

Lemma i64_small x : is_i64 x -> i64 x = x.
Proof.
  unfold is_i64, i64, two63, two64. intros Hx.
  rewrite Z.mod_small; lia.
Qed.

Lemma i64_range x : is_i64 (i64 x).
Proof.
  unfold is_i64, i64.
  pose proof (Z.mod_pos_bound (x + two63) two64 eq_refl). unfold two63, two64 in *. lia.
Qed.

#[export] Hint Resolve two64_pos u64_range u64_add_range u64_sub_range i64_range : words.
#[export] Hint Rewrite u64_small u64_add_small u64_sub_small i64_small
  using (unfold is_u64, is_i64, two63, two64 in *; lia) : words.

(** Turn word operations known to stay in range into plain arithmetic. *)
Ltac words := autorewrite with words in *; unfold is_u64, is_i64, two63, two64, max_u64 in *.

(** ** Effectful code

    A Go function body is run on an explicit state [S] and may [return] early
    with a value of type [R].  [Blocked] is a goroutine parked for ever on a
    channel operation, [Panicked] a run-time panic, and [OutOfFuel] a loop that
    has not finished within the bound given to it. *)
Inductive exec (S R A : Type) : Type :=
  | Cont (a : A) (s : S)
  | Return (r : R) (s : S)
  | Blocked (s : S)
  | Panicked (s : S)
  | OutOfFuel (s : S).
Arguments Cont {S R A} _ _.
Arguments Return {S R A} _ _.
Arguments Blocked {S R A} _.
Arguments Panicked {S R A} _.
Arguments OutOfFuel {S R A} _.

Section Exec.
Context {S R : Type}.

Definition M (A : Type) : Type := S -> exec S R A.

Definition ret {A} (a : A) : M A := fun s => Cont a s.

Definition bind {A B} (m : M A) (k : A -> M B) : M B :=
  fun s => match m s with
           | Cont a s' => k a s'
           | Return r s' => Return r s'
           | Blocked s' => Blocked s'
           | Panicked s' => Panicked s'
           | OutOfFuel s' => OutOfFuel s'
           end.

(** [return r] from the enclosing Go function. *)
Definition return_ {A} (r : R) : M A := fun s => Return r s.
Definition blocked {A} : M A := fun s => Blocked s.
Definition panic {A} : M A := fun s => Panicked s.
Definition out_of_fuel {A} : M A := fun s => OutOfFuel s.

Definition gets {A} (f : S -> A) : M A := fun s => Cont (f s) s.
Definition modify (f : S -> S) : M unit := fun s => Cont tt (f s).
(** A call that updates the state and yields a value. *)
Definition step_ {A} (f : S -> S * A) : M A := fun s => let (s', a) := f s in Cont a s'.

(** The state an execution ends in, however it ends. *)
Definition final {A} (x : exec S R A) : S :=
  match x with
  | Cont _ s | Return _ s | Blocked s | Panicked s | OutOfFuel s => s
  end.

(** The value an execution returns. *)
Definition returned {A} (x : exec S R A) : option R :=
  match x with Return r _ => Some r | _ => None end.

Lemma returned_Return {A} (x : exec S R A) r : returned x = Some r -> x = Return r (final x).
Proof. by destruct x; intros [= <-]. Qed.

Definition went_on {A} (x : exec S R A) : bool := match x with Cont _ _ => true | _ => false end.

Lemma went_on_Cont (x : exec S R unit) : went_on x = true -> x = Cont tt (final x).
Proof. by destruct x as [[]| | | |]. Qed.

Lemma bind_ret {A B} (a : A) (k : A -> M B) s : bind (ret a) k s = k a s.
Proof. reflexivity. Qed.

Lemma bind_assoc {A B C} (m : M A) (k : A -> M B) (h : B -> M C) s :
  bind (bind m k) h s = bind m (fun a => bind (k a) h) s.
Proof. unfold bind. by destruct (m s). Qed.

Lemma bind_Cont {A B} (m : M A) (k : A -> M B) s a s' :
  m s = Cont a s' -> bind m k s = k a s'.
Proof. unfold bind. by intros ->. Qed.

(** What holds of an execution: [K] where it goes on, [E] where the function
    returns, [X] where it is stuck, panics or runs out of fuel. *)
Definition wp {A} (K : A -> S -> Prop) (E : R -> S -> Prop) (X : S -> Prop) (x : exec S R A) : Prop :=
  match x with
  | Cont a s => K a s
  | Return r s => E r s
  | Blocked s | Panicked s | OutOfFuel s => X s
  end.

Lemma wp_bind {A B} (m : M A) (k : A -> M B) K E X s :
  wp (fun a s' => wp K E X (k a s')) E X (m s) -> wp K E X (bind m k s).
Proof. unfold bind. by destruct (m s). Qed.

Lemma wp_mono {A} (K K' : A -> S -> Prop) (E E' : R -> S -> Prop) (X X' : S -> Prop) x :
  wp K E X x -> (forall a s, K a s -> K' a s) -> (forall r s, E r s -> E' r s) -> (forall s, X s -> X' s) ->
  wp K' E' X' x.
Proof. destruct x; cbn; auto. Qed.

Lemma wp_final {A} (Q : S -> Prop) (x : exec S R A) :
  wp (fun _ => Q) (fun _ => Q) Q x <-> Q (final x).
Proof. by destruct x. Qed.

(** An execution that leaves [f] of the state as it was, however it ends. *)
Definition keeps {A T} (f : S -> T) (m : M A) : Prop := forall s, f (final (m s)) = f s.

Lemma keeps_bind {A B T} (f : S -> T) (m : M A) (k : A -> M B) :
  keeps f m -> (forall a, keeps f (k a)) -> keeps f (bind m k).
Proof.
  intros Hm Hk s. specialize (Hm s). unfold bind. destruct (m s) as [a s'|r s'|s'|s'|s']; try exact Hm.
  cbn in Hm. by rewrite Hk.
Qed.

Lemma keeps_modify {T} (f : S -> T) (g : S -> S) : (forall s, f (g s) = f s) -> keeps f (modify g).
Proof. intros Hg s. apply Hg. Qed.

Lemma bind_Return {A B} (m : M A) (k : A -> M B) s r s' :
  m s = Return r s' -> bind m k s = Return r s'.
Proof. unfold bind. by intros ->. Qed.
End Exec.
Arguments M : clear implicits.

Declare Scope go_scope.
Delimit Scope go_scope with go.
Notation "x <- m ;; k" := (bind m (fun x => k))
  (at level 100, m at next level, right associativity) : go_scope.
Notation "m ;; k" := (bind m (fun _ => k))
  (at level 100, right associativity) : go_scope.

(** ** Sums over lists *)

Fixpoint sumZ {A} (f : A -> Z) (l : list A) : Z :=
  match l with [] => 0 | x :: l' => f x + sumZ f l' end.

Lemma sumZ_insert {A} (f : A -> Z) (l : list A) i x y :
  l !! i = Some x -> sumZ f (<[i := y]> l) = sumZ f l - f x + f y.
Proof.
  revert i. induction l as [|a l IH]; intros [|i] Hi; simplify_eq/=; [lia|].
  rewrite (IH i) by done. lia.
Qed.

Lemma sumZ_nonneg {A} (f : A -> Z) (l : list A) :
  (forall x, x ∈ l -> 0 <= f x) -> 0 <= sumZ f l.
Proof.
  induction l as [|a l IH]; simpl; intros Hf; [lia|].
  pose proof (Hf a (list_elem_of_here _ _)).
  assert (0 <= sumZ f l) by (apply IH; intros; apply Hf; by apply list_elem_of_further). lia.
Qed.

(** A term of a sum of non-negative terms is at most the sum. *)
Lemma sumZ_elem_le {A} (f : A -> Z) (l : list A) x :
  (forall y, y ∈ l -> 0 <= f y) -> x ∈ l -> f x <= sumZ f l.
Proof.
  induction l as [|a l IH]; simpl; intros Hf Hx; [by apply not_elem_of_nil in Hx|].
  assert (Hf' : forall y, y ∈ l -> 0 <= f y) by (intros; apply Hf; by apply list_elem_of_further).
  pose proof (sumZ_nonneg f l Hf'). pose proof (Hf a (list_elem_of_here _ _)).
  apply elem_of_cons in Hx as [->|Hx]; [lia|]. specialize (IH Hf' Hx). lia.
Qed.

Lemma sumZ_zero {A} (f : A -> Z) (l : list A) :
  (forall x, x ∈ l -> f x = 0) -> sumZ f l = 0.
Proof.
  induction l as [|a l IH]; simpl; intros Hf; [done|].
  rewrite Hf, IH by (try apply list_elem_of_here; intros; apply Hf; by apply list_elem_of_further). done.
Qed.
