(* ===== verification/GoStd.v ===== *)
(** * Go's standard library, as far as the toolkit uses it

    Go strings are [string]s (sequences of bytes), [[]byte] is [list byte], and
    the sized integers are [Z] with the wrap-around of [Prelude].  This file has
    the error values of [errors]/[fmt] (wrapping, [Error()], [errors.Is]) and the
    number and text functions of [strconv], [strings], [bytes], [encoding/hex]
    and [math/big], with their round-trip lemmas. *)

From stdpp Require Import base gmap list strings.
From Stdlib Require Import ZArith Lia Ascii Strings.Byte.
From Stdlib Require String.
From S2P Require Import Prelude.

Local Open Scope Z_scope.

#[export] Instance byte_eq_dec : EqDecision byte := Byte.byte_eq_dec.

(** ** Error values *)

(** The numeric errors of [strconv]. *)
Inductive num_error := ErrSyntax | ErrRange.

(** An [error] value.  The sentinels the code compares with [errors.Is] are
    constructors; [ENew] is any other [errors.New]; [EJson text] is an error of
    [encoding/json] about a text, whose wording is not modelled; [EWrap pre e] is
    [fmt.Errorf("pre%w", e)], [EWrapNil pre] the same with a nil error, and
    [EWrapIn pre e post] is [fmt.Errorf("pre%wpost", e)]. *)
Inductive error :=
  | ECanceled
  | EDeadlineExceeded
  | ENotExist
  | ERedisNil
  | ENew (msg : string)
  | EHexInvalidByte (b : byte)
  | ENumError (fn : string) (num : string) (e : num_error)
  | EJson (text : string)
  | EWrap (pre : string) (e : error)
  | EWrapNil (pre : string)
  | EWrapIn (pre : string) (e : error) (post : string).

#[export] Instance num_error_eq_dec : EqDecision num_error.
Proof. solve_decision. Defined.
#[export] Instance error_eq_dec : EqDecision error.
Proof. solve_decision. Defined.

(** The result of a Go function returning [(A, error)]. *)
Inductive result (A : Type) := Ok (a : A) | Err (e : error).
Arguments Ok {A} _.
Arguments Err {A} _.

(** The error half of a result: [nil] is [None]. *)
Definition err_of {A} (r : result A) : option error :=
  match r with Ok _ => None | Err e => Some e end.

Definition is_ok {A} (r : result A) : bool :=
  match r with Ok _ => true | Err _ => false end.

(** [errors.Is(err, target)]: with a nil argument it is [err == target];
    otherwise it walks the chain of wrapped errors. *)
Fixpoint error_is (err target : error) : bool :=
  bool_decide (err = target) ||
  match err with EWrap _ e | EWrapIn _ e _ => error_is e target | _ => false end.

Definition errors_Is (err target : option error) : bool :=
  match err, target with
  | Some e, Some t => error_is e t
  | None, None => true
  | _, _ => false
  end.

(** ** Characters and digits *)

Definition ascii_Z (c : ascii) : Z := Z.of_N (N_of_ascii c).
Definition Z_ascii (z : Z) : ascii := ascii_of_N (Z.to_N z).
Definition in_range (lo hi : ascii) (c : ascii) : bool :=
  (ascii_Z lo <=? ascii_Z c) && (ascii_Z c <=? ascii_Z hi).

(** The digit for [0 <= d < 36], lower case as [strconv] and [fmt] print it. *)
Definition digit_char (d : Z) : ascii :=
  if d <? 10 then Z_ascii (48 + d) else Z_ascii (87 + d).

(** The value of a digit character, either case; [MaxBase + 1] otherwise. *)
Definition digit_val (c : ascii) : Z :=
  if in_range "0" "9" c then ascii_Z c - 48
  else if in_range "a" "z" c then ascii_Z c - 87
  else if in_range "A" "Z" c then ascii_Z c - 55
  else 63.

Lemma digit_val_char d : 0 <= d < 36 -> digit_val (digit_char d) = d.
Proof.
  intros Hd.
  assert (Hall : forallb (fun n => digit_val (digit_char (Z.of_nat n)) =? Z.of_nat n) (seq 0 36) = true)
    by (vm_compute; reflexivity).
  rewrite forallb_forall in Hall. specialize (Hall (Z.to_nat d)).
  rewrite Z2Nat.id in Hall by lia. apply Z.eqb_eq, Hall.
  apply in_seq. lia.
Qed.

(** ** Printing and reading natural numbers in a base *)

Fixpoint fmt_digits (fuel : nat) (b n : Z) (acc : string) : string :=
  match fuel with
  | O => acc
  | S f =>
      let acc' := String (digit_char (n mod b)) acc in
      if n / b =? 0 then acc' else fmt_digits f b (n / b) acc'
  end.

(** Enough fuel: one digit per bit. *)
Definition fmt_fuel (n : Z) : nat := S (Z.to_nat (Z.log2 n)).
Definition fmt_base (b n : Z) : string := fmt_digits (fmt_fuel n) b n EmptyString.

(** Reads the digits of a whole string. *)
Fixpoint read_digits (b : Z) (s : string) (acc : Z) : option Z :=
  match s with
  | EmptyString => Some acc
  | String c s' =>
      let d := digit_val c in
      if d <? b then read_digits b s' (acc * b + d) else None
  end.

Lemma fmt_digits_read fuel b n acc :
  1 < b <= 36 -> 0 <= n < 2 ^ Z.of_nat fuel -> (0 < fuel)%nat ->
  read_digits b (fmt_digits fuel b n acc) 0 = read_digits b acc n.
Proof.
  intros Hb. revert n acc.
  induction fuel as [|f IH]; intros n acc Hn Hf; [lia|].
  pose proof (Z.mod_pos_bound n b ltac:(lia)) as Hm.
  pose proof (Z.div_mod n b ltac:(lia)) as Hdm.
  assert (Hd : digit_val (digit_char (n mod b)) = n mod b) by (apply digit_val_char; lia).
  assert (Hlt : (n mod b <? b) = true) by (apply Z.ltb_lt; lia).
  cbn [fmt_digits]. case_eq (n / b =? 0); intros Hq.
  - apply Z.eqb_eq in Hq. cbn [read_digits]. rewrite Hd, Hlt. f_equal; lia.
  - apply Z.eqb_neq in Hq.
    rewrite Nat2Z.inj_succ, Z.pow_succ_r in Hn by lia.
    assert (Hdiv : 0 <= n / b < 2 ^ Z.of_nat f).
    { split; [apply Z.div_pos; lia|]. apply Z.div_lt_upper_bound; nia. }
    assert (Hf0 : (0 < f)%nat).
    { destruct f; [|lia]. change (2 ^ Z.of_nat 0) with 1 in Hdiv. lia. }
    rewrite IH by (assumption || lia).
    cbn [read_digits]. rewrite Hd, Hlt. f_equal; lia.
Qed.

Lemma fmt_fuel_enough n : 0 <= n -> n < 2 ^ Z.of_nat (fmt_fuel n).
Proof.
  intros Hn. unfold fmt_fuel. rewrite Nat2Z.inj_succ, Z2Nat.id by apply Z.log2_nonneg.
  destruct (decide (n = 0)) as [->|]; [reflexivity|].
  apply Z.log2_spec. lia.
Qed.

Lemma read_fmt_base b n :
  1 < b <= 36 -> 0 <= n -> read_digits b (fmt_base b n) 0 = Some n.
Proof.
  intros Hb Hn. unfold fmt_base.
  rewrite fmt_digits_read; [reflexivity|assumption| |unfold fmt_fuel; lia].
  split; [assumption|]. by apply fmt_fuel_enough.
Qed.

(** Every character printed is a digit of the base, and there is at least one. *)
Fixpoint all_chars (p : ascii -> bool) (s : string) : bool :=
  match s with EmptyString => true | String c s' => p c && all_chars p s' end.

Definition is_digit (b : Z) (c : ascii) : bool := digit_val c <? b.

Lemma fmt_digits_all (p : ascii -> bool) fuel b n acc :
  1 < b -> (forall d, 0 <= d < b -> p (digit_char d) = true) ->
  all_chars p acc = true -> all_chars p (fmt_digits fuel b n acc) = true.
Proof.
  intros Hb Hp. revert n acc.
  induction fuel as [|f IH]; intros n acc Hacc; [done|].
  assert (Hacc' : all_chars p (String (digit_char (n mod b)) acc) = true).
  { cbn. rewrite Hp, Hacc; [done|]. apply Z.mod_pos_bound. lia. }
  cbn [fmt_digits]. case_match; [done|]. by apply IH.
Qed.

Lemma fmt_base_nonempty b n : fmt_base b n <> EmptyString.
Proof.
  unfold fmt_base, fmt_fuel. generalize (Z.to_nat (Z.log2 n)) as f.
  assert (Hne : forall f m c acc, fmt_digits f b m (String c acc) <> EmptyString).
  { induction f as [|f IH]; intros m c acc; cbn; [done|]. case_match; [done|]. apply IH. }
  intros f. cbn. case_match; [done|]. apply Hne.
Qed.

(** ** [strconv] *)

(** [strconv.FormatUint(n, 10)], also what [%d] prints for a [uint64]. *)
Definition FormatUint (n : Z) : string := fmt_base 10 n.

(** The digit loop of [strconv.ParseUint(s, 10, 64)]: it stops at the first
    character that is no digit (syntax) or makes the value leave 64 bits (range). *)
Fixpoint parse_uint_loop (orig s : string) (n : Z) : result Z :=
  match s with
  | EmptyString => Ok n
  | String c s' =>
      if in_range "0" "9" c then
        let n' := n * 10 + (ascii_Z c - 48) in
        if max_u64 <? n' then Err (ENumError "ParseUint" orig ErrRange)
        else parse_uint_loop orig s' n'
      else Err (ENumError "ParseUint" orig ErrSyntax)
  end.

Definition ParseUint (s : string) : result Z :=
  match s with
  | EmptyString => Err (ENumError "ParseUint" s ErrSyntax)
  | _ => parse_uint_loop s s 0
  end.

Lemma digit_val_dec c : digit_val c < 10 -> in_range "0" "9" c = true /\ digit_val c = ascii_Z c - 48.
Proof.
  unfold digit_val. destruct (in_range "0" "9" c) eqn:E0; [done|].
  unfold in_range in *. change (ascii_Z "0") with 48 in *. change (ascii_Z "9") with 57 in *.
  change (ascii_Z "a") with 97 in *. change (ascii_Z "z") with 122 in *.
  change (ascii_Z "A") with 65 in *. change (ascii_Z "Z") with 90 in *.
  repeat case_match; lia.
Qed.

Lemma digit_val_nonneg c : 0 <= digit_val c.
Proof.
  unfold digit_val, in_range.
  change (ascii_Z "0") with 48. change (ascii_Z "9") with 57.
  change (ascii_Z "a") with 97. change (ascii_Z "z") with 122.
  change (ascii_Z "A") with 65. change (ascii_Z "Z") with 90.
  repeat case_match; lia.
Qed.

Lemma read_digits_mono b s : forall acc v,
  1 < b -> 0 <= acc -> read_digits b s acc = Some v -> acc <= v.
Proof.
  induction s as [|c s IH]; cbn; intros acc v Hb Hacc H; [by simplify_eq|].
  case_match; [|done]. pose proof (digit_val_nonneg c).
  apply IH in H; nia.
Qed.

(** A string of decimal digits whose value fits is parsed to that value. *)
Lemma parse_uint_loop_read orig s : forall acc v,
  0 <= acc -> read_digits 10 s acc = Some v -> v <= max_u64 ->
  parse_uint_loop orig s acc = Ok v.
Proof.
  induction s as [|c s IH]; cbn; intros acc v Hacc H Hv; [by simplify_eq|].
  destruct (digit_val c <? 10) eqn:E; [|done].
  apply Z.ltb_lt in E. destruct (digit_val_dec c E) as [Hr Hd]. rewrite Hr, <- Hd.
  pose proof (digit_val_nonneg c). pose proof (read_digits_mono 10 s (acc * 10 + digit_val c) v ltac:(lia) ltac:(lia) H).
  replace (max_u64 <? _) with false by (symmetry; apply Z.ltb_ge; lia).
  apply IH; [lia|assumption|assumption].
Qed.

Lemma ParseUint_FormatUint n : is_u64 n -> ParseUint (FormatUint n) = Ok n.
Proof.
  unfold is_u64, two64. intros Hn. unfold FormatUint.
  pose proof (read_fmt_base 10 n ltac:(lia) ltac:(lia)) as Hr.
  unfold ParseUint. destruct (fmt_base 10 n) eqn:E; [by destruct (fmt_base_nonempty 10 n)|].
  apply parse_uint_loop_read; [lia|assumption|unfold max_u64; lia].
Qed.

(** ** [strings] *)

Fixpoint str_drop (n : nat) (s : string) : string :=
  match n, s with S n', String _ s' => str_drop n' s' | _, _ => s end.
Fixpoint str_take (n : nat) (s : string) : string :=
  match n, s with S n', String c s' => String c (str_take n' s') | _, _ => EmptyString end.

Fixpoint strip_prefix (p s : string) : option string :=
  match p, s with
  | EmptyString, _ => Some s
  | String a p', String c s' => if Ascii.eqb a c then strip_prefix p' s' else None
  | String _ _, EmptyString => None
  end.
Definition TrimPrefix (s p : string) : string := default s (strip_prefix p s).

(** [strings.Trim] with a cutset of one ASCII character. *)
Fixpoint trim_left (c : ascii) (s : string) : string :=
  match s with
  | String a s' => if Ascii.eqb a c then trim_left c s' else s
  | EmptyString => EmptyString
  end.
Fixpoint trim_right (c : ascii) (s : string) : string :=
  match s with
  | EmptyString => EmptyString
  | String a s' =>
      match trim_right c s' with
      | EmptyString => if Ascii.eqb a c then EmptyString else String a EmptyString
      | r => String a r
      end
  end.
Definition Trim1 (s : string) (c : ascii) : string := trim_right c (trim_left c s).

Definition dquote : ascii := "034".

Lemma trim_right_app c s : all_chars (fun a => negb (Ascii.eqb a c)) s = true ->
  trim_right c (s +:+ String c EmptyString) = s.
Proof.
  induction s as [|a s IH]; simpl; intros H; [by rewrite Ascii.eqb_refl|].
  apply andb_prop in H as [Ha Hs]. rewrite IH by done.
  apply negb_true_iff in Ha. destruct s; [by rewrite Ha|done].
Qed.

Lemma trim_left_other c s : all_chars (fun a => negb (Ascii.eqb a c)) s = true ->
  trim_left c (s +:+ String c EmptyString) =
  if decide (s = EmptyString) then EmptyString else s +:+ String c EmptyString.
Proof.
  destruct s as [|a s]; simpl; intros H; [by rewrite Ascii.eqb_refl|].
  apply andb_prop in H as [Ha Hs]. apply negb_true_iff in Ha. by rewrite Ha.
Qed.

(** Quoting a string without quotes and trimming the quotes gives it back. *)
Lemma Trim1_quoted c s : all_chars (fun a => negb (Ascii.eqb a c)) s = true ->
  Trim1 (String c (s +:+ String c EmptyString)) c = s.
Proof.
  intros H. unfold Trim1. cbn [trim_left]. rewrite Ascii.eqb_refl.
  rewrite trim_left_other by done. case_decide; [by subst|]. by apply trim_right_app.
Qed.

(** ** [bytes] and [encoding/hex] *)

Definition byte_Z (b : byte) : Z := Z.of_N (Byte.to_N b).
Definition Z_byte (z : Z) : byte := default x00 (Byte.of_N (Z.to_N (z mod 256))).

(** [bytes.Count(s, []byte{c})]. *)
Definition bytes_Count1 (s : list byte) (c : byte) : nat := length (filter (fun b => b = c) s).

(** [hex.EncodeToString]. *)
Fixpoint hex_EncodeToString (bs : list byte) : string :=
  match bs with
  | [] => EmptyString
  | b :: bs' =>
      String (digit_char (Z.shiftr (byte_Z b) 4))
        (String (digit_char (Z.land (byte_Z b) 15)) (hex_EncodeToString bs'))
  end.

(** [hex.ErrLength]. *)
Definition hex_ErrLength : error := ENew "encoding/hex: odd length hex string".

Definition is_hex (c : ascii) : bool := digit_val c <? 16.

(** [hex.DecodeString]: the first bad character of the leftmost bad pair is
    reported; an odd last character is checked before the length is. *)
Fixpoint hex_DecodeString (s : string) : result (list byte) :=
  match s with
  | EmptyString => Ok []
  | String p EmptyString =>
      if is_hex p then Err hex_ErrLength else Err (EHexInvalidByte (byte_of_ascii p))
  | String p (String q s') =>
      if is_hex p then
        if is_hex q then
          match hex_DecodeString s' with
          | Ok bs => Ok (Z_byte (Z.lor (Z.shiftl (digit_val p) 4) (digit_val q)) :: bs)
          | Err e => Err e
          end
        else Err (EHexInvalidByte (byte_of_ascii q))
      else Err (EHexInvalidByte (byte_of_ascii p))
  end.

Lemma hex_byte_roundtrip b :
  let p := digit_char (Z.shiftr (byte_Z b) 4) in
  let q := digit_char (Z.land (byte_Z b) 15) in
  is_hex p = true /\ is_hex q = true /\
  Z_byte (Z.lor (Z.shiftl (digit_val p) 4) (digit_val q)) = b.
Proof. destruct b; vm_compute; repeat split; reflexivity. Qed.

Lemma hex_Decode_Encode bs : hex_DecodeString (hex_EncodeToString bs) = Ok bs.
Proof.
  induction bs as [|b bs IH]; [done|]. cbn.
  destruct (hex_byte_roundtrip b) as (Hp & Hq & Hb). by rewrite Hp, Hq, IH, Hb.
Qed.

Lemma length_hex_Encode bs : String.length (hex_EncodeToString bs) = (2 * length bs)%nat.
Proof. induction bs as [|b bs IH]; cbn; [done|]. lia. Qed.

(** Induction two characters at a time, as [hex_DecodeString] recurses. *)
Lemma string_pair_ind (P : string -> Prop) :
  P EmptyString -> (forall p, P (String p EmptyString)) ->
  (forall p q s, P s -> P (String p (String q s))) -> forall s, P s.
Proof.
  intros H0 H1 H2. enough (forall s, P s /\ forall c, P (String c s)) as H by (intros s; apply H).
  induction s as [|c s [IH1 IH2]]; split; auto.
Qed.

(** Decoding succeeds exactly on the even-length strings of hex digits. *)
Lemma hex_Decode_ok_iff s :
  is_ok (hex_DecodeString s) = Nat.even (String.length s) && all_chars is_hex s.
Proof.
  induction s as [|p|p q s IH] using string_pair_ind; cbn; [done|by destruct (is_hex p)|].
  destruct (is_hex p); cbn; [|by rewrite andb_false_r].
  destruct (is_hex q); cbn; [|by rewrite andb_false_r].
  rewrite <- IH. by destruct (hex_DecodeString s).
Qed.

(** ** [math/big] *)

(** The digit loop of [big.Int]'s scanner in base [b]; [us] says whether
    underscores may separate digits (only when the base argument is 0).  The
    result is the value, the number of digits, whether the last character read
    was an underscore, whether a separator was misplaced, and the unread rest. *)
Record scan_state := MkScan {
  sc_val : Z; sc_count : Z; sc_prev_us : bool; sc_prev_digit : bool; sc_inval : bool; sc_rest : string }.

Fixpoint scan_loop (b : Z) (us : bool) (s : string) (st : scan_state) : scan_state :=
  match s with
  | EmptyString => MkScan (sc_val st) (sc_count st) (sc_prev_us st) (sc_prev_digit st) (sc_inval st) s
  | String c s' =>
      if us && Ascii.eqb c "_" then
        scan_loop b us s'
          (MkScan (sc_val st) (sc_count st) true false (sc_inval st || negb (sc_prev_digit st)) s')
      else if digit_val c <? b then
        scan_loop b us s'
          (MkScan (sc_val st * b + digit_val c) (sc_count st + 1) false true (sc_inval st) s')
      else MkScan (sc_val st) (sc_count st) (sc_prev_us st) (sc_prev_digit st) (sc_inval st) s
  end.

Definition scan_start (prev_digit : bool) : scan_state := MkScan 0 0 false prev_digit false EmptyString.

(** The magnitude: [Some v] when the whole string is one number.  With base 0 a
    prefix [0b], [0o], [0x] selects the base and a plain leading [0] is octal. *)
Definition nat_scan (s : string) (base : Z) : option Z :=
  let finish (octal : bool) (st : scan_state) :=
    if sc_inval st || sc_prev_us st then None
    else if (sc_count st =? 0) && negb octal then None
    else match sc_rest st with EmptyString => Some (sc_val st) | _ => None end in
  if base =? 0 then
    match s with
    | String "0" EmptyString => Some 0
    | String "0" (String c s') =>
        if Ascii.eqb c "b" || Ascii.eqb c "B" then finish false (scan_loop 2 true s' (scan_start true))
        else if Ascii.eqb c "o" || Ascii.eqb c "O" then finish false (scan_loop 8 true s' (scan_start true))
        else if Ascii.eqb c "x" || Ascii.eqb c "X" then finish false (scan_loop 16 true s' (scan_start true))
        else finish true (scan_loop 8 true (String c s') (scan_start true))
    | _ => finish false (scan_loop 10 true s (scan_start false))
    end
  else finish false (scan_loop base false s (scan_start false)).

(** [new(big.Int).SetString(s, base)] for [base = 0] or [2 <= base <= 36]. *)
Definition big_SetString (s : string) (base : Z) : option Z :=
  match s with
  | EmptyString => None
  | String c s' =>
      if Ascii.eqb c "-" then Z.opp <$> nat_scan s' base
      else if Ascii.eqb c "+" then nat_scan s' base
      else nat_scan s base
  end.

(** [fmt.Sprintf("0x%x", i)] for a [*big.Int]: the sign follows the literal [0x]. *)
Definition big_Sprintf_x (i : Z) : string :=
  if i <? 0 then String "-" (fmt_base 16 (- i)) else fmt_base 16 i.

Lemma scan_loop_read b s : forall st v,
  read_digits b s (sc_val st) = Some v ->
  exists cnt, cnt >= sc_count st /\ (s <> EmptyString -> cnt > sc_count st) /\
    scan_loop b false s st =
    MkScan v cnt (match s with EmptyString => sc_prev_us st | _ => false end)
      (match s with EmptyString => sc_prev_digit st | _ => true end) (sc_inval st) EmptyString.
Proof.
  induction s as [|c s IH]; cbn; intros st v H.
  - simplify_eq. eexists. split; [|split; [done|reflexivity]]. lia.
  - case_match; [|done]. destruct (IH (MkScan (sc_val st * b + digit_val c) (sc_count st + 1) false true (sc_inval st) s) v H)
      as (cnt & Hc & _ & ->).
    cbn in *. exists cnt. split; [lia|]. split; [lia|]. by destruct s.
Qed.

Lemma nat_scan_read b s v :
  b <> 0 -> s <> EmptyString -> read_digits b s 0 = Some v -> nat_scan s b = Some v.
Proof.
  intros Hb Hs H. unfold nat_scan. destruct (Z.eqb_spec b 0) as [|_]; [done|].
  destruct (scan_loop_read b s (scan_start false) v H) as (cnt & _ & Hc & ->).
  specialize (Hc Hs). cbn in *. destruct s; [done|].
  replace (cnt =? 0) with false by (symmetry; apply Z.eqb_neq; lia). done.
Qed.

(** The characters [fmt] prints for a number in base 16 are hex digits, so
    none of them is a sign, a quote or an underscore. *)
Lemma fmt_base_hex_chars (p : ascii -> bool) n :
  forallb (fun d => p (digit_char (Z.of_nat d))) (seq 0 16) = true ->
  all_chars p (fmt_base 16 n) = true.
Proof.
  intros Hp. apply fmt_digits_all; [lia| |done]. intros d Hd.
  rewrite forallb_forall in Hp. specialize (Hp (Z.to_nat d)).
  rewrite Z2Nat.id in Hp by lia. apply Hp, in_seq. lia.
Qed.

Lemma big_SetString_Sprintf i : big_SetString (big_Sprintf_x i) 16 = Some i.
Proof.
  assert (Hscan : forall n, 0 <= n -> nat_scan (fmt_base 16 n) 16 = Some n).
  { intros n Hn. apply nat_scan_read; [lia|apply fmt_base_nonempty|]. apply read_fmt_base; lia. }
  unfold big_Sprintf_x. case_match eqn:E.
  - apply Z.ltb_lt in E. unfold big_SetString. rewrite Ascii.eqb_refl, Hscan by lia.
    simpl. f_equal. lia.
  - apply Z.ltb_ge in E. pose proof (Hscan i E) as H.
    pose proof (fmt_base_hex_chars (fun c => negb (Ascii.eqb c "-") && negb (Ascii.eqb c "+")) i eq_refl) as Hc.
    destruct (fmt_base 16 i) as [|c s] eqn:Ef; [by destruct (fmt_base_nonempty 16 i)|].
    cbn in Hc. apply andb_prop in Hc as [Hc _]. apply andb_prop in Hc as [Hm Hp].
    apply negb_true_iff in Hm, Hp. unfold big_SetString. by rewrite Hm, Hp.
Qed.

(** ** [Error()] *)

(** [strconv.Quote], exact on ASCII strings (any other byte is shown as [\x..],
    as Go does for bytes that are no UTF-8). *)
Fixpoint quote_body (s : string) : string :=
  match s with
  | EmptyString => EmptyString
  | String c s' =>
      let z := ascii_Z c in
      let e :=
        if Ascii.eqb c dquote then String "\" (String dquote EmptyString)
        else if Ascii.eqb c "\" then "\\"
        else if (32 <=? z) && (z <=? 126) then String c EmptyString
        else if z =? 7 then "\a" else if z =? 8 then "\b" else if z =? 12 then "\f"
        else if z =? 10 then "\n" else if z =? 13 then "\r" else if z =? 9 then "\t"
        else if z =? 11 then "\v"
        else "\x" +:+ String (digit_char (z / 16)) (String (digit_char (z mod 16)) EmptyString) in
      e +:+ quote_body s'
  end.
Definition Quote (s : string) : string := String dquote (quote_body s +:+ String dquote EmptyString).

Definition upper_hex (d : Z) : ascii := if d <? 10 then Z_ascii (48 + d) else Z_ascii (55 + d).

(** [%#U] of the rune of a byte. *)
Definition fmt_U (b : byte) : string :=
  let z := byte_Z b in
  let code := "U+00" +:+ String (upper_hex (z / 16)) (String (upper_hex (z mod 16)) EmptyString) in
  if (32 <=? z) && (z <=? 126) then code +:+ " '" +:+ String (Z_ascii z) "'"
  else if (161 <=? z) && negb (z =? 173) then
    code +:+ " '" +:+ String (Z_ascii (192 + z / 64)) (String (Z_ascii (128 + z mod 64)) "'")
  else code.

(** [err.Error()]. *)
Fixpoint Error (e : error) : string :=
  match e with
  | ECanceled => "context canceled"
  | EDeadlineExceeded => "context deadline exceeded"
  | ENotExist => "file does not exist"
  | ERedisNil => "redis: nil"
  | ENew msg => msg
  | EHexInvalidByte b => "encoding/hex: invalid byte: " +:+ fmt_U b
  | ENumError fn num k =>
      "strconv." +:+ fn +:+ ": parsing " +:+ Quote num +:+ ": " +:+
      match k with ErrSyntax => "invalid syntax" | ErrRange => "value out of range" end
  | EJson text => "json: " +:+ text
  | EWrap pre e => pre +:+ Error e
  | EWrapNil pre => pre +:+ "%!w(<nil>)"
  | EWrapIn pre e post => pre +:+ Error e +:+ post
  end.

(** [errors.Is] sees through wrapping. *)
Lemma errors_Is_wrap pre e t :
  errors_Is (Some e) (Some t) = true -> errors_Is (Some (EWrap pre e)) (Some t) = true.
Proof. cbn. intros ->. apply orb_true_r. Qed.

Lemma errors_Is_refl e : errors_Is e e = true.
Proof. destruct e as [[]|]; cbn; try done; by rewrite bool_decide_true. Qed.

(** No wrapped error has the message of a string its prefix rules out. *)
Lemma Error_wrap_neq pre e m : strip_prefix pre m = None -> Error (EWrap pre e) <> m.
Proof.
  cbn. generalize (Error e). revert m.
  induction pre as [|a pre IH]; intros m x; cbn; [done|].
  destruct m as [|c m]; [done|]. destruct (Ascii.eqb_spec a c) as [->|Hac].
  - intros H Heq. injection Heq. by apply IH.
  - intros _ Heq. by injection Heq.
Qed.

(** [bytes] as hexadecimal text, and the other small facts, as automation. *)
Create HintDb gostd.
#[export] Hint Resolve errors_Is_wrap errors_Is_refl fmt_base_nonempty digit_val_nonneg : gostd.
Create Rewrite HintDb gostd.
#[export] Hint Rewrite hex_Decode_Encode big_SetString_Sprintf length_hex_Encode : gostd.
