(* ===== verification/BaseFee.v ===== *)
(** * The EIP-1559 base-fee calculator ([go/eip1559/basefee.go])

    [CalcNextBaseFee] on [big.Int]s, which are unbounded [Z]s; [gasUsed] is any
    [uint64].  The theorems: the step bounds, monotonicity, and the exact
    relation to the formula of EIP-1559. *)

From stdpp Require Import prelude.
From Stdlib Require Import ZArith Lia.
From S2P Require Import Prelude GoStd.

Local Open Scope Z_scope.

Definition TargetGas : Z := 15000000.

(** [Div] of [big.Int] is Euclidean division; every divisor here is positive,
    where it is [Z.div]. *)
Definition big_Div (x y : Z) : Z := if 0 <? y then x / y else - (x / - y).

Definition CalcNextBaseFee (currentBaseFee gasUsed : Z) : Z :=
  let delta := gasUsed - TargetGas in
  let absDelta := Z.abs delta in
  let scaled := currentBaseFee * absDelta in
  let scaled := big_Div scaled TargetGas in
  let scaled := big_Div scaled 8 in
  let scaled := if Z.sgn delta <? 0 then - scaled else scaled in
  let next := currentBaseFee + scaled in
  if next <? 1 then 1 else next.

(** The formula of EIP-1559 for the child of a block with base fee [b], gas
    [g] and gas target [t]; its increase is at least 1 wei. *)
Definition eip1559_next (t b g : Z) : Z :=
  if g =? t then b
  else if t <? g then b + Z.max (b * (g - t) / t / 8) 1
  else b - b * (t - g) / t / 8.

(** The change in wei, as one division. *)
Definition fee_step (b d : Z) : Z := b * d / (TargetGas * 8).

Lemma CalcNextBaseFee_unfold b g :
  CalcNextBaseFee b g =
  Z.max 1 (if g <? TargetGas then b - fee_step b (TargetGas - g) else b + fee_step b (g - TargetGas)).
Proof.
  unfold CalcNextBaseFee, fee_step, big_Div.
  change (0 <? TargetGas) with true. change (0 <? 8) with true. cbv iota.
  rewrite Z.div_div by (unfold TargetGas; lia).
  destruct (Z.ltb_spec g TargetGas).
  - replace (Z.sgn _ <? 0) with true by (symmetry; apply Z.ltb_lt; lia).
    rewrite Z.abs_neq, Z.opp_sub_distr by lia.
    replace (- g + TargetGas) with (TargetGas - g) by lia. case_match; lia.
  - replace (Z.sgn _ <? 0) with false by (symmetry; apply Z.ltb_ge; lia).
    rewrite Z.abs_eq by lia. case_match; lia.
Qed.

Lemma fee_step_bounds b d : 0 <= b -> 0 <= d <= TargetGas -> 0 <= 8 * fee_step b d <= b.
Proof.
  unfold fee_step, TargetGas. intros Hb Hd.
  pose proof (Z.div_pos (b * d) (15000000 * 8) ltac:(nia) ltac:(lia)).
  pose proof (Z.mul_div_le (b * d) (15000000 * 8) ltac:(lia)). nia.
Qed.

Lemma fee_step_0 b : fee_step b 0 = 0.
Proof. unfold fee_step. by rewrite Z.mul_0_r. Qed.

Lemma fee_step_nonneg b d : 0 <= b -> 0 <= d -> 0 <= fee_step b d.
Proof. intros. apply Z.div_pos; unfold TargetGas; nia. Qed.

Lemma fee_step_mono b d d' : 0 <= b -> d <= d' -> fee_step b d <= fee_step b d'.
Proof. intros. apply Z.div_le_mono; unfold TargetGas; nia. Qed.

Lemma fee_step_zero_iff b d : 0 <= b * d -> fee_step b d = 0 <-> b * d < 8 * TargetGas.
Proof.
  intros. unfold fee_step. rewrite Z.div_small_iff by (unfold TargetGas; lia).
  unfold TargetGas. lia.
Qed.

#[local] Hint Resolve fee_step_nonneg : core.

(** C35: For a block within the protocol's limit of twice the target, the next
    base fee is at least 1 wei, moves by at most 12.5% of the current fee, goes
    up (or stays) above the target, down (or stays) below it, and is unchanged
    exactly at the target. *)
Theorem CalcNextBaseFee_bounds b g :
  1 <= b -> 0 <= g <= 2 * TargetGas ->
  let n := CalcNextBaseFee b g in
  1 <= n /\ 8 * Z.abs (n - b) <= b /\
  (g < TargetGas -> n <= b) /\ (TargetGas < g -> b <= n) /\ (g = TargetGas -> n = b).
Proof.
  intros Hb Hg n. subst n. rewrite CalcNextBaseFee_unfold.
  pose proof (fee_step_bounds b (TargetGas - g)). pose proof (fee_step_bounds b (g - TargetGas)).
  destruct (Z.ltb_spec g TargetGas); [lia|].
  repeat split; try lia. intros ->. rewrite Z.sub_diag, fee_step_0. lia.
Qed.

Lemma CalcNextBaseFee_bounds_witness :
  1 <= 100 /\ 8 * Z.abs (CalcNextBaseFee 100 24000000 - 100) <= 100.
Proof.
  split; [lia|]. destruct (CalcNextBaseFee_bounds 100 24000000) as (_ & H & _);
    [lia|unfold TargetGas; lia|exact H].
Defined.

(** More gas never lowers the next base fee, for any two [uint64] gas
    amounts, also above the protocol's block limit. *)
Theorem CalcNextBaseFee_monotone b g g' :
  0 <= b -> 0 <= g -> g <= g' -> CalcNextBaseFee b g <= CalcNextBaseFee b g'.
Proof.
  intros Hb Hg Hgg. rewrite !CalcNextBaseFee_unfold. apply Z.max_le_compat_l.
  destruct (Z.ltb_spec g TargetGas), (Z.ltb_spec g' TargetGas); try lia.
  - pose proof (fee_step_mono b (TargetGas - g') (TargetGas - g)). lia.
  - pose proof (fee_step_nonneg b (TargetGas - g)). pose proof (fee_step_nonneg b (g' - TargetGas)). lia.
  - pose proof (fee_step_mono b (g - TargetGas) (g' - TargetGas)). lia.
Qed.

Lemma CalcNextBaseFee_monotone_witness :
  CalcNextBaseFee 100 0 = 88 /\ CalcNextBaseFee 100 24000000 = 107 /\
  CalcNextBaseFee 100 0 <= CalcNextBaseFee 100 24000000.
Proof. split; [reflexivity|split; [reflexivity|]]. apply CalcNextBaseFee_monotone; lia. Defined.

(** C36: The exact relation to EIP-1559.  The two agree at or below the target
    and wherever the computed increase is at least 1 wei; in the remaining case
    (a low fee, gas above the target) the code leaves the fee unchanged where
    the EIP raises it by 1 wei. *)
Theorem CalcNextBaseFee_eip1559 b g :
  1 <= b -> 0 <= g ->
  (g <= TargetGas \/ 8 * TargetGas <= b * (g - TargetGas) ->
     CalcNextBaseFee b g = eip1559_next TargetGas b g) /\
  (TargetGas < g /\ b * (g - TargetGas) < 8 * TargetGas ->
     CalcNextBaseFee b g = b /\ eip1559_next TargetGas b g = b + 1).
Proof.
  intros Hb Hg. rewrite CalcNextBaseFee_unfold. unfold eip1559_next.
  rewrite !Z.div_div by (unfold TargetGas; lia).
  change (b * (g - TargetGas) / (TargetGas * 8)) with (fee_step b (g - TargetGas)).
  change (b * (TargetGas - g) / (TargetGas * 8)) with (fee_step b (TargetGas - g)).
  pose proof (fee_step_bounds b (TargetGas - g)).
  pose proof (fee_step_nonneg b (g - TargetGas)).
  pose proof (fee_step_zero_iff b (g - TargetGas)).
  destruct (Z.eqb_spec g TargetGas) as [->|].
  - rewrite Z.ltb_irrefl, Z.sub_diag, fee_step_0. lia.
  - destruct (Z.ltb_spec g TargetGas), (Z.ltb_spec TargetGas g); nia.
Qed.

Lemma CalcNextBaseFee_eip1559_witness :
  CalcNextBaseFee 7 30000000 = 7 /\ eip1559_next TargetGas 7 30000000 = 8.
Proof. apply (CalcNextBaseFee_eip1559 7 30000000); unfold TargetGas; lia. Defined.
