(* ===== verification/Sha256.v ===== *)
(** * SHA-256 ([crypto/sha256])

    The hash behind [LogResult.uniqueKey], as FIPS 180-4 defines it, on 32-bit
    words kept in range by [w32]; executable, with the standard's test vectors. *)

From stdpp Require Import base list strings.
From Stdlib Require Import ZArith Lia Strings.Byte.
From Stdlib Require String.
From S2P Require Import Prelude GoStd.

Local Open Scope Z_scope.

(** [2 ^ 32] is written out: it is evaluated in every round. *)
Definition w32 (x : Z) : Z := x mod 4294967296.
Definition add32 (x y : Z) : Z := w32 (x + y).
Definition rotr (n x : Z) : Z := Z.lor (Z.shiftr x n) (w32 (Z.shiftl x (32 - n))).
Definition not32 (x : Z) : Z := Z.lxor x 4294967295.

Definition Ch (x y z : Z) : Z := Z.lxor (Z.land x y) (Z.land (not32 x) z).
Definition Maj (x y z : Z) : Z := Z.lxor (Z.lxor (Z.land x y) (Z.land x z)) (Z.land y z).
Definition Sigma0 (x : Z) : Z := Z.lxor (Z.lxor (rotr 2 x) (rotr 13 x)) (rotr 22 x).
Definition Sigma1 (x : Z) : Z := Z.lxor (Z.lxor (rotr 6 x) (rotr 11 x)) (rotr 25 x).
Definition sigma0 (x : Z) : Z := Z.lxor (Z.lxor (rotr 7 x) (rotr 18 x)) (Z.shiftr x 3).
Definition sigma1 (x : Z) : Z := Z.lxor (Z.lxor (rotr 17 x) (rotr 19 x)) (Z.shiftr x 10).

Definition K256 : list Z :=
  [1116352408; 1899447441; 3049323471; 3921009573; 961987163; 1508970993;
   2453635748; 2870763221; 3624381080; 310598401; 607225278; 1426881987;
   1925078388; 2162078206; 2614888103; 3248222580; 3835390401; 4022224774;
   264347078; 604807628; 770255983; 1249150122; 1555081692; 1996064986;
   2554220882; 2821834349; 2952996808; 3210313671; 3336571891; 3584528711;
   113926993; 338241895; 666307205; 773529912; 1294757372; 1396182291;
   1695183700; 1986661051; 2177026350; 2456956037; 2730485921; 2820302411;
   3259730800; 3345764771; 3516065817; 3600352804; 4094571909; 275423344;
   430227734; 506948616; 659060556; 883997877; 958139571; 1322822218;
   1537002063; 1747873779; 1955562222; 2024104815; 2227730452; 2361852424;
   2428436474; 2756734187; 3204031479; 3329325298].

Definition H256 : list Z :=
  [1779033703; 3144134277; 1013904242; 2773480762; 1359893119; 2600822924;
   528734635; 1541459225].

(** The message schedule, most recent word first: 16 words from the block, then
    one more per round. *)
Fixpoint schedule (n : nat) (ws : list Z) : list Z :=
  match n with
  | O => ws
  | S n' =>
      let w := add32 (add32 (sigma1 (nth 1 ws 0)) (nth 6 ws 0))
                     (add32 (sigma0 (nth 14 ws 0)) (nth 15 ws 0)) in
      schedule n' (w :: ws)
  end.

Definition round (st : list Z) (kw : Z * Z) : list Z :=
  match st with
  | [a; b; c; d; e; f; g; h] =>
      let t1 := add32 (add32 h (Sigma1 e)) (add32 (Ch e f g) (add32 kw.1 kw.2)) in
      let t2 := add32 (Sigma0 a) (Maj a b c) in
      [add32 t1 t2; a; b; c; add32 d t1; e; f; g]
  | _ => st
  end.

Definition compress (st : list Z) (block : list Z) : list Z :=
  let ws := rev (schedule 48 (rev block)) in
  zip_with add32 st (fold_left round (zip K256 ws) st).

(** Big-endian words and bytes. *)
Fixpoint be_words (bs : list Z) : list Z :=
  match bs with
  | a :: b :: c :: d :: bs' =>
      Z.lor (Z.shiftl a 24) (Z.lor (Z.shiftl b 16) (Z.lor (Z.shiftl c 8) d)) :: be_words bs'
  | _ => []
  end.

Definition be_bytes (n : nat) (x : Z) : list Z :=
  map (fun i => Z.land (Z.shiftr x (8 * Z.of_nat i)) 255) (rev (seq 0 n)).

Definition pad (bs : list Z) : list Z :=
  let n := Z.of_nat (length bs) in
  bs ++ [128] ++ repeat 0 (Z.to_nat ((55 - n) mod 64)) ++ be_bytes 8 (8 * n).

Fixpoint chunks (fuel n : nat) (ws : list Z) : list (list Z) :=
  match fuel, ws with
  | S f, _ :: _ => take n ws :: chunks f n (drop n ws)
  | _, _ => []
  end.

(** [sha256.Sum256]: 32 bytes. *)
Definition Sum256 (msg : list byte) : list byte :=
  let ws := be_words (pad (map byte_Z msg)) in
  let st := fold_left compress (chunks (length ws) 16 ws) H256 in
  map Z_byte (concat (map (be_bytes 4) st)).

Example Sum256_abc :
  hex_EncodeToString (Sum256 (String.list_byte_of_string "abc")) =
  "ba7816bf8f01cfea414140de5dae2223b00361a396177a9cb410ff61f20015ad".
Proof. vm_compute. reflexivity. Qed.

Example Sum256_two_blocks :
  hex_EncodeToString (Sum256 (String.list_byte_of_string "abcdbcdecdefdefgefghfghighijhijkijkljklmklmnlmnomnopnopq")) =
  "248d6a61d20638b8e5c026930c3e6039a33ce45964ff2167f6ecedd419db06c1".
Proof. vm_compute. reflexivity. Qed.

Lemma length_compress st block : length st = 8%nat -> length (compress st block) = 8%nat.
Proof.
  intros Hst. unfold compress.
  assert (Hr : forall kws s, length s = 8%nat -> length (fold_left round kws s) = 8%nat).
  { induction kws as [|kw kws IH]; intros s Hs; [done|]. cbn. apply IH.
    do 8 (destruct s as [|? s]; [done|]). by destruct s. }
  rewrite length_zip_with, Hst, Hr by done. reflexivity.
Qed.

(** A digest has 32 bytes. *)
Lemma length_Sum256 msg : length (Sum256 msg) = 32%nat.
Proof.
  unfold Sum256. generalize (be_words (pad (map byte_Z msg))) as ws. intros ws.
  assert (Hst : forall cs st, length st = 8%nat -> length (fold_left compress cs st) = 8%nat).
  { induction cs as [|c cs IH]; intros st Hst; [done|]. cbn. apply IH. by apply length_compress. }
  specialize (Hst (chunks (length ws) 16 ws) H256 eq_refl). revert Hst.
  generalize (fold_left compress (chunks (length ws) 16 ws) H256) as st. intros st Hst.
  do 8 (destruct st as [|? st]; [done|]). by destruct st.
Qed.
