(* ===== verification/Merkle.v ===== *)
(** * The Merkle tree and proof verifier ([go/merkle/merkle.go])

    [[32]byte] is [hash], a vector of 32 bytes.  The Keccak-256 of
    golang.org/x/crypto/sha3 is the parameter [keccak_sum]; nothing is assumed
    of it.  The theorems: what [GetProof] returns, that [BuildMerkleTree],
    [GetProof] and [VerifyMerkleProof] fit together for every list of leaves
    (odd levels included), and that a leaf that verifies is in the tree unless
    two of the buffers hashed on the way collide. *)

From stdpp Require Import base list vector strings.
From Stdlib Require Import ZArith Lia Strings.Byte.
From Stdlib Require String.
From S2P Require Import Prelude GoStd Sha256.

Abbreviation hash := (vec byte 32).

(** [copy(res[:], bs)] into a zeroed [[32]byte]. *)
Definition copy32 (bs : list byte) : hash := fun_to_vec (fun i : fin 32 => default x00 (bs !! fin_to_nat i)).

(** [string(a) > string(b)]: lexicographic on bytes. *)
Fixpoint bytes_gtb (a b : list byte) : bool :=
  match a, b with
  | x :: a', y :: b' =>
      if (byte_Z y <? byte_Z x)%Z then true
      else if (byte_Z x <? byte_Z y)%Z then false else bytes_gtb a' b'
  | _ :: _, [] => true
  | [], _ => false
  end.

Lemma byte_Z_inj x y : byte_Z x = byte_Z y -> x = y.
Proof.
  unfold byte_Z. intros H. apply N2Z.inj in H.
  pose proof (Byte.of_to_N x) as Hx. pose proof (Byte.of_to_N y) as Hy. congruence.
Qed.

(** Of two different strings exactly one is greater. *)
Lemma bytes_gtb_total a b : a <> b -> bytes_gtb b a = negb (bytes_gtb a b).
Proof.
  revert b. induction a as [|x a IH]; intros [|y b] Hab; cbn; try done.
  destruct (Z.ltb_spec (byte_Z y) (byte_Z x)), (Z.ltb_spec (byte_Z x) (byte_Z y)); try lia; try done.
  apply IH. intros ->. apply Hab. f_equal. apply byte_Z_inj. lia.
Qed.

Section Merkle.
Variable keccak_sum : list byte -> list byte.

Definition Keccak256 (data : list byte) : hash := copy32 (keccak_sum data).

(** The buffer [HashPair] hashes: the two nodes in ascending order. *)
Definition pair_buf (a b : hash) : list byte :=
  if bytes_gtb (vec_to_list a) (vec_to_list b)
  then vec_to_list b ++ vec_to_list a
  else vec_to_list a ++ vec_to_list b.

Definition HashPair (a b : hash) : hash := Keccak256 (pair_buf a b).
Arguments HashPair : simpl never.

(** One round of [BuildMerkleTree]'s outer loop. *)
Fixpoint next_level (tree : list hash) : list hash :=
  match tree with
  | [] => []
  | [l] => [HashPair l l]
  | l :: r :: rest => HashPair l r :: next_level rest
  end.

(** The outer loop; [None] only when the fuel runs out. *)
Fixpoint build_loop (fuel : nat) (tree : list hash) : option (list hash) :=
  if (length tree <=? 1)%nat then Some tree
  else match fuel with
       | O => None
       | S f => build_loop f (next_level tree)
       end.

(** [tree[0]] panics on the empty list, which is [None]. *)
Definition BuildMerkleTree (leaves : list hash) : option hash :=
  build_loop (length leaves) leaves ≫= head.

(** One round of [GetProof]: the next level and the siblings appended. *)
Fixpoint proof_level (curIdx i : nat) (tree : list hash) : list hash * list hash :=
  match tree with
  | [] => ([], [])
  | [lft] =>
      ([HashPair lft lft],
       if (curIdx =? i)%nat then [lft] else if (curIdx =? i + 1)%nat then [lft] else [])
  | lft :: rgt :: rest =>
      let (next, sibs) := proof_level curIdx (i + 2) rest in
      (HashPair lft rgt :: next,
       (if (curIdx =? i)%nat then [rgt] else if (curIdx =? i + 1)%nat then [lft] else []) ++ sibs)
  end.

Fixpoint proof_loop (fuel : nat) (tree : list hash) (curIdx : nat) (proof : list hash) : option (list hash) :=
  if (length tree <=? 1)%nat then Some proof
  else match fuel with
       | O => None
       | S f =>
           let (next, sibs) := proof_level curIdx 0 tree in
           proof_loop f next (curIdx / 2) (proof ++ sibs)
       end.

(** [Some proof] is [(proof, true)], [None] is [(nil, false)]. *)
Definition GetProof (leaves : list hash) (targetLeaf : hash) : option (list hash) :=
  match list_find (fun l => l = targetLeaf) leaves with
  | None => None
  | Some (idx, _) => proof_loop (length leaves) leaves idx []
  end.

Definition VerifyMerkleProof (proof : list hash) (root leaf : hash) : bool :=
  bool_decide (fold_left HashPair proof leaf = root).

(** ** Lemmas *)

Lemma pair_buf_comm a b : pair_buf a b = pair_buf b a.
Proof.
  unfold pair_buf. destruct (decide (a = b)) as [->|Hab]; [done|].
  rewrite (bytes_gtb_total (vec_to_list a) (vec_to_list b)).
  - by destruct (bytes_gtb (vec_to_list a) (vec_to_list b)).
  - intros H. by apply vec_to_list_inj2 in H.
Qed.

Lemma HashPair_comm a b : HashPair a b = HashPair b a.
Proof. unfold HashPair. by rewrite pair_buf_comm. Qed.

Lemma pair_buf_inj a b c d : pair_buf a b = pair_buf c d -> a = c \/ a = d.
Proof.
  unfold pair_buf. intros H.
  destruct (bytes_gtb _ _), (bytes_gtb _ _) in H; apply app_inj_1 in H as [Hl Hr];
    rewrite ?length_vec_to_list; try done; apply vec_to_list_inj2 in Hl, Hr; auto.
Qed.

(** Induction by two elements, as the rounds consume a level. *)
Lemma list_pair_ind {A} (P : list A -> Prop) :
  P [] -> (forall x, P [x]) -> (forall x y l, P l -> P (x :: y :: l)) -> forall l, P l.
Proof.
  intros H0 H1 H2. enough (forall l, P l /\ forall x, P (x :: l)) as H by (intros l; apply H).
  induction l as [|x l [IH1 IH2]]; split; auto.
Qed.

Lemma length_next_level tree : length (next_level tree) = Nat.div2 (S (length tree)).
Proof. induction tree as [|x|x y l IH] using list_pair_ind; [done..|]. cbn. by rewrite IH. Qed.

Lemma next_level_shorter tree : (1 < length tree)%nat ->
  (0 < length (next_level tree) < length tree)%nat.
Proof.
  rewrite length_next_level. intros H. pose proof (Nat.div2_odd (S (length tree))) as Hodd.
  destruct (Nat.odd _); cbn [Nat.b2n] in Hodd; lia.
Qed.

(** The rounds a tree of [n] leaves takes. *)
Definition depth (n : nat) : nat := Nat.log2_up n.

Lemma depth_next tree : (1 < length tree)%nat ->
  depth (length tree) = S (depth (length (next_level tree))).
Proof.
  intros Hlen. unfold depth. rewrite length_next_level.
  set (n := length tree) in *.
  pose proof (Nat.div2_odd (S n)) as Hodd.
  destruct (decide (Nat.div2 (S n) = 1)) as [H1|H1].
  - rewrite H1. destruct (Nat.odd (S n)); cbn [Nat.b2n] in Hodd; [|lia].
    assert (n = 2)%nat as -> by lia. reflexivity.
  - set (m := Nat.div2 (S n)) in *.
    assert (1 < m)%nat by (destruct (Nat.odd (S n)); cbn [Nat.b2n] in Hodd; lia).
    pose proof (Nat.log2_up_spec m ltac:(lia)) as [Hlo Hhi].
    pose proof (Nat.log2_up_pos m ltac:(lia)) as Hpos.
    apply Nat.log2_up_unique; [lia|].
    rewrite Nat.pow_succ_r'. cbn [Nat.pred].
    destruct (Nat.log2_up m) as [|k] eqn:Ek; [lia|]. cbn [Nat.pred] in Hlo.
    rewrite Nat.pow_succ_r' in *. destruct (Nat.odd (S n)); cbn [Nat.b2n] in Hodd; lia.
Qed.

(** The loop of [BuildMerkleTree] ends within one round per leaf. *)
Lemma build_loop_total fuel tree : (length tree <= fuel)%nat -> tree <> [] ->
  exists root, build_loop fuel tree = Some [root].
Proof.
  revert tree. induction fuel as [|f IH]; intros tree Hf Hne.
  - destruct tree; [done|cbn in Hf; lia].
  - cbn [build_loop]. destruct (Nat.leb_spec (length tree) 1).
    + destruct tree as [|x [|]]; [done|by exists x|cbn in *; lia].
    + pose proof (next_level_shorter tree ltac:(lia)). apply IH; [lia|].
      intros Hnil. rewrite Hnil in *. cbn in *. lia.
Qed.

Lemma BuildMerkleTree_loop leaves root :
  BuildMerkleTree leaves = Some root -> build_loop (length leaves) leaves = Some [root].
Proof.
  unfold BuildMerkleTree. intros H. destruct leaves as [|x l]; [done|].
  destruct (build_loop_total (length (x :: l)) (x :: l)) as [r Hr]; [done..|].
  rewrite Hr in *. cbn in H. by simplify_eq.
Qed.

Lemma proof_level_next cur i tree : (proof_level cur i tree).1 = next_level tree.
Proof.
  revert i. induction tree as [|x|x y l IH] using list_pair_ind; intros i; cbn; [done..|].
  specialize (IH (i + 2)%nat). by destruct (proof_level cur (i + 2) l); cbn in *; subst.
Qed.

(** Past the current index a level contributes no sibling. *)
Lemma proof_level_past cur i tree : (cur < i)%nat -> (proof_level cur i tree).2 = [].
Proof.
  revert i. induction tree as [|x|x y l IH] using list_pair_ind; intros i Hi; cbn; [done|..].
  - by rewrite !(proj2 (Nat.eqb_neq _ _)) by lia.
  - specialize (IH (i + 2)%nat ltac:(lia)). destruct (proof_level cur (i + 2) l); cbn in *; subst.
    by rewrite !(proj2 (Nat.eqb_neq _ _)) by lia.
Qed.

(** A round appends exactly one sibling, and hashing it with the current node
    gives the node's parent in the next level. *)
Lemma proof_level_sibling k tree x : forall i,
  tree !! k = Some x ->
  exists s, (proof_level (i + k) i tree).2 = [s] /\ next_level tree !! (k / 2)%nat = Some (HashPair x s).
Proof.
  revert k. induction tree as [|a|a b l IH] using list_pair_ind; intros k i Hk; [done|..].
  - destruct k; [|done]. simplify_eq/=. exists x. rewrite Nat.add_0_r, Nat.eqb_refl. done.
  - destruct k as [|[|k]].
    + simplify_eq/=. exists b. rewrite Nat.add_0_r, Nat.eqb_refl.
      pose proof (proof_level_past i (i + 2) l ltac:(lia)) as Hp.
      destruct (proof_level i (i + 2) l). cbn in *. by subst.
    + simplify_eq/=. exists a. rewrite (proj2 (Nat.eqb_neq _ _)) by lia. rewrite Nat.eqb_refl.
      pose proof (proof_level_past (i + 1) (i + 2) l ltac:(lia)) as Hp.
      destruct (proof_level (i + 1) (i + 2) l). cbn in *. subst.
      split; [done|]. f_equal. apply HashPair_comm.
    + cbn in Hk. destruct (IH k (i + 2)%nat Hk) as (s & Hs & Hn). exists s.
      replace (S (S k) / 2)%nat with (S (k / 2)) by
        (change (S (S k)) with (2 + k)%nat; replace (2 + k)%nat with (k + 1 * 2)%nat by lia;
         rewrite Nat.div_add by lia; lia).
      cbn [proof_level next_level lookup list_lookup].
      replace (i + S (S k))%nat with (i + 2 + k)%nat by lia.
      destruct (proof_level (i + 2 + k) (i + 2) l). cbn in *. subst.
      by rewrite !(proj2 (Nat.eqb_neq _ _)) by lia.
Qed.

(** The whole loop: the proof found leads from the node to the root. *)
Lemma proof_loop_spec fuel tree k x root pf0 :
  build_loop fuel tree = Some [root] -> tree !! k = Some x ->
  exists pf, proof_loop fuel tree k pf0 = Some (pf0 ++ pf) /\
    fold_left HashPair pf x = root /\ length pf = depth (length tree).
Proof.
  revert tree k x pf0. induction fuel as [|f IH]; intros tree k x pf0 Hb Hx;
    cbn [build_loop proof_loop] in *; destruct (Nat.leb_spec (length tree) 1); simplify_eq.
  1-2: destruct k; [|done]; simplify_eq/=; exists []; by rewrite app_nil_r.
  destruct (proof_level_sibling k tree x 0 Hx) as (s & Hs & Hn). cbn [Nat.add] in Hs.
  pose proof (proof_level_next k 0 tree) as Hnext.
  destruct (proof_level k 0 tree) as [next sibs]. cbn in Hs, Hnext. subst.
  destruct (IH (next_level tree) (k / 2)%nat (HashPair x s) (pf0 ++ [s]) Hb Hn) as (pf & Hp & Hr & Hl).
  exists (s :: pf). rewrite Hp, <- app_assoc, depth_next by lia. cbn. by rewrite Hl.
Qed.

(** ** Soundness up to collisions *)

(** The buffers hashed while a tree is built. *)
Fixpoint level_bufs (tree : list hash) : list (list byte) :=
  match tree with
  | [] => []
  | [l] => [pair_buf l l]
  | l :: r :: rest => pair_buf l r :: level_bufs rest
  end.
Fixpoint build_bufs (fuel : nat) (tree : list hash) : list (list byte) :=
  match fuel with
  | S f => if (length tree <=? 1)%nat then [] else level_bufs tree ++ build_bufs f (next_level tree)
  | O => []
  end.
(** The buffers hashed while a proof is verified. *)
Fixpoint verify_bufs (proof : list hash) (leaf : hash) : list (list byte) :=
  match proof with
  | [] => []
  | p :: proof' => pair_buf leaf p :: verify_bufs proof' (HashPair leaf p)
  end.

(** No two different buffers of the list have the same digest. *)
Definition collision_free (bufs : list (list byte)) : Prop :=
  Forall (fun x => Forall (fun y => Keccak256 x = Keccak256 y -> x = y) bufs) bufs.

Lemma collision_free_elem bufs x y :
  collision_free bufs -> x ∈ bufs -> y ∈ bufs -> Keccak256 x = Keccak256 y -> x = y.
Proof. unfold collision_free. rewrite Forall_forall. setoid_rewrite Forall_forall. eauto. Qed.

Lemma collision_free_mono bufs bufs' :
  (forall x, x ∈ bufs -> x ∈ bufs') -> collision_free bufs' -> collision_free bufs.
Proof.
  intros Hsub Hc. unfold collision_free. apply Forall_forall. intros x Hx.
  apply Forall_forall. intros y Hy. eauto using collision_free_elem.
Qed.

Lemma next_level_inv tree h : h ∈ next_level tree ->
  exists l r, l ∈ tree /\ r ∈ tree /\ h = HashPair l r /\ pair_buf l r ∈ level_bufs tree.
Proof.
  induction tree as [|x|x y t IH] using list_pair_ind; cbn; intros Hh.
  - by apply not_elem_of_nil in Hh.
  - apply list_elem_of_singleton in Hh. exists x, x. rewrite !list_elem_of_singleton. done.
  - apply elem_of_cons in Hh as [->|Hh].
    + exists x, y. repeat split; rewrite !elem_of_cons; auto.
    + destruct (IH Hh) as (l & r & Hl & Hr & -> & Hb).
      exists l, r. repeat split; rewrite !elem_of_cons; auto.
Qed.

Lemma verify_sound fuel tree root proof leaf :
  build_loop fuel tree = Some [root] -> length proof = depth (length tree) ->
  collision_free (build_bufs fuel tree ++ verify_bufs proof leaf) ->
  fold_left HashPair proof leaf = root -> leaf ∈ tree.
Proof.
  revert tree proof leaf. induction fuel as [|f IH]; intros tree proof leaf Hb Hlen Hc Hv; cbn in Hb;
    destruct (Nat.leb_spec (length tree) 1) as [Hle|Hgt]; simplify_eq;
    [destruct proof; [|done]; cbn; by apply list_elem_of_singleton..|].
  rewrite depth_next in Hlen by lia. destruct proof as [|p proof]; [done|]. injection Hlen as Hlen.
  cbn [build_bufs verify_bufs] in Hc. rewrite (proj2 (Nat.leb_gt _ _)) in Hc by lia.
  assert (Hin : HashPair leaf p ∈ next_level tree).
  { apply (IH _ proof); [done|done| |done].
    eapply collision_free_mono; [|exact Hc]. intros x. rewrite !elem_of_app, elem_of_cons. tauto. }
  destruct (next_level_inv tree _ Hin) as (l & r & Hl & Hr & Heq & Hbuf).
  assert (Hpair : pair_buf leaf p = pair_buf l r).
  { eapply collision_free_elem; [exact Hc| | |exact Heq]; rewrite !elem_of_app, ?elem_of_cons; tauto. }
  destruct (pair_buf_inj _ _ _ _ Hpair) as [->| ->]; done.
Qed.

(** C27: [BuildMerkleTree] panics exactly on an empty list of leaves;
    [GetProof] finds a proof exactly for the leaves of the tree, the proof has
    one node per level, and [VerifyMerkleProof] accepts it against the root,
    for every number of leaves and every hash function. *)
Theorem merkle_complete leaves :
  (BuildMerkleTree leaves = None <-> leaves = []) /\
  (forall leaf, GetProof leaves leaf = None <-> leaf ∉ leaves) /\
  forall root leaf proof,
    BuildMerkleTree leaves = Some root -> GetProof leaves leaf = Some proof ->
    VerifyMerkleProof proof root leaf = true /\ length proof = depth (length leaves).
Proof.
  assert (Hfound : forall k leaf, leaves !! k = Some leaf -> exists root,
    BuildMerkleTree leaves = Some root /\ build_loop (length leaves) leaves = Some [root]).
  { intros k leaf Hk. destruct (build_loop_total (length leaves) leaves) as [root Hr]; [lia|by intros ->|].
    exists root. unfold BuildMerkleTree. by rewrite Hr. }
  split; [|split].
  - split; [|by intros ->]. intros Hn. destruct leaves as [|x l] eqn:E; [done|].
    destruct (Hfound 0%nat x eq_refl) as (? & H & _). congruence.
  - intros leaf. unfold GetProof. destruct (list_find _ leaves) as [[k y]|] eqn:E.
    + apply list_find_Some in E as (Hk & -> & _). destruct (Hfound k leaf Hk) as (root & _ & Hr).
      destruct (proof_loop_spec _ _ _ _ _ [] Hr Hk) as (pf & -> & _).
      split; [done|]. intros Hnot. destruct Hnot. by eapply list_elem_of_lookup_2.
    + apply list_find_None in E. rewrite Forall_forall in E. split; [|done]. intros _ Hin. by apply (E leaf).
  - intros root leaf proof Hb Hp. apply BuildMerkleTree_loop in Hb. unfold GetProof in Hp.
    destruct (list_find _ leaves) as [[k y]|] eqn:E; [|done].
    apply list_find_Some in E as (Hk & -> & _).
    destruct (proof_loop_spec _ _ _ _ _ [] Hb Hk) as (pf & Hpf & Hv & Hl).
    rewrite Hpf in Hp. simplify_eq/=. split; [|done]. by apply bool_decide_eq_true.
Qed.

(** C28: A leaf accepted with a proof of the tree's depth is a leaf of the
    tree, unless two different buffers hashed while building the tree and
    checking the proof have the same digest. *)
Theorem merkle_sound leaves root proof leaf :
  BuildMerkleTree leaves = Some root ->
  length proof = depth (length leaves) ->
  collision_free (build_bufs (length leaves) leaves ++ verify_bufs proof leaf) ->
  VerifyMerkleProof proof root leaf = true -> leaf ∈ leaves.
Proof.
  intros Hb Hlen Hc Hv. apply bool_decide_eq_true in Hv.
  eapply verify_sound; eauto using BuildMerkleTree_loop.
Qed.
End Merkle.

(** ** Three leaves, with a small mixing function standing for the hash *)

Definition mix256 (bs : list byte) : list byte :=
  map Z_byte (be_bytes 32 (fold_left (fun a b => (a * 65599 + byte_Z b + 7) mod 4294967291)%Z bs 1%Z)).


Definition leaf_of (s : string) : hash := Keccak256 mix256 (String.list_byte_of_string s).
Definition three_leaves : list hash := [leaf_of "leaf1"; leaf_of "leaf2"; leaf_of "leaf3"].

Lemma merkle_complete_witness :
  exists root proof, BuildMerkleTree mix256 three_leaves = Some root /\
    GetProof mix256 three_leaves (leaf_of "leaf3") = Some proof /\
    VerifyMerkleProof mix256 proof root (leaf_of "leaf3") = true.
Proof.
  destruct (BuildMerkleTree mix256 three_leaves) as [root|] eqn:Hr; [|vm_compute in Hr; discriminate].
  destruct (GetProof mix256 three_leaves (leaf_of "leaf3")) as [proof|] eqn:Hp; [|vm_compute in Hp; discriminate].
  exists root, proof. split; [reflexivity|split; [reflexivity|]].
  destruct (merkle_complete mix256 three_leaves) as (_ & _ & H). by apply H.
Defined.

Lemma merkle_sound_witness :
  exists root proof, BuildMerkleTree mix256 three_leaves = Some root /\
    VerifyMerkleProof mix256 proof root (leaf_of "leaf2") = true /\ leaf_of "leaf2" ∈ three_leaves.
Proof.
  destruct (BuildMerkleTree mix256 three_leaves) as [root|] eqn:Hr; [|vm_compute in Hr; discriminate].
  destruct (GetProof mix256 three_leaves (leaf_of "leaf2")) as [proof|] eqn:Hp; [|vm_compute in Hp; discriminate].
  assert (Hv : VerifyMerkleProof mix256 proof root (leaf_of "leaf2") = true).
  { vm_compute in Hr, Hp. injection Hr as <-. injection Hp as <-. vm_compute. reflexivity. }
  exists root, proof. split; [reflexivity|split; [exact Hv|]].
  apply (merkle_sound mix256 three_leaves root proof); [exact Hr| | |exact Hv].
  - vm_compute in Hp. injection Hp as <-. reflexivity.
  - vm_compute in Hp. injection Hp as <-. apply (bool_decide_unpack _). vm_compute. exact I.
Defined.
