(* ===== verification/Bytecode.v ===== *)
(** * The SCDO V1 bytecode patch ([go/scdo/bytecode.go]) and hex integers ([go/scdo/hex.go])

    [PatchBytecodeForV1] is the in-place loop of the source over a copy of the
    slice; its theorem says what it does to every byte.  [PatchBytecodeHex] is
    the text wrapper with its error cases, and [HexBig] the JSON form of the
    big integers in receipts. *)

From stdpp Require Import base list strings.
From Stdlib Require Import ZArith Lia Ascii Strings.Byte.
From Stdlib Require String.
From S2P Require Import Prelude GoStd.

(** ** [bytecode.go] *)

(** The body of [for i, b := range out]. *)
Definition patch_step (out : list byte) (i : nat) : list byte :=
  match out !! i with
  | Some b => if decide (b = xfd) then <[i := x00]> out else out
  | None => out
  end.

Definition PatchBytecodeForV1 (bytecode : list byte) : list byte :=
  if (length bytecode =? 0)%nat then bytecode
  else fold_left patch_step (seq 0 (length bytecode)) bytecode.

Definition CountRevertOpcodes (bytecode : list byte) : nat := bytes_Count1 bytecode xfd.

Definition strip_0x (hexcode : string) : string :=
  if (2 <=? String.length hexcode)%nat &&
     (String.eqb (str_take 2 hexcode) "0x" || String.eqb (str_take 2 hexcode) "0X")
  then str_drop 2 hexcode else hexcode.

Definition PatchBytecodeHex (hexcode : string) : result string :=
  let hexcode := strip_0x hexcode in
  if negb (String.length hexcode mod 2 =? 0)%nat then
    Err (ENew ("odd-length hex string: " +:+ fmt_base 10 (Z.of_nat (String.length hexcode)) +:+ " chars"))
  else match hex_DecodeString hexcode with
       | Err e => Err e
       | Ok raw => Ok ("0x" +:+ hex_EncodeToString (PatchBytecodeForV1 raw))
       end.

(** What the patch does to one byte. *)
Definition patch_byte (b : byte) : byte := if decide (b = xfd) then x00 else b.

Lemma patch_byte_other b : b <> xfd -> patch_byte b = b.
Proof. intros. unfold patch_byte. by rewrite decide_False. Qed.

Lemma patch_step_lookup out i j :
  patch_step out i !! j = (if decide (i = j) then patch_byte <$> out !! j else out !! j).
Proof.
  unfold patch_step. destruct (decide (i = j)) as [<-|Hij].
  - destruct (out !! i) as [b|] eqn:Hi; [|done]. destruct (decide (b = xfd)) as [->|Hb].
    + apply list_lookup_insert_eq. by eapply lookup_lt_Some.
    + rewrite Hi. apply (f_equal Some). symmetry. by apply patch_byte_other.
  - destruct (out !! i); [|done]. case_decide; [by apply list_lookup_insert_ne|done].
Qed.

Lemma patch_loop_lookup idx : forall out j, NoDup idx ->
  fold_left patch_step idx out !! j = (if decide (j ∈ idx) then patch_byte <$> out !! j else out !! j).
Proof.
  induction idx as [|i idx IH]; intros out j Hnd; cbn [fold_left].
  - by rewrite decide_False by apply not_elem_of_nil.
  - apply NoDup_cons in Hnd as [Hi Hnd]. rewrite IH, patch_step_lookup by done.
    destruct (decide (i = j)) as [->|Hij].
    + rewrite decide_False by done. by rewrite decide_True by apply list_elem_of_here.
    + destruct (decide (j ∈ idx)) as [Hin|Hin], (decide (j ∈ i :: idx)) as [H|H]; try done.
      * destruct H. by apply list_elem_of_further.
      * apply elem_of_cons in H as [->|]; done.
Qed.

Lemma PatchBytecodeForV1_map bs : PatchBytecodeForV1 bs = patch_byte <$> bs.
Proof.
  unfold PatchBytecodeForV1. destruct (Nat.eqb_spec (length bs) 0) as [H|_].
  - by apply nil_length_inv in H as ->.
  - apply list_eq. intros j. rewrite patch_loop_lookup, list_lookup_fmap by apply NoDup_seq.
    case_decide as Hj; [done|]. rewrite elem_of_seq in Hj. by rewrite lookup_ge_None_2 by lia.
Qed.

Lemma patch_byte_idemp b : patch_byte (patch_byte b) = patch_byte b.
Proof. by destruct b. Qed.

Lemma PatchBytecodeForV1_idemp bs : PatchBytecodeForV1 (PatchBytecodeForV1 bs) = PatchBytecodeForV1 bs.
Proof.
  rewrite !PatchBytecodeForV1_map, <- list_fmap_compose. apply list_fmap_ext.
  intros; apply patch_byte_idemp.
Qed.

(** C37: The patch keeps the length, turns every 0xfd into 0x00 and leaves every
    other byte, so that no 0xfd is counted afterwards and patching again changes
    nothing. *)
Theorem PatchBytecodeForV1_spec bs :
  length (PatchBytecodeForV1 bs) = length bs /\
  (forall i b, bs !! i = Some b ->
     PatchBytecodeForV1 bs !! i = Some (if decide (b = xfd) then x00 else b)) /\
  CountRevertOpcodes (PatchBytecodeForV1 bs) = 0 /\
  PatchBytecodeForV1 (PatchBytecodeForV1 bs) = PatchBytecodeForV1 bs.
Proof.
  split; [|split; [|split]].
  - by rewrite PatchBytecodeForV1_map, length_fmap.
  - intros i b Hi. by rewrite PatchBytecodeForV1_map, list_lookup_fmap, Hi.
  - rewrite PatchBytecodeForV1_map. unfold CountRevertOpcodes, bytes_Count1.
    induction bs as [|b bs IH]; [done|]. rewrite fmap_cons, filter_cons_False; [done|]. by destruct b.
  - apply PatchBytecodeForV1_idemp.
Qed.

Lemma PatchBytecodeForV1_spec_witness :
  [xfd; x5b; xfd] !! 2 = Some xfd /\ PatchBytecodeForV1 [xfd; x5b; xfd] !! 2 = Some x00.
Proof.
  split; [reflexivity|].
  exact (proj1 (proj2 (PatchBytecodeForV1_spec [xfd; x5b; xfd])) 2 xfd eq_refl).
Defined.

(** [PUSHn] followed by its [n] operand bytes. *)
Definition push_instr (operand rest : list byte) : list byte :=
  Z_byte (95 + Z.of_nat (length operand)) :: operand ++ rest.

(** The operand of a PUSH instruction is patched like any other byte: it
    changes exactly when it contains 0xfd, so the patched code pushes a
    different constant. *)
Theorem PatchBytecodeForV1_push operand rest :
  1 <= length operand <= 32 ->
  PatchBytecodeForV1 (push_instr operand rest) =
    push_instr (PatchBytecodeForV1 operand) (PatchBytecodeForV1 rest) /\
  (PatchBytecodeForV1 operand <> operand <-> xfd ∈ operand).
Proof.
  intros Hlen. unfold push_instr. rewrite !PatchBytecodeForV1_map, fmap_cons, fmap_app, length_fmap.
  split.
  - f_equal. clear rest. revert Hlen. generalize (length operand) as n. intros n Hn.
    assert (Hall : forallb (fun n => bool_decide (patch_byte (Z_byte (95 + Z.of_nat n)) = Z_byte (95 + Z.of_nat n)))
      (seq 1 32) = true) by reflexivity.
    rewrite forallb_forall in Hall. by apply (bool_decide_unpack _), Is_true_true_2, Hall, in_seq; lia.
  - induction operand as [|b l IH]; [split; [done|by intros ?%not_elem_of_nil]|].
    clear Hlen. rewrite fmap_cons, elem_of_cons. split.
    + intros Hne. destruct (decide (b = xfd)) as [->|Hb]; [by left|]. right.
      destruct (decide (xfd ∈ l)) as [|Hl]; [done|]. destruct Hne.
      assert (patch_byte b = b) as -> by (unfold patch_byte; by rewrite decide_False). f_equal.
      clear IH. induction l as [|c l IH]; [done|]. rewrite elem_of_cons in Hl. rewrite fmap_cons, IH by tauto.
      unfold patch_byte. rewrite decide_False; [done|]. naive_solver.
    + intros Hin Heq. injection Heq as Hb Hl. destruct Hin as [<-|Hin]; [done|].
      assert (Hmap : forall k : list byte, patch_byte <$> k = k -> xfd ∈ k -> False).
      { clear. induction k as [|c k IH]; [by intros _ ?%not_elem_of_nil|].
        rewrite fmap_cons, elem_of_cons. intros [= Hc Hk] [<-|Hin]; [done|auto]. }
      eauto.
Qed.

Lemma PatchBytecodeForV1_push_witness :
  PatchBytecodeForV1 (push_instr [xfd] [x5b]) = push_instr [x00] [x5b] /\
  PatchBytecodeForV1 [xfd] <> [xfd].
Proof.
  destruct (PatchBytecodeForV1_push [xfd] [x5b]) as [H1 H2]; [cbn; lia|].
  split; [exact H1|]. apply H2. by apply list_elem_of_here.
Defined.

(** ** The text wrapper *)

Lemma strip_0x_0x t : strip_0x ("0x" +:+ t) = t.
Proof. by destruct t. Qed.

Lemma length_0x t : String.length ("0x" +:+ t) = 2 + String.length t.
Proof. reflexivity. Qed.

Lemma hex_Decode_length s bs : hex_DecodeString s = Ok bs -> String.length s = 2 * length bs.
Proof.
  revert bs. induction s as [|p|p q s IH] using string_pair_ind; intros bs H; cbn in *.
  - by simplify_eq.
  - by destruct (is_hex p).
  - destruct (is_hex p), (is_hex q), (hex_DecodeString s); simplify_eq. cbn. rewrite (IH a) by done. lia.
Qed.

Fixpoint str_chars (s : string) : list ascii :=
  match s with EmptyString => [] | String c s' => c :: str_chars s' end.

(** What [DecodeString] reports on an even-length string: a character of it
    that is no hex digit. *)
Lemma hex_Decode_Err s e : Nat.even (String.length s) = true -> hex_DecodeString s = Err e ->
  exists c, c ∈ str_chars s /\ is_hex c = false /\ e = EHexInvalidByte (byte_of_ascii c).
Proof.
  induction s as [|p|p q s IH] using string_pair_ind; intros Hev H; cbn in *; [done..|].
  setoid_rewrite elem_of_cons. setoid_rewrite elem_of_cons.
  destruct (is_hex p) eqn:Hp; [destruct (is_hex q) eqn:Hq|].
  - destruct (hex_DecodeString s); simplify_eq. destruct IH as (c & ? & ? & ?); eauto 7.
  - simplify_eq. eauto 7.
  - simplify_eq. eauto 7.
Qed.

Lemma even_mod2 n : (n mod 2 =? 0) = Nat.even n.
Proof.
  destruct (Nat.even n) eqn:E.
  - apply Nat.even_spec in E as [m ->]. apply Nat.eqb_eq. rewrite Nat.mul_comm. apply Nat.Div0.mod_mul.
  - rewrite <- Nat.negb_odd in E. apply negb_false_iff, Nat.odd_spec in E as [m ->].
    apply Nat.eqb_neq. rewrite Nat.mul_comm, Nat.add_comm, Nat.Div0.mod_add. done.
Qed.

(** C38: [PatchBytecodeHex] succeeds exactly on an even number of hex digits
    (after an optional 0x or 0X); its output is [0x] and the hex text of the
    patched bytes, has the length of the input, decodes to them, and is a fixed
    point of the function.  On failure the error is the odd length or one of the
    characters that is no hex digit. *)
Theorem PatchBytecodeHex_spec s :
  let body := strip_0x s in
  is_ok (PatchBytecodeHex s) = Nat.even (String.length body) && all_chars is_hex body /\
  (forall out, PatchBytecodeHex s = Ok out ->
     exists raw, hex_DecodeString body = Ok raw /\
       hex_DecodeString (strip_0x out) = Ok (PatchBytecodeForV1 raw) /\
       out = "0x" +:+ hex_EncodeToString (PatchBytecodeForV1 raw) /\
       String.length out = 2 + String.length body /\ PatchBytecodeHex out = Ok out) /\
  (forall e, PatchBytecodeHex s = Err e ->
     if Nat.even (String.length body)
     then exists c, c ∈ str_chars body /\ is_hex c = false /\ e = EHexInvalidByte (byte_of_ascii c)
     else e = ENew ("odd-length hex string: " +:+ fmt_base 10 (Z.of_nat (String.length body)) +:+ " chars")).
Proof.
  intros body. unfold PatchBytecodeHex. fold body. rewrite even_mod2.
  destruct (Nat.even (String.length body)) eqn:Hev; cbn [negb]; [|split; [done|split; [by intros ? [=]|by intros ? [= <-]]]].
  pose proof (hex_Decode_ok_iff body) as Hok. rewrite Hev in Hok. rewrite <- Hok.
  destruct (hex_DecodeString body) as [raw|e] eqn:Hdec; (split; [done|split]); try by intros ? [=].
  - intros out [= <-]. exists raw. pose proof (hex_Decode_length _ _ Hdec) as Hlen.
    rewrite !strip_0x_0x, hex_Decode_Encode, length_hex_Encode, PatchBytecodeForV1_idemp.
    pose proof (PatchBytecodeForV1_spec raw) as [Hl _].
    rewrite even_mod2, Nat.even_mul, length_0x, length_hex_Encode, Hl. repeat split. lia.
  - intros e' [= <-]. eauto using hex_Decode_Err.
Qed.

Lemma PatchBytecodeHex_spec_witness :
  PatchBytecodeHex "0x6080fd5b" = Ok "0x6080005b" /\
  exists raw, hex_DecodeString "6080fd5b" = Ok raw /\
    hex_DecodeString "6080005b" = Ok (PatchBytecodeForV1 raw).
Proof.
  split; [reflexivity|].
  destruct (PatchBytecodeHex_spec "0x6080fd5b") as (_ & H & _).
  destruct (H "0x6080005b" eq_refl) as (raw & H1 & H2 & _). by exists raw.
Defined.

(** ** [hex.go] *)

(** A [HexBig] is the [big.Int] it wraps. *)
Definition UnmarshalJSON (data : string) : result Z :=
  let s := Trim1 data dquote in
  let s := TrimPrefix s "0x" in
  let s := TrimPrefix s "0X" in
  if String.eqb s "" || String.eqb s "null" then Ok 0%Z
  else match big_SetString s 16 with
       | None => Err (ENew ("invalid hex big int: " +:+ data))
       | Some n => Ok n
       end.

(** [json.Marshal] of a string of hex digits, [x] and [-] only adds the quotes. *)
Definition MarshalJSON (h : Z) : string :=
  String dquote ("0x" +:+ big_Sprintf_x h +:+ String dquote EmptyString).

Lemma big_Sprintf_x_chars (p : ascii -> bool) h :
  p "-"%char = true -> forallb (fun d => p (digit_char (Z.of_nat d))) (seq 0 16) = true ->
  all_chars p (big_Sprintf_x h) = true.
Proof.
  intros Hm Hp. unfold big_Sprintf_x. case_match; cbn [all_chars]; rewrite ?Hm; by apply fmt_base_hex_chars.
Qed.

Lemma TrimPrefix_none s p : strip_prefix p s = None -> TrimPrefix s p = s.
Proof. unfold TrimPrefix. by intros ->. Qed.

(** No character of a printed number is an [x] of either case, so neither
    prefix is stripped from it and it is no [null]. *)
Lemma big_Sprintf_x_no_prefix h :
  let s := big_Sprintf_x h in
  TrimPrefix s "0X" = s /\ String.eqb s "" = false /\ String.eqb s "null" = false.
Proof.
  intros s.
  pose proof (big_Sprintf_x_chars (fun c => negb (Ascii.eqb c "X") && negb (Ascii.eqb c "n")) h eq_refl eq_refl) as Hc.
  fold s in Hc.
  assert (Hne : s <> EmptyString).
  { unfold s, big_Sprintf_x. case_match; [done|]. apply fmt_base_nonempty. }
  destruct s as [|c s']; [done|]. cbn in Hc. apply andb_prop in Hc as [Hc Hs'].
  apply andb_prop in Hc as [_ Hn]. apply negb_true_iff, Ascii.eqb_neq in Hn.
  split; [|split; [done|]].
  - apply TrimPrefix_none. cbn [strip_prefix]. destruct (Ascii.eqb_spec "0" c); [|done].
    destruct s' as [|c' s']; [done|]. cbn [all_chars strip_prefix] in *. apply andb_prop in Hs' as [Hc' _].
    apply andb_prop in Hc' as [Hx _]. apply negb_true_iff in Hx. rewrite Ascii.eqb_sym in Hx. by rewrite Hx.
  - apply String.eqb_neq. congruence.
Qed.

Lemma UnmarshalJSON_MarshalJSON h : UnmarshalJSON (MarshalJSON h) = Ok h.
Proof.
  unfold UnmarshalJSON, MarshalJSON.
  change (String dquote ("0x" +:+ big_Sprintf_x h +:+ String dquote EmptyString))
    with (String dquote (("0x" +:+ big_Sprintf_x h) +:+ String dquote EmptyString)).
  rewrite Trim1_quoted.
  - change (TrimPrefix ("0x" +:+ big_Sprintf_x h) "0x") with (big_Sprintf_x h).
    destruct (big_Sprintf_x_no_prefix h) as (-> & -> & ->). cbn [orb].
    by rewrite big_SetString_Sprintf.
  - exact (big_Sprintf_x_chars (fun a => negb (Ascii.eqb a dquote)) h eq_refl eq_refl).
Qed.

(** Every integer survives [MarshalJSON] and [UnmarshalJSON], negative ones
    included, and the JSON forms of an absent value give zero. *)
Theorem HexBig_roundtrip h :
  UnmarshalJSON (MarshalJSON h) = Ok h /\
  UnmarshalJSON "null" = Ok 0%Z /\ UnmarshalJSON (Quote "") = Ok 0%Z /\ UnmarshalJSON (Quote "0x") = Ok 0%Z.
Proof. split; [apply UnmarshalJSON_MarshalJSON|done]. Qed.
