(* ===== verification/Json.v ===== *)
(** * Go's [encoding/json], as far as the toolkit uses it

    JSON values, the compact text [json.Marshal] prints for them (strings with
    its HTML-safe escapes), and the parser behind [json.Unmarshal] (escapes,
    surrogate pairs, invalid UTF-8, white space).  Numbers are kept as their
    text, as the decoder keeps them until it knows the target type.  Go's limit
    on the nesting depth is not modelled.  The theorem of the file is that
    parsing what was printed gives the value back. *)

From stdpp Require Import base gmap list strings.
From Stdlib Require Import ZArith Lia Ascii.
From Stdlib Require String.
From S2P Require Import Prelude GoStd.

Local Open Scope Z_scope.

Inductive json :=
  | JNull
  | JBool (b : bool)
  | JNum (text : string)
  | JStr (s : string)
  | JArr (l : list json)
  | JObj (l : list (string * json)).

(** ** UTF-8 *)

Definition cont_byte (c : ascii) : bool := (128 <=? ascii_Z c) && (ascii_Z c <=? 191).

(** The second byte of an encoding of three or four bytes. *)
Definition second_ok (a b : ascii) : bool :=
  let lo := if ascii_Z a =? 224 then 160 else if ascii_Z a =? 240 then 144 else 128 in
  let hi := if ascii_Z a =? 237 then 159 else if ascii_Z a =? 244 then 143 else 191 in
  (lo <=? ascii_Z b) && (ascii_Z b <=? hi).

(** The string is the encoding of one code point. *)
Definition is_rune (r : string) : bool :=
  match r with
  | String a EmptyString => ascii_Z a <? 128
  | String a (String b EmptyString) => (194 <=? ascii_Z a) && (ascii_Z a <=? 223) && cont_byte b
  | String a (String b (String c EmptyString)) =>
      (224 <=? ascii_Z a) && (ascii_Z a <=? 239) && second_ok a b && cont_byte c
  | String a (String b (String c (String d EmptyString))) =>
      (240 <=? ascii_Z a) && (ascii_Z a <=? 244) && second_ok a b && cont_byte c && cont_byte d
  | _ => false
  end.

(** [utf8.DecodeRuneInString]: the size of the encoding at the start of the
    string; 0 where Go says [RuneError] with size 1. *)
Definition rune_len (s : string) : nat :=
  if is_rune (str_take 1 s) then 1
  else if is_rune (str_take 2 s) then 2
  else if is_rune (str_take 3 s) then 3
  else if is_rune (str_take 4 s) then 4
  else 0.

(** Valid UTF-8. *)
Inductive utf8 : string -> Prop :=
  | utf8_nil : utf8 EmptyString
  | utf8_cons r s : is_rune r = true -> utf8 s -> utf8 (r +:+ s).

(** The encoding of a code point below [0x110000]. *)
Definition encode_rune (n : Z) : string :=
  if n <? 128 then String (Z_ascii n) ""
  else if n <? 2048 then String (Z_ascii (192 + n / 64)) (String (Z_ascii (128 + n mod 64)) "")
  else if n <? 65536 then
    String (Z_ascii (224 + n / 4096)) (String (Z_ascii (128 + n / 64 mod 64)) (String (Z_ascii (128 + n mod 64)) ""))
  else String (Z_ascii (240 + n / 262144)) (String (Z_ascii (128 + n / 4096 mod 64))
         (String (Z_ascii (128 + n / 64 mod 64)) (String (Z_ascii (128 + n mod 64)) ""))).

(** U+FFFD, the replacement character. *)
Definition replacement : string := encode_rune 65533.

(** ** Printing *)

(** The escape of an ASCII character; [&], [<] and [>] are escaped too. *)
Definition escape (c : ascii) : string :=
  let z := ascii_Z c in
  if Ascii.eqb c dquote || Ascii.eqb c "\" then String "\" (String c "")
  else if z =? 8 then "\b" else if z =? 12 then "\f" else if z =? 10 then "\n"
  else if z =? 13 then "\r" else if z =? 9 then "\t"
  else if (z <? 32) || Ascii.eqb c "<" || Ascii.eqb c ">" || Ascii.eqb c "&"
  then "\u00" +:+ String (digit_char (z / 16)) (String (digit_char (z mod 16)) "")
  else String c "".

(** U+2028 and U+2029, which are not allowed in JavaScript strings. *)
Definition line_sep (r : string) : option string :=
  if String.eqb r (encode_rune 8232) then Some "\u2028"
  else if String.eqb r (encode_rune 8233) then Some "\u2029"
  else None.

Fixpoint quote_json_body (fuel : nat) (s : string) : string :=
  match fuel, s with
  | S f, String c s' =>
      match rune_len s with
      | O => "\ufffd" +:+ quote_json_body f s'
      | S O => escape c +:+ quote_json_body f s'
      | n => default (str_take n s) (line_sep (str_take n s)) +:+ quote_json_body f (str_drop n s)
      end
  | _, _ => EmptyString
  end.

Definition quote_json (s : string) : string :=
  String dquote (quote_json_body (String.length s) s +:+ String dquote "").

Definition intersperse_commas (l : list string) : string := String.concat "," l.

Fixpoint print (j : json) : string :=
  match j with
  | JNull => "null"
  | JBool true => "true"
  | JBool false => "false"
  | JNum t => t
  | JStr s => quote_json s
  | JArr l => "[" +:+ String.concat "," (map print l) +:+ "]"
  | JObj l => "{" +:+ String.concat "," (map (fun kv => quote_json kv.1 +:+ ":" +:+ print kv.2) l) +:+ "}"
  end.

(** ** Parsing *)

Definition is_ws (c : ascii) : bool :=
  Ascii.eqb c " " || Ascii.eqb c "009" || Ascii.eqb c "010" || Ascii.eqb c "013".

Fixpoint skip_ws (s : string) : string :=
  match s with String c s' => if is_ws c then skip_ws s' else s | _ => s end.

Definition simple_escape (c : ascii) : option ascii :=
  if Ascii.eqb c dquote then Some dquote
  else if Ascii.eqb c "\" then Some "\"%char
  else if Ascii.eqb c "/" then Some "/"%char
  else if Ascii.eqb c "b" then Some "008"%char
  else if Ascii.eqb c "f" then Some "012"%char
  else if Ascii.eqb c "n" then Some "010"%char
  else if Ascii.eqb c "r" then Some "013"%char
  else if Ascii.eqb c "t" then Some "009"%char
  else None.

(** The four hex digits after [\u], and what follows. *)
Definition hex4 (s : string) : option (Z * string) :=
  match s with
  | String a (String b (String c (String d s'))) =>
      if is_hex a && is_hex b && is_hex c && is_hex d
      then Some (((digit_val a * 16 + digit_val b) * 16 + digit_val c) * 16 + digit_val d, s')
      else None
  | _ => None
  end.

Definition is_surrogate (n : Z) : bool := (55296 <=? n) && (n <? 57344).

(** What a [\uXXXX] escape stands for: a surrogate must be the first of a pair
    of escapes, else it is replaced. *)
Definition unicode_escape (n : Z) (s : string) : string * string :=
  if is_surrogate n then
    match s with
    | String "\" (String "u" s') =>
        match hex4 s' with
        | Some (n2, s'') =>
            if (n <? 56320) && (56320 <=? n2) && (n2 <? 57344)
            then (encode_rune (65536 + (n - 55296) * 1024 + (n2 - 56320)), s'')
            else (replacement, s)
        | None => (replacement, s)
        end
    | _ => (replacement, s)
    end
  else (encode_rune n, s).

Definition prepend {B} (p : string) (r : option (string * B)) : option (string * B) :=
  match r with Some (s, b) => Some (p +:+ s, b) | None => None end.

(** The rest of a string literal, up to its closing quote. *)
Fixpoint unquote (fuel : nat) (s : string) : option (string * string) :=
  match fuel, s with
  | S f, String c s' =>
      if Ascii.eqb c dquote then Some (EmptyString, s')
      else if Ascii.eqb c "\" then
        match s' with
        | String e s'' =>
            match simple_escape e with
            | Some x => prepend (String x "") (unquote f s'')
            | None =>
                if Ascii.eqb e "u" then
                  match hex4 s'' with
                  | Some (n, s3) => let (r, s4) := unicode_escape n s3 in prepend r (unquote f s4)
                  | None => None
                  end
                else None
            end
        | EmptyString => None
        end
      else if ascii_Z c <? 32 then None
      else match rune_len s with
           | O => prepend replacement (unquote f s')
           | n => prepend (str_take n s) (unquote f (str_drop n s))
           end
  | _, _ => None
  end.

Definition is_dec (c : ascii) : bool := in_range "0" "9" c.

Fixpoint take_digits (s : string) : string * string :=
  match s with
  | String c s' => if is_dec c then let (d, r) := take_digits s' in (String c d, r) else (EmptyString, s)
  | EmptyString => (EmptyString, EmptyString)
  end.

(** The exponent, the fraction and the integer part of a number. *)
Definition parse_exp (acc s : string) : option (string * string) :=
  match s with
  | String e s' =>
      if Ascii.eqb e "e" || Ascii.eqb e "E" then
        let (sg, s2) :=
          match s' with
          | String x s2 => if Ascii.eqb x "+" || Ascii.eqb x "-" then (String x "", s2) else ("", s')
          | EmptyString => ("", s')
          end in
        let (ds, r) := take_digits s2 in
        if String.eqb ds "" then None else Some (acc +:+ String e (sg +:+ ds), r)
      else Some (acc, s)
  | EmptyString => Some (acc, s)
  end.

Definition parse_frac (acc s : string) : option (string * string) :=
  match s with
  | String x s' =>
      if Ascii.eqb x "." then
        let (ds, r) := take_digits s' in
        if String.eqb ds "" then None else parse_exp (acc +:+ String x ds) r
      else parse_exp acc s
  | EmptyString => parse_exp acc s
  end.

Definition parse_int (sign s : string) : option (string * string) :=
  match s with
  | String c s' =>
      if Ascii.eqb c "0" then parse_frac (sign +:+ "0") s'
      else if is_dec c then let (ds, r) := take_digits s' in parse_frac (sign +:+ String c ds) r
      else None
  | EmptyString => None
  end.

Definition parse_number (s : string) : option (string * string) :=
  match s with
  | String c s' => if Ascii.eqb c "-" then parse_int "-" s' else parse_int "" s
  | EmptyString => None
  end.

Definition parse_string (s : string) : option (string * string) := unquote (String.length s) s.

Fixpoint parse_value (fuel : nat) (s : string) : option (json * string) :=
  match fuel with
  | O => None
  | S f =>
      match skip_ws s with
      | EmptyString => None
      | String c s' =>
          if Ascii.eqb c dquote then
            match parse_string s' with Some (t, r) => Some (JStr t, r) | None => None end
          else if Ascii.eqb c "[" then
            match skip_ws s' with
            | String "]" r => Some (JArr [], r)
            | _ => match parse_elems f s' with Some (l, r) => Some (JArr l, r) | None => None end
            end
          else if Ascii.eqb c "{" then
            match skip_ws s' with
            | String "}" r => Some (JObj [], r)
            | _ => match parse_members f s' with Some (l, r) => Some (JObj l, r) | None => None end
            end
          else if Ascii.eqb c "n" then
            match strip_prefix "ull" s' with Some r => Some (JNull, r) | None => None end
          else if Ascii.eqb c "t" then
            match strip_prefix "rue" s' with Some r => Some (JBool true, r) | None => None end
          else if Ascii.eqb c "f" then
            match strip_prefix "alse" s' with Some r => Some (JBool false, r) | None => None end
          else match parse_number (String c s') with Some (t, r) => Some (JNum t, r) | None => None end
      end
  end
with parse_elems (fuel : nat) (s : string) : option (list json * string) :=
  match fuel with
  | O => None
  | S f =>
      match parse_value f s with
      | Some (v, r) =>
          match skip_ws r with
          | String "," r' =>
              match parse_elems f r' with Some (l, r'') => Some (v :: l, r'') | None => None end
          | String "]" r' => Some ([v], r')
          | _ => None
          end
      | None => None
      end
  end
with parse_members (fuel : nat) (s : string) : option (list (string * json) * string) :=
  match fuel with
  | O => None
  | S f =>
      match skip_ws s with
      | String c s' =>
          if Ascii.eqb c dquote then
            match parse_string s' with
            | Some (k, r) =>
                match skip_ws r with
                | String ":" r1 =>
                    match parse_value f r1 with
                    | Some (v, r2) =>
                        match skip_ws r2 with
                        | String "," r3 =>
                            match parse_members f r3 with
                            | Some (l, r4) => Some ((k, v) :: l, r4)
                            | None => None
                            end
                        | String "}" r3 => Some ([(k, v)], r3)
                        | _ => None
                        end
                    | None => None
                    end
                | _ => None
                end
            | None => None
            end
          else None
      | EmptyString => None
      end
  end.

(** [json.Valid] and the value of the text, nothing but white space following.
    More fuel changes nothing ([parse_value_fuel]). *)
Definition parse (s : string) : option json :=
  match parse_value (2 * S (String.length s))%nat s with
  | Some (v, r) => match skip_ws r with EmptyString => Some v | _ => None end
  | None => None
  end.

(** A JSON text written with single quotes. *)
Fixpoint sq (s : string) : string :=
  match s with
  | String c s' => String (if Ascii.eqb c "'" then dquote else c) (sq s')
  | EmptyString => EmptyString
  end.

Example parse_ex1 : parse (sq " { 'a' : [1,2.5e+3,true,null] , 'b':'x\u0041\n\ud83d\ude00' } ") =
  Some (JObj [("a", JArr [JNum "1"; JNum "2.5e+3"; JBool true; JNull]);
              ("b", JStr ("xA" +:+ String "010" (encode_rune 128512)))]).
Proof. vm_compute. reflexivity. Qed.

Example parse_ex2 : parse "[01]" = None /\ parse "[1,]" = None /\ parse "[1] x" = None /\ parse "-" = None.
Proof. vm_compute. done. Qed.

(** ** Strings: what is quoted is read back *)

Lemma str_cons_app c (a b : string) : String c a +:+ b = String c (a +:+ b).
Proof. reflexivity. Qed.

Lemma str_app_assoc (a b c : string) : (a +:+ b) +:+ c = a +:+ (b +:+ c).
Proof. induction a as [|x a IH]; [done|]. by rewrite !str_cons_app, IH. Qed.

Lemma str_app_nil_r (a : string) : a +:+ "" = a.
Proof. induction a as [|x a IH]; [done|]. by rewrite str_cons_app, IH. Qed.

Lemma str_length_app (a b : string) : String.length (a +:+ b) = (String.length a + String.length b)%nat.
Proof. induction a as [|x a IH]; [done|]. rewrite str_cons_app. cbn. by rewrite IH. Qed.

Lemma str_take_app (a b : string) : str_take (String.length a) (a +:+ b) = a.
Proof. induction a as [|x a IH]; [by destruct b|]. rewrite str_cons_app. cbn. by rewrite IH. Qed.

Lemma str_drop_app (a b : string) : str_drop (String.length a) (a +:+ b) = b.
Proof. induction a as [|x a IH]; [by destruct b|]. rewrite str_cons_app. cbn. by rewrite IH. Qed.

Lemma ascii_Z_range c : 0 <= ascii_Z c < 256.
Proof. unfold ascii_Z. pose proof (Ascii.N_ascii_bounded c). lia. Qed.

(** The first byte tells the length of an encoding. *)
Lemma rune_len_app r s : is_rune r = true -> rune_len (r +:+ s) = String.length r.
Proof.
  intros Hr. unfold rune_len.
  destruct r as [|a [|b [|c [|d [|]]]]]; cbn [is_rune] in Hr; try discriminate;
    repeat rewrite andb_true_iff in Hr; rewrite ?str_cons_app; cbn [str_take is_rune String.length];
    rewrite ?Hr; try done;
    replace (str_take 0 (EmptyString +:+ s)) with EmptyString by (by destruct s).
  - replace (ascii_Z a <? 128) with false by lia.
    destruct Hr as [[H1 H2] H3]. by rewrite H1, H2, H3.
  - replace (ascii_Z a <? 128) with false by lia. replace (ascii_Z a <=? 223) with false by lia.
    rewrite andb_false_r.
    destruct Hr as [[[H1 H2] H3] H4]. by rewrite H1, H2, H3, H4.
  - replace (ascii_Z a <? 128) with false by lia. replace (ascii_Z a <=? 223) with false by lia.
    replace (ascii_Z a <=? 239) with false by lia.
    rewrite !andb_false_r.
    destruct Hr as [[[[H1 H2] H3] H4] H5]. by rewrite H1, H2, H3, H4, H5.
Qed.

Lemma is_rune_nonempty r : is_rune r = true -> exists c r', r = String c r'.
Proof. destruct r; [done|eauto]. Qed.

Lemma is_rune_one c : is_rune (String c "") = (ascii_Z c <? 128).
Proof. done. Qed.

(** An ASCII character, escaped or not, is read back. *)
Lemma unquote_escape c f t : ascii_Z c <? 128 = true ->
  unquote (S f) (escape c +:+ t) = prepend (String c "") (unquote f t).
Proof. destruct c as [[] [] [] [] [] [] [] []]; try discriminate; intros _; reflexivity. Qed.

(** A longer encoding, as its bytes or as the escape of a line separator. *)
Lemma unquote_rune r f t : is_rune r = true -> (2 <= String.length r)%nat ->
  unquote (S f) (default r (line_sep r) +:+ t) = prepend r (unquote f t).
Proof.
  intros Hr Hlen. unfold line_sep.
  destruct (String.eqb_spec r (encode_rune 8232)) as [->|_]; [reflexivity|].
  destruct (String.eqb_spec r (encode_rune 8233)) as [->|_]; [reflexivity|]. cbn [default].
  pose proof (rune_len_app r t Hr) as Hn. destruct r as [|c r]; [done|].
  assert (Hc : 128 <= ascii_Z c).
  { destruct r as [|b [|x [|y [|]]]]; cbn in Hr, Hlen; try lia; try done; repeat rewrite andb_true_iff in Hr; lia. }
  rewrite str_cons_app in *. cbn [unquote].
  destruct (Ascii.eqb_spec c dquote) as [->|_]; [by vm_compute in Hc|].
  destruct (Ascii.eqb_spec c "\") as [->|_]; [by vm_compute in Hc|].
  replace (ascii_Z c <? 32) with false by lia. rewrite Hn.
  destruct r as [|b r]; [cbn in Hlen; lia|]. cbn [String.length].
  change (S (S (String.length r))) with (String.length (String c (String b r))).
  by rewrite <- str_cons_app, str_take_app, str_drop_app.
Qed.

(** The body of the literal of [r ++ s] is that of [r] and that of [s]. *)
Definition quote_rune (r : string) : string :=
  match r with
  | String c EmptyString => escape c
  | _ => default r (line_sep r)
  end.

Lemma quote_body_cons f r s : is_rune r = true ->
  quote_json_body (S f) (r +:+ s) = quote_rune r +:+ quote_json_body f s.
Proof.
  intros Hr. pose proof (rune_len_app r s Hr) as Hn. pose proof (str_take_app r s) as Ht.
  pose proof (str_drop_app r s) as Hd. destruct r as [|c [|b r]]; [done| |].
  - cbn [quote_json_body]. rewrite str_cons_app in *. cbn [quote_json_body]. rewrite Hn. done.
  - rewrite str_cons_app in *. cbn [quote_json_body]. rewrite Hn. cbn [String.length] in *. by rewrite Ht, Hd.
Qed.

Lemma unquote_quote_rune r f t : is_rune r = true ->
  unquote (S f) (quote_rune r +:+ t) = prepend r (unquote f t).
Proof.
  intros Hr. destruct r as [|c [|b r]]; [done|by apply unquote_escape|].
  apply (unquote_rune (String c (String b r))); [done|]. cbn. lia.
Qed.

Lemma quote_rune_length r : is_rune r = true -> (String.length r <= String.length (quote_rune r))%nat.
Proof.
  intros Hr. destruct r as [|c [|b r]]; [done| |].
  - cbn [quote_rune]. destruct c as [[] [] [] [] [] [] [] []]; vm_compute; lia.
  - unfold quote_rune, line_sep. destruct (String.eqb_spec (String c (String b r)) (encode_rune 8232)) as [->|_]; [cbn; lia|].
    destruct (String.eqb_spec (String c (String b r)) (encode_rune 8233)) as [->|_]; cbn; lia.
Qed.

Lemma is_rune_pos r : is_rune r = true -> (0 < String.length r)%nat.
Proof. destruct r; [done|cbn; lia]. Qed.

Lemma unquote_quote s : utf8 s -> forall f1 f2 rest,
  (String.length s <= f1)%nat -> (S (String.length s) <= f2)%nat ->
  unquote f2 (quote_json_body f1 s +:+ String dquote rest) = Some (s, rest).
Proof.
  induction 1 as [|r s Hr Hs IH]; intros f1 f2 rest Hf1 Hf2.
  - destruct f2; [lia|]. by destruct f1.
  - pose proof (is_rune_pos r Hr). rewrite str_length_app in *. destruct f1; [lia|]. destruct f2; [lia|].
    rewrite quote_body_cons, str_app_assoc, unquote_quote_rune by done. by rewrite IH by lia.
Qed.

Lemma quote_body_length s : utf8 s -> forall f,
  (String.length s <= f)%nat -> (String.length s <= String.length (quote_json_body f s))%nat.
Proof.
  induction 1 as [|r s Hr Hs IH]; intros f Hf; [cbn; lia|].
  pose proof (is_rune_pos r Hr). rewrite str_length_app in *. destruct f; [lia|].
  rewrite quote_body_cons, str_length_app by done. pose proof (quote_rune_length r Hr).
  specialize (IH f ltac:(lia)). lia.
Qed.

Lemma parse_string_quote s rest : utf8 s ->
  parse_string (quote_json_body (String.length s) s +:+ String dquote rest) = Some (s, rest).
Proof.
  intros Hs. apply unquote_quote; [done|lia|]. rewrite str_length_app. cbn.
  pose proof (quote_body_length s Hs (String.length s) ltac:(lia)). lia.
Qed.

(** Plain ASCII text is UTF-8. *)
Lemma utf8_ascii s : all_chars (fun c => ascii_Z c <? 128) s = true -> utf8 s.
Proof.
  induction s as [|c s IH]; cbn; [constructor|]. intros [Hc Hs]%andb_prop.
  change (String c s) with (String c "" +:+ s). constructor; [done|auto].
Qed.

(** ** Numbers *)

(** The text cannot continue a number. *)
Definition delim (s : string) : bool :=
  match s with
  | EmptyString => true
  | String c _ => Ascii.eqb c "," || Ascii.eqb c "]" || Ascii.eqb c "}" || Ascii.eqb c ":" || is_ws c
  end.

Lemma delim_cases c s : delim (String c s) = true ->
  is_dec c = false /\ Ascii.eqb c "." = false /\ Ascii.eqb c "e" = false /\ Ascii.eqb c "E" = false /\
  Ascii.eqb c "+" = false /\ Ascii.eqb c "-" = false.
Proof. destruct c as [[] [] [] [] [] [] [] []]; cbn; try discriminate; intros _; vm_compute; done. Qed.

Lemma take_digits_app s rest : delim rest = true ->
  take_digits (s +:+ rest) = let (d, r) := take_digits s in (d, r +:+ rest).
Proof.
  intros Hd. induction s as [|c s IH]; [|rewrite str_cons_app; cbn; rewrite IH; destruct (is_dec c); [|done]; by destruct (take_digits s)].
  change (EmptyString +:+ rest) with rest. destruct rest as [|c rest]; [done|].
  destruct (delim_cases c rest Hd) as (Hc & _). cbn. by rewrite Hc.
Qed.

Definition extend (rest : string) (x : option (string * string)) : option (string * string) :=
  match x with Some (t, r) => Some (t, r +:+ rest) | None => None end.

Lemma parse_exp_app acc s rest : delim rest = true ->
  forall x, parse_exp acc s = Some x -> parse_exp acc (s +:+ rest) = extend rest (Some x).
Proof.
  intros Hd x. destruct s as [|e s].
  - intros [= <-]. change (EmptyString +:+ rest) with rest. destruct rest as [|c rest]; [done|].
    destruct (delim_cases c rest Hd) as (_ & _ & He & HE & _). cbn. by rewrite He, HE.
  - rewrite str_cons_app. cbn [parse_exp]. destruct (Ascii.eqb e "e" || Ascii.eqb e "E"); [|by intros [= <-]].
    destruct s as [|y s]; [done|]. rewrite str_cons_app. destruct (Ascii.eqb y "+" || Ascii.eqb y "-").
    + rewrite take_digits_app by done. destruct (take_digits s) as [ds r]. case_match; [done|]. by intros [= <-].
    + rewrite <- str_cons_app, take_digits_app by done. destruct (take_digits (String y s)) as [ds r].
      case_match; [done|]. by intros [= <-].
Qed.

Lemma parse_frac_app acc s rest x : delim rest = true ->
  parse_frac acc s = Some x -> parse_frac acc (s +:+ rest) = extend rest (Some x).
Proof.
  intros Hd. destruct s as [|y s].
  - intros Hx. pose proof (parse_exp_app acc "" rest Hd x Hx) as He.
    change (EmptyString +:+ rest) with rest in *. destruct rest as [|c rest]; [done|].
    destruct (delim_cases c rest Hd) as (_ & Hdot & _). cbn [parse_frac]. by rewrite Hdot.
  - rewrite str_cons_app. cbn [parse_frac]. destruct (Ascii.eqb y ".").
    + rewrite take_digits_app by done. destruct (take_digits s) as [ds r].
      destruct (String.eqb ds ""); [done|]. by apply parse_exp_app.
    + intros Hx. rewrite <- str_cons_app. by apply parse_exp_app.
Qed.

Lemma parse_int_app sign s rest x : delim rest = true ->
  parse_int sign s = Some x -> parse_int sign (s +:+ rest) = extend rest (Some x).
Proof.
  intros Hd. destruct s as [|c s]; [done|]. rewrite str_cons_app. cbn [parse_int].
  destruct (Ascii.eqb c "0"); [by apply parse_frac_app|]. destruct (is_dec c); [|done].
  rewrite take_digits_app by done. destruct (take_digits s) as [ds r]. by apply parse_frac_app.
Qed.

Lemma parse_number_app t rest : delim rest = true ->
  parse_number t = Some (t, "") -> parse_number (t +:+ rest) = Some (t, rest).
Proof.
  intros Hd Ht. change (Some (t, rest)) with (extend rest (Some (t, ""))). destruct t as [|c t]; [done|].
  rewrite str_cons_app. cbn [parse_number] in *. destruct (Ascii.eqb c "-").
  - by apply parse_int_app.
  - rewrite <- str_cons_app. by apply parse_int_app.
Qed.

(** The text of a number starts with a digit or a minus sign. *)
Definition num_start (c : ascii) : bool := is_dec c || Ascii.eqb c "-".

Lemma parse_number_start c t x : parse_number (String c t) = Some x -> num_start c = true.
Proof.
  cbn [parse_number]. unfold num_start. destruct (Ascii.eqb_spec c "-"); [by rewrite orb_true_r|].
  cbn [parse_int]. destruct (Ascii.eqb_spec c "0") as [->|]; [done|]. by destruct (is_dec c).
Qed.

Lemma num_start_other c : num_start c = true ->
  is_ws c = false /\ Ascii.eqb c dquote = false /\ Ascii.eqb c "[" = false /\ Ascii.eqb c "{" = false /\
  Ascii.eqb c "n" = false /\ Ascii.eqb c "t" = false /\ Ascii.eqb c "f" = false.
Proof. destruct c as [[] [] [] [] [] [] [] []]; cbn; try discriminate; intros _; vm_compute; done. Qed.

Lemma take_digits_all s : all_chars is_dec s = true -> take_digits s = (s, "").
Proof. induction s as [|c s IH]; cbn; [done|]. intros [Hc Hs]%andb_prop. by rewrite Hc, IH. Qed.

Lemma digit_char_dec d : 0 <= d < 10 -> is_dec (digit_char d) = true.
Proof.
  intros Hd. assert (Hall : forallb (fun n => is_dec (digit_char (Z.of_nat n))) (seq 0 10) = true) by reflexivity.
  rewrite forallb_forall in Hall. specialize (Hall (Z.to_nat d)). rewrite Z2Nat.id in Hall by lia.
  apply Hall, in_seq. lia.
Qed.

(** The text of a positive number does not start with a zero. *)
Lemma fmt_digits_head fuel n acc : 0 < n < 2 ^ Z.of_nat fuel ->
  exists d s, fmt_digits fuel 10 n acc = String (digit_char d) s /\ 1 <= d <= 9.
Proof.
  revert n acc. induction fuel as [|f IH]; intros n acc Hn; [cbn in Hn; lia|]. cbn [fmt_digits].
  pose proof (Z.div_mod n 10 ltac:(lia)). pose proof (Z.mod_pos_bound n 10 ltac:(lia)).
  destruct (Z.eqb_spec (n / 10) 0) as [Hq|Hq].
  - exists (n mod 10), acc. split; [done|lia].
  - rewrite Nat2Z.inj_succ, Z.pow_succ_r in Hn by lia. apply IH.
    pose proof (Z.div_pos n 10 ltac:(lia) ltac:(lia)). split; [lia|]. apply Z.div_lt_upper_bound; lia.
Qed.

Lemma parse_number_FormatUint n : 0 <= n -> parse_number (FormatUint n) = Some (FormatUint n, "").
Proof.
  intros Hn. destruct (decide (n = 0)) as [->|Hne]; [reflexivity|].
  assert (Hall : all_chars is_dec (FormatUint n) = true)
    by (apply fmt_digits_all; [lia|intros; by apply digit_char_dec|done]).
  destruct (fmt_digits_head (fmt_fuel n) n "") as (d & s & Hs & Hd); [split; [lia|by apply fmt_fuel_enough]|].
  change (fmt_digits (fmt_fuel n) 10 n "") with (FormatUint n) in Hs. rewrite Hs in *.
  cbn [all_chars] in Hall. apply andb_prop in Hall as [Hc Hall].
  assert (Hz : Ascii.eqb (digit_char d) "0" = false /\ Ascii.eqb (digit_char d) "-" = false).
  { assert (Hd' : d = 1 \/ d = 2 \/ d = 3 \/ d = 4 \/ d = 5 \/ d = 6 \/ d = 7 \/ d = 8 \/ d = 9) by lia.
    by destruct_or! Hd'; subst d. }
  cbn [parse_number]. destruct Hz as [Hz ->]. cbn [parse_int]. rewrite Hz, Hc, take_digits_all by done. done.
Qed.

(** ** Values *)

(** What [json.Marshal] can print: UTF-8 strings, and numbers in JSON's form. *)
Fixpoint wf_json (j : json) : Prop :=
  match j with
  | JNum t => parse_number t = Some (t, "")
  | JStr s => utf8 s
  | JArr l => fold_right (fun v P => wf_json v /\ P) True l
  | JObj l => fold_right (fun kv P => utf8 kv.1 /\ wf_json kv.2 /\ P) True l
  | _ => True
  end.

Lemma json_nested_ind (P : json -> Prop) :
  P JNull -> (forall b, P (JBool b)) -> (forall t, P (JNum t)) -> (forall s, P (JStr s)) ->
  (forall l, Forall P l -> P (JArr l)) -> (forall l, Forall (fun kv => P kv.2) l -> P (JObj l)) -> forall j, P j.
Proof.
  intros Hn Hb Ht Hs Ha Ho. fix IH 1. intros [|b|t|s|l|l]; [done|done|done|done| |].
  - apply Ha. induction l as [|v l IHl]; constructor; [apply IH|exact IHl].
  - apply Ho. induction l as [|[k v] l IHl]; constructor; [apply IH|exact IHl].
Qed.

(** The first character printed is no white space and closes nothing. *)
Definition opens (c : ascii) : bool := negb (is_ws c) && negb (Ascii.eqb c "]") && negb (Ascii.eqb c "}").

Lemma print_start j : wf_json j -> exists c s, print j = String c s /\ opens c = true.
Proof.
  destruct j as [|[]|t|s|l|l]; intros Hw; try (by eexists _, _).
  cbn in *. destruct t as [|c t]; [done|]. exists c, t. split; [done|].
  apply parse_number_start in Hw. destruct c as [[] [] [] [] [] [] [] []]; cbn in Hw; try discriminate; done.
Qed.

Lemma skip_ws_start c s : is_ws c = false -> skip_ws (String c s) = String c s.
Proof. intros Hc. cbn. by rewrite Hc. Qed.

Definition parses (j : json) : Prop := forall f rest, wf_json j -> delim rest = true ->
  (String.length (print j) <= f)%nat -> parse_value f (print j +:+ rest) = Some (j, rest).

Definition member (kv : string * json) : string := quote_json kv.1 +:+ ":" +:+ print kv.2.

Lemma concat_cons sep x y l : String.concat sep (x :: y :: l) = x +:+ sep +:+ String.concat sep (y :: l).
Proof. done. Qed.

Lemma print_nonempty j : wf_json j -> (0 < String.length (print j))%nat.
Proof. intros Hw. destruct (print_start j Hw) as (c & s & -> & _). cbn. lia. Qed.

Lemma opens_skip c s : opens c = true -> skip_ws (String c s) = String c s.
Proof. unfold opens. intros Ho. apply skip_ws_start. by destruct (is_ws c). Qed.

(** One element and the rest of the list. *)
Lemma elems_roundtrip l : Forall parses l -> forall f rest,
  l <> [] -> wf_json (JArr l) -> (S (String.length (String.concat "," (map print l))) <= f)%nat ->
  parse_elems f (String.concat "," (map print l) +:+ String "]" rest) = Some (l, rest).
Proof.
  induction 1 as [|v l Hv Hl IH]; intros f rest Hne Hw Hf; [done|]. destruct Hw as [Hwv Hw].
  destruct f as [|f]; [lia|]. cbn [parse_elems]. destruct l as [|v' l].
  - cbn [map String.concat] in *. rewrite Hv by (done || lia). done.
  - cbn [map] in *. rewrite concat_cons in *. rewrite !str_length_app in Hf. rewrite !str_app_assoc.
    change ("," +:+ ?x) with (String "," x). rewrite Hv by (done || lia).
    cbn [skip_ws is_ws]. change (is_ws ",") with false. cbn match.
    rewrite IH; [done|done|done|]. change (String.length ",") with 1%nat in Hf. lia.
Qed.

Lemma quote_json_app s t :
  quote_json s +:+ t = String dquote (quote_json_body (String.length s) s +:+ String dquote t).
Proof. unfold quote_json. by rewrite str_cons_app, str_app_assoc. Qed.

Lemma members_roundtrip l : Forall (fun kv => parses kv.2) l -> forall f rest,
  l <> [] -> wf_json (JObj l) -> (S (String.length (String.concat "," (map member l))) <= f)%nat ->
  parse_members f (String.concat "," (map member l) +:+ String "}" rest) = Some (l, rest).
Proof.
  induction 1 as [|[k v] l Hv Hl IH]; intros f rest Hne Hw Hf; [done|]. destruct Hw as (Hwk & Hwv & Hw).
  cbn [fst snd] in *. destruct f as [|f]; [lia|]. cbn [parse_members].
  assert (Hlen : (String.length (print v) < String.length (member (k, v)))%nat).
  { unfold member. cbn [fst snd]. rewrite !str_length_app. cbn. lia. }
  destruct l as [|kv' l].
  - cbn [map String.concat] in *. unfold member. cbn [fst snd]. rewrite str_app_assoc, quote_json_app.
    rewrite opens_skip by done. rewrite Ascii.eqb_refl, parse_string_quote by done.
    rewrite str_app_assoc. change (":" +:+ ?x) with (String ":" x). rewrite skip_ws_start by done.
    rewrite Hv by (done || lia). done.
  - cbn [map] in *. rewrite concat_cons in *. rewrite !str_length_app in Hf. rewrite !str_app_assoc.
    unfold member at 1. cbn [fst snd]. rewrite str_app_assoc, quote_json_app.
    rewrite opens_skip by done. rewrite Ascii.eqb_refl, parse_string_quote by done.
    rewrite str_app_assoc. change (":" +:+ ?x) with (String ":" x). rewrite skip_ws_start by done.
    change ("," +:+ ?x) with (String "," x). rewrite Hv by (done || lia).
    cbn [skip_ws]. change (is_ws ",") with false. cbn match.
    rewrite IH; [done|done|done|]. change (String.length ",") with 1%nat in Hf. lia.
Qed.

Lemma first_elem_start l : wf_json (JArr l) -> l <> [] ->
  exists c s, String.concat "," (map print l) = String c s /\ opens c = true.
Proof.
  destruct l as [|v l]; [done|]. intros [Hv _] _. destruct (print_start v Hv) as (c & s & Hp & Ho).
  destruct l; cbn; rewrite Hp; eauto.
Qed.

Lemma first_member_start l : l <> [] -> exists s, String.concat "," (map member l) = String dquote s.
Proof. destruct l as [|[k v] [|kv l]]; [done| |]; intros _; eexists; reflexivity. Qed.

Lemma not_opens_other c : opens c = true ->
  is_ws c = false /\ Ascii.eqb c "]" = false /\ Ascii.eqb c "}" = false.
Proof. unfold opens. destruct (is_ws c), (Ascii.eqb c "]"), (Ascii.eqb c "}"); done. Qed.

Lemma parse_arr f l rest : Forall parses l -> wf_json (JArr l) ->
  (S (S (String.length (String.concat "," (map print l)))) <= f)%nat ->
  parse_value f (print (JArr l) +:+ rest) = Some (JArr l, rest).
Proof.
  intros Hl Hw Hf. destruct f as [|f]; [lia|]. cbn [print]. rewrite !str_app_assoc.
  change ("[" +:+ ?x) with (String "[" x). change ("]" +:+ rest) with (String "]" rest).
  cbn [parse_value]. rewrite skip_ws_start by done.
  change (Ascii.eqb "[" dquote) with false. rewrite Ascii.eqb_refl. cbn match.
  destruct (decide (l = [])) as [->|Hne]; [done|].
  pose proof (elems_roundtrip l Hl f rest Hne Hw ltac:(lia)) as He.
  destruct (first_elem_start l Hw Hne) as (c & s & Hs & Ho). rewrite Hs in *. rewrite str_cons_app in *.
  rewrite opens_skip by done. destruct (not_opens_other c Ho) as (_ & Hc & _). rewrite He.
  destruct c as [[] [] [] [] [] [] [] []]; try done.
Qed.

Lemma parse_obj f l rest : Forall (fun kv => parses kv.2) l -> wf_json (JObj l) ->
  (S (S (String.length (String.concat "," (map member l)))) <= f)%nat ->
  parse_value f (print (JObj l) +:+ rest) = Some (JObj l, rest).
Proof.
  intros Hl Hw Hf. destruct f as [|f]; [lia|].
  change (print (JObj l)) with ("{" +:+ String.concat "," (map member l) +:+ "}"). rewrite !str_app_assoc.
  change ("{" +:+ ?x) with (String "{" x). change ("}" +:+ rest) with (String "}" rest).
  cbn [parse_value]. rewrite skip_ws_start by done.
  change (Ascii.eqb "{" dquote) with false. change (Ascii.eqb "{" "[") with false. rewrite Ascii.eqb_refl. cbn match.
  destruct (decide (l = [])) as [->|Hne]; [done|].
  pose proof (members_roundtrip l Hl f rest Hne Hw ltac:(lia)) as He.
  destruct (first_member_start l Hne) as (s & Hs). rewrite Hs in *. rewrite str_cons_app in *.
  rewrite opens_skip by done. by rewrite He.
Qed.

Lemma print_parses j : parses j.
Proof.
  induction j as [|[]|t|s|l Hl|l Hl] using json_nested_ind; intros f rest Hw Hd Hf;
    try (destruct f as [|f]; [cbn in Hf; lia|done]).
  - cbn in Hf, Hw. pose proof (print_nonempty (JNum t) Hw) as Hn. cbn in Hn. destruct f as [|f]; [lia|].
    pose proof (parse_number_app t rest Hd Hw) as Hp. cbn [print].
    destruct t as [|c t]; [cbn in Hn; lia|]. rewrite str_cons_app in *. cbn [parse_value].
    apply parse_number_start in Hw. destruct (num_start_other c Hw) as (Hws & Hq & Ha & Ho & Hnn & Ht & Hff).
    rewrite skip_ws_start by done. rewrite Hq, Ha, Ho, Hnn, Ht, Hff. by rewrite Hp.
  - destruct f as [|f]; [cbn in Hf; lia|]. cbn [print parse_value]. rewrite quote_json_app, skip_ws_start by done.
    rewrite Ascii.eqb_refl. by rewrite parse_string_quote.
  - apply parse_arr; [done|done|]. cbn [print] in Hf. rewrite !str_length_app in Hf. cbn in Hf. lia.
  - apply parse_obj; [done|done|]. change (print (JObj l)) with ("{" +:+ String.concat "," (map member l) +:+ "}") in Hf.
    rewrite !str_length_app in Hf. cbn in Hf. lia.
Qed.

(** Parsing what was printed gives the value back. *)
Lemma parse_print j : wf_json j -> parse (print j) = Some j.
Proof.
  intros Hw. unfold parse. pose proof (print_parses j (2 * S (String.length (print j)))%nat "" Hw eq_refl ltac:(lia)) as Hp.
  rewrite str_app_nil_r in Hp. by rewrite Hp.
Qed.

(** ** The fuel is enough for every text *)

Lemma str_drop_length n s : (String.length (str_drop (S n) s) <= String.length s - 1)%nat.
Proof.
  enough (forall n s, String.length (str_drop n s) = (String.length s - n)%nat) as -> by lia.
  clear. induction n as [|n IH]; intros [|c s]; [done|done|done|apply IH].
Qed.

Lemma hex4_length s n r : hex4 s = Some (n, r) -> (String.length r < String.length s)%nat.
Proof.
  destruct s as [|a [|b [|c [|d s]]]]; try done. cbn. case_match; [|done]. intros [= _ <-]. lia.
Qed.

Lemma unicode_escape_length n s : (String.length (unicode_escape n s).2 <= String.length s)%nat.
Proof.
  unfold unicode_escape. repeat case_match; subst; cbn; try lia.
  all: match goal with Hh : hex4 _ = Some _ |- _ => apply hex4_length in Hh end; lia.
Qed.

Lemma prepend_Some {B} p (x : option (string * B)) s r : prepend p x = Some (s, r) -> exists s', x = Some (s', r).
Proof. destruct x as [[s' b]|]; [|done]. intros [= _ <-]. eauto. Qed.

Lemma unquote_shorter f : forall s t r, unquote f s = Some (t, r) -> (String.length r < String.length s)%nat.
Proof.
  induction f as [|f IH]; intros [|c s] t r; try done. cbn [unquote].
  destruct (Ascii.eqb c dquote); [intros [= <- <-]; cbn; lia|].
  destruct (Ascii.eqb c "\").
  { destruct s as [|e s]; [done|]. destruct (simple_escape e).
    - intros [s' Hu]%prepend_Some. apply IH in Hu. cbn. lia.
    - destruct (Ascii.eqb e "u"); [|done]. destruct (hex4 s) as [[n s3]|] eqn:E; [|done].
      apply hex4_length in E. pose proof (unicode_escape_length n s3) as Hl.
      destruct (unicode_escape n s3) as [x s4]. intros [s' Hu]%prepend_Some. apply IH in Hu. cbn in *. lia. }
  destruct (ascii_Z c <? 32); [done|]. destruct (rune_len (String c s)) as [|n].
  - intros [s' Hu]%prepend_Some. apply IH in Hu. cbn. lia.
  - intros [s' Hu]%prepend_Some. apply IH in Hu. pose proof (str_drop_length n (String c s)). lia.
Qed.

Lemma unquote_fuel f : forall g s, (String.length s <= f)%nat -> (f <= g)%nat -> unquote g s = unquote f s.
Proof.
  induction f as [|f IH]; intros [|g] [|c s] Hf Hg; cbn in Hf; try lia; try done. cbn [unquote].
  destruct (Ascii.eqb c dquote); [done|]. destruct (Ascii.eqb c "\").
  { destruct s as [|e s]; [done|]. cbn in Hf. destruct (simple_escape e); [by rewrite (IH g) by lia|].
    destruct (Ascii.eqb e "u"); [|done]. destruct (hex4 s) as [[n s3]|] eqn:E; [|done].
    apply hex4_length in E. pose proof (unicode_escape_length n s3) as Hl.
    destruct (unicode_escape n s3) as [x s4]. cbn in Hl. by rewrite (IH g) by lia. }
  destruct (ascii_Z c <? 32); [done|]. destruct (rune_len (String c s)) as [|n]; [by rewrite (IH g) by lia|].
  pose proof (str_drop_length n (String c s)). cbn [String.length] in *. by rewrite (IH g) by lia.
Qed.

Lemma skip_ws_length s : (String.length (skip_ws s) <= String.length s)%nat.
Proof. induction s as [|c s IH]; cbn; [done|]. case_match; cbn; lia. Qed.

Lemma strip_prefix_length p s r : strip_prefix p s = Some r -> (String.length r <= String.length s)%nat.
Proof.
  revert s. induction p as [|a p IH]; intros [|c s]; cbn; try (by intros [= <-]); try done.
  case_match; [|done]. intros Hr. apply IH in Hr. lia.
Qed.

Lemma take_digits_length s : (String.length (take_digits s).2 <= String.length s)%nat.
Proof. induction s as [|c s IH]; cbn; [done|]. case_match; [|done]. destruct (take_digits s). cbn in *. lia. Qed.

Lemma parse_exp_length acc s t r : parse_exp acc s = Some (t, r) -> (String.length r <= String.length s)%nat.
Proof.
  destruct s as [|e s]; cbn [parse_exp]; [by intros [= _ <-]|].
  destruct (_ || _); [|by intros [= _ <-]].
  assert (Hsg : exists sg s2, match s with
      | EmptyString => ("", s)
      | String x s2 => if Ascii.eqb x "+" || Ascii.eqb x "-" then (String x "", s2) else ("", s)
      end = (sg, s2) /\ (String.length s2 <= String.length s)%nat).
  { destruct s as [|x s]; [by eexists _, _|]. case_match; eexists _, _; (split; [reflexivity|]); cbn; lia. }
  destruct Hsg as (sg & s2 & -> & Hl). pose proof (take_digits_length s2) as Ht. destruct (take_digits s2) as [ds x].
  destruct (String.eqb ds ""); [done|]. intros [= _ <-]. cbn in *. lia.
Qed.

Lemma parse_frac_length acc s t r : parse_frac acc s = Some (t, r) -> (String.length r <= String.length s)%nat.
Proof.
  destruct s as [|x s]; cbn [parse_frac]; [by intros ?%parse_exp_length|].
  destruct (Ascii.eqb x "."); [|by intros ?%parse_exp_length].
  pose proof (take_digits_length s) as Ht. destruct (take_digits s) as [ds y]. destruct (String.eqb ds ""); [done|].
  intros Hr%parse_exp_length. cbn in *. lia.
Qed.

Lemma parse_number_length s t r : parse_number s = Some (t, r) -> (String.length r < String.length s)%nat.
Proof.
  assert (Hi : forall sg s t r, parse_int sg s = Some (t, r) -> (String.length r < String.length s)%nat).
  { clear. intros sg [|c s] t r; [done|]. cbn [parse_int]. case_match; [intros Hr%parse_frac_length; cbn; lia|].
    case_match; [|done]. pose proof (take_digits_length s) as Ht. destruct (take_digits s) as [ds y].
    intros Hr%parse_frac_length. cbn in *. lia. }
  destruct s as [|c s]; [done|]. cbn [parse_number]. case_match; intros Hr%Hi; cbn in *; lia.
Qed.

(** What each of the three parsers leaves is shorter than what it was given. *)
Lemma parse_shorter f :
  (forall s v r, parse_value f s = Some (v, r) -> (String.length r < String.length s)%nat) /\
  (forall s v r, parse_elems f s = Some (v, r) -> (String.length r < String.length s)%nat) /\
  (forall s v r, parse_members f s = Some (v, r) -> (String.length r < String.length s)%nat).
Proof.
  induction f as [|f (IHv & IHe & IHm)]; [done|]. split_and!.
  - intros s v r. cbn [parse_value]. pose proof (skip_ws_length s) as Hs. destruct (skip_ws s) as [|c s']; [done|].
    cbn [String.length] in Hs. pose proof (skip_ws_length s') as Hs'.
    case_match; [case_match eqn:E; [|done]; destruct_and?; case_match; intros [= _ <-]; apply unquote_shorter in E; lia|].
    case_match.
    { repeat case_match; try done; intros [= _ <-]; cbn [String.length] in *;
        try match goal with He : parse_elems _ _ = _ |- _ => apply IHe in He end; lia. }
    case_match.
    { repeat case_match; try done; intros [= _ <-]; cbn [String.length] in *;
        try match goal with He : parse_members _ _ = _ |- _ => apply IHm in He end; lia. }
    repeat case_match; try done; intros [= _ <-];
      try match goal with Hp : strip_prefix _ _ = _ |- _ => apply strip_prefix_length in Hp end;
      try match goal with Hp : parse_number _ = _ |- _ => apply parse_number_length in Hp; cbn [String.length] in Hp end; lia.
  - intros s v r. cbn [parse_elems]. destruct (parse_value f s) as [[x r1]|] eqn:Ev; [|done]. apply IHv in Ev.
    pose proof (skip_ws_length r1) as Hs. repeat case_match; try done; intros [= _ <-]; cbn [String.length] in *;
      try match goal with He : parse_elems _ _ = _ |- _ => apply IHe in He end; lia.
  - intros s v r. cbn [parse_members]. pose proof (skip_ws_length s) as Hs. destruct (skip_ws s) as [|c s']; [done|].
    cbn [String.length] in Hs. case_match; [|done]. destruct (parse_string s') as [[k r1]|] eqn:Ek; [|done].
    apply unquote_shorter in Ek. pose proof (skip_ws_length r1) as Hs1.
    repeat case_match; try done; intros [= _ <-]; cbn [String.length] in *;
      match goal with Hv : parse_value _ _ = Some (_, ?r2) |- _ =>
        apply IHv in Hv; pose proof (skip_ws_length r2) as Hs2 end;
      try match goal with He : parse_members _ _ = _ |- _ => apply IHm in He end;
      match goal with He : skip_ws _ = String _ _ |- _ => idtac end;
      repeat match goal with He : skip_ws ?x = String _ _, Hl : (String.length (skip_ws ?x) <= _)%nat |- _ =>
        rewrite He in Hl; cbn [String.length] in Hl end; lia.
Qed.

(** Enough fuel is two per character; more changes nothing. *)
Lemma parse_fuel f : forall g s, (f <= g)%nat ->
  ((2 * String.length s <= f)%nat -> parse_value g s = parse_value f s) /\
  ((2 * String.length s < f)%nat -> parse_elems g s = parse_elems f s /\ parse_members g s = parse_members f s).
Proof.
  induction f as [|f IH]; intros g s Hg.
  { split; [|lia]. intros Hs. destruct s; [by destruct g|cbn in Hs; lia]. }
  destruct g as [|g]; [lia|]. specialize (fun s => IH g s ltac:(lia)). split; [|intros Hs; split].
  - intros Hs. cbn [parse_value]. pose proof (skip_ws_length s) as Hl. destruct (skip_ws s) as [|c s']; [done|].
    cbn [String.length] in Hl. destruct (IH s') as [_ Hem]. destruct Hem as [-> ->]; [lia|]. done.
  - cbn [parse_elems]. destruct (IH s) as [-> _]; [|lia].
    destruct (parse_value f s) as [[v r]|] eqn:E; [|done]. apply parse_shorter in E.
    pose proof (skip_ws_length r) as Hl. destruct (skip_ws r) as [|c r']; [done|]. cbn [String.length] in Hl.
    destruct (IH r') as [_ Hem]. destruct Hem as [-> _]; [lia|]. done.
  - cbn [parse_members]. pose proof (skip_ws_length s) as Hl. destruct (skip_ws s) as [|c s']; [done|].
    cbn [String.length] in Hl. case_match; [|done]. destruct (parse_string s') as [[k r1]|] eqn:Ek; [|done].
    apply unquote_shorter in Ek. pose proof (skip_ws_length r1) as Hl1. destruct (skip_ws r1) as [|c1 r2]; [done|].
    cbn [String.length] in Hl1. destruct (IH r2) as [-> _]; [|lia].
    destruct (parse_value f r2) as [[v r3]|] eqn:Ev; [|by repeat case_match]. apply parse_shorter in Ev.
    pose proof (skip_ws_length r3) as Hl3. destruct (skip_ws r3) as [|c3 r4]; [done|]. cbn [String.length] in Hl3.
    destruct (IH r4) as [_ Hem]. destruct Hem as [_ ->]; [lia|]. done.
Qed.

Lemma parse_value_fuel g s : (2 * String.length s <= g)%nat ->
  parse_value g s = parse_value (2 * String.length s) s.
Proof. intros Hg. by apply parse_fuel. Qed.

(** ** Decoding into Go values *)

(** The key under which the decoder compares field names that do not match
    exactly: upper case, with the two other characters that fold to ASCII. *)
Definition upper (c : ascii) : ascii := if in_range "a" "z" c then Z_ascii (ascii_Z c - 32) else c.
Fixpoint fold_name (s : string) : string :=
  match s with
  | EmptyString => EmptyString
  | String c s1 =>
      match s1 with
      | String d s2 =>
          if (ascii_Z c =? 197) && (ascii_Z d =? 191) then String "S" (fold_name s2)
          else match s2 with
               | String e s3 =>
                   if (ascii_Z c =? 226) && (ascii_Z d =? 132) && (ascii_Z e =? 170) then String "K" (fold_name s3)
                   else String (upper c) (fold_name s1)
               | EmptyString => String (upper c) (fold_name s1)
               end
      | EmptyString => String (upper c) EmptyString
      end
  end.

(** The field an object's key goes to. *)
Definition find_field {A} (fields : list (string * A)) (key : string) : option A :=
  match List.find (fun f => String.eqb f.1 key) fields with
  | Some f => Some f.2
  | None => snd <$> List.find (fun f => String.eqb (fold_name f.1) (fold_name key)) fields
  end.

(** How a value is stored in a variable that holds one already; [None] is a
    type error. *)
Definition decoder (A : Type) : Type := json -> A -> option A.

Definition decode_string : decoder string := fun j old =>
  match j with JStr s => Some s | JNull => Some old | _ => None end.
Definition decode_uint64 : decoder Z := fun j old =>
  match j with
  | JNum t => match ParseUint t with Ok n => Some n | Err _ => None end
  | JNull => Some old
  | _ => None
  end.
Definition decode_slice {A} (dec : decoder A) (zero : A) : decoder (list A) := fun j _ =>
  match j with JNull => Some [] | JArr l => mapM (fun v => dec v zero) l | _ => None end.
Definition decode_struct {A} (fields : list (string * decoder A)) : decoder A := fun j old =>
  match j with
  | JNull => Some old
  | JObj l =>
      fold_left (fun acc kv =>
        acc ≫= fun a => match find_field fields kv.1 with Some dec => dec kv.2 a | None => Some a end) l (Some old)
  | _ => None
  end.
(** Into a map, where every member makes a new element. *)
Definition decode_map {A} (dec : decoder A) (zero : A) : decoder (gmap string A) := fun j old =>
  match j with
  | JNull => Some ∅
  | JObj l => fold_left (fun acc kv => acc ≫= fun m => (fun a => <[kv.1 := a]> m) <$> dec kv.2 zero) l (Some old)
  | _ => None
  end.

(** [json.Unmarshal(data, &v)] with [v] the zero value. *)
Definition Unmarshal {A} (dec : decoder A) (zero : A) (data : string) : result A :=
  match parse data ≫= fun j => dec j zero with Some a => Ok a | None => Err (EJson data) end.

Lemma Unmarshal_print {A} (dec : decoder A) zero j : wf_json j ->
  Unmarshal dec zero (print j) = match dec j zero with Some a => Ok a | None => Err (EJson (print j)) end.
Proof. intros Hw. unfold Unmarshal. by rewrite parse_print. Qed.

Lemma decode_slice_encode {A} (dec : decoder A) zero (enc : A -> json) l old :
  Forall (fun a => dec (enc a) zero = Some a) l -> decode_slice dec zero (JArr (map enc l)) old = Some l.
Proof. intros Hl. cbn. induction Hl as [|a l Ha Hl IH]; [done|]. cbn. by rewrite Ha, IH. Qed.

Lemma wf_JArr {A} (enc : A -> json) l : Forall (fun a => wf_json (enc a)) l -> wf_json (JArr (map enc l)).
Proof. induction 1; cbn in *; auto. Qed.
