(* ===== verification/JsonRaw.v ===== *)
(** * Raw JSON texts

    What [encoding/json] stores in a [json.RawMessage] or hands to an
    [UnmarshalJSON] method is the text of a value as it stands in the source.
    The functions of this file split an object or an array into the texts of its
    parts, with their values; they agree with the parser of [Json.v], and on
    printed values the texts are what was printed. *)

From stdpp Require Import base gmap list strings.
From Stdlib Require Import ZArith Lia Ascii.
From Stdlib Require String.
From S2P Require Import Prelude GoStd Json.

Local Open Scope Z_scope.
#[local] Arguments FormatUint : simpl never.
#[local] Arguments ParseUint : simpl never.

(** A value and its text, without the white space around it. *)
Record raw := MkRaw { raw_text : string; raw_value : json }.

Definition raw_of (f : nat) (s : string) : option (raw * string) :=
  match parse_value f s with
  | Some (v, r) => let t := skip_ws s in Some (MkRaw (str_take (String.length t - String.length r) t) v, r)
  | None => None
  end.

(** [parse_elems] and [parse_members] of [Json.v], with the texts. *)
Fixpoint raw_elems (fuel : nat) (s : string) : option (list raw * string) :=
  match fuel with
  | O => None
  | S f =>
      match raw_of f s with
      | Some (v, r) =>
          match skip_ws r with
          | String "," r' =>
              match raw_elems f r' with Some (l, r'') => Some (v :: l, r'') | None => None end
          | String "]" r' => Some ([v], r')
          | _ => None
          end
      | None => None
      end
  end.

Fixpoint raw_members (fuel : nat) (s : string) : option (list (string * raw) * string) :=
  match fuel with
  | O => None
  | S f =>
      match skip_ws s with
      | String c s' =>
          if Ascii.eqb c dquote then
            match parse_string s' with
            | Some (k, r) =>
                match skip_ws r with
                | String ":" r1 =>
                    match raw_of f r1 with
                    | Some (v, r2) =>
                        match skip_ws r2 with
                        | String "," r3 =>
                            match raw_members f r3 with
                            | Some (l, r4) => Some ((k, v) :: l, r4)
                            | None => None
                            end
                        | String "}" r3 => Some ([(k, v)], r3)
                        | _ => None
                        end
                    | None => None
                    end
                | _ => None
                end
            | None => None
            end
          else None
      | EmptyString => None
      end
  end.

(** The members of the object whose text is [s], and the elements of an array. *)
Definition raw_object (s : string) : option (list (string * raw)) :=
  match skip_ws s with
  | String "{" s' =>
      match skip_ws s' with
      | String "}" _ => Some []
      | _ => fst <$> raw_members (2 * S (String.length s)) s'
      end
  | _ => None
  end.

Definition raw_array (s : string) : option (list raw) :=
  match skip_ws s with
  | String "[" s' =>
      match skip_ws s' with
      | String "]" _ => Some []
      | _ => fst <$> raw_elems (2 * S (String.length s)) s'
      end
  | _ => None
  end.

Example raw_object_ex :
  raw_object (sq " { 'a' : [1, 2] , 'b':'x\u0041' } ") =
  Some [("a", MkRaw "[1, 2]" (JArr [JNum "1"; JNum "2"])); ("b", MkRaw (sq "'x\u0041'") (JStr "xA"))].
Proof. vm_compute. reflexivity. Qed.

(** ** Agreement with the parser *)

Definition strip (kv : string * raw) : string * json := (kv.1, raw_value kv.2).

Lemma raw_of_value f s :
  match raw_of f s with
  | Some (v, r) => parse_value f s = Some (raw_value v, r)
  | None => parse_value f s = None
  end.
Proof. unfold raw_of. by destruct (parse_value f s) as [[v r]|]. Qed.

Lemma raw_elems_parse f : forall s,
  match raw_elems f s with
  | Some (l, r) => parse_elems f s = Some (map raw_value l, r)
  | None => parse_elems f s = None
  end.
Proof.
  induction f as [|f IH]; intros s; [done|]. cbn [raw_elems parse_elems]. pose proof (raw_of_value f s) as Hv.
  destruct (raw_of f s) as [[v r]|]; rewrite Hv; [|done]. destruct (skip_ws r) as [|c r']; [done|].
  specialize (IH r'). destruct (raw_elems f r') as [[l r'']|]; rewrite IH;
    destruct c as [[] [] [] [] [] [] [] []]; done.
Qed.

Lemma raw_members_parse f : forall s,
  match raw_members f s with
  | Some (l, r) => parse_members f s = Some (map strip l, r)
  | None => parse_members f s = None
  end.
Proof.
  induction f as [|f IH]; intros s; [done|]. cbn [raw_members parse_members]. destruct (skip_ws s) as [|c s']; [done|].
  destruct (Ascii.eqb c dquote); [|done]. destruct (parse_string s') as [[k r]|]; [|done].
  destruct (skip_ws r) as [|c1 r1]; [done|].
  enough (Hm : match match raw_of f r1 with
      | Some (v, r2) =>
          match skip_ws r2 with
          | String "," r3 => match raw_members f r3 with Some (l, r4) => Some ((k, v) :: l, r4) | None => None end
          | String "}" r3 => Some ([(k, v)], r3)
          | _ => None
          end
      | None => None
      end with
      | Some (l, r) => match parse_value f r1 with
          | Some (v, r2) =>
              match skip_ws r2 with
              | String "," r3 => match parse_members f r3 with Some (l, r4) => Some ((k, v) :: l, r4) | None => None end
              | String "}" r3 => Some ([(k, v)], r3)
              | _ => None
              end
          | None => None
          end = Some (map strip l, r)
      | None => match parse_value f r1 with
          | Some (v, r2) =>
              match skip_ws r2 with
              | String "," r3 => match parse_members f r3 with Some (l, r4) => Some ((k, v) :: l, r4) | None => None end
              | String "}" r3 => Some ([(k, v)], r3)
              | _ => None
              end
          | None => None
          end = None
      end) by (destruct c1 as [[] [] [] [] [] [] [] []]; done).
  pose proof (raw_of_value f r1) as Hv. destruct (raw_of f r1) as [[v r2]|]; rewrite Hv; [|done].
  destruct (skip_ws r2) as [|c2 r3]; [done|]. specialize (IH r3).
  destruct (raw_members f r3) as [[l r4]|]; rewrite IH; destruct c2 as [[] [] [] [] [] [] [] []]; done.
Qed.

(** A text that parses to an object has these members. *)
Lemma raw_object_parse s l : parse s = Some (JObj l) -> exists ms, raw_object s = Some ms /\ map strip ms = l.
Proof.
  unfold parse, raw_object. set (F := (2 * S (String.length s))%nat).
  assert (HF : exists f, F = S (S f) /\ (2 * String.length s <= f)%nat) by (exists (2 * String.length s)%nat; unfold F; lia).
  destruct HF as (f & HF & Hf). rewrite HF. remember (S f) as g eqn:Eg. cbn [parse_value].
  pose proof (skip_ws_length s) as Hs. destruct (skip_ws s) as [|c s']; [done|]. cbn [String.length] in Hs.
  assert (Hno : forall x : option (json * string), (forall v r, x = Some (v, r) -> v <> JObj l) ->
    match x with Some (v, r) => match skip_ws r with EmptyString => Some v | _ => None end | None => None end = Some (JObj l) -> False).
  { intros [[v r]|] Hv; [|done]. destruct (skip_ws r); [|done]. intros [= ->]. by apply (Hv (JObj l) r). }
  destruct (Ascii.eqb c dquote); [intros []%Hno; intros v r; repeat case_match; congruence|].
  destruct (Ascii.eqb c "["); [intros []%Hno; intros v r; repeat case_match; congruence|].
  destruct (Ascii.eqb_spec c "{") as [->|_]; [|intros []%Hno; intros v r; repeat case_match; congruence].
  pose proof (skip_ws_length s') as Hs'. destruct (parse_fuel g (S g) s' ltac:(lia)) as [_ Hp].
  destruct (Hp ltac:(lia)) as [_ Hm]. clear Hp. pose proof (raw_members_parse (S g) s') as Hr. rewrite Hm in Hr.
  assert (Hgen : match match parse_members g s' with Some (l0, r) => Some (JObj l0, r) | None => None end with
      | Some (v, r) => match skip_ws r with EmptyString => Some v | _ => None end | None => None end = Some (JObj l) ->
      exists ms, fst <$> raw_members (S g) s' = Some ms /\ map strip ms = l).
  { destruct (raw_members (S g) s') as [[ms r]|]; rewrite Hr; [|done]. destruct (skip_ws r); [|done].
    intros [= <-]. by exists ms. }
  destruct (skip_ws s') as [|c1 s1]; [exact Hgen|].
  destruct c1 as [[] [] [] [] [] [] [] []]; try exact Hgen. destruct (skip_ws s1); [|done]. intros [= <-]. by exists [].
Qed.

(** ** Printed values *)

Definition printed (kv : string * json) : string * raw := (kv.1, MkRaw (print kv.2) kv.2).

Lemma raw_of_print f v rest : wf_json v -> delim rest = true -> (String.length (print v) <= f)%nat ->
  raw_of f (print v +:+ rest) = Some (MkRaw (print v) v, rest).
Proof.
  intros Hw Hd Hf. unfold raw_of. rewrite (print_parses v f rest Hw Hd Hf).
  destruct (print_start v Hw) as (c & s & Hp & Ho). rewrite Hp in *. rewrite str_cons_app, opens_skip by done.
  rewrite <- str_cons_app, str_length_app.
  replace (String.length (String c s) + String.length rest - String.length rest)%nat with (String.length (String c s)) by lia.
  by rewrite str_take_app.
Qed.

Lemma raw_members_print l : forall f rest,
  l <> [] -> wf_json (JObj l) -> (S (String.length (String.concat "," (map member l))) <= f)%nat ->
  raw_members f (String.concat "," (map member l) +:+ String "}" rest) = Some (map printed l, rest).
Proof.
  induction l as [|[k v] l IH]; intros f rest Hne Hw Hf; [done|]. destruct Hw as (Hwk & Hwv & Hw).
  cbn [fst snd] in *. destruct f as [|f]; [lia|]. cbn [raw_members].
  assert (Hlen : (String.length (print v) < String.length (member (k, v)))%nat).
  { unfold member. cbn [fst snd]. rewrite !str_length_app. cbn. lia. }
  destruct l as [|kv' l].
  - cbn [map String.concat] in *. unfold member. cbn [fst snd]. rewrite str_app_assoc, quote_json_app.
    rewrite opens_skip by done. rewrite Ascii.eqb_refl, parse_string_quote by done.
    rewrite str_app_assoc. change (":" +:+ ?x) with (String ":" x). rewrite skip_ws_start by done.
    rewrite raw_of_print by (done || lia). done.
  - cbn [map] in *. rewrite concat_cons in *. rewrite !str_length_app in Hf. rewrite !str_app_assoc.
    unfold member at 1. cbn [fst snd]. rewrite str_app_assoc, quote_json_app.
    rewrite opens_skip by done. rewrite Ascii.eqb_refl, parse_string_quote by done.
    rewrite str_app_assoc. change (":" +:+ ?x) with (String ":" x). rewrite skip_ws_start by done.
    change ("," +:+ ?x) with (String "," x). rewrite raw_of_print by (done || lia).
    cbn [skip_ws]. change (is_ws ",") with false. cbn match.
    rewrite IH; [done|done|done|]. change (String.length ",") with 1%nat in Hf. lia.
Qed.

Lemma raw_object_print l : wf_json (JObj l) -> raw_object (print (JObj l)) = Some (map printed l).
Proof.
  intros Hw. unfold raw_object. 
  set (F := (2 * S (String.length (print (JObj l))))%nat).
  assert (HF : (S (String.length (String.concat "," (map member l))) <= F)%nat).
  { unfold F. change (print (JObj l)) with ("{" +:+ String.concat "," (map member l) +:+ "}"). rewrite !str_length_app. lia. }
  revert HF. generalize F. clear F. intros F HF.
  change (print (JObj l)) with ("{" +:+ String.concat "," (map member l) +:+ "}"). change ("{" +:+ ?x) with (String "{" x).
  rewrite skip_ws_start by done. cbn match. destruct (decide (l = [])) as [->|Hne]; [done|].
  pose proof (raw_members_print l F "" Hne Hw HF) as He. change (String "}" "") with "}" in He. rewrite He.
  destruct (first_member_start l Hne) as (s & ->). rewrite str_cons_app, opens_skip by done. done.
Qed.

(** ** Decoding structs field by field, from the texts *)

(** How a member is stored in a field: [None] is an error. *)
Definition raw_decoder (A : Type) : Type := raw -> A -> option A.

Definition decode_raw_members {A} (fields : list (string * raw_decoder A)) (ms : list (string * raw)) (old : A) : option A :=
  fold_left (fun acc kv =>
    acc ≫= fun a => match find_field fields kv.1 with Some dec => dec kv.2 a | None => Some a end) ms (Some old).

(** [json.Unmarshal(data, &v)] for a struct; the [null] value leaves it alone. *)
Definition Unmarshal_struct {A} (fields : list (string * raw_decoder A)) (old : A) (data : string) : result A :=
  match match parse data with
        | Some JNull => Some old
        | Some (JObj _) => raw_object data ≫= fun ms => decode_raw_members fields ms old
        | _ => None
        end with
  | Some a => Ok a
  | None => Err (EJson data)
  end.

Lemma Unmarshal_struct_print {A} (fields : list (string * raw_decoder A)) old l : wf_json (JObj l) ->
  Unmarshal_struct fields old (print (JObj l)) =
  match decode_raw_members fields (map printed l) old with Some a => Ok a | None => Err (EJson (print (JObj l))) end.
Proof. intros Hw. unfold Unmarshal_struct. by rewrite parse_print, raw_object_print. Qed.

(** ** Signed integers *)

(** [strconv.FormatInt(n, 10)], what [%d] prints. *)
Definition FormatInt (n : Z) : string := if n <? 0 then String "-" (FormatUint (- n)) else FormatUint n.

(** [strconv.ParseInt(s, 10, 64)] on the texts of JSON numbers, which have no
    leading [+]. *)
Definition ParseInt (s : string) : option Z :=
  match s with
  | String "-" s' =>
      match ParseUint s' with Ok n => if two63 <? n then None else Some (- n) | Err _ => None end
  | _ => match ParseUint s with Ok n => if two63 <=? n then None else Some n | Err _ => None end
  end.

Definition decode_int64 : decoder Z := fun j old =>
  match j with JNum t => ParseInt t | JNull => Some old | _ => None end.
Definition decode_bool : decoder bool := fun j old =>
  match j with JBool b => Some b | JNull => Some old | _ => None end.

Lemma FormatUint_dec n : 0 <= n -> all_chars is_dec (FormatUint n) = true.
Proof. intros Hn. apply fmt_digits_all; [lia|intros; by apply digit_char_dec|done]. Qed.

Lemma ParseInt_FormatInt n : is_i64 n -> ParseInt (FormatInt n) = Some n.
Proof.
  unfold is_i64, FormatInt, two63. intros Hn. destruct (Z.ltb_spec n 0) as [Hneg|Hpos].
  - unfold ParseInt. rewrite ParseUint_FormatUint by (unfold is_u64, two64; lia). unfold two63.
    destruct (Z.ltb_spec 9223372036854775808 (- n)); [lia|]. f_equal. lia.
  - assert (Hp : ParseUint (FormatUint n) = Ok n) by (apply ParseUint_FormatUint; unfold is_u64, two64; lia).
    pose proof (FormatUint_dec n Hpos) as Hd. unfold ParseInt. destruct (FormatUint n) as [|c s] eqn:E; [done|].
    cbn [all_chars] in Hd. apply andb_prop in Hd as [Hc _].
    assert (Hg : match ParseUint (String c s) with Ok m => if two63 <=? m then None else Some m | Err _ => None end = Some n).
    { rewrite Hp. unfold two63. destruct (Z.leb_spec 9223372036854775808 n); [lia|done]. }
    clear -Hc Hg. destruct c as [[] [] [] [] [] [] [] []]; first [exact Hg|done].
Qed.

Lemma parse_number_FormatInt n : parse_number (FormatInt n) = Some (FormatInt n, "").
Proof.
  unfold FormatInt. destruct (Z.ltb_spec n 0) as [Hneg|Hpos]; [|by apply parse_number_FormatUint].
  pose proof (parse_number_FormatUint (- n) ltac:(lia)) as Hp. pose proof (FormatUint_dec (- n) ltac:(lia)) as Hd.
  revert Hp Hd. generalize (FormatUint (- n)) as s. intros [|c s] Hp Hd; [done|].
  cbn [all_chars] in Hd. apply andb_prop in Hd as [Hc Hs]. cbn [parse_number] in *. rewrite Ascii.eqb_refl.
  assert (Hm : Ascii.eqb c "-" = false) by (clear -Hc; destruct c as [[] [] [] [] [] [] [] []]; done). rewrite Hm in Hp.
  cbn [parse_int] in *. destruct (Ascii.eqb_spec c "0") as [->|].
  - destruct s as [|d s]; [done|]. exfalso. cbn [all_chars] in Hs. apply andb_prop in Hs as [Hdd _].
    assert (Hn : Ascii.eqb d "." = false /\ Ascii.eqb d "e" = false /\ Ascii.eqb d "E" = false)
      by (clear -Hdd; destruct d as [[] [] [] [] [] [] [] []]; done).
    destruct Hn as (H1 & H2 & H3). cbn [parse_frac parse_exp] in Hp. rewrite H1, H2, H3 in Hp. done.
  - rewrite Hc, take_digits_all in * by done. done.
Qed.
