(* ===== verification/LogTypes.v ===== *)
(** * Log records, interfaces and metrics of the log filter ([go/logfilter/logfilter.go])

    [LogResult] and its key, the within-batch dedup loop of [RunOnce], the
    Prometheus registry, and one type class per Go interface: [RPCQuerier],
    [CheckpointStore], [LogBatchHandler] and [PendingPool].  The components are
    proved against these classes. *)

From stdpp Require Import base gmap list strings.
From Stdlib Require Import ZArith Lia.
From Stdlib Require String.
From S2P Require Import Prelude GoStd Sha256.

(** ** Log records *)

Record LogResult := MkLog {
  BlockNumber : string;
  BlockNumUint : Z;
  TransactionHash : string;
  Address : string;
  Topics : list string;
  Data : string }.

#[export] Instance LogResult_eq_dec : EqDecision LogResult.
Proof. solve_decision. Defined.

(** The text whose hash identifies a log. *)
Definition key_text (l : LogResult) : string := BlockNumber l +:+ "|" +:+ TransactionHash l.

Definition uniqueKey (l : LogResult) : string :=
  hex_EncodeToString (Sum256 (String.list_byte_of_string (key_text l))).

(** ** The dedup loop of [RunOnce] *)

(** The body of [for _, l := range logs]: [seen] and [batchDedup]. *)
Definition dedup_step (acc : gset string * list LogResult) (l : LogResult) : gset string * list LogResult :=
  let k := uniqueKey l in
  if decide (k ∈ acc.1) then acc else ({[k]} ∪ acc.1, acc.2 ++ [l]).

Definition dedup (logs : list LogResult) : list LogResult := (fold_left dedup_step logs (∅, [])).2.

Lemma dedup_seen logs :
  (fold_left dedup_step logs (∅, [])).1 = list_to_set (uniqueKey <$> logs).
Proof.
  induction logs as [|l logs IH] using rev_ind; [done|].
  rewrite fold_left_app, fmap_app, list_to_set_app_L. cbn [fold_left]. rewrite <- IH.
  unfold dedup_step at 1. case_decide as Hin; cbn.
  - rewrite union_empty_r_L, union_comm_L. symmetry. apply subseteq_union_1_L, singleton_subseteq_l, Hin.
  - by rewrite union_empty_r_L, union_comm_L.
Qed.

(** The loop, one log at a time: a log is kept iff its key is new. *)
Lemma dedup_snoc logs l :
  dedup (logs ++ [l]) = dedup logs ++ (if decide (uniqueKey l ∈ uniqueKey <$> logs) then [] else [l]).
Proof.
  unfold dedup. rewrite fold_left_app. cbn [fold_left]. unfold dedup_step at 1. rewrite dedup_seen.
  case_decide as Hin; rewrite elem_of_list_to_set in Hin.
  - by rewrite decide_True, app_nil_r.
  - by rewrite decide_False.
Qed.

Lemma dedup_keys logs k : k ∈ uniqueKey <$> dedup logs <-> k ∈ uniqueKey <$> logs.
Proof.
  induction logs as [|l logs IH] using rev_ind; [done|].
  rewrite dedup_snoc, !fmap_app, !elem_of_app, IH. case_decide; cbn.
  - split; [intros [?|?%not_elem_of_nil]; [by left|done]|]. intros [? | ->%list_elem_of_singleton]; auto.
  - done.
Qed.

Lemma dedup_NoDup logs : NoDup (uniqueKey <$> dedup logs).
Proof.
  induction logs as [|l logs IH] using rev_ind; [apply NoDup_nil_2|].
  rewrite dedup_snoc, fmap_app. case_decide as Hl; cbn; [by rewrite app_nil_r|].
  apply NoDup_app. split; [done|]. split; [|apply NoDup_singleton].
  intros k Hk ->%list_elem_of_singleton. by rewrite dedup_keys in Hk.
Qed.

Lemma dedup_sublist logs : dedup logs `sublist_of` logs.
Proof.
  induction logs as [|l logs IH] using rev_ind; [done|].
  rewrite dedup_snoc. case_decide.
  - rewrite app_nil_r. by apply sublist_inserts_r.
  - by apply sublist_app.
Qed.

Lemma dedup_elem logs l : l ∈ dedup logs -> l ∈ logs.
Proof. intros Hl. eapply elem_of_submseteq; [exact Hl|]. apply sublist_submseteq, dedup_sublist. Qed.

(** Nothing is dropped from a batch without repeated keys. *)
Lemma dedup_id logs : NoDup (uniqueKey <$> logs) -> dedup logs = logs.
Proof.
  induction logs as [|l logs IH] using rev_ind; [done|].
  rewrite fmap_app. intros (Hnd & Hdis & _)%NoDup_app.
  rewrite dedup_snoc, IH, decide_False; [done| |done].
  intros Hin. apply (Hdis _ Hin). cbn. by apply list_elem_of_singleton.
Qed.

Lemma uniqueKey_eq l l' : key_text l = key_text l' -> uniqueKey l = uniqueKey l'.
Proof. unfold uniqueKey. by intros ->. Qed.

Lemma NoDup_fmap_elem_inj {A B} (f : A -> B) (l : list A) x y :
  NoDup (f <$> l) -> x ∈ l -> y ∈ l -> f x = f y -> x = y.
Proof.
  induction l as [|a l IH]; cbn; [by intros _ ?%not_elem_of_nil|].
  intros [Ha Hnd]%NoDup_cons [->|Hx]%elem_of_cons [->|Hy]%elem_of_cons Hf; auto.
  - destruct Ha. rewrite Hf. by apply list_elem_of_fmap_2.
  - destruct Ha. rewrite <- Hf. by apply list_elem_of_fmap_2.
Qed.

(** C39: The dedup loop keeps a subsequence with pairwise different keys that
    has a log for every key of the batch, always the first one: appending a log
    to the batch appends it to the result exactly when its key is new. *)
Theorem dedup_spec logs :
  dedup logs `sublist_of` logs /\
  NoDup (uniqueKey <$> dedup logs) /\
  (forall k, k ∈ uniqueKey <$> dedup logs <-> k ∈ uniqueKey <$> logs) /\
  forall l, dedup (logs ++ [l]) =
    dedup logs ++ (if decide (uniqueKey l ∈ uniqueKey <$> logs) then [] else [l]).
Proof. eauto using dedup_sublist, dedup_NoDup, dedup_keys, dedup_snoc. Qed.

(** Of the logs a transaction emits in a block at most one survives the
    dedup, whatever their address, topics and data are; the others are dropped. *)
Theorem dedup_one_log_per_tx logs l l' :
  BlockNumber l = BlockNumber l' -> TransactionHash l = TransactionHash l' ->
  l ∈ dedup logs -> l' ∈ dedup logs -> l = l'.
Proof.
  intros Hb Ht Hl Hl'. eapply NoDup_fmap_elem_inj; [apply dedup_NoDup|done|done|].
  apply uniqueKey_eq. unfold key_text. by rewrite Hb, Ht.
Qed.

Lemma dedup_one_log_per_tx_witness :
  let transfer := MkLog "100" 100 "0xabc" "0xa" ["Transfer"] "01" in
  let approval := MkLog "100" 100 "0xabc" "0xb" ["Approval"] "02" in
  transfer <> approval /\ dedup [transfer; approval] = [transfer] /\
  (approval ∈ dedup [transfer; approval] -> transfer = approval).
Proof.
  intros transfer approval. split; [done|]. split; [vm_compute; reflexivity|].
  intros Ha. apply (dedup_one_log_per_tx [transfer; approval]); [done|done| |exact Ha].
  vm_compute. apply list_elem_of_here.
Defined.

(** ** The Prometheus registry *)

(** Every counter and gauge is a number under its name and label values. *)
Abbreviation Metrics := (gmap (string * list string) Z).

Definition metric_get (m : Metrics) (name : string) (labels : list string) : Z := default 0%Z (m !! (name, labels)).
Definition metric_set (name : string) (labels : list string) (v : Z) (m : Metrics) : Metrics :=
  <[(name, labels) := v]> m.
Definition metric_add (name : string) (labels : list string) (v : Z) (m : Metrics) : Metrics :=
  metric_set name labels (metric_get m name labels + v)%Z m.

Arguments metric_get : simpl never.
Arguments metric_set : simpl never.
Arguments metric_add : simpl never.

Definition metricRPCRetriesTotal : string := "logfilter_rpc_retries_total".
Definition metricLogsTotal : string := "logfilter_logs_total".
Definition metricBatchDuration : string := "logfilter_batch_duration_seconds".
Definition metricTaskRunning : string := "logfilter_task_running".
Definition metricTaskHealth : string := "logfilter_task_healthy".
Definition metricTaskRestartTotal : string := "logfilter_task_restart_total".
Definition metricRPCConcurrent : string := "logfilter_rpc_concurrent_inflight".
Definition metricTaskLiveMode : string := "logfilter_task_live_mode".
Definition metricPendingBlockCount : string := "logfilter_pending_block_queue".
Definition metricRPCRequestTotal : string := "logfilter_rpc_request_total".
Definition metricTaskUnhealthySec : string := "logfilter_task_unhealthy_seconds".

Lemma metric_get_set name labels name' labels' v m :
  metric_get (metric_set name labels v m) name' labels' =
  if decide ((name, labels) = (name', labels')) then v else metric_get m name' labels'.
Proof.
  unfold metric_get, metric_set. case_decide as Heq; [rewrite <- Heq; by rewrite lookup_insert_eq|].
  by rewrite lookup_insert_ne.
Qed.

Lemma metric_get_add name labels name' labels' v m :
  metric_get (metric_add name labels v m) name' labels' =
  (metric_get m name' labels' + if decide ((name, labels) = (name', labels')) then v else 0)%Z.
Proof.
  unfold metric_add. rewrite metric_get_set. case_decide as Heq; [injection Heq as -> ->; done|lia].
Qed.

(** ** Interfaces

    A call gets the error [ctx.Err()] would return when it starts ([None] while
    the context is live) and returns the implementation's new state. *)

Abbreviation Ctx := (option error).

Class RPCQuerier (R : Type) := {
  rpc_BlockNumber : Ctx -> R -> R * result Z;
  rpc_EthGetLogs : Ctx -> R -> Z -> Z -> list string -> list (list string) -> R * result (list LogResult) }.

Class CheckpointStore (S : Type) := {
  store_Save : Ctx -> S -> Z -> S * option error;
  store_Load : Ctx -> S -> S * result Z }.

Class LogBatchHandler (H : Type) := {
  HandleBatch : Ctx -> H -> list LogResult -> H * option error }.

Class PendingPool (P : Type) := {
  pool_Add : Ctx -> P -> Z -> list LogResult -> P * option error;
  pool_PopConfirmed : Ctx -> P -> Z -> Z -> P * result (list LogResult);
  pool_Count : Ctx -> P -> P * result Z }.

(** [NoopBatchHandler]. *)
#[export] Instance NoopBatchHandler : LogBatchHandler unit := {
  HandleBatch _ h _ := (h, None) }.
