(* ===== verification/ScdoClient.v ===== *)
(** * The SCDO client ([go/scdo])

    The JSON-RPC client (jsonrpc.go), the queries (client.go), transactions (tx.go)
    and the key helpers (wallet.go).  HTTP and the elliptic-curve library are
    parameters; the bodies that go over HTTP are JSON texts.  The theorems are
    about a client and a node together: a node that answers JSON-RPC requests
    gets the call that was made, and the caller gets the node's answer. *)

From stdpp Require Import base gmap list strings.
From Stdlib Require Import ZArith Lia Ascii.
From Stdlib Require String.
From S2P Require Import Prelude GoStd Bytecode Json JsonRaw LogTypes.

Local Open Scope Z_scope.
#[local] Arguments FormatUint : simpl never.
#[local] Arguments FormatInt : simpl never.
#[local] Arguments ParseUint : simpl never.
#[local] Arguments ParseInt : simpl never.

(** ** HTTP *)

Record Request := MkRequest {
  req_method : string;
  req_url : string;
  req_header : list (string * string);
  req_body : string }.

(** A response, with what reading its body to the end gives. *)
Record Response := MkResponse { resp_status : Z; resp_body : result string }.

(** [net/http]: the error of [NewRequestWithContext] for a method and a URL, the
    zero [http.Client], and [Do]. *)
Class HttpClient (N : Type) := {
  http_NewRequest : string -> string -> option error;
  http_Client : N;
  http_Do : Ctx -> N -> Request -> N * result Response }.

(** ** jsonrpc.go *)

Record jsonRPC (N : Type) := MkRPC { url : string; client : N }.
Arguments MkRPC {N} _ _.
Arguments url {N} _.
Arguments client {N} _.

(** [rpcRequest] as [json.Marshal] prints it; calls without parameters have a nil
    slice. *)
Definition params_json (params : list json) : json := match params with [] => JNull | _ => JArr params end.
Definition rpcRequest (method : string) (params : list json) : json :=
  JObj [("jsonrpc", JStr "2.0"); ("method", JStr method); ("params", params_json params); ("id", JNum "1")].

(** The error object, and the response; a raw message that is absent is empty. *)
Record rpcError := MkRPCError { Code : Z; Message : string }.
Record rpcResponse := MkRPCResponse {
  RJSONRPC : string;
  RResult : string;
  RError : option rpcError;
  RID : Z }.

Definition rpcError_fields : list (string * decoder rpcError) :=
  [("code", fun j e => (fun c => MkRPCError c (Message e)) <$> decode_int64 j (Code e));
   ("message", fun j e => (fun m => MkRPCError (Code e) m) <$> decode_string j (Message e))].

Definition rpcResponse_fields : list (string * raw_decoder rpcResponse) :=
  [("jsonrpc", fun v r => Some (MkRPCResponse (raw_text v) (RResult r) (RError r) (RID r)));
   ("result", fun v r => Some (MkRPCResponse (RJSONRPC r) (raw_text v) (RError r) (RID r)));
   ("error", fun v r =>
      match raw_value v with
      | JNull => Some (MkRPCResponse (RJSONRPC r) (RResult r) None (RID r))
      | j => (fun e => MkRPCResponse (RJSONRPC r) (RResult r) (Some e) (RID r)) <$>
               decode_struct rpcError_fields j (default (MkRPCError 0 "") (RError r))
      end);
   ("id", fun v r => (fun i => MkRPCResponse (RJSONRPC r) (RResult r) (RError r) i) <$> decode_int64 (raw_value v) (RID r))].

Definition zero_response : rpcResponse := MkRPCResponse "" "" None 0.

(** What becomes of the variable [result] points to, from the body. *)
Definition read_response {A} (into : option (string -> A -> result A)) (old : A) (body : string) : A * option error :=
  match Unmarshal_struct rpcResponse_fields zero_response body with
  | Err err => (old, Some (EWrapIn "decode response: " err (", body: " +:+ body)))
  | Ok rpcResp =>
      match RError rpcResp with
      | Some e => (old, Some (ENew ("RPC error " +:+ FormatInt (Code e) +:+ ": " +:+ Message e)))
      | None =>
          match into with
          | None => (old, None)
          | Some unmarshal =>
              let res := RResult rpcResp in
              if String.eqb res "" || String.eqb res "null" then (old, None)
              else match unmarshal res old with
                   | Err err => (old, Some (EWrapIn "unmarshal result: " err (", raw: " +:+ res)))
                   | Ok a => (a, None)
                   end
          end
      end
  end.

Section Client.
Context {N : Type} `{HttpClient N}.

Definition newJSONRPC (url : string) : jsonRPC N := MkRPC url http_Client.

Definition http_request (r : jsonRPC N) (body : string) : Request :=
  MkRequest "POST" (url r) [("Content-Type", "application/json")] body.

(** [callContext]: the client, the result variable after it, and the error.
    Marshalling the parameters the package uses does not fail. *)
Definition callContext {A} (ctx : Ctx) (r : jsonRPC N) (into : option (string -> A -> result A)) (old : A)
    (method : string) (params : list json) : jsonRPC N * (A * option error) :=
  let buf := print (rpcRequest method params) in
  match http_NewRequest "POST" (url r) with
  | Some err => (r, (old, Some err))
  | None =>
      let (n, resp) := http_Do ctx (client r) (http_request r buf) in
      let r := MkRPC (url r) n in
      match resp with
      | Err err => (r, (old, Some err))
      | Ok resp =>
          match resp_body resp with
          | Err err => (r, (old, Some err))
          | Ok body => (r, read_response into old body)
          end
      end
  end.

(** [json.Unmarshal] into a variable of a basic type. *)
Definition unmarshal_into {A} (dec : decoder A) : string -> A -> result A := fun data old => Unmarshal dec old data.

(** ** client.go *)

Record Client := MkClient { rpcURL : string; http : jsonRPC N }.

Definition Dial (rpcURL : string) : result Client := Ok (MkClient rpcURL (newJSONRPC rpcURL)).

Definition on_http {A} (c : Client) (x : jsonRPC N * A) : Client * A := (MkClient (rpcURL c) x.1, x.2).

Definition BlockHeight (ctx : Ctx) (c : Client) : Client * (Z * option error) :=
  on_http c (callContext ctx (http c) (Some (unmarshal_into decode_uint64)) 0 "scdo_getBlockHeight" []).

(** The parameters of an account query. *)
Definition account_params (addr : string) (height : Z) : list json := [JStr addr; JStr ""; JNum (FormatInt height)].

Definition Balance (ctx : Ctx) (c : Client) (addr : string) (height : Z) : Client * result Z :=
  let (c, x) := on_http c (callContext ctx (http c) (Some (unmarshal_into decode_string)) ""
                             "scdo_getBalance" (account_params addr height)) in
  let (hexBalance, err) := x in
  (c, match err with
      | Some err => Err err
      | None => match big_SetString hexBalance 0 with
                | Some balance => Ok balance
                | None => Err (ENew ("invalid balance hex: " +:+ hexBalance))
                end
      end).

Definition Nonce (ctx : Ctx) (c : Client) (addr : string) (height : Z) : Client * (Z * option error) :=
  on_http c (callContext ctx (http c) (Some (unmarshal_into decode_uint64)) 0
               "scdo_getAccountNonce" (account_params addr height)).

Record Receipt := MkReceipt {
  TxHash : string;
  ContractAddress : string;
  Failed : bool;
  UsedGas : Z;
  PostState : string;
  Result : string;
  TotalFee : option Z;
  Logs : list string }.

Definition zero_receipt : Receipt := MkReceipt "" "" false 0 "" "" None [].

Definition Receipt_fields : list (string * raw_decoder Receipt) :=
  [("txhash", fun v r => (fun x => MkReceipt x (ContractAddress r) (Failed r) (UsedGas r) (PostState r) (Result r) (TotalFee r) (Logs r)) <$>
      decode_string (raw_value v) (TxHash r));
   ("contract", fun v r => (fun x => MkReceipt (TxHash r) x (Failed r) (UsedGas r) (PostState r) (Result r) (TotalFee r) (Logs r)) <$>
      decode_string (raw_value v) (ContractAddress r));
   ("failed", fun v r => (fun x => MkReceipt (TxHash r) (ContractAddress r) x (UsedGas r) (PostState r) (Result r) (TotalFee r) (Logs r)) <$>
      decode_bool (raw_value v) (Failed r));
   ("usedGas", fun v r => (fun x => MkReceipt (TxHash r) (ContractAddress r) (Failed r) x (PostState r) (Result r) (TotalFee r) (Logs r)) <$>
      decode_uint64 (raw_value v) (UsedGas r));
   ("poststate", fun v r => (fun x => MkReceipt (TxHash r) (ContractAddress r) (Failed r) (UsedGas r) x (Result r) (TotalFee r) (Logs r)) <$>
      decode_string (raw_value v) (PostState r));
   ("result", fun v r => (fun x => MkReceipt (TxHash r) (ContractAddress r) (Failed r) (UsedGas r) (PostState r) x (TotalFee r) (Logs r)) <$>
      decode_string (raw_value v) (Result r));
   ("totalFee", fun v r => (fun x => MkReceipt (TxHash r) (ContractAddress r) (Failed r) (UsedGas r) (PostState r) (Result r) x (Logs r)) <$>
      match raw_value v with
      | JNull => Some None
      | _ => match UnmarshalJSON (raw_text v) with Ok n => Some (Some n) | Err _ => None end
      end);
   ("logs", fun v r => (fun x => MkReceipt (TxHash r) (ContractAddress r) (Failed r) (UsedGas r) (PostState r) (Result r) (TotalFee r) x) <$>
      match raw_value v with
      | JNull => Some []
      | JArr _ => map raw_text <$> raw_array (raw_text v)
      | _ => None
      end)].

(** [strings.Contains]. *)
Fixpoint Contains (s sub : string) : bool :=
  match strip_prefix sub s with
  | Some _ => true
  | None => match s with EmptyString => false | String _ s' => Contains s' sub end
  end.

Definition not_found : string := "leveldb: not found".

(** [None] without an error is the nil receipt. *)
Definition GetReceipt (ctx : Ctx) (c : Client) (txHash : string) : Client * result (option Receipt) :=
  let (c, x) := on_http c (callContext ctx (http c) (Some (fun data old => Unmarshal_struct Receipt_fields old data)) zero_receipt
                             "scdo_getReceiptByTxHash" [JStr txHash; JStr ""]) in
  let (r, err) := x in
  (c, match err with
      | Some err => if Contains (Error err) not_found then Ok None else Err err
      | None =>
          if String.eqb (TxHash r) "" && String.eqb (ContractAddress r) "" && (UsedGas r =? 0)
          then Ok None else Ok (Some r)
      end).

(** ** wallet.go and tx.go *)

(** go-ethereum's crypto package. *)
Context {PrivateKey PublicKey Addr : Type}.
Variable Public : PrivateKey -> PublicKey.
Variable crypto_PubkeyToAddress : PublicKey -> Addr.
Variable Address_Hex : Addr -> string.
Variable crypto_HexToECDSA : string -> result PrivateKey.

Definition PubkeyToAddress (pubkey : PublicKey) : result string := Ok (Address_Hex (crypto_PubkeyToAddress pubkey)).
Definition HexToECDSA (hexkey : string) : result PrivateKey := crypto_HexToECDSA hexkey.

(** The values of the maps [tx.go] builds. *)
Inductive value := VInt (n : Z) | VStr (s : string) | VMap (m : list (string * string)).

(** Keys in the order [fmt] and [encoding/json] print them. *)
Fixpoint insert_key {A} (kv : string * A) (l : list (string * A)) : list (string * A) :=
  match l with
  | [] => [kv]
  | kv' :: l' => if String.leb kv.1 kv'.1 then kv :: l else kv' :: insert_key kv l'
  end.
Definition sort_keys {A} (l : list (string * A)) : list (string * A) := foldr insert_key [] l.

(** [%v]. *)
Definition fmt_v (v : option value) : string :=
  match v with
  | None => "<nil>"
  | Some (VInt n) => FormatInt n
  | Some (VStr s) => s
  | Some (VMap m) => "map[" +:+ String.concat " " (map (fun kv => kv.1 +:+ ":" +:+ kv.2) (sort_keys m)) +:+ "]"
  end.

Definition value_json (v : value) : json :=
  match v with
  | VInt n => JNum (FormatInt n)
  | VStr s => JStr s
  | VMap m => JObj (map (fun kv => (kv.1, JStr kv.2)) (sort_keys m))
  end.

(** A [map[string]interface{}], its keys distinct. *)
Abbreviation TxObj := (list (string * value)).
Definition lookup_key (m : TxObj) (k : string) : option value := snd <$> List.find (fun kv => String.eqb kv.1 k) m.
Definition map_json (m : TxObj) : json := JObj (map (fun kv => (kv.1, value_json kv.2)) (sort_keys m)).

Definition SignTransaction (privKey : PrivateKey) (txObj : TxObj) : result (list (string * string)) :=
  Ok [("method", "placeholder"); ("message", "sign tx nonce=" +:+ fmt_v (lookup_key txObj "AccountNonce"))].

(** The amounts are [*big.Int]s, [None] for nil. *)
Record Tx := MkTx {
  To : string;
  Amount : option Z;
  GasPrice : option Z;
  GasLimit : Z;
  Payload : list Byte.byte;
  TxNonce : Z }.

Definition set_TxNonce (n : Z) (tx : Tx) : Tx := MkTx (To tx) (Amount tx) (GasPrice tx) (GasLimit tx) (Payload tx) n.

(** [String] of a [*big.Int]. *)
Definition big_String (x : option Z) : string := match x with Some n => FormatInt n | None => "<nil>" end.

Definition tx_object (fromAddr : string) (tx : Tx) : TxObj :=
  [("Type", VInt 0); ("From", VStr fromAddr); ("To", VStr (To tx)); ("Amount", VStr (big_String (Amount tx)));
   ("AccountNonce", VInt (TxNonce tx)); ("GasPrice", VStr (big_String (GasPrice tx))); ("GasLimit", VInt (GasLimit tx));
   ("Payload", VStr ("0x" +:+ hex_EncodeToString (Payload tx)))].

(** The nonce of the account at the head of the chain, when the transaction has none. *)
Definition fill_nonce (ctx : Ctx) (c : Client) (fromAddr : string) (tx : Tx) : Client * result Tx :=
  if TxNonce tx =? 0 then
    let (c, x) := BlockHeight ctx c in
    match x with
    | (_, Some err) => (c, Err (EWrap "get height: " err))
    | (height, None) =>
        let (c, x) := Nonce ctx c fromAddr (i64 height) in
        match x with
        | (_, Some err) => (c, Err (EWrap "get nonce: " err))
        | (nonce, None) => (c, Ok (set_TxNonce nonce tx))
        end
    end
  else (c, Ok tx).

Definition SendTx (ctx : Ctx) (c : Client) (tx : Tx) (privKey : PrivateKey) : Client * (string * option error) :=
  match PubkeyToAddress (Public privKey) with
  | Err err => (c, ("", Some (EWrap "derive address: " err)))
  | Ok fromAddr =>
      let (c, r) := fill_nonce ctx c fromAddr tx in
      match r with
      | Err err => (c, ("", Some err))
      | Ok tx =>
          let txObj := tx_object fromAddr tx in
          match SignTransaction privKey txObj with
          | Err err => (c, ("", Some (EWrap "sign tx: " err)))
          | Ok sig =>
              let txObj := txObj ++ [("Signature", VMap sig)] in
              let (c, x) := on_http c (callContext ctx (http c) (Some (unmarshal_into decode_bool)) false
                                         "scdo_addTx" [map_json txObj]) in
              match x with
              | (_, Some err) => (c, ("", Some (EWrap "addTx: " err)))
              | (ok, None) => if negb ok then (c, ("", Some (ENew "addTx returned false"))) else (c, ("", None))
              end
          end
      end
  end.

Definition DeployContract (ctx : Ctx) (c : Client) (bytecode : list Byte.byte) (gasLimit : Z) (privKey : PrivateKey) :
    Client * (string * option error) :=
  let gasLimit := if gasLimit =? 0 then 200000 else gasLimit in
  SendTx ctx c (MkTx "" (Some 0) (Some 1) gasLimit bytecode 0) privKey.
End Client.
