(* ===== verification/ScdoNode.v ===== *)
(** * A SCDO client and its node

    A node that answers JSON-RPC requests over HTTP, as an interface
    ([ScdoNode]: a state, an answer for each call, and the law that a request
    which parses to a call gets the answer of that call), and what the client of
    [ScdoClient.v] does with such a node. *)

From stdpp Require Import base gmap list strings.
From Stdlib Require Import ZArith Lia Ascii.
From Stdlib Require String.
From S2P Require Import Prelude GoStd Bytecode Json JsonRaw LogTypes ScdoClient.

Local Open Scope Z_scope.
#[local] Arguments FormatUint : simpl never.
#[local] Arguments FormatInt : simpl never.
#[local] Arguments ParseUint : simpl never.
#[local] Arguments ParseInt : simpl never.

(** ** The node *)

(** The result of a call, or an error object. *)
Inductive outcome := Good (v : json) | Bad (code : Z) (msg : string).

Definition reply (o : outcome) : json :=
  JObj [("jsonrpc", JStr "2.0"); ("id", JNum "1");
        match o with
        | Good v => ("result", v)
        | Bad code msg => ("error", JObj [("code", JNum (FormatInt code)); ("message", JStr msg)])
        end].

Definition outcome_ok (o : outcome) : Prop :=
  match o with Good v => wf_json v | Bad code msg => is_i64 code /\ utf8 msg end.

(** A node reached through an HTTP client, and the URLs it can be dialled at. *)
Class ScdoNode (N St : Type) `{HttpClient N} := {
  node_state : N -> St;
  answer : St -> string -> json -> St * outcome;
  node_url : string -> Prop;
  node_dials url : node_url url -> http_NewRequest "POST" url = None;
  node_answers_ok st method params : outcome_ok (answer st method params).2;
  node_serves n req method params :
    node_url (req_url req) -> req_method req = "POST" -> parse (req_body req) = Some (rpcRequest method params) ->
    exists n' status,
      http_Do None n req =
        (n', Ok (MkResponse status (Ok (print (reply (answer (node_state n) method (params_json params)).2))))) /\
      node_state n' = (answer (node_state n) method (params_json params)).1 }.

(** ** One call *)

Lemma print_null v : wf_json v -> print v = "null" -> v = JNull.
Proof.
  intros Hw Hp. pose proof (parse_print v Hw) as Hv. rewrite Hp in Hv. change (parse "null") with (Some JNull) in Hv.
  by injection Hv.
Qed.

Lemma reply_wf o : outcome_ok o -> wf_json (reply o).
Proof.
  intros Ho. cbn -[parse_number]. split; [by apply utf8_ascii|]. split; [by apply utf8_ascii|].
  split; [by apply utf8_ascii|]. split; [done|]. destruct o as [v|code msg]; cbn -[parse_number] in *.
  - split; [by apply utf8_ascii|]. done.
  - destruct Ho as [_ Hm]. split; [by apply utf8_ascii|]. split; [|done]. split; [by apply utf8_ascii|].
    split; [apply parse_number_FormatInt|]. split; [by apply utf8_ascii|]. done.
Qed.

(** What a caller makes of an answer. *)
Definition received {A} (into : option (string -> A -> result A)) (old : A) (o : outcome) : A * option error :=
  match o with
  | Bad code msg => (old, Some (ENew ("RPC error " +:+ FormatInt code +:+ ": " +:+ msg)))
  | Good JNull => (old, None)
  | Good v =>
      match into with
      | None => (old, None)
      | Some unmarshal =>
          match unmarshal (print v) old with
          | Ok a => (a, None)
          | Err err => (old, Some (EWrapIn "unmarshal result: " err (", raw: " +:+ print v)))
          end
      end
  end.

Lemma read_reply {A} (into : option (string -> A -> result A)) old o : outcome_ok o ->
  read_response into old (print (reply o)) = received into old o.
Proof.
  intros Ho. unfold read_response. pose proof (reply_wf o Ho) as Hw. unfold reply in *. rewrite Unmarshal_struct_print by done.
  destruct o as [v|code msg].
  - assert (Hd : decode_raw_members rpcResponse_fields
      (map printed [("jsonrpc", JStr "2.0"); ("id", JNum "1"); ("result", v)]) zero_response =
      Some (MkRPCResponse (print (JStr "2.0")) (print v) None 1)) by reflexivity.
    rewrite Hd. cbn [RError RResult received]. cbn [outcome_ok] in Ho.
    destruct into as [f|]; [|by destruct v]. 
    destruct (String.eqb_spec (print v) "") as [He|_].
    { pose proof (print_nonempty v Ho) as Hn. rewrite He in Hn. cbn in Hn. lia. }
    destruct (String.eqb_spec (print v) "null") as [He|Hne].
    { apply print_null in He as ->; [done|done]. }
    cbn [orb]. by destruct v.
  - assert (Hd : decode_raw_members rpcResponse_fields
      (map printed [("jsonrpc", JStr "2.0"); ("id", JNum "1");
         ("error", JObj [("code", JNum (FormatInt code)); ("message", JStr msg)])]) zero_response =
      Some (MkRPCResponse (print (JStr "2.0")) "" (Some (MkRPCError code msg)) 1)).
    { destruct Ho as [Hc _]. cbn. by rewrite ParseInt_FormatInt. }
    by rewrite Hd.
Qed.

Section Calls.
Context {N St : Type} `{ScdoNode N St}.

Definition node_of (r : jsonRPC N) : St := node_state (client r).

(** A call reaches the node as it was made, and its answer comes back. *)
Lemma call_served {A} (r : jsonRPC N) (into : option (string -> A -> result A)) old method params :
  node_url (url r) -> wf_json (rpcRequest method params) ->
  exists n', callContext None r into old method params =
      (MkRPC (url r) n', received into old (answer (node_of r) method (params_json params)).2) /\
    node_state n' = (answer (node_of r) method (params_json params)).1.
Proof.
  intros Hu Hw. unfold callContext. rewrite (node_dials _ Hu).
  destruct (node_serves (client r) (http_request r (print (rpcRequest method params))) method params Hu eq_refl) as (n' & status & Hd & Hs).
  { cbn [http_request req_body]. by apply parse_print. }
  rewrite Hd. exists n'. split; [|exact Hs]. cbn [resp_body]. by rewrite read_reply by apply node_answers_ok.
Qed.
End Calls.

(** ** Texts of hexadecimal numbers *)

(** A character JSON prints as it is. *)
Definition plain (c : ascii) : bool := is_hex c || Ascii.eqb c "x" || Ascii.eqb c "-".

Lemma escape_plain c : plain c = true -> (ascii_Z c <? 128) = true /\ escape c = String c "".
Proof. destruct c as [[] [] [] [] [] [] [] []]; vm_compute; done. Qed.

Lemma quote_plain s : all_chars plain s = true -> quote_json s = String dquote (s +:+ String dquote "").
Proof.
  intros Hs. unfold quote_json. f_equal. f_equal. induction s as [|c s IH]; [done|]. cbn [all_chars] in Hs.
  apply andb_prop in Hs as [Hc Hs]. destruct (escape_plain c Hc) as [Ha He].
  change (String c s) with (String c "" +:+ s). rewrite str_length_app. cbn [String.length Nat.add].
  rewrite quote_body_cons by done. cbn [quote_rune]. rewrite He, IH by done. done.
Qed.

Lemma hex_text_plain h : all_chars plain ("0x" +:+ big_Sprintf_x h) = true.
Proof. change ("0x" +:+ ?s) with (String "0" (String "x" s)). cbn [all_chars]. by apply big_Sprintf_x_chars. Qed.

Lemma plain_utf8 s : all_chars plain s = true -> utf8 s.
Proof.
  intros Hs. apply utf8_ascii. induction s as [|c s IH]; [done|]. cbn [all_chars] in *. apply andb_prop in Hs as [Hc Hs].
  by rewrite (proj1 (escape_plain c Hc)), IH.
Qed.

Lemma print_hex h : print (JStr ("0x" +:+ big_Sprintf_x h)) = MarshalJSON h.
Proof. cbn [print]. rewrite quote_plain by apply hex_text_plain. unfold MarshalJSON. by rewrite str_app_assoc. Qed.

(** Underscores play no role in a text without them. *)
Lemma scan_loop_us b s : all_chars (fun c => negb (Ascii.eqb c "_")) s = true -> forall st,
  scan_loop b true s st = scan_loop b false s st.
Proof.
  induction s as [|c s IH]; [done|]. cbn [all_chars scan_loop]. intros [Hc Hs]%andb_prop st.
  apply negb_true_iff in Hc. rewrite Hc. cbn [andb]. case_match; [by apply IH|done].
Qed.

Lemma big_SetString_hex n : 0 <= n -> big_SetString ("0x" +:+ fmt_base 16 n) 0 = Some n.
Proof.
  intros Hn. pose proof (fmt_base_nonempty 16 n) as Hne.
  destruct (scan_loop_read 16 (fmt_base 16 n) (scan_start true) n) as (cnt & _ & Hc & Hs); [by apply read_fmt_base|].
  rewrite <- scan_loop_us in Hs by by apply fmt_base_hex_chars. specialize (Hc Hne). revert Hc Hs Hne.
  generalize (fmt_base 16 n) as s. intros s Hc Hs Hne. change ("0x" +:+ s) with (String "0" (String "x" s)).
  change (big_SetString (String "0" (String "x" s)) 0) with
    (let st := scan_loop 16 true s (scan_start true) in
     if sc_inval st || sc_prev_us st then None
     else if (sc_count st =? 0) && negb false then None
     else match sc_rest st with EmptyString => Some (sc_val st) | _ => None end).
  rewrite Hs. cbn in Hc |- *. destruct s; [done|]. cbn. destruct (Z.eqb_spec cnt 0); [lia|done].
Qed.

(** ** What a caller receives *)

Lemma received_uint64 n : is_u64 n -> received (Some (unmarshal_into decode_uint64)) 0 (Good (JNum (FormatUint n))) = (n, None).
Proof.
  intros Hn. unfold received, unmarshal_into. rewrite Unmarshal_print.
  - cbn [decode_uint64]. by rewrite ParseUint_FormatUint.
  - destruct Hn. by apply parse_number_FormatUint.
Qed.

Lemma received_string s : utf8 s -> received (Some (unmarshal_into decode_string)) "" (Good (JStr s)) = (s, None).
Proof. intros Hs. unfold received, unmarshal_into. by rewrite Unmarshal_print. Qed.

Lemma received_bool b : received (Some (unmarshal_into decode_bool)) false (Good (JBool b)) = (b, None).
Proof. by destruct b. Qed.

(** A receipt as a node prints it: its logs are JSON values. *)
Definition receipt_json (r : Receipt) (logs : list json) : json :=
  JObj [("result", JStr (Result r)); ("poststate", JStr (PostState r)); ("logs", JArr logs); ("txhash", JStr (TxHash r));
        ("contract", JStr (ContractAddress r)); ("failed", JBool (Failed r)); ("usedGas", JNum (FormatUint (UsedGas r)));
        ("totalFee", match TotalFee r with None => JNull | Some h => JStr ("0x" +:+ big_Sprintf_x h) end)].

Definition receipt_ok (r : Receipt) (logs : list json) : Prop :=
  utf8 (Result r) /\ utf8 (PostState r) /\ utf8 (TxHash r) /\ utf8 (ContractAddress r) /\ is_u64 (UsedGas r) /\
  wf_json (JArr logs) /\ Logs r = map print logs.

Lemma receipt_wf r logs : receipt_ok r logs -> wf_json (receipt_json r logs).
Proof.
  intros (H1 & H2 & H3 & H4 & [H5 _] & H6 & _). unfold receipt_json.
  cbn -[parse_number]. split_and!; try done; try (by apply utf8_ascii); [by apply parse_number_FormatUint|].
  destruct (TotalFee r); [|done]. apply plain_utf8, hex_text_plain.
Qed.

Lemma raw_elems_print l : forall f rest, l <> [] -> wf_json (JArr l) ->
  (S (String.length (String.concat "," (map print l))) <= f)%nat ->
  raw_elems f (String.concat "," (map print l) +:+ String "]" rest) = Some (map (fun v => MkRaw (print v) v) l, rest).
Proof.
  induction l as [|v l IH]; intros f rest Hne Hw Hf; [done|]. destruct Hw as [Hwv Hw].
  destruct f as [|f]; [lia|]. cbn [raw_elems]. destruct l as [|v' l].
  - cbn [map String.concat] in *. rewrite raw_of_print by (done || lia). done.
  - cbn [map] in *. rewrite concat_cons in *. rewrite !str_length_app in Hf. rewrite !str_app_assoc.
    change ("," +:+ ?x) with (String "," x). rewrite raw_of_print by (done || lia).
    cbn [skip_ws is_ws]. change (is_ws ",") with false. cbn match.
    rewrite IH; [done|done|done|]. change (String.length ",") with 1%nat in Hf. lia.
Qed.

Lemma raw_array_print l : wf_json (JArr l) -> raw_array (print (JArr l)) = Some (map (fun v => MkRaw (print v) v) l).
Proof.
  intros Hw. unfold raw_array. set (F := (2 * S (String.length (print (JArr l))))%nat).
  assert (HF : (S (String.length (String.concat "," (map print l))) <= F)%nat).
  { unfold F. cbn [print]. rewrite !str_length_app. lia. }
  revert HF. generalize F. clear F. intros F HF. cbn [print]. change ("[" +:+ ?x) with (String "[" x).
  rewrite skip_ws_start by done. cbn match. destruct (decide (l = [])) as [->|Hne]; [done|].
  pose proof (raw_elems_print l F "" Hne Hw HF) as He. change (String "]" "") with "]" in He. rewrite He.
  destruct (first_elem_start l Hw Hne) as (c & s & -> & Ho). rewrite str_cons_app, opens_skip by done.
  destruct (not_opens_other c Ho) as (_ & Hc & _). clear -Hc. destruct c as [[] [] [] [] [] [] [] []]; done.
Qed.

(** The receipt comes back, the logs as their texts. *)
Lemma received_receipt r logs : receipt_ok r logs ->
  received (Some (fun data old => Unmarshal_struct Receipt_fields old data)) zero_receipt (Good (receipt_json r logs)) = (r, None).
Proof.
  intros Hr. pose proof (receipt_wf r logs Hr) as Hw. unfold receipt_json in *. cbn [received].
  rewrite Unmarshal_struct_print by done. destruct Hr as (_ & _ & _ & _ & Hg & Hl & Heq).
  pose proof (raw_array_print logs Hl) as Ha. clear Hw.
  assert (Hd : forall fee x, (match fee with JNull => Some None | _ => match UnmarshalJSON (print fee) with Ok n => Some (Some n) | Err _ => None end end = Some x) ->
    decode_raw_members Receipt_fields
     (map printed [("result", JStr (Result r)); ("poststate", JStr (PostState r)); ("logs", JArr logs); ("txhash", JStr (TxHash r));
        ("contract", JStr (ContractAddress r)); ("failed", JBool (Failed r)); ("usedGas", JNum (FormatUint (UsedGas r))); ("totalFee", fee)]) zero_receipt =
    Some (MkReceipt (TxHash r) (ContractAddress r) (Failed r) (UsedGas r) (PostState r) (Result r) x (Logs r))).
  { intros fee x Hf. cbn -[raw_array UnmarshalJSON print]. rewrite Ha. cbn -[raw_array UnmarshalJSON print].
    rewrite ParseUint_FormatUint by done. cbn -[raw_array UnmarshalJSON print]. rewrite Hf. cbn. rewrite Heq.
    rewrite map_map. done. }
  rewrite (Hd _ (TotalFee r)); [by destruct r|]. destruct (TotalFee r) as [h|]; [|done].
  rewrite print_hex, UnmarshalJSON_MarshalJSON. done.
Qed.

(** ** The client's operations *)

Section Client.
Context {N St : Type} `{ScdoNode N St}.
Local Abbreviation Client := (@Client N).

Definition state_of (c : Client) : St := node_of (http c).
Definition dialled (c : Client) : Prop := node_url (url (http c)).

Lemma on_http_call {A} (c : Client) (into : option (string -> A -> result A)) old method params :
  dialled c -> wf_json (rpcRequest method params) ->
  let ao := answer (state_of c) method (params_json params) in
  exists c', on_http c (callContext None (http c) into old method params) = (c', received into old ao.2) /\
    dialled c' /\ state_of c' = ao.1.
Proof.
  intros Hu Hw. destruct (call_served (http c) into old method params Hu Hw) as (n' & Hc & Hs). rewrite Hc.
  eexists. split; [reflexivity|]. split; [exact Hu|exact Hs].
Qed.

Lemma request_wf method params : all_chars (fun c => ascii_Z c <? 128) method = true -> Forall wf_json params ->
  wf_json (rpcRequest method params).
Proof.
  intros Hm Hp. cbn -[parse_number]. split_and!; try done; try (by apply utf8_ascii).
  destruct params as [|v l]; [done|]. change (wf_json (JArr (v :: l))). induction Hp; cbn; auto.
Qed.

Lemma account_wf method addr height : all_chars (fun c => ascii_Z c <? 128) method = true -> utf8 addr ->
  wf_json (rpcRequest method (account_params addr height)).
Proof.
  intros Hm Ha. apply request_wf; [done|]. repeat constructor; [done|apply parse_number_FormatInt].
Qed.

(** C24: JSON-RPC end to end.  Over a node that answers requests, [callContext]
    makes exactly the call it was given, whatever the method and the parameters,
    and the result variable and the error are the node's answer: an error object
    becomes an error with its code and message, the result [null] leaves the
    variable as it was without an error, and any other result is unmarshalled into
    it.  When HTTP fails its error is returned and the variable is left alone. *)
Theorem callContext_roundtrip {A} (r : jsonRPC N) (into : option (string -> A -> result A)) old method params :
  node_url (url r) -> wf_json (rpcRequest method params) ->
  (exists n', callContext None r into old method params =
      (MkRPC (url r) n', received into old (answer (node_of r) method (params_json params)).2) /\
    node_state n' = (answer (node_of r) method (params_json params)).1) /\
  (forall ctx n' err, http_Do ctx (client r) (http_request r (print (rpcRequest method params))) = (n', Err err) ->
     callContext ctx r into old method params = (MkRPC (url r) n', (old, Some err))).
Proof.
  intros Hu Hw. split; [by apply call_served|]. intros ctx n' err Hd. unfold callContext.
  by rewrite (node_dials _ Hu), Hd.
Qed.

(** C26: The queries.  The height and the nonce ([uint64]s) and the balance (any
    natural number, in hexadecimal) a node reports are what the client returns.  A
    node that answers [null] is reported as height 0 and nonce 0 without an error,
    but as an error for the balance; and for all three its error objects come back
    as errors with their code and message. *)
Theorem queries_spec (c : Client) addr height n :
  dialled c -> utf8 addr -> is_u64 n ->
  let ask method params := answer (state_of c) method (params_json params) in
  let reports (method : string) (params : list json) (v : json) := (ask method params).2 = Good v in
  (reports "scdo_getBlockHeight" [] (JNum (FormatUint n)) -> (BlockHeight None c).2 = (n, None)) /\
  (reports "scdo_getAccountNonce" (account_params addr height) (JNum (FormatUint n)) -> (Nonce None c addr height).2 = (n, None)) /\
  (forall m, 0 <= m -> reports "scdo_getBalance" (account_params addr height) (JStr ("0x" +:+ fmt_base 16 m)) ->
     (Balance None c addr height).2 = Ok m) /\
  (reports "scdo_getBlockHeight" [] JNull -> (BlockHeight None c).2 = (0, None)) /\
  (reports "scdo_getAccountNonce" (account_params addr height) JNull -> (Nonce None c addr height).2 = (0, None)) /\
  (reports "scdo_getBalance" (account_params addr height) JNull ->
     (Balance None c addr height).2 = Err (ENew "invalid balance hex: ")) /\
  (forall code msg, let err := ENew ("RPC error " +:+ FormatInt code +:+ ": " +:+ msg) in
     ((ask "scdo_getBlockHeight" []).2 = Bad code msg -> (BlockHeight None c).2 = (0, Some err)) /\
     ((ask "scdo_getAccountNonce" (account_params addr height)).2 = Bad code msg -> (Nonce None c addr height).2 = (0, Some err)) /\
     ((ask "scdo_getBalance" (account_params addr height)).2 = Bad code msg -> (Balance None c addr height).2 = Err err)).
Proof.
  intros Hd Ha Hn. cbv zeta. 
  destruct (on_http_call c (Some (unmarshal_into decode_uint64)) 0 "scdo_getBlockHeight" [] Hd) as (c1 & Hc1 & _); [by apply request_wf|].
  destruct (on_http_call c (Some (unmarshal_into decode_uint64)) 0 "scdo_getAccountNonce" (account_params addr height) Hd)
    as (c2 & Hc2 & _); [by apply account_wf|].
  destruct (on_http_call c (Some (unmarshal_into decode_string)) "" "scdo_getBalance" (account_params addr height) Hd)
    as (c3 & Hc3 & _); [by apply account_wf|].
  unfold BlockHeight, Nonce, Balance. rewrite Hc1, Hc2, Hc3. cbn [snd]. split; [|split; [|split; [|split; [|split; [|split]]]]].
  - intros ->. by apply received_uint64.
  - intros ->. by apply received_uint64.
  - intros m Hm ->. rewrite received_string.
    + cbn [snd]. by rewrite big_SetString_hex.
    + apply plain_utf8. change ("0x" +:+ ?s) with (String "0" (String "x" s)). cbn [all_chars]. by apply fmt_base_hex_chars.
  - intros ->. done.
  - intros ->. done.
  - intros ->. done.
  - intros code msg. split; [|split]; intros ->; done.
Qed.

(** C25: Receipts.  A receipt the node prints comes back field by field, the fee
    as the integer its hexadecimal text denotes and each log as its text; the one
    without hash, contract and gas counts as absent.  The error object a node has
    for a transaction it does not know yet is no error but the nil receipt; every
    other error object is an error. *)
Theorem GetReceipt_spec (c : Client) hash :
  dialled c -> utf8 hash ->
  let o := (answer (state_of c) "scdo_getReceiptByTxHash" (JArr [JStr hash; JStr ""])).2 in
  (forall r logs, receipt_ok r logs -> o = Good (receipt_json r logs) ->
     (GetReceipt None c hash).2 =
       Ok (if String.eqb (TxHash r) "" && String.eqb (ContractAddress r) "" && (UsedGas r =? 0) then None else Some r)) /\
  (o = Good JNull -> (GetReceipt None c hash).2 = Ok None) /\
  (forall code msg, o = Bad code msg ->
     let err := ENew ("RPC error " +:+ FormatInt code +:+ ": " +:+ msg) in
     (GetReceipt None c hash).2 = if Contains (Error err) not_found then Ok None else Err err).
Proof.
  intros Hd Hh. cbv zeta.
  destruct (on_http_call c (Some (fun data old => Unmarshal_struct Receipt_fields old data)) zero_receipt
    "scdo_getReceiptByTxHash" [JStr hash; JStr ""] Hd) as (c1 & Hc1 & _); [apply request_wf; [done|]; repeat constructor; done|].
  unfold GetReceipt. rewrite Hc1. cbn [snd params_json]. split; [|split].
  - intros r logs Hr ->. rewrite received_receipt by done. cbn [snd]. by case_match.
  - intros ->. done.
  - intros code msg ->. done.
Qed.

(** ** Transactions *)

Context {PrivateKey PublicKey Addr : Type}.
Variable Public : PrivateKey -> PublicKey.
Variable crypto_PubkeyToAddress : PublicKey -> Addr.
Variable Address_Hex : Addr -> string.
Local Abbreviation from_of key := (Address_Hex (crypto_PubkeyToAddress (Public key))).
Local Abbreviation send := (SendTx Public crypto_PubkeyToAddress Address_Hex).

(** The transaction object, its keys in the order of the JSON text. *)
Definition sent_json (from : string) (tx : Tx) : json :=
  JObj [("AccountNonce", JNum (FormatInt (TxNonce tx))); ("Amount", JStr (big_String (Amount tx))); ("From", JStr from);
        ("GasLimit", JNum (FormatInt (GasLimit tx))); ("GasPrice", JStr (big_String (GasPrice tx)));
        ("Payload", JStr ("0x" +:+ hex_EncodeToString (Payload tx)));
        ("Signature", JObj [("message", JStr ("sign tx nonce=" +:+ FormatInt (TxNonce tx))); ("method", JStr "placeholder")]);
        ("To", JStr (To tx)); ("Type", JNum "0")].

Lemma sent_json_eq from tx sig : sig = [("method", "placeholder"); ("message", "sign tx nonce=" +:+ FormatInt (TxNonce tx))] ->
  map_json (tx_object from tx ++ [("Signature", VMap sig)]) = sent_json from tx.
Proof. intros ->. reflexivity. Qed.

Lemma FormatInt_plain n : all_chars plain (FormatInt n) = true.
Proof.
  assert (Hd : forall m, 0 <= m -> all_chars plain (FormatUint m) = true).
  { intros m Hm. apply fmt_digits_all; [lia| |done]. intros d Hd.
    assert (Hall : forallb (fun n => plain (digit_char (Z.of_nat n))) (seq 0 10) = true) by reflexivity.
    rewrite forallb_forall in Hall. specialize (Hall (Z.to_nat d)). rewrite Z2Nat.id in Hall by lia. apply Hall, in_seq. lia. }
  unfold FormatInt. case_match; [|apply Hd; lia]. cbn [all_chars]. apply Hd. lia.
Qed.

Lemma all_chars_app p a b : all_chars p (a +:+ b) = all_chars p a && all_chars p b.
Proof. induction a as [|c a IH]; [done|]. rewrite str_cons_app. cbn. by rewrite IH, andb_assoc. Qed.

Lemma utf8_app a b : utf8 a -> utf8 b -> utf8 (a +:+ b).
Proof. induction 1 as [|r s Hr Hs IH]; intros Hb; [done|]. rewrite str_app_assoc. constructor; auto. Qed.

Lemma hex_plain bs : all_chars plain (hex_EncodeToString bs) = true.
Proof.
  induction bs as [|b bs IH]; [done|]. cbn [hex_EncodeToString all_chars]. rewrite IH. by destruct b.
Qed.

Lemma big_String_utf8 x : utf8 (big_String x).
Proof. destruct x; [apply plain_utf8, FormatInt_plain|by apply utf8_ascii]. Qed.

Lemma sent_json_wf from tx : utf8 from -> utf8 (To tx) -> wf_json (sent_json from tx).
Proof.
  intros Hf Ht. cbn -[parse_number]. split_and!; try done; try (by apply utf8_ascii); try apply parse_number_FormatInt;
    try apply big_String_utf8.
  - apply plain_utf8. change ("0x" +:+ ?s) with (String "0" (String "x" s)). cbn [all_chars]. apply hex_plain.
  - apply utf8_app; [by apply utf8_ascii|apply plain_utf8, FormatInt_plain].
Qed.

(** The outcome of [scdo_addTx], as [SendTx] reports it. *)
Definition add_outcome (o : outcome) : string * option error :=
  match received (Some (unmarshal_into decode_bool)) false o with
  | (_, Some err) => ("", Some (EWrap "addTx: " err))
  | (true, None) => ("", None)
  | (false, None) => ("", Some (ENew "addTx returned false"))
  end.

Lemma send_filled (c c1 : Client) tx tx1 key :
  fill_nonce None c (from_of key) tx = (c1, Ok tx1) -> dialled c1 -> utf8 (from_of key) -> utf8 (To tx1) ->
  exists c', send None c tx key =
      (c', add_outcome (answer (state_of c1) "scdo_addTx" (JArr [sent_json (from_of key) tx1])).2) /\
    state_of c' = (answer (state_of c1) "scdo_addTx" (JArr [sent_json (from_of key) tx1])).1.
Proof.
  intros Hfill Hd Hf Ht. unfold SendTx, PubkeyToAddress. rewrite Hfill. unfold SignTransaction.
  change (fmt_v (lookup_key (tx_object (from_of key) tx1) "AccountNonce")) with (FormatInt (TxNonce tx1)).
  rewrite sent_json_eq by done.
  destruct (on_http_call c1 (Some (unmarshal_into decode_bool)) false "scdo_addTx" [sent_json (from_of key) tx1] Hd)
    as (c' & Hc & _ & Hs); [apply request_wf; [done|constructor; [by apply sent_json_wf|constructor]]|].
  rewrite Hc. exists c'. unfold add_outcome. cbn [params_json].
  destruct (received _ _ _) as [[] [err|]]; done.
Qed.

(** C23: Sending a transaction.  A transaction with a nonce reaches the node as it
    is: recipient, amounts, gas and nonce, the payload in hexadecimal, the sender
    of the key.  One without a nonce is first given the nonce the node reports for
    the sender at the height it reports.  [SendTx] succeeds exactly when the node
    answers [true]; and the hash it then returns is empty. *)
Theorem SendTx_spec (c : Client) tx key :
  dialled c -> utf8 (from_of key) -> utf8 (To tx) ->
  let st := state_of c in
  let add st tx := answer st "scdo_addTx" (JArr [sent_json (from_of key) tx]) in
  (TxNonce tx <> 0 ->
     exists c', send None c tx key = (c', add_outcome (add st tx).2) /\ state_of c' = (add st tx).1) /\
  (forall st1 st2 h n, TxNonce tx = 0 -> is_u64 h -> is_u64 n ->
     answer st "scdo_getBlockHeight" JNull = (st1, Good (JNum (FormatUint h))) ->
     answer st1 "scdo_getAccountNonce" (JArr (account_params (from_of key) (i64 h))) = (st2, Good (JNum (FormatUint n))) ->
     exists c', send None c tx key = (c', add_outcome (add st2 (set_TxNonce n tx)).2) /\
       state_of c' = (add st2 (set_TxNonce n tx)).1) /\
  (forall o hash, outcome_ok o -> add_outcome o = (hash, None) <-> o = Good (JBool true) /\ hash = "").
Proof.
  intros Hd Hf Ht. cbv zeta. split; [|split].
  - intros Hn. apply send_filled; [|done|done|done]. unfold fill_nonce. by destruct (Z.eqb_spec (TxNonce tx) 0).
  - intros st1 st2 h n Hz Hh Hn H1 H2.
    destruct (on_http_call c (Some (unmarshal_into decode_uint64)) 0 "scdo_getBlockHeight" [] Hd) as (c1 & Hc1 & Hd1 & Hs1); [by apply request_wf|].
    cbn [params_json] in Hc1, Hs1. rewrite H1 in Hc1, Hs1. cbn [fst snd] in Hc1, Hs1. rewrite received_uint64 in Hc1 by done.
    destruct (on_http_call c1 (Some (unmarshal_into decode_uint64)) 0 "scdo_getAccountNonce" (account_params (from_of key) (i64 h)) Hd1)
      as (c2 & Hc2 & Hd2 & Hs2); [by apply account_wf|].
    change (params_json (account_params (from_of key) (i64 h))) with (JArr (account_params (from_of key) (i64 h))) in Hc2, Hs2.
    rewrite Hs1, H2 in Hc2, Hs2. cbn [fst snd] in Hc2, Hs2. rewrite received_uint64 in Hc2 by done.
    rewrite <- Hs2. apply (send_filled c c2); [|done|done|done].
    unfold fill_nonce. rewrite Hz, Z.eqb_refl. unfold BlockHeight. rewrite Hc1. unfold Nonce. by rewrite Hc2.
  - intros o hash Ho. unfold add_outcome. split; [|by intros [-> ->]].
    destruct o as [[|[]|t|s|l|l]|code msg]; try (by intros [= <-]); try done.
    all: cbn [received]; unfold unmarshal_into; rewrite Unmarshal_print by done; done.
Qed.
End Client.

(** ** A node in memory *)

(** Its height, the nonce and the balance it has for every account, and the
    transactions it has taken. *)
Record MemNode := MkNode { mn_height : Z; mn_nonce : Z; mn_balance : Z; mn_pool : list json }.

Definition mem_answer (n : MemNode) (method : string) (params : json) : MemNode * outcome :=
  if String.eqb method "scdo_getBlockHeight" then (n, Good (JNum (FormatUint (u64 (mn_height n)))))
  else if String.eqb method "scdo_getAccountNonce" then (n, Good (JNum (FormatUint (u64 (mn_nonce n)))))
  else if String.eqb method "scdo_getBalance" then (n, Good (JStr ("0x" +:+ fmt_base 16 (u64 (mn_balance n)))))
  else if String.eqb method "scdo_addTx" then
    (MkNode (mn_height n) (mn_nonce n) (mn_balance n) (mn_pool n ++ [params]), Good (JBool true))
  else if String.eqb method "scdo_getReceiptByTxHash" then (n, Bad (-32000) "leveldb: not found")
  else (n, Bad (-32601) "method not found").

#[export] Instance MemNode_http : HttpClient MemNode := {
  http_NewRequest _ _ := None;
  http_Client := MkNode 0 0 0 [];
  http_Do ctx n req :=
    match ctx, parse (req_body req) with
    | Some e, _ => (n, Err e)
    | None, Some (JObj [_; (_, JStr method); (_, params); _]) =>
        let (n', o) := mem_answer n method params in (n', Ok (MkResponse 200 (Ok (print (reply o)))))
    | None, _ => (n, Ok (MkResponse 400 (Ok "bad request")))
    end }.

Lemma mem_answers_ok n method params : outcome_ok (mem_answer n method params).2.
Proof.
  unfold mem_answer. repeat case_match; cbn -[parse_number]; try done.
  1, 2: apply parse_number_FormatUint, u64_range.
  - apply plain_utf8. change ("0x" +:+ ?s) with (String "0" (String "x" s)). cbn [all_chars]. by apply fmt_base_hex_chars.
  - split; [unfold is_i64, two63; lia|by apply utf8_ascii].
  - split; [unfold is_i64, two63; lia|by apply utf8_ascii].
Qed.

#[export] Program Instance MemNode_node : ScdoNode MemNode MemNode := {
  node_state n := n;
  answer := mem_answer;
  node_url _ := True }.
Next Obligation. done. Qed.
Next Obligation. apply mem_answers_ok. Qed.
Next Obligation.
  intros n req method params _ _ Hp. cbn [http_Do MemNode_http]. rewrite Hp. cbn [rpcRequest].
  destruct (mem_answer n method (params_json params)) as [n' o]. by exists n', 200.
Qed.

Definition mem_client : @Client MemNode := MkClient "http://node:8037" (MkRPC "http://node:8037" (MkNode 1200 7 1000000 [])).

Lemma callContext_roundtrip_witness :
  exists n', callContext None (http mem_client) (Some (unmarshal_into decode_uint64)) 0 "scdo_getBlockHeight" [] =
    (MkRPC "http://node:8037" n', (1200, None)).
Proof.
  destruct (callContext_roundtrip (http mem_client) (Some (unmarshal_into decode_uint64)) 0 "scdo_getBlockHeight" [])
    as [(n' & Hc & _) _]; [exact I|apply request_wf; [done|constructor]|].
  exists n'. rewrite Hc. vm_compute. reflexivity.
Defined.

Lemma queries_spec_witness :
  (BlockHeight None mem_client).2 = (1200, None) /\ (Nonce None mem_client "1S01" (-1)).2 = (7, None) /\
  (Balance None mem_client "1S01" (-1)).2 = Ok 1000000.
Proof.
  assert (Hu : utf8 "1S01") by by apply utf8_ascii. assert (Hd : dialled mem_client) by exact I.
  destruct (queries_spec mem_client "1S01" (-1) 1200 Hd Hu ltac:(unfold is_u64, two64; lia)) as (Hh & _).
  destruct (queries_spec mem_client "1S01" (-1) 7 Hd Hu ltac:(unfold is_u64, two64; lia)) as (_ & Hn & _).
  destruct (queries_spec mem_client "1S01" (-1) 7 Hd Hu ltac:(unfold is_u64, two64; lia)) as (_ & _ & Hb & _).
  split; [|split]; [apply Hh|apply Hn|apply (Hb 1000000); [lia|]]; vm_compute; reflexivity.
Defined.

Lemma GetReceipt_spec_witness : (GetReceipt None mem_client "0xab").2 = Ok None.
Proof.
  destruct (GetReceipt_spec mem_client "0xab") as (_ & _ & Hb); [exact I|by apply utf8_ascii|].
  rewrite (Hb (-32000) "leveldb: not found") by (vm_compute; reflexivity). vm_compute. reflexivity.
Defined.

Definition mem_tx : Tx := MkTx "1S02" (Some 5) (Some 1) 21000 [Byte.x60; Byte.xff] 0.

Lemma SendTx_spec_witness :
  exists c', SendTx id id id None mem_client mem_tx "1S01" = (c', ("", None)) /\
    mn_pool (state_of c') = [JArr [sent_json "1S01" (set_TxNonce 7 mem_tx)]].
Proof.
  destruct (SendTx_spec id id id mem_client mem_tx "1S01") as (_ & Hs & _); [exact I|by apply utf8_ascii|by apply utf8_ascii|].
  destruct (Hs (MkNode 1200 7 1000000 []) (MkNode 1200 7 1000000 []) 1200 7) as (c' & Hc & Hst);
    [reflexivity|unfold is_u64, two64; lia|unfold is_u64, two64; lia|vm_compute; reflexivity|vm_compute; reflexivity|].
  exists c'. split; [exact Hc|]. rewrite Hst. reflexivity.
Defined.
