(* ===== verification/Semaphore.v ===== *)
(** * The RPC semaphores ([go/logfilter/logfilter.go])

    An [RPCSemaphore] is a buffered channel of tokens.  The second half is the
    concurrent system [RunAll] creates: one goroutine per task going through the
    acquire/release protocol of [RunOnce] around each RPC, a semaphore per task
    and one shared by all, with every interleaving of their steps.  The theorems
    bound the RPCs in flight, say what the gauge shows, and exclude deadlock. *)

From stdpp Require Import base gmap list strings.
From Stdlib Require Import ZArith Lia.
From S2P Require Import Prelude GoStd LogTypes.

Local Open Scope Z_scope.

(** [sem_len] tokens are in the channel of capacity [sem_cap]. *)
Record RPCSemaphore := MkSem { sem_cap : Z; sem_len : Z }.

(** [make(chan struct{}, n)] panics for a negative size. *)
Definition NewRPCSemaphore (maxConcurrent : Z) : option RPCSemaphore :=
  if maxConcurrent <? 0 then None else Some (MkSem maxConcurrent 0).

(** [Acquire]: [None] while neither case of the [select] is ready.  When both
    are, Go chooses at random: [pick] is the choice of [ctx.Done()]. *)
Definition Acquire (done : Ctx) (pick : bool) (s : RPCSemaphore) (m : Metrics)
  : option (RPCSemaphore * Metrics * option error) :=
  let send := (MkSem (sem_cap s) (sem_len s + 1), metric_add metricRPCConcurrent [] 1 m, None) in
  match done, sem_len s <? sem_cap s with
  | Some e, true => Some (if pick then (s, m, Some e) else send)
  | Some e, false => Some (s, m, Some e)
  | None, true => Some send
  | None, false => None
  end.

(** [Release]: receiving from an empty channel blocks. *)
Definition Release (s : RPCSemaphore) (m : Metrics) : option (RPCSemaphore * Metrics) :=
  if 0 <? sem_len s
  then Some (MkSem (sem_cap s) (sem_len s - 1), metric_add metricRPCConcurrent [] (-1) m)
  else None.

Lemma Acquire_inv done pick s m s' m' r :
  Acquire done pick s m = Some (s', m', r) ->
  (exists e, done = Some e /\ r = Some e /\ s' = s /\ m' = m) \/
  (r = None /\ sem_len s < sem_cap s /\ s' = MkSem (sem_cap s) (sem_len s + 1) /\
   m' = metric_add metricRPCConcurrent [] 1 m).
Proof.
  unfold Acquire. destruct (Z.ltb_spec (sem_len s) (sem_cap s)), done as [e|], pick;
    intros [= <- <- <-]; eauto 10.
Qed.

Lemma Acquire_free pick s m : sem_len s < sem_cap s ->
  Acquire None pick s m =
  Some (MkSem (sem_cap s) (sem_len s + 1), metric_add metricRPCConcurrent [] 1 m, None).
Proof. intros H. unfold Acquire. by rewrite (proj2 (Z.ltb_lt _ _) H). Qed.

Lemma Release_inv s m s' m' :
  Release s m = Some (s', m') ->
  0 < sem_len s /\ s' = MkSem (sem_cap s) (sem_len s - 1) /\ m' = metric_add metricRPCConcurrent [] (-1) m.
Proof. unfold Release. destruct (Z.ltb_spec 0 (sem_len s)); by intros [= <- <-]. Qed.

Lemma Release_held s m : 0 < sem_len s ->
  Release s m = Some (MkSem (sem_cap s) (sem_len s - 1), metric_add metricRPCConcurrent [] (-1) m).
Proof. intros H. unfold Release. by rewrite (proj2 (Z.ltb_lt _ _) H). Qed.

(** ** Many tasks *)

(** Where a task is in an iteration of [RunOnce]'s loop: before
    [TaskLocalSem.Acquire], between the two acquires, in [EthGetLogs] holding
    both, about to release the local token (after the RPC, or after a cancelled
    global acquire), and past the releases. *)
Inductive pc := AtStart | HasLocal | InRPC | HoldsLocal | AtEnd.

#[export] Instance pc_eq_dec : EqDecision pc.
Proof. solve_decision. Defined.

Record thread := MkThread { th_pc : pc; th_local : RPCSemaphore }.
Record system := MkSys { sys_threads : list thread; sys_rpc : RPCSemaphore; sys_metrics : Metrics }.

Definition goto (sys : system) (i : nat) (th : thread) (rpc : RPCSemaphore) (m : Metrics) : system :=
  MkSys (<[i := th]> (sys_threads sys)) rpc m.

(** One step of task [i] under context state [done]. *)
Inductive task_step (done : Ctx) (sys : system) : system -> Prop :=
  | step_acquire_local i th pick s m r :
      sys_threads sys !! i = Some th -> th_pc th = AtStart ->
      Acquire done pick (th_local th) (sys_metrics sys) = Some (s, m, r) ->
      task_step done sys (goto sys i (MkThread (if r is Some _ then AtEnd else HasLocal) s) (sys_rpc sys) m)
  | step_acquire_rpc i th pick s m r :
      sys_threads sys !! i = Some th -> th_pc th = HasLocal ->
      Acquire done pick (sys_rpc sys) (sys_metrics sys) = Some (s, m, r) ->
      task_step done sys (goto sys i (MkThread (if r is Some _ then HoldsLocal else InRPC) (th_local th)) s m)
  | step_release_rpc i th s m :
      sys_threads sys !! i = Some th -> th_pc th = InRPC ->
      Release (sys_rpc sys) (sys_metrics sys) = Some (s, m) ->
      task_step done sys (goto sys i (MkThread HoldsLocal (th_local th)) s m)
  | step_release_local i th s m :
      sys_threads sys !! i = Some th -> th_pc th = HoldsLocal ->
      Release (th_local th) (sys_metrics sys) = Some (s, m) ->
      task_step done sys (goto sys i (MkThread AtEnd s) (sys_rpc sys) m).

(** A finished iteration is followed by another one. *)
Inductive next_step (sys : system) : system -> Prop :=
  | step_next i th :
      sys_threads sys !! i = Some th -> th_pc th = AtEnd ->
      next_step sys (goto sys i (MkThread AtStart (th_local th)) (sys_rpc sys) (sys_metrics sys)).

(** The context may be cancelled at any time. *)
Definition sys_step (sys sys' : system) : Prop := (exists done, task_step done sys sys') \/ next_step sys sys'.

(** [n] tasks with local semaphores of capacity [local] and a shared one of capacity [global]. *)
Definition sys_init (n : nat) (local global : Z) : system :=
  MkSys (replicate n (MkThread AtStart (MkSem local 0))) (MkSem global 0) ∅.

Definition in_rpc (th : thread) : Z := match th_pc th with InRPC => 1 | _ => 0 end.
Definition has_local (th : thread) : Z :=
  match th_pc th with HasLocal | InRPC | HoldsLocal => 1 | AtStart | AtEnd => 0 end.

Definition in_flight (sys : system) : Z := sumZ in_rpc (sys_threads sys).
Definition holding (sys : system) : Z := sumZ has_local (sys_threads sys).
Definition gauge (sys : system) : Z := metric_get (sys_metrics sys) metricRPCConcurrent [].

(** The invariant: every token in a channel belongs to a task that holds it. *)
Record sys_inv (local global : Z) (sys : system) : Prop := {
  inv_cap : sem_cap (sys_rpc sys) = global;
  inv_len : sem_len (sys_rpc sys) = in_flight sys;
  inv_bound : in_flight sys <= global;
  inv_local : forall th, th ∈ sys_threads sys ->
    sem_cap (th_local th) = local /\ sem_len (th_local th) = has_local th /\ has_local th <= local;
  inv_gauge : gauge sys = in_flight sys + holding sys }.

Lemma in_rpc_nonneg th : 0 <= in_rpc th.
Proof. unfold in_rpc. case_match; lia. Qed.

Lemma has_local_nonneg th : 0 <= has_local th.
Proof. unfold has_local. case_match; lia. Qed.

(** How a step of one task changes the sums. *)
Lemma goto_sums sys i th th' s m :
  sys_threads sys !! i = Some th ->
  in_flight (goto sys i th' s m) = in_flight sys - in_rpc th + in_rpc th' /\
  holding (goto sys i th' s m) = holding sys - has_local th + has_local th'.
Proof. intros H. split; by apply sumZ_insert. Qed.

(** The invariant after a step of task [i], from what the step did to it. *)
Lemma goto_inv local global sys i th th' s m :
  sys_inv local global sys -> sys_threads sys !! i = Some th ->
  sem_cap s = global -> sem_len s = sem_len (sys_rpc sys) - in_rpc th + in_rpc th' ->
  in_flight sys - in_rpc th + in_rpc th' <= global ->
  sem_cap (th_local th') = local -> sem_len (th_local th') = has_local th' -> has_local th' <= local ->
  metric_get m metricRPCConcurrent [] = gauge sys - in_rpc th + in_rpc th' - has_local th + has_local th' ->
  sys_inv local global (goto sys i th' s m).
Proof.
  intros [Hcap Hlen Hb Hl Hg] Hi Hc Hs Hbd Hlc Hll Hlb Hm.
  destruct (goto_sums sys i th th' s m Hi) as [Hf Hh].
  split; rewrite ?Hf, ?Hh; try done; cbn; try lia.
  - intros th0 Hin. apply list_elem_of_lookup in Hin as [j Hj].
    apply list_lookup_insert_Some in Hj as [(-> & <- & _)|(_ & Hj)]; [done|].
    apply Hl. by eapply list_elem_of_lookup_2.
  - unfold gauge at 1. cbn. lia.
Qed.

Ltac gauge_lia :=
  rewrite ?metric_get_add, ?decide_True by done; unfold gauge, in_rpc, has_local in *; cbn in *; lia.

Lemma task_step_inv local global done sys sys' :
  sys_inv local global sys -> task_step done sys sys' -> sys_inv local global sys'.
Proof.
  intros Hinv Hstep. pose proof Hinv as [Hcap Hlen Hb Hl Hg].
  destruct Hstep as [i [p sl] pick s m r Hi Hpc Ha|i [p sl] pick s m r Hi Hpc Ha
                    |i [p sl] s m Hi Hpc Hr|i [p sl] s m Hi Hpc Hr]; cbn in Hpc; subst p.
  all: destruct (Hl _ (list_elem_of_lookup_2 _ _ _ Hi)) as (Hlc & Hll & Hlb); cbn in *.
  all: try (apply Acquire_inv in Ha as [(e & -> & -> & -> & ->)|(-> & Hlt & -> & ->)]).
  all: try (apply Release_inv in Hr as (Hpos & -> & ->)).
  all: eapply goto_inv; try done; try gauge_lia.
Qed.

Lemma next_step_inv local global sys sys' :
  sys_inv local global sys -> next_step sys sys' -> sys_inv local global sys'.
Proof.
  intros Hinv [i [p sl] Hi Hpc]. cbn in Hpc. subst p. pose proof Hinv as [Hcap Hlen Hb Hl Hg].
  destruct (Hl _ (list_elem_of_lookup_2 _ _ _ Hi)) as (Hlc & Hll & Hlb); cbn in *.
  eapply goto_inv; try done; gauge_lia.
Qed.

Lemma sys_init_inv n local global : 0 <= local -> 0 <= global -> sys_inv local global (sys_init n local global).
Proof.
  intros Hl Hg.
  assert (Hz : in_flight (sys_init n local global) = 0 /\ holding (sys_init n local global) = 0).
  { split; apply sumZ_zero; intros th Hth; apply elem_of_replicate in Hth as [-> _]; done. }
  destruct Hz as [Hf Hh]. split; rewrite ?Hf, ?Hh; try done.
  intros th Hth. apply elem_of_replicate in Hth as [-> _]. cbn. lia.
Qed.

Lemma reachable_inv n local global sys :
  0 <= local -> 0 <= global -> rtc sys_step (sys_init n local global) sys -> sys_inv local global sys.
Proof.
  intros Hl Hg Hr. pose proof (sys_init_inv n local global Hl Hg) as Hinv.
  induction Hr as [|x y z [[d Hs]|Hs] _ IH]; [done| |]; apply IH.
  - by eapply task_step_inv.
  - by eapply next_step_inv.
Qed.

(** C11: In every interleaving of any number of tasks, with cancellations at any
    time, the RPCs in flight never exceed the capacity of the global semaphore,
    the tokens in its channel are exactly those of the calls in flight, no task
    holds more than one token of its own semaphore, and a [Release] never
    blocks. *)
Theorem rpc_in_flight_bounded n local global sys :
  0 <= local -> 0 <= global -> rtc sys_step (sys_init n local global) sys ->
  0 <= in_flight sys <= global /\ sem_len (sys_rpc sys) = in_flight sys /\
  (forall th, th ∈ sys_threads sys -> sem_len (th_local th) = has_local th) /\
  (forall th, th ∈ sys_threads sys -> th_pc th = InRPC -> is_Some (Release (sys_rpc sys) (sys_metrics sys))) /\
  (forall th, th ∈ sys_threads sys -> th_pc th = HoldsLocal -> is_Some (Release (th_local th) (sys_metrics sys))).
Proof.
  intros Hl Hg Hr. destruct (reachable_inv _ _ _ _ Hl Hg Hr) as [Hcap Hlen Hb Hloc Hga].
  split; [split; [apply sumZ_nonneg; intros; apply in_rpc_nonneg|done]|].
  split; [done|]. split; [intros th Hth; apply (Hloc th Hth)|]. split; intros th Hth Hpc.
  - rewrite Release_held; [by eexists|]. rewrite Hlen.
    pose proof (sumZ_elem_le in_rpc _ th (fun y _ => in_rpc_nonneg y) Hth).
    unfold in_rpc in H at 1. rewrite Hpc in H. unfold in_flight. lia.
  - destruct (Hloc th Hth) as (_ & Hll & _). rewrite Release_held; [by eexists|].
    rewrite Hll. unfold has_local. rewrite Hpc. lia.
Qed.

(** The gauge named "in-flight RPC requests" counts both semaphores: it is
    the RPCs in flight plus the tasks that hold a local token, so each RPC in
    flight counts twice. *)
Theorem gauge_counts_twice n local global sys :
  0 <= local -> 0 <= global -> rtc sys_step (sys_init n local global) sys ->
  gauge sys = in_flight sys + holding sys /\ 2 * in_flight sys <= gauge sys.
Proof.
  intros Hl Hg Hr. destruct (reachable_inv _ _ _ _ Hl Hg Hr) as [_ _ _ _ Hga].
  split; [done|]. rewrite Hga. enough (in_flight sys <= holding sys) by lia.
  unfold in_flight, holding. induction (sys_threads sys) as [|th l IH]; cbn; [lia|].
  unfold in_rpc at 1, has_local at 1. case_match; lia.
Qed.

(** ** Progress *)

(** The steps a task still has to its releases. *)
Definition weight (th : thread) : Z :=
  match th_pc th with AtStart => 4 | HasLocal => 3 | InRPC => 2 | HoldsLocal => 1 | AtEnd => 0 end.

Definition remaining (sys : system) : Z := sumZ weight (sys_threads sys).

Lemma weight_nonneg th : 0 <= weight th.
Proof. unfold weight. case_match; lia. Qed.

Lemma goto_remaining sys i th th' s m :
  sys_threads sys !! i = Some th ->
  remaining (goto sys i th' s m) = remaining sys - weight th + weight th'.
Proof. intros H. by apply sumZ_insert. Qed.

Lemma find_pc sys p :
  (exists i th, sys_threads sys !! i = Some th /\ th_pc th = p) \/
  (forall th, th ∈ sys_threads sys -> th_pc th <> p).
Proof.
  destruct (decide (Exists (fun th => th_pc th = p) (sys_threads sys))) as [H|H].
  - left. apply Exists_exists in H as (th & Hin & Hp).
    apply list_elem_of_lookup in Hin as [i Hi]. by exists i, th.
  - right. rewrite <- Forall_Exists_neg, Forall_forall in H. exact H.
Qed.

Ltac closer_to_end th :=
  rewrite (goto_remaining _ _ th) by done; unfold weight;
  match goal with H : th_pc th = _ |- _ => rewrite H end; simpl; lia.

(** Unless every task is past its releases, some task can make a step that
    brings it closer to them, without any cancellation. *)
Lemma task_step_progress local global sys :
  1 <= local -> 1 <= global -> sys_inv local global sys ->
  (forall th, th ∈ sys_threads sys -> th_pc th = AtEnd) \/
  exists sys', task_step None sys sys' /\ remaining sys' < remaining sys.
Proof.
  intros Hl Hg [Hcap Hlen Hb Hloc Hga].
  destruct (find_pc sys InRPC) as [(i & th & Hi & Hpc)|Hno].
  { right. pose proof (list_elem_of_lookup_2 _ _ _ Hi) as Hin.
    pose proof (sumZ_elem_le in_rpc _ th (fun y _ => in_rpc_nonneg y) Hin) as Hle.
    unfold in_rpc in Hle at 1. rewrite Hpc in Hle. fold (in_flight sys) in Hle.
    eexists. split; [eapply step_release_rpc; [exact Hi|done|apply Release_held; lia]|].
    closer_to_end th. }
  assert (Hzero : in_flight sys = 0).
  { apply sumZ_zero. intros th Hth. specialize (Hno th Hth). unfold in_rpc. by destruct (th_pc th). }
  destruct (find_pc sys HoldsLocal) as [(i & th & Hi & Hpc)|Hno4].
  { right. destruct (Hloc th (list_elem_of_lookup_2 _ _ _ Hi)) as (_ & Hll & _).
    unfold has_local in Hll. rewrite Hpc in Hll.
    eexists. split; [eapply step_release_local; [exact Hi|done|apply Release_held; lia]|].
    closer_to_end th. }
  destruct (find_pc sys HasLocal) as [(i & th & Hi & Hpc)|Hno2].
  { right. eexists. split; [eapply (step_acquire_rpc _ _ _ _ false); [exact Hi|done|apply Acquire_free; lia]|].
    closer_to_end th. }
  destruct (find_pc sys AtStart) as [(i & th & Hi & Hpc)|Hno3].
  { right. destruct (Hloc th (list_elem_of_lookup_2 _ _ _ Hi)) as (Hlc & Hll & _).
    unfold has_local in Hll. rewrite Hpc in Hll.
    eexists. split; [eapply (step_acquire_local _ _ _ _ false); [exact Hi|done|apply Acquire_free; lia]|].
    closer_to_end th. }
  left. intros th Hth. specialize (Hno th Hth). specialize (Hno2 th Hth).
  specialize (Hno3 th Hth). specialize (Hno4 th Hth). by destruct (th_pc th).
Qed.

(** C12: With capacities of at least one the protocol cannot deadlock: from every
    reachable state, with no cancellation, the tasks can all finish their
    iteration, after which every token has been returned and the gauge is 0. *)
Theorem semaphores_drain n local global sys :
  1 <= local -> 1 <= global -> rtc sys_step (sys_init n local global) sys ->
  exists sys', rtc (task_step None) sys sys' /\
    (forall th, th ∈ sys_threads sys' -> th_pc th = AtEnd /\ sem_len (th_local th) = 0) /\
    sem_len (sys_rpc sys') = 0 /\ gauge sys' = 0.
Proof.
  intros Hl Hg Hr. pose proof (reachable_inv n local global sys ltac:(lia) ltac:(lia) Hr) as Hinv. clear Hr.
  remember (Z.to_nat (remaining sys)) as k eqn:Hk.
  revert sys Hinv Hk. induction (lt_wf k) as [k _ IH]. intros sys Hinv ->.
  destruct (task_step_progress local global sys Hl Hg Hinv) as [Hend|(sys1 & Hs & Hlt)].
  - exists sys. destruct Hinv as [Hcap Hlen Hb Hloc Hga].
    assert (Hf : in_flight sys = 0)
      by (apply sumZ_zero; intros th Hth; unfold in_rpc; by rewrite Hend).
    assert (Hh : holding sys = 0)
      by (apply sumZ_zero; intros th Hth; unfold has_local; by rewrite Hend).
    split; [done|]. split; [|by rewrite Hlen, Hga, Hf, Hh].
    intros th Hth. split; [by apply Hend|]. destruct (Hloc th Hth) as (_ & -> & _).
    unfold has_local. by rewrite Hend.
  - pose proof (sumZ_nonneg weight (sys_threads sys1) (fun y _ => weight_nonneg y)) as Hn.
    fold (remaining sys1) in Hn.
    destruct (IH (Z.to_nat (remaining sys1)) ltac:(lia) sys1) as (sys' & Hr & H); [|done|].
    + by eapply task_step_inv.
    + exists sys'. split; [by eapply rtc_l|done].
Qed.

(** ** A run of two tasks: the first is in its RPC, the second waits for the
    global semaphore of capacity 1. *)

Definition two_tasks : system :=
  MkSys [MkThread InRPC (MkSem 3 1); MkThread HasLocal (MkSem 3 1)] (MkSem 1 1)
    (metric_add metricRPCConcurrent [] 1 (metric_add metricRPCConcurrent [] 1 (metric_add metricRPCConcurrent [] 1 ∅))).

Lemma two_tasks_reachable : rtc sys_step (sys_init 2 3 1) two_tasks.
Proof.
  eapply rtc_l; [left; exists None; by apply (step_acquire_local None _ 0 (MkThread AtStart (MkSem 3 0)) false)|].
  eapply rtc_l; [left; exists None; by apply (step_acquire_rpc None _ 0 (MkThread HasLocal (MkSem 3 1)) false)|].
  eapply rtc_l; [left; exists None; by apply (step_acquire_local None _ 1 (MkThread AtStart (MkSem 3 0)) false)|].
  apply rtc_refl.
Defined.

Lemma rpc_in_flight_bounded_witness :
  in_flight two_tasks = 1 /\ sem_len (sys_rpc two_tasks) = in_flight two_tasks /\ 0 <= in_flight two_tasks <= 1.
Proof.
  destruct (rpc_in_flight_bounded 2 3 1 two_tasks) as (H1 & H2 & _);
    [lia|lia|exact two_tasks_reachable|]. split; [reflexivity|]. split; [exact H2|exact H1].
Defined.

Lemma gauge_counts_twice_witness : gauge two_tasks = 3 /\ in_flight two_tasks = 1 /\ 2 * in_flight two_tasks <= gauge two_tasks.
Proof.
  destruct (gauge_counts_twice 2 3 1 two_tasks) as [_ H]; [lia|lia|exact two_tasks_reachable|].
  split; [reflexivity|]. split; [reflexivity|exact H].
Defined.

Lemma semaphores_drain_witness :
  exists sys', rtc (task_step None) two_tasks sys' /\ gauge sys' = 0.
Proof.
  destruct (semaphores_drain 2 3 1 two_tasks) as (sys' & Hr & _ & _ & Hga);
    [lia|lia|exact two_tasks_reachable|]. by exists sys'.
Defined.
