(* ===== verification/PendingPool.v ===== *)
(** * Pending pools ([go/logfilter/logfilter.go])

    [BlockPendingPool], the in-memory pool, over a Go map whose iteration order
    is arbitrary; the abstract contract the engine relies on (a map from start
    heights to logs, up to entries without logs), [PendingPoolLaws] for the calls
    that succeed and [PendingPoolSpec] for those that fail too; and the proof that
    the in-memory pool meets it. *)

From stdpp Require Import base gmap list strings.
From Stdlib Require Import ZArith Lia.
From S2P Require Import Prelude GoStd LogTypes.

Local Open Scope Z_scope.

Abbreviation PoolMap := (gmap Z (list LogResult)).

(** [h+confirmNum <= latestBlock], in [uint64] arithmetic. *)
Definition confirmed (latestBlock confirmNum h : Z) : bool := u64_add h confirmNum <=? latestBlock.

(** ** The contract of a pending pool *)

(** Two pools agree when they hold the same logs under the same heights; an
    entry with no logs is as good as none. *)
Definition drop_empty (m : PoolMap) : PoolMap := filter (fun kv => kv.2 <> []) m.
Definition pool_equiv (m1 m2 : PoolMap) : Prop := drop_empty m1 = drop_empty m2.
Infix "≈" := pool_equiv (at level 70) : go_scope.
Local Open Scope go_scope.

#[export] Instance pool_equiv_equivalence : Equivalence pool_equiv.
Proof. split; [by intros ?|by intros ? ? ?|intros ? ? ? H1 H2; red; by rewrite H1]. Qed.

Lemma drop_empty_lookup m h logs :
  drop_empty m !! h = Some logs <-> m !! h = Some logs /\ logs <> [].
Proof. unfold drop_empty. by rewrite map_lookup_filter_Some. Qed.

Lemma pool_equiv_lookup m1 m2 :
  m1 ≈ m2 <-> forall h logs, logs <> [] -> m1 !! h = Some logs <-> m2 !! h = Some logs.
Proof.
  unfold pool_equiv. split.
  - intros Heq h logs Hne.
    assert (H1 := drop_empty_lookup m1 h logs). assert (H2 := drop_empty_lookup m2 h logs).
    rewrite Heq in H1. tauto.
  - intros Hl. apply map_eq. intros h. apply option_eq. intros logs.
    rewrite !drop_empty_lookup. specialize (Hl h logs). tauto.
Qed.

#[export] Instance insert_pool_proper (h : Z) (logs : list LogResult) :
  Proper (pool_equiv ==> pool_equiv) (<[h := logs]> : PoolMap -> PoolMap).
Proof.
  intros m1 m2 Heq. rewrite pool_equiv_lookup in *. intros h' logs' Hne.
  rewrite !lookup_insert_Some, Heq by done. done.
Qed.

(** [l] is one of the logs the pool holds under some height. *)
Definition pool_has (m : PoolMap) (l : LogResult) : Prop := exists h logs, m !! h = Some logs /\ l ∈ logs.

#[export] Instance pool_has_proper : Proper (pool_equiv ==> eq ==> iff) pool_has.
Proof.
  assert (Hhalf : forall m1 m2 l, m1 ≈ m2 -> pool_has m1 l -> pool_has m2 l).
  { intros m1 m2 l Heq (h & logs & Hh & Hin). rewrite pool_equiv_lookup in Heq.
    exists h, logs. split; [|done]. apply Heq; [|done]. intros ->. by apply not_elem_of_nil in Hin. }
  intros m1 m2 Heq l ? <-. split; apply Hhalf; [done|by symmetry].
Qed.

(** The entries of a pool that are confirmed, and those that are not. *)
Definition ready (latest c : Z) (m : PoolMap) : PoolMap := filter (fun kv => confirmed latest c kv.1 = true) m.
Definition unready (latest c : Z) (m : PoolMap) : PoolMap := filter (fun kv => confirmed latest c kv.1 = false) m.

#[export] Instance ready_proper latest c : Proper (pool_equiv ==> pool_equiv) (ready latest c).
Proof.
  intros m1 m2 Heq. rewrite pool_equiv_lookup in *. intros h logs Hne. unfold ready.
  by rewrite !map_lookup_filter_Some, Heq.
Qed.
#[export] Instance unready_proper latest c : Proper (pool_equiv ==> pool_equiv) (unready latest c).
Proof.
  intros m1 m2 Heq. rewrite pool_equiv_lookup in *. intros h logs Hne. unfold unready.
  by rewrite !map_lookup_filter_Some, Heq.
Qed.

(** What the engine relies on: a pool behaves as a map from heights to logs.
    [pool_keeps] says which logs it stores as they are.  Nothing is said of a call
    that fails. *)
Class PendingPoolLaws (P : Type) `{PendingPool P} := {
  pool_keeps : LogResult -> Prop;
  pool_wf : P -> Prop;
  contents : P -> PoolMap;
  pool_Add_ok ctx p h logs p' :
    pool_wf p -> is_u64 h -> Forall pool_keeps logs -> pool_Add ctx p h logs = (p', None) ->
    pool_wf p' /\ contents p' ≈ <[h := logs]> (contents p);
  pool_Pop_ok ctx p latest c p' out :
    pool_wf p -> pool_PopConfirmed ctx p latest c = (p', Ok out) ->
    pool_wf p' /\ contents p' ≈ unready latest c (contents p) /\
    forall l, l ∈ out <-> pool_has (ready latest c (contents p)) l;
  pool_Count_same ctx p : pool_wf p ->
    pool_wf (pool_Count ctx p).1 /\ contents (pool_Count ctx p).1 ≈ contents p }.

(** A call that fails has changed nothing. *)
Class PendingPoolSpec (P : Type) `{PendingPoolLaws P} := {
  pool_Add_err ctx p h logs p' e :
    pool_wf p -> pool_Add ctx p h logs = (p', Some e) -> pool_wf p' /\ contents p' ≈ contents p;
  pool_Pop_err ctx p latest c p' e :
    pool_wf p -> pool_PopConfirmed ctx p latest c = (p', Err e) -> pool_wf p' /\ contents p' ≈ contents p }.

(** A log in a pool is in one of its two parts. *)
Lemma pool_has_split latest c m l :
  pool_has m l <-> pool_has (ready latest c m) l \/ pool_has (unready latest c m) l.
Proof.
  unfold pool_has, ready, unready. setoid_rewrite map_lookup_filter_Some. cbn. split.
  - intros (h & logs & Hh & Hl). destruct (confirmed latest c h) eqn:E; [left|right]; eauto 10.
  - intros [(h & logs & (Hh & _) & Hl)|(h & logs & (Hh & _) & Hl)]; eauto.
Qed.

(** Adding under a height keeps every log except those it replaces. *)
Lemma pool_has_insert m h logs l :
  pool_has (<[h := logs]> m) l <->
  l ∈ logs \/ exists h' logs', h' <> h /\ m !! h' = Some logs' /\ l ∈ logs'.
Proof.
  unfold pool_has. setoid_rewrite lookup_insert_Some. split.
  - intros (h' & logs' & [[-> ->]|[Hne Hh]] & Hl); [by left|right]. eauto 10.
  - intros [Hl|(h' & logs' & Hne & Hh & Hl)]; [by eauto 10|]. exists h', logs'. split; [right; split; congruence|done].
Qed.

(** ** [BlockPendingPool] *)

(** [bp_ranges] counts the [range] loops run over the map so far. *)
Record BlockPendingPool := MkPool { bp_data : PoolMap; bp_ranges : nat }.

Definition NewBlockPendingPool : BlockPendingPool := MkPool ∅ 0.

Section BlockPendingPool.
(** The order in which the [n]-th [range] visits a map: Go leaves it open. *)
Variable range_order : nat -> PoolMap -> list (Z * list LogResult).

Definition Add (p : BlockPendingPool) (blockHeight : Z) (logs : list LogResult) : BlockPendingPool * option error :=
  (MkPool (<[blockHeight := logs]> (bp_data p)) (bp_ranges p), None).

(** The body of [for h, logs := range p.data]. *)
Definition pop_step (latestBlock confirmNum : Z) (acc : list LogResult * PoolMap) (kv : Z * list LogResult) :=
  if u64_add kv.1 confirmNum <=? latestBlock
  then (acc.1 ++ kv.2, delete kv.1 acc.2)
  else acc.

Definition PopConfirmed (p : BlockPendingPool) (latestBlock confirmNum : Z)
  : BlockPendingPool * result (list LogResult) :=
  let '(out, data) :=
    fold_left (pop_step latestBlock confirmNum) (range_order (bp_ranges p) (bp_data p)) ([], bp_data p) in
  (MkPool data (S (bp_ranges p)), Ok out).

Definition Count (p : BlockPendingPool) : result Z := Ok (Z.of_nat (size (bp_data p))).

#[export] Instance BlockPendingPool_pool : PendingPool BlockPendingPool := {
  pool_Add _ p h logs := Add p h logs;
  pool_PopConfirmed _ p latest c := PopConfirmed p latest c;
  pool_Count _ p := (p, Count p) }.

(** The map visits every entry once. *)
Hypothesis range_order_perm : forall n m, range_order n m ≡ₚ map_to_list m.

Lemma pop_loop_out latest c kvs : forall out data,
  (fold_left (pop_step latest c) kvs (out, data)).1 =
  out ++ concat (snd <$> filter (fun kv => confirmed latest c kv.1 = true) kvs).
Proof.
  induction kvs as [|[h logs] kvs IH]; intros out data; cbn [fold_left]; [by rewrite app_nil_r|].
  unfold pop_step at 2, confirmed at 1. cbn [fst snd]. rewrite filter_cons. unfold confirmed at 1. cbn [fst].
  destruct (u64_add h c <=? latest); rewrite IH; [|by rewrite decide_False].
  rewrite decide_True by done. cbn. by rewrite app_assoc.
Qed.

Lemma pop_loop_data latest c kvs : forall out data h,
  (fold_left (pop_step latest c) kvs (out, data)).2 !! h =
  if confirmed latest c h && bool_decide (h ∈ kvs.*1) then None else data !! h.
Proof.
  induction kvs as [|[k logs] kvs IH]; intros out data h; cbn [fold_left].
  { rewrite bool_decide_false by apply not_elem_of_nil. by rewrite andb_false_r. }
  unfold pop_step at 2. cbn [fst snd]. fold (confirmed latest c k).
  destruct (decide (h = k)) as [->|Hne].
  - rewrite (bool_decide_true (k ∈ ((k, logs) :: kvs).*1)) by apply list_elem_of_here.
    destruct (confirmed latest c k) eqn:E; rewrite IH, E; cbn; [|done].
    rewrite lookup_delete_eq. by case_match.
  - assert (Hiff : bool_decide (h ∈ ((k, logs) :: kvs).*1) = bool_decide (h ∈ kvs.*1)).
    { apply bool_decide_ext. rewrite fmap_cons, elem_of_cons. naive_solver. }
    rewrite Hiff. destruct (confirmed latest c k); rewrite IH; [|done].
    rewrite lookup_delete_ne by done. done.
Qed.

Lemma range_order_keys n m h : h ∈ (range_order n m).*1 <-> is_Some (m !! h).
Proof.
  rewrite list_elem_of_fmap. setoid_rewrite range_order_perm. split.
  - intros ([k logs] & -> & Hin). apply elem_of_map_to_list in Hin. by eexists.
  - intros [logs Hh]. exists (h, logs). split; [done|]. by apply elem_of_map_to_list.
Qed.

Lemma PopConfirmed_data p latest c :
  bp_data (PopConfirmed p latest c).1 = unready latest c (bp_data p).
Proof.
  unfold PopConfirmed. pose proof (pop_loop_data latest c (range_order (bp_ranges p) (bp_data p)) [] (bp_data p)) as Hd.
  destruct (fold_left _ _ _) as [out data]. cbn in Hd |- *.
  apply map_eq. intros h. rewrite Hd. unfold unready. apply option_eq. intros logs.
  rewrite map_lookup_filter_Some. cbn.
  destruct (confirmed latest c h) eqn:E; cbn; [|naive_solver].
  case_bool_decide as Hin; [naive_solver|]. rewrite range_order_keys in Hin.
  split; [|naive_solver]. intros Hh. destruct Hin. by eexists.
Qed.

Lemma map_to_list_filter_perm (P : Z * list LogResult -> Prop) `{!forall kv, Decision (P kv)} (m : PoolMap) :
  map_to_list (filter P m) ≡ₚ filter P (map_to_list m).
Proof.
  apply NoDup_Permutation; [apply NoDup_map_to_list|apply NoDup_filter, NoDup_map_to_list|].
  intros [k v]. rewrite elem_of_map_to_list, list_elem_of_filter, elem_of_map_to_list, map_lookup_filter_Some.
  tauto.
Qed.

(** The entries popped, in the order in which [range] visits them. *)
Lemma PopConfirmed_order p latest c :
  exists order, order ≡ₚ map_to_list (ready latest c (bp_data p)) /\
    order = filter (fun kv => confirmed latest c kv.1 = true) (range_order (bp_ranges p) (bp_data p)) /\
    (PopConfirmed p latest c).2 = Ok (concat order.*2).
Proof.
  eexists. split_and!; [|reflexivity|].
  - unfold ready. rewrite map_to_list_filter_perm. by rewrite range_order_perm.
  - unfold PopConfirmed.
    pose proof (pop_loop_out latest c (range_order (bp_ranges p) (bp_data p)) [] (bp_data p)) as Hout.
    destruct (fold_left _ _ _) as [out data]. cbn in Hout |- *. by subst out.
Qed.

Lemma PopConfirmed_out p latest c :
  exists out, (PopConfirmed p latest c).2 = Ok out /\
    out ≡ₚ concat (snd <$> map_to_list (ready latest c (bp_data p))).
Proof.
  destruct (PopConfirmed_order p latest c) as (order & Ho & _ & ->). eexists. split; [done|]. by rewrite Ho.
Qed.

Lemma ready_unready latest c m : ready latest c (unready latest c m) = ∅.
Proof.
  apply map_empty. intros h. apply eq_None_not_Some. intros [logs Hh].
  apply map_lookup_filter_Some in Hh as [Hh Hc]. apply map_lookup_filter_Some in Hh as [_ Hu].
  cbn in *. congruence.
Qed.

(** C15: Whatever order the map is visited in, [PopConfirmed] returns the logs
    of exactly the entries at least [confirmNum] below the head, each entry
    once: the lists of logs of these entries, as they were added, one after the
    other in the order in which the entries are visited.  It removes exactly
    those entries and leaves [Count] at the number of the others; a second call
    with the same arguments returns nothing. *)
Theorem PopConfirmed_spec p latest c :
  let '(p', r) := PopConfirmed p latest c in
  exists order, order ≡ₚ map_to_list (ready latest c (bp_data p)) /\
    order = filter (fun kv => confirmed latest c kv.1 = true) (range_order (bp_ranges p) (bp_data p)) /\
    r = Ok (concat order.*2) /\
    bp_data p' = unready latest c (bp_data p) /\
    Count p' = Ok (Z.of_nat (size (unready latest c (bp_data p)))) /\
    snd (PopConfirmed p' latest c) = Ok [].
Proof.
  pose proof (PopConfirmed_data p latest c) as Hdata. destruct (PopConfirmed_order p latest c) as (order & Ho & Hf & Hr).
  destruct (PopConfirmed p latest c) as [p' r]. cbn in Hdata, Hr. exists order.
  split; [done|]. split; [done|]. split; [done|]. split; [done|]. split; [unfold Count; by rewrite Hdata|].
  destruct (PopConfirmed_out p' latest c) as (out2 & -> & Hout2).
  rewrite Hdata, ready_unready, map_to_list_empty in Hout2. by apply Permutation_nil_r in Hout2 as ->.
Qed.

Lemma concat_elem_pool_has (m : PoolMap) l :
  l ∈ concat (snd <$> map_to_list m) <-> pool_has m l.
Proof.
  unfold pool_has. rewrite list_elem_of_In, in_concat. setoid_rewrite <- list_elem_of_In.
  setoid_rewrite list_elem_of_fmap. split.
  - intros (logs & ([h logs'] & -> & Hin) & Hl). apply elem_of_map_to_list in Hin. by exists h, logs'.
  - intros (h & logs & Hh & Hl). exists logs. split; [|done]. exists (h, logs).
    split; [done|]. by apply elem_of_map_to_list.
Qed.

(** The in-memory pool is a pending pool. *)
#[export] Program Instance BlockPendingPool_laws : PendingPoolLaws BlockPendingPool := {
  pool_keeps _ := True;
  pool_wf _ := True;
  contents := bp_data }.
Next Obligation. intros ctx p h logs p' _ _ _ [= <-]. done. Qed.
Next Obligation.
  intros ctx p latest c p' out _ Hpop. change (PopConfirmed p latest c = (p', Ok out)) in Hpop.
  pose proof (PopConfirmed_data p latest c) as Hd. pose proof (PopConfirmed_out p latest c) as (out' & Ho & Hperm).
  rewrite Hpop in Hd, Ho. injection Ho as <-. cbn in Hd. rewrite Hd. split; [done|]. split; [done|].
  intros l. by rewrite Hperm, concat_elem_pool_has.
Qed.
Next Obligation. done. Qed.

(** No call on it fails. *)
#[export] Program Instance BlockPendingPool_spec : PendingPoolSpec BlockPendingPool.
Next Obligation. by intros ctx p h logs p' e _ [=]. Qed.
Next Obligation.
  intros ctx p latest c p' e _ Hpop. change (PopConfirmed p latest c = (p', Err e)) in Hpop.
  unfold PopConfirmed in Hpop. by destruct (fold_left _ _ _).
Qed.
End BlockPendingPool.

(** One order: that of the map's own enumeration. *)
Definition list_order (_ : nat) (m : PoolMap) : list (Z * list LogResult) := map_to_list m.

Lemma list_order_perm n m : list_order n m ≡ₚ map_to_list m.
Proof. done. Qed.

Lemma PopConfirmed_spec_witness :
  let l := MkLog "100" 100 "0xabc" "" [] "" in
  let p := MkPool {[ 100 := [l]; 105 := [] ]} 0 in
  (PopConfirmed list_order p 106 6).2 = Ok [l] /\
  bp_data (PopConfirmed list_order p 106 6).1 = {[ 105 := [] ]} /\
  exists order : list (Z * list LogResult), Ok [l] = Ok (concat order.*2) /\ order ≡ₚ map_to_list (ready 106 6 (bp_data p)).
Proof.
  intros l p. split; [vm_compute; reflexivity|]. split; [vm_compute; reflexivity|].
  pose proof (PopConfirmed_spec list_order list_order_perm p 106 6) as H.
  destruct (PopConfirmed list_order p 106 6) as [p' r] eqn:E.
  assert (Hr : r = Ok [l]) by (change r with (p', r).2; rewrite <- E; vm_compute; reflexivity).
  destruct H as (order & Hp & _ & Ho & _). exists order. split; [congruence|exact Hp].
Defined.
