(* ===== verification/Checkpoint.v ===== *)
(** * Checkpoint stores ([go/logfilter/logfilter.go])

    [MemoryCheckpointStore] and [FileCheckpointStore], the latter over a model
    of the file system calls it makes, in which a write may be torn; the contract
    [CheckpointStoreSpec] (a successful [Save] is what the next [Load] returns),
    proved of both; and what a torn write leaves behind. *)

From stdpp Require Import base gmap list strings.
From Stdlib Require Import ZArith Lia.
From Stdlib Require String.
From S2P Require Import Prelude GoStd LogTypes.

Local Open Scope Z_scope.

(** ** The contract *)

(** [stored s] is the block [s] would be read back as, if any. *)
Class CheckpointStoreSpec (S : Type) `{CheckpointStore S} := {
  stored : S -> option Z;
  Save_ok c s b s' : is_u64 b -> store_Save c s b = (s', None) -> stored s' = Some b;
  Load_ok c s s' v : store_Load c s = (s', Ok v) -> stored s' = stored s /\ stored s = Some v }.

(** ** [MemoryCheckpointStore] *)

Module Memory.
Record MemoryCheckpointStore := MkStore { val : Z }.

Definition NewMemoryCheckpointStore (initVal : Z) : MemoryCheckpointStore := MkStore initVal.
Definition Save (m : MemoryCheckpointStore) (block : Z) : MemoryCheckpointStore * option error := (MkStore block, None).
Definition Load (m : MemoryCheckpointStore) : result Z := Ok (val m).

#[global] Instance MemoryCheckpointStore_store : CheckpointStore MemoryCheckpointStore := {
  store_Save _ m block := Save m block;
  store_Load _ m := (m, Load m) }.

#[global] Program Instance MemoryCheckpointStore_spec : CheckpointStoreSpec MemoryCheckpointStore := {
  stored m := Some (val m) }.
Next Obligation. by intros c s b s' _ [= <-]. Qed.
Next Obligation. by intros c s s' v [= <- <-]. Qed.
End Memory.

(** ** The file system *)

(** The files by path; [fs_torn], when set, is how the next write goes wrong:
    after that many bytes, with that error. *)
Record FileSystem := MkFS { fs_files : gmap string string; fs_torn : option (nat * error) }.

(** [os.ReadFile]. *)
Definition ReadFile (fs : FileSystem) (path : string) : result string :=
  match fs_files fs !! path with
  | Some data => Ok data
  | None => Err (EWrap ("open " +:+ path +:+ ": ") ENotExist)
  end.

(** [os.WriteFile]: truncate, then write; a failed write leaves a prefix. *)
Definition WriteFile (fs : FileSystem) (path data : string) : FileSystem * option error :=
  match fs_torn fs with
  | None => (MkFS (<[path := data]> (fs_files fs)) None, None)
  | Some (n, e) => (MkFS (<[path := str_take n data]> (fs_files fs)) None, Some e)
  end.

(** ** [FileCheckpointStore] *)

Module File.
(** The store and the file system it writes to. *)
Record FileCheckpointStore := MkStore { path : string; fs : FileSystem }.

Definition NewFileCheckpointStore (path : string) (fs : FileSystem) : FileCheckpointStore := MkStore path fs.

Definition Save (ctx : Ctx) (f : FileCheckpointStore) (block : Z) : FileCheckpointStore * option error :=
  match ctx with
  | Some e => (f, Some e)
  | None => let (fs', e) := WriteFile (fs f) (path f) (FormatUint block) in (MkStore (path f) fs', e)
  end.

Definition Load (ctx : Ctx) (f : FileCheckpointStore) : result Z :=
  match ctx with
  | Some e => Err e
  | None =>
      match ReadFile (fs f) (path f) with
      | Err err => if errors_Is (Some err) (Some ENotExist) then Ok 0 else Err err
      | Ok data => ParseUint data
      end
  end.

#[global] Instance FileCheckpointStore_store : CheckpointStore FileCheckpointStore := {
  store_Save c f block := Save c f block;
  store_Load c f := (f, Load c f) }.

Lemma Save_inv c f b f' : Save c f b = (f', None) ->
  path f' = path f /\ fs_files (fs f') = <[path f := FormatUint b]> (fs_files (fs f)).
Proof.
  unfold Save, WriteFile. destruct c; [by intros [=]|]. destruct (fs_torn (fs f)) as [[n e]|]; by intros [= <-].
Qed.

Lemma Load_lookup f data : fs_files (fs f) !! path f = Some data -> Load None f = ParseUint data.
Proof. intros Hl. unfold Load, ReadFile. by rewrite Hl. Qed.

#[global] Program Instance FileCheckpointStore_spec : CheckpointStoreSpec FileCheckpointStore := {
  stored f := match Load None f with Ok v => Some v | Err _ => None end }.
Next Obligation.
  intros c f b f' Hb [Hp Hf]%Save_inv. rewrite (Load_lookup f' (FormatUint b)).
  - by rewrite ParseUint_FormatUint.
  - by rewrite Hp, Hf, lookup_insert_eq.
Qed.
Next Obligation.
  intros c f f' v. cbn [store_Load FileCheckpointStore_store]. intros [= <- Hl]. split; [done|].
  destruct c; [done|]. by rewrite Hl.
Qed.

(** The file store keeps what it is given: after a successful [Save] of a
    [uint64], [Load] returns it, from this store and from any other store
    opened on the same file, while every other file is as it was; a [Save] with
    a cancelled context changes nothing; and before the first [Save], [Load]
    returns block 0. *)
Theorem FileCheckpointStore_roundtrip f b :
  is_u64 b ->
  (forall c f', Save c f b = (f', None) ->
     c = None /\ Load None f' = Ok b /\ Load None (NewFileCheckpointStore (path f) (fs f')) = Ok b /\
     forall p, p <> path f -> fs_files (fs f') !! p = fs_files (fs f) !! p) /\
  (forall e, Save (Some e) f b = (f, Some e)) /\
  (fs_files (fs f) !! path f = None -> Load None f = Ok 0).
Proof.
  intros Hb. split; [|split; [done|]].
  - intros c f' Hs. destruct (Save_inv _ _ _ _ Hs) as [Hp Hf]. destruct c; [done|]. split; [done|].
    split; [|split]; [| |intros p Hne; by rewrite Hf, lookup_insert_ne].
    + rewrite (Load_lookup f' (FormatUint b)); [by apply ParseUint_FormatUint|].
      by rewrite Hp, Hf, lookup_insert_eq.
    + rewrite (Load_lookup _ (FormatUint b)); [by apply ParseUint_FormatUint|].
      cbn. by rewrite Hf, lookup_insert_eq.
  - intros Hn. unfold Load, ReadFile. rewrite Hn. reflexivity.
Qed.

Lemma FileCheckpointStore_roundtrip_witness :
  let f := NewFileCheckpointStore "cp" (MkFS ∅ None) in
  Load None f = Ok 0 /\ Load None (MkStore "cp" (MkFS {[ "cp" := "18446744073709551615" ]} None)) = Ok 18446744073709551615.
Proof.
  intros f.
  destruct (FileCheckpointStore_roundtrip f 18446744073709551615) as (Hs & _ & Hn); [unfold is_u64, two64; lia|].
  split; [apply Hn; vm_compute; reflexivity|].
  refine (proj1 (proj2 (Hs None _ _))). vm_compute. reflexivity.
Defined.

(** A prefix of a decimal number is empty or reads as a smaller number. *)
Lemma read_digits_take n : forall s acc v, 0 <= acc -> read_digits 10 s acc = Some v ->
  exists v', read_digits 10 (str_take n s) acc = Some v' /\ acc <= v' <= v.
Proof.
  induction n as [|n IH]; intros s acc v Hacc Hr.
  - exists acc. split; [by destruct s|]. split; [lia|]. eapply (read_digits_mono 10); [lia|done|exact Hr].
  - destruct s as [|c s]; cbn in *; [injection Hr as <-; exists acc; split; [by destruct n|lia]|].
    destruct (digit_val c <? 10); [|done]. pose proof (digit_val_nonneg c).
    destruct (IH s (acc * 10 + digit_val c) v) as (v' & Hv & Hle); [lia|done|]. exists v'. split; [done|lia].
Qed.

(** A torn [Save] reports its error but has replaced the old checkpoint:
    the next [Load] either fails to parse the empty file or returns, without an
    error, a block that is at most the one saved, whatever was stored before. *)
Theorem FileCheckpointStore_torn f b n e :
  is_u64 b -> fs_torn (fs f) = Some (n, e) ->
  exists f', Save None f b = (f', Some e) /\
    match n with
    | O => Load None f' = Err (ENumError "ParseUint" "" ErrSyntax)
    | Datatypes.S _ => exists v, Load None f' = Ok v /\ 0 <= v <= b
    end.
Proof.
  intros Hb Ht. unfold Save, WriteFile. rewrite Ht. eexists. split; [done|].
  pose proof (read_fmt_base 10 b) as Hr. unfold is_u64, two64 in Hb.
  destruct (read_digits_take n (fmt_base 10 b) 0 b ltac:(lia) (Hr ltac:(lia) ltac:(lia))) as (v & Hv & Hle).
  rewrite (Load_lookup _ (str_take n (FormatUint b))) by apply lookup_insert_eq. destruct n as [|n].
  - by destruct (FormatUint b).
  - exists v. split; [|lia]. unfold FormatUint. pose proof (fmt_base_nonempty 10 b) as Hne.
    destruct (fmt_base 10 b) as [|a s]; [done|]. cbn [str_take] in *. unfold ParseUint.
    apply parse_uint_loop_read; [lia|done|unfold max_u64; lia].
Qed.

Lemma FileCheckpointStore_torn_witness :
  let f := NewFileCheckpointStore "cp" (MkFS {[ "cp" := "1199" ]} (Some (2%nat, ENew "no space left on device"))) in
  exists f', Save None f 1234 = (f', Some (ENew "no space left on device")) /\ Load None f' = Ok 12 /\
    exists v, Load None f' = Ok v /\ 0 <= v <= 1234.
Proof.
  intros f. destruct (FileCheckpointStore_torn f 1234 2 (ENew "no space left on device")) as (f' & Hs & Hl);
    [unfold is_u64, two64; lia|reflexivity|].
  exists f'. split; [exact Hs|]. split; [|exact Hl].
  assert (Hf : f' = (Save None f 1234).1) by (rewrite Hs; reflexivity). rewrite Hf. vm_compute. reflexivity.
Defined.
End File.
