(* ===== verification/Redis.v ===== *)
(** * The Redis client

    The commands of go-redis the log filter uses, as a type class, with laws that
    state what Redis documents: a transaction is applied whole or not at all, and
    a set without members is no key.  A reply can be lost after the command was
    carried out; [RedisReplies] says that it is not.  [MemRedis] is a server in
    memory that keeps the laws, for the witnesses. *)

From stdpp Require Import base gmap list strings.
From Stdlib Require Import ZArith Lia.
From Stdlib Require String.
From S2P Require Import Prelude GoStd LogTypes.

Local Open Scope Z_scope.

(** ** The Redis client *)

Inductive rvalue := RStr (s : string) | RSet (X : gset string).
Abbreviation Keys := (gmap string rvalue).

(** A command queued in a pipeline. *)
Inductive redis_cmd :=
  | CSet (key value : string)
  | CSAdd (key member : string)
  | CSRem (key member : string)
  | CDel (key : string).

(** What a command does to the keys; [None] for a key of the wrong type. *)
Definition apply_cmd (m : Keys) (c : redis_cmd) : option Keys :=
  match c with
  | CSet k v => Some (<[k := RStr v]> m)
  | CSAdd k x =>
      match m !! k with
      | None => Some (<[k := RSet {[x]}]> m)
      | Some (RSet X) => Some (<[k := RSet ({[x]} ∪ X)]> m)
      | Some (RStr _) => None
      end
  | CSRem k x =>
      match m !! k with
      | None => Some m
      | Some (RSet X) => Some (if decide (X ∖ {[x]} = ∅) then delete k m else <[k := RSet (X ∖ {[x]})]> m)
      | Some (RStr _) => None
      end
  | CDel k => Some (delete k m)
  end.

Fixpoint apply_cmds (m : Keys) (cs : list redis_cmd) : option Keys :=
  match cs with [] => Some m | c :: cs' => apply_cmd m c ≫= fun m' => apply_cmds m' cs' end.

(** The members of a set key; no key is the empty set. *)
Definition members (m : Keys) (k : string) : option (gset string) :=
  match m !! k with None => Some ∅ | Some (RSet X) => Some X | Some (RStr _) => None end.

(** The methods of [*redis.Client] the code calls; [Exec] is [TxPipeline] with
    the commands queued and its [Exec]. *)
Class RedisClient (D : Type) := {
  rdb_Get : Ctx -> D -> string -> D * result string;
  rdb_Set : Ctx -> D -> string -> string -> D * option error;
  rdb_SMembers : Ctx -> D -> string -> D * result (list string);
  rdb_SCard : Ctx -> D -> string -> D * result Z;
  rdb_Exec : Ctx -> D -> list redis_cmd -> D * option error }.

(** What Redis documents.  A command that fails may have been applied when the
    reply was lost, but a transaction is never half applied. *)
Class RedisLaws (D : Type) `{RedisClient D} := {
  keys : D -> Keys;
  Get_law c d k d' r : rdb_Get c d k = (d', r) ->
    keys d' = keys d /\
    match r with Ok v => keys d !! k = Some (RStr v) | Err e => errors_Is (Some e) (Some ERedisNil) = true -> keys d !! k = None end;
  Set_law c d k v d' r : rdb_Set c d k v = (d', r) ->
    match r with
    | None => keys d' = <[k := RStr v]> (keys d)
    | Some _ => keys d' = keys d \/ keys d' = <[k := RStr v]> (keys d)
    end;
  SMembers_law c d k d' r : rdb_SMembers c d k = (d', r) ->
    keys d' = keys d /\
    match r with Ok l => exists X, members (keys d) k = Some X /\ l ≡ₚ elements X | Err _ => True end;
  SCard_law c d k d' r : rdb_SCard c d k = (d', r) ->
    keys d' = keys d /\
    match r with Ok n => exists X, members (keys d) k = Some X /\ n = Z.of_nat (size X) | Err _ => True end;
  Exec_law c d cs d' r m : rdb_Exec c d cs = (d', r) -> apply_cmds (keys d) cs = Some m ->
    match r with None => keys d' = m | Some _ => keys d' = keys d \/ keys d' = m end }.

(** No reply is lost: what fails was not applied. *)
Class RedisReplies (D : Type) `{RedisLaws D} := {
  Exec_replies c d cs d' e : rdb_Exec c d cs = (d', Some e) -> keys d' = keys d }.

(** ** A Redis server in memory *)

(** What becomes of a call: it works, it is refused, or it is carried out and
    the reply is lost. *)
Inductive fault := FOk | FRefused | FLost.

(** The keys and the fates of the next calls; past them all calls work.  With
    [lossy = false] a lost reply counts as a refusal. *)
Record MemRedis (lossy : bool) := MkRedis { mr_keys : Keys; mr_faults : list fault }.
Arguments MkRedis {lossy} _ _.
Arguments mr_keys {lossy} _.
Arguments mr_faults {lossy} _.

Definition io_timeout : error := ENew "i/o timeout".
Definition wrong_type : error :=
  ENew "WRONGTYPE Operation against a key holding the wrong kind of value".

Section MemRedis.
Context {lossy : bool}.
Local Abbreviation redis := (MemRedis lossy).

(** A read. *)
Definition mr_read {A} (ctx : Ctx) (d : redis) (r : result A) : redis * result A :=
  (MkRedis (mr_keys d) (tail (mr_faults d)),
   match ctx, hd_error (mr_faults d) with
   | Some _, _ => Err ECanceled
   | None, None | None, Some FOk => r
   | None, _ => Err io_timeout
   end).

(** A write, given the keys after it and its error. *)
Definition mr_write (ctx : Ctx) (d : redis) (r : Keys * option error) : redis * option error :=
  let fs := tail (mr_faults d) in
  match ctx, hd_error (mr_faults d) with
  | Some _, _ => (MkRedis (mr_keys d) fs, Some ECanceled)
  | None, None | None, Some FOk => (MkRedis r.1 fs, r.2)
  | None, Some FRefused => (MkRedis (mr_keys d) fs, Some io_timeout)
  | None, Some FLost => (MkRedis (if lossy then r.1 else mr_keys d) fs, Some io_timeout)
  end.

#[export] Instance MemRedis_client : RedisClient redis := {
  rdb_Get ctx d k := mr_read ctx d
    match mr_keys d !! k with Some (RStr v) => Ok v | Some (RSet _) => Err wrong_type | None => Err ERedisNil end;
  rdb_Set ctx d k v := mr_write ctx d (<[k := RStr v]> (mr_keys d), None);
  rdb_SMembers ctx d k := mr_read ctx d
    match members (mr_keys d) k with Some X => Ok (elements X) | None => Err wrong_type end;
  rdb_SCard ctx d k := mr_read ctx d
    match members (mr_keys d) k with Some X => Ok (Z.of_nat (size X)) | None => Err wrong_type end;
  rdb_Exec ctx d cs := mr_write ctx d
    match apply_cmds (mr_keys d) cs with Some m => (m, None) | None => (mr_keys d, Some wrong_type) end }.

(** It behaves as documented. *)
#[export] Program Instance MemRedis_laws : RedisLaws redis := { keys := mr_keys }.
Next Obligation.
  intros ctx d k d' r. cbn. unfold mr_read. intros [= <- <-]. split; [done|].
  destruct ctx, (hd_error (mr_faults d)) as [[]|]; try done; by destruct (mr_keys d !! k) as [[]|].
Qed.
Next Obligation.
  intros ctx d k v d' r. cbn. unfold mr_write.
  destruct ctx, (hd_error (mr_faults d)) as [[]|], lossy; intros [= <- <-]; cbn; auto.
Qed.
Next Obligation.
  intros ctx d k d' r. cbn. unfold mr_read. intros [= <- <-]. split; [done|].
  destruct ctx, (hd_error (mr_faults d)) as [[]|]; try done; destruct (members (mr_keys d) k) as [X|]; eauto.
Qed.
Next Obligation.
  intros ctx d k d' r. cbn. unfold mr_read. intros [= <- <-]. split; [done|].
  destruct ctx, (hd_error (mr_faults d)) as [[]|]; try done; destruct (members (mr_keys d) k) as [X|]; eauto.
Qed.
Next Obligation.
  intros ctx d cs d' r m. cbn. unfold mr_write. intros Hx Hm. rewrite Hm in Hx.
  destruct ctx, (hd_error (mr_faults d)) as [[]|], lossy; injection Hx as <- <-; cbn; auto.
Qed.
End MemRedis.

#[export] Program Instance MemRedis_replies : RedisReplies (MemRedis false).
Next Obligation.
  intros ctx d cs d' e. cbn. unfold mr_write.
  destruct ctx, (hd_error (mr_faults d)) as [[]|], (apply_cmds (mr_keys d) cs); intros [=]; by subst.
Qed.
