(* ===== verification/Env.v ===== *)
(** * Settings read from the environment

    The part of [strings] and [time] the daemon reads its settings with
    ([strings.Split], [strings.TrimSpace], [time.ParseDuration], whose fractions
    are computed in [float64]), and its helpers [env] and [envUint64]
    (go/logfilter/main.go). *)

From stdpp Require Import base gmap list strings.
From Stdlib Require Import ZArith Lia Ascii.
From Stdlib Require String.
From Stdlib Require Import Floats.SpecFloat.
From S2P Require Import Prelude GoStd Json.

Local Open Scope Z_scope.

(** ** [strings] *)

(** [strings.Split(s, sep)] for a separator of one character. *)
Fixpoint Split1 (sep : ascii) (s : string) : list string :=
  match s with
  | EmptyString => [EmptyString]
  | String c s' =>
      if Ascii.eqb c sep then EmptyString :: Split1 sep s'
      else match Split1 sep s' with x :: xs => String c x :: xs | [] => [String c EmptyString] end
  end.

(** [unicode.IsSpace], of the encoding of a rune. *)
Definition is_space (r : string) : bool :=
  bool_decide (r ∈ map encode_rune
    ([9; 10; 11; 12; 13; 32; 133; 160; 5760; 8232; 8233; 8239; 8287; 12288] ++ map (fun i => 8192 + Z.of_nat i) (seq 0 11))).

Fixpoint space_left (fuel : nat) (s : string) : string :=
  match fuel, rune_len s with
  | S f, S n => if is_space (str_take (S n) s) then space_left f (str_drop (S n) s) else s
  | _, _ => s
  end.

(** The length of the white space rune at the end of the string; 0 if there is
    none. *)
Definition last_space (s : string) : nat :=
  default 0%nat (List.find (fun k => is_space (str_drop (String.length s - k) s)) [1; 2; 3]%nat).
Fixpoint space_right (fuel : nat) (s : string) : string :=
  match fuel, last_space s with
  | S f, S n => space_right f (str_take (String.length s - S n) s)
  | _, _ => s
  end.

(** [strings.TrimSpace]. *)
Definition TrimSpace (s : string) : string :=
  let t := space_left (String.length s) s in space_right (String.length t) t.

(** ** [time.ParseDuration] *)

Definition two_63 : Z := 2 ^ 63.

(** The error of [leadingInt] is [None]. *)
Fixpoint leadingInt (x : Z) (s : string) : option (Z * string) :=
  match s with
  | String c s' =>
      if is_dec c then
        if two_63 / 10 <? x then None
        else let x := x * 10 + (ascii_Z c - 48) in
             if two_63 <? x then None else leadingInt x s'
      else Some (x, s)
  | EmptyString => Some (x, s)
  end.

(** [float64] arithmetic. *)
Definition f64_of (z : Z) : spec_float := binary_normalize 53 1024 z 0 false.
Definition f64_mul : spec_float -> spec_float -> spec_float := SFmul 53 1024.
Definition f64_div : spec_float -> spec_float -> spec_float := SFdiv 53 1024.
(** [uint64(x)] for an [x >= 0] that is in range. *)
Definition f64_trunc (x : spec_float) : Z :=
  match x with
  | S754_finite _ m e => if 0 <=? e then Zpos m * 2 ^ e else Zpos m / 2 ^ (- e)
  | _ => 0
  end.

Fixpoint leadingFraction (x : Z) (scale : spec_float) (overflow : bool) (s : string) : Z * spec_float * string :=
  match s with
  | String c s' =>
      if is_dec c then
        if overflow || ((two_63 - 1) / 10 <? x) then leadingFraction x scale true s'
        else let y := x * 10 + (ascii_Z c - 48) in
             if two_63 <? y then leadingFraction x scale true s'
             else leadingFraction y (f64_mul scale (f64_of 10)) false s'
      else (x, scale, s)
  | EmptyString => (x, scale, s)
  end.

(** The unit's name goes up to the next digit or period. *)
Fixpoint take_unit (s : string) : string * string :=
  match s with
  | String c s' =>
      if Ascii.eqb c "." || is_dec c then (EmptyString, s)
      else let (u, r) := take_unit s' in (String c u, r)
  | EmptyString => (EmptyString, EmptyString)
  end.

(** [unitMap]; the micro sign is U+00B5 or U+03BC. *)
Definition unitMap (u : string) : option Z :=
  snd <$> List.find (fun kv => String.eqb kv.1 u)
    [("ns", 1); ("us", 1000); (encode_rune 181 +:+ "s", 1000); (encode_rune 956 +:+ "s", 1000);
     ("ms", 1000000); ("s", 1000000000); ("m", 60000000000); ("h", 3600000000000)].

(** One term, such as [1.5h]: its value and the rest. *)
Definition parse_term (s : string) : option (Z * string) :=
  match s with
  | EmptyString => None
  | String c0 _ =>
      if Ascii.eqb c0 "." || is_dec c0 then
        match leadingInt 0 s with
        | None => None
        | Some (v, s1) =>
            let pre := negb (Nat.eqb (String.length s) (String.length s1)) in
            let '(f, scale, post, s2) :=
              match s1 with
              | String "." s' =>
                  let '(f, scale, s2) := leadingFraction 0 (f64_of 1) false s' in
                  (f, scale, negb (Nat.eqb (String.length s') (String.length s2)), s2)
              | _ => (0, f64_of 1, false, s1)
              end in
            if negb pre && negb post then None
            else
              let (u, s3) := take_unit s2 in
              if String.eqb u "" then None
              else match unitMap u with
                   | None => None
                   | Some unit =>
                       if two_63 / unit <? v then None
                       else
                         let v := v * unit in
                         let v := if 0 <? f then u64_add v (f64_trunc (f64_mul (f64_of f) (f64_div (f64_of unit) scale))) else v in
                         if two_63 <? v then None else Some (v, s3)
                   end
        end
      else None
  end.

Fixpoint parse_terms (fuel : nat) (d : Z) (s : string) : option Z :=
  match s, fuel with
  | EmptyString, _ => Some d
  | _, O => None
  | _, S f =>
      match parse_term s with
      | None => None
      | Some (v, s') => let d := u64_add d v in if two_63 <? d then None else parse_terms f d s'
      end
  end.

(** [None] is an error, with which the function returns the duration 0. *)
Definition ParseDuration (s : string) : option Z :=
  let '(neg, s) :=
    match s with
    | String c s' => if Ascii.eqb c "-" || Ascii.eqb c "+" then (Ascii.eqb c "-", s') else (false, s)
    | EmptyString => (false, s)
    end in
  if String.eqb s "0" then Some 0
  else if String.eqb s "" then None
  else match parse_terms (String.length s) 0 s with
       | None => None
       | Some d => if neg then Some (i64 (- i64 d)) else if two_63 - 1 <? d then None else Some (i64 d)
       end.

Example ParseDuration_ex :
  (ParseDuration "12s", ParseDuration "1h15m30.918s", ParseDuration "-1.5h", ParseDuration ".5m", ParseDuration "0",
   ParseDuration "12", ParseDuration "", ParseDuration "1d", ParseDuration "3000000h", ParseDuration "0.1ns",
   ParseDuration "9223372036854775807ns", ParseDuration "-9223372036854775808ns", ParseDuration "9223372036854775808ns") =
  (Some 12000000000, Some 4530918000000, Some (-5400000000000), Some 30000000000, Some 0, None, None, None, None, Some 0,
   Some 9223372036854775807, Some (-9223372036854775808), None).
Proof. vm_compute. reflexivity. Qed.

Example TrimSpace_ex : TrimSpace "  0xa b	 " = "0xa b" /\ TrimSpace (encode_rune 12288 +:+ "x" +:+ encode_rune 160) = "x" /\
  TrimSpace "   " = "" /\ Split1 "," "a,,b" = ["a"; ""; "b"] /\ Split1 "," "" = [""].
Proof. vm_compute. done. Qed.

(** ** What is parsed *)

Lemma leadingInt_length s : forall x v r, leadingInt x s = Some (v, r) -> (String.length r <= String.length s)%nat.
Proof.
  induction s as [|c s IH]; intros x v r; cbn [leadingInt]; [by intros [= _ <-]|].
  destruct (is_dec c); [|by intros [= _ <-]]. repeat (case_match; [done|]). intros Hr%IH. cbn. lia.
Qed.

Lemma leadingFraction_length s : forall x sc o, (String.length (leadingFraction x sc o s).2 <= String.length s)%nat.
Proof.
  induction s as [|c s IH]; intros x sc o; cbn [leadingFraction]; [done|].
  destruct (is_dec c); [|done]. repeat case_match; etransitivity; [apply IH|cbn; lia|apply IH|cbn; lia|apply IH|cbn; lia].
Qed.

Lemma take_unit_length s : (String.length (take_unit s).1 + String.length (take_unit s).2 = String.length s)%nat.
Proof.
  induction s as [|c s IH]; cbn; [done|]. case_match; [done|]. destruct (take_unit s). cbn in *. lia.
Qed.

(** A term is not empty, and its value is at most [2 ^ 63]. *)
Lemma parse_term_spec s v r : parse_term s = Some (v, r) -> (String.length r < String.length s)%nat /\ v <= two_63.
Proof.
  unfold parse_term. destruct s as [|c0 s0]; [done|]. generalize (String c0 s0) as s. intros s.
  destruct (_ || _); [|done].
  destruct (leadingInt 0 s) as [[n s1]|] eqn:El; [|done]. apply leadingInt_length in El.
  assert (Hm : exists f sc post s2, match s1 with
      | String "." s' =>
          let '(f, scale, s2) := leadingFraction 0 (f64_of 1) false s' in
          (f, scale, negb (Nat.eqb (String.length s') (String.length s2)), s2)
      | _ => (0, f64_of 1, false, s1)
      end = (f, sc, post, s2) /\ (String.length s2 <= String.length s1)%nat).
  { repeat case_match; try (eexists _, _, _, _; split; [reflexivity|done]).
    match goal with Hf : leadingFraction ?a ?b ?c ?d = _ |- _ => pose proof (leadingFraction_length d a b c) as Hl; rewrite Hf in Hl end.
    eexists _, _, _, _. split; [reflexivity|]. cbn in *. lia. }
  destruct Hm as (f & sc & post & s2 & -> & Hs2). destruct (_ && _); [done|].
  pose proof (take_unit_length s2) as Hu. destruct (take_unit s2) as [u s3]. cbn [fst snd] in Hu.
  destruct (String.eqb_spec u "") as [|Hne]; [done|]. destruct u as [|cu u]; [done|]. cbn in Hu.
  destruct (unitMap _) as [unit|]; [|done]. destruct (_ <? n); [done|].
  destruct (Z.ltb_spec two_63 (if 0 <? f then u64_add (n * unit) (f64_trunc (f64_mul (f64_of f) (f64_div (f64_of unit) sc))) else n * unit)); [done|].
  intros [= <- <-]. split; [lia|done].
Qed.

(** The fuel is enough: each term takes a character at least. *)
Lemma parse_terms_fuel f : forall g d s, (String.length s <= f)%nat -> (f <= g)%nat -> parse_terms g d s = parse_terms f d s.
Proof.
  induction f as [|f IH]; intros [|g] d [|c s] Hf Hg; try done; try (cbn in Hf; lia). cbn [parse_terms].
  destruct (parse_term (String c s)) as [[v r]|] eqn:E; [|done]. apply parse_term_spec in E as [El _]. cbn in El, Hf.
  destruct (two_63 <? u64_add d v); [done|]. apply IH; lia.
Qed.

Lemma parse_terms_range f : forall d s r, 0 <= d <= two_63 -> parse_terms f d s = Some r -> 0 <= r <= two_63.
Proof.
  induction f as [|f IH]; intros d [|c s] r Hd; cbn [parse_terms]; try (by intros [= <-]); try done.
  destruct (parse_term _) as [[v s']|]; [|done]. destruct (Z.ltb_spec two_63 (u64_add d v)) as [|Hle]; [done|].
  apply IH. split; [|done]. apply u64_add_range.
Qed.

(** What it returns is a [time.Duration], an [int64]. *)
Lemma ParseDuration_range s d : ParseDuration s = Some d -> is_i64 d.
Proof.
  unfold ParseDuration. destruct (match s with EmptyString => _ | _ => _ end) as [neg s'].
  destruct (String.eqb s' "0"); [intros [= <-]; unfold is_i64, two63; lia|]. destruct (String.eqb s' ""); [done|].
  destruct (parse_terms _ _ _); [|done]. destruct neg; [intros [= <-]; apply i64_range|].
  destruct (_ <? _); [done|]. intros [= <-]. apply i64_range.
Qed.

(** Decimal digits are read as the integer part. *)
Lemma leadingInt_digits s : forall x v rest,
  0 <= x -> read_digits 10 s x = Some v -> v <= two_63 ->
  match rest with String c _ => is_dec c = false | EmptyString => True end ->
  leadingInt x (s +:+ rest) = Some (v, rest).
Proof.
  induction s as [|c s IH]; intros x v rest Hx Hr Hv Hrest.
  - injection Hr as <-. change ("" +:+ rest) with rest. destruct rest as [|c rest]; [done|]. cbn. by rewrite Hrest.
  - rewrite str_cons_app. cbn [leadingInt read_digits] in *. destruct (Z.ltb_spec (digit_val c) 10) as [Hc|]; [|done].
    destruct (digit_val_dec c Hc) as [Hd He]. unfold is_dec. rewrite Hd. rewrite He in Hr.
    pose proof (digit_val_nonneg c) as Hn. rewrite He in Hn.
    pose proof (read_digits_mono 10 s (x * 10 + (ascii_Z c - 48)) v ltac:(lia) ltac:(lia) Hr) as Hm.
    unfold two_63 in *.
    destruct (Z.ltb_spec (2 ^ 63 / 10) x) as [Hlt|]; [exfalso; assert (2 ^ 63 / 10 + 1 <= x) by lia; revert Hm Hv; clear -H Hn; change (2 ^ 63 / 10) with 922337203685477580 in *; change (2 ^ 63) with 9223372036854775808; lia|].
    destruct (Z.ltb_spec (2 ^ 63) (x * 10 + (ascii_Z c - 48))); [lia|]. apply IH; [lia|done|done|done].
Qed.

(** A whole number of seconds. *)
Lemma ParseDuration_seconds n : 0 <= n <= 9223372036 ->
  ParseDuration (FormatUint n +:+ "s") = Some (n * 1000000000).
Proof.
  intros Hn. pose proof (read_fmt_base 10 n ltac:(lia) ltac:(lia)) as Hr.
  assert (Hd : all_chars is_dec (FormatUint n) = true)
    by (apply fmt_digits_all; [lia|intros d Hd; by apply digit_char_dec|done]).
  pose proof (fmt_base_nonempty 10 n) as Hne. unfold FormatUint in *. destruct (fmt_base 10 n) as [|c s]; [done|].
  cbn [all_chars] in Hd. apply andb_prop in Hd as [Hc _].
  assert (Hterm : parse_term (String c s +:+ "s") = Some (n * 1000000000, "")).
  { unfold parse_term. rewrite str_cons_app. rewrite Hc, orb_true_r, <- str_cons_app.
    rewrite (leadingInt_digits (String c s) 0 n "s") by (first [done|unfold two_63; lia]).
    rewrite str_length_app. change (String.length "s") with 1%nat. cbn match.
    destruct (Nat.eqb_spec (String.length (String c s) + 1) 1) as [Heq|_]; [cbn in Heq; lia|].
    change (take_unit "s") with ("s", ""). cbn [negb andb fst snd]. change (String.eqb "s" "") with false.
    change (unitMap "s") with (Some 1000000000). change (0 <? 0) with false. cbv zeta match. unfold two_63. change (2 ^ 63 / 1000000000) with 9223372036. change (2 ^ 63) with 9223372036854775808.
    destruct (Z.ltb_spec 9223372036 n); [lia|]. destruct (Z.ltb_spec 9223372036854775808 (n * 1000000000)); [lia|]. done. }
  unfold ParseDuration. rewrite str_cons_app in *.
  assert (Hs : Ascii.eqb c "-" || Ascii.eqb c "+" = false)
    by (clear -Hc; destruct c as [[] [] [] [] [] [] [] []]; done).
  rewrite Hs.
  assert (Hlen : String.length (String c (s +:+ "s")) = S (S (String.length s)))
    by (cbn; rewrite str_length_app; cbn; lia).
  destruct (String.eqb_spec (String c (s +:+ "s")) "0") as [Heq|_]; [apply (f_equal String.length) in Heq; rewrite Hlen in Heq; done|].
  destruct (String.eqb_spec (String c (s +:+ "s")) "") as [Heq|_]; [done|].
  rewrite Hlen. remember (S (String.length s)) as k. cbn [parse_terms]. rewrite Hterm.
  rewrite u64_add_small by (unfold two64; lia). unfold two_63. change (2 ^ 63) with 9223372036854775808.
  destruct (Z.ltb_spec 9223372036854775808 (0 + n * 1000000000)); [lia|].
  replace (parse_terms k _ "") with (Some (0 + n * 1000000000)) by by destruct k.
  destruct (Z.ltb_spec (9223372036854775808 - 1) (0 + n * 1000000000)); [lia|].
  f_equal. rewrite i64_small by (unfold is_i64, two63; lia). lia.
Qed.

(** ** The helpers of main.go *)

Section Env.
(** [os.Getenv]: the empty string for a variable that is not set. *)
Variable Getenv : string -> string.

Definition env (key def : string) : string :=
  let v := Getenv key in if negb (String.eqb v "") then v else def.

Definition envUint64 (key : string) (def : Z) : Z :=
  let v := Getenv key in
  if negb (String.eqb v "") then match ParseUint v with Ok n => n | Err _ => def end else def.

Lemma env_def key def : Getenv key = "" -> env key def = def.
Proof. unfold env. by intros ->. Qed.

(** What is no [uint64] is read as the default. *)
Lemma envUint64_spec key def : 
  (exists n, ParseUint (Getenv key) = Ok n /\ envUint64 key def = n) \/
  (is_ok (ParseUint (Getenv key)) = false /\ envUint64 key def = def).
Proof.
  unfold envUint64. destruct (String.eqb_spec (Getenv key) "") as [->|]; cbn; [by right|].
  destruct (ParseUint (Getenv key)) as [m|e]; [left; eauto|by right].
Qed.
End Env.
