(* ===== verification/JsonCheckpoint.v ===== *)
(** * The checkpoint file of the daemon ([go/logfilter/main.go])

    [fileCheckpoint], a JSON object in a file, over the file system of
    [Checkpoint.v]: it keeps the contract [CheckpointStoreSpec]; and unlike the
    plain number of [FileCheckpointStore], a file cut short is noticed. *)

From stdpp Require Import base gmap list strings.
From Stdlib Require Import ZArith Lia Ascii.
From Stdlib Require String.
From S2P Require Import Prelude GoStd Json LogTypes Checkpoint.

Local Open Scope Z_scope.
#[local] Arguments FormatUint : simpl never.
#[local] Arguments ParseUint : simpl never.

(** The store and the file system it writes to. *)
Record fileCheckpoint := MkFileCheckpoint { path : string; fs : FileSystem }.

Definition last_block : string := "lastBlock".

(** [map[string]uint64{"lastBlock": block}] as [json.Marshal] prints it. *)
Definition checkpoint_text (block : Z) : string := print (JObj [(last_block, JNum (FormatUint block))]).

(** Both methods ignore their context. *)
Definition Load (f : fileCheckpoint) : result Z :=
  match ReadFile (fs f) (path f) with
  | Err err => if errors_Is (Some err) (Some ENotExist) then Ok 0 else Err err
  | Ok b =>
      match Unmarshal (decode_map decode_uint64 0) ∅ b with
      | Err err => Err err
      | Ok m => Ok (default 0 (m !! last_block))
      end
  end.

Definition Save (f : fileCheckpoint) (block : Z) : fileCheckpoint * option error :=
  let (fs', e) := WriteFile (fs f) (path f) (checkpoint_text block) in (MkFileCheckpoint (path f) fs', e).

#[export] Instance fileCheckpoint_store : CheckpointStore fileCheckpoint := {
  store_Save _ f block := Save f block;
  store_Load _ f := (f, Load f) }.

Example Load_ex data : data ∈ ["{}"; "null"; sq "{'lastblock':7}"; sq "{'lastBlock':null}"] ->
  Load (MkFileCheckpoint "cp" (MkFS {[ "cp" := data ]} None)) = Ok 0.
Proof. rewrite !elem_of_cons. intros [->|[->|[->|[->|[]%not_elem_of_nil]]]]; vm_compute; reflexivity. Qed.

(** ** What is saved is loaded *)

Lemma load_text f b : is_u64 b -> fs_files (fs f) !! path f = Some (checkpoint_text b) -> Load f = Ok b.
Proof.
  intros Hb Hl. unfold Load, ReadFile. rewrite Hl. unfold checkpoint_text. rewrite Unmarshal_print.
  - cbn [decode_map fold_left]. cbn. rewrite ParseUint_FormatUint by done. cbn. by rewrite lookup_insert_eq.
  - cbn -[parse_number]. split; [by apply utf8_ascii|]. split; [|done]. destruct Hb. by apply parse_number_FormatUint.
Qed.

Lemma json_Save_inv f b f' : Save f b = (f', None) ->
  path f' = path f /\ fs_files (fs f') = <[path f := checkpoint_text b]> (fs_files (fs f)).
Proof. unfold Save, WriteFile. destruct (fs_torn (fs f)) as [[n e]|]; [done|]. by intros [= <-]. Qed.

Lemma Save_Load f b f' : is_u64 b -> Save f b = (f', None) -> Load f' = Ok b.
Proof.
  intros Hb [Hp Hf]%json_Save_inv. apply load_text; [done|]. by rewrite Hp, Hf, lookup_insert_eq.
Qed.

#[export] Program Instance fileCheckpoint_spec : CheckpointStoreSpec fileCheckpoint := {
  stored f := match Load f with Ok v => Some v | Err _ => None end }.
Next Obligation. intros c f b f' Hb Hs. cbn in Hs. cbv beta. by rewrite (Save_Load f b f'). Qed.
Next Obligation. intros c f f' v. cbn [store_Load fileCheckpoint_store]. intros [= <- Hl]. split; [done|]. by rewrite Hl. Qed.

(** Whatever the file holds, what is loaded is a [uint64]. *)
Lemma ParseUint_range s n : ParseUint s = Ok n -> is_u64 n.
Proof.
  assert (Hloop : forall orig s acc, 0 <= acc <= max_u64 -> parse_uint_loop orig s acc = Ok n -> is_u64 n).
  { clear s. intros orig s. induction s as [|c s IH]; intros acc Hacc; cbn [parse_uint_loop].
    - intros [= <-]. unfold is_u64, max_u64, two64 in *. lia.
    - destruct (in_range "0" "9" c) eqn:E; [|done]. unfold in_range in E. change (ascii_Z "0") with 48 in E.
      destruct (Z.ltb_spec max_u64 (acc * 10 + (ascii_Z c - 48))); [done|]. apply IH. lia. }
  destruct s; [done|]. apply Hloop. unfold max_u64. lia.
Qed.

Lemma decode_map_range j m : decode_map decode_uint64 0 j ∅ = Some m -> forall k v, m !! k = Some v -> is_u64 v.
Proof.
  assert (Hfold : forall l m0 m, (forall k v, m0 !! k = Some v -> is_u64 v) ->
    fold_left (fun acc (kv : string * json) => acc ≫= fun m : gmap string Z => (fun a => <[kv.1 := a]> m) <$> decode_uint64 kv.2 0) l (Some m0) = Some m ->
    forall k v, m !! k = Some v -> is_u64 v).
  { clear. induction l as [|[k0 j0] l IH]; intros m0 m Hm; cbn [fold_left]; [by intros [= <-]|].
    cbn [mbind option_bind fst snd]. destruct (decode_uint64 j0 0) as [v0|] eqn:E.
    2: { cbn. intros Hn. exfalso. revert Hn. clear. induction l; [done|]. cbn. done. }
    apply IH. intros k v. rewrite lookup_insert_Some. intros [[_ <-]|[_ Hk]]; [|by eapply Hm].
    unfold decode_uint64 in E. destruct j0; try done; [injection E as <-; unfold is_u64, two64; lia|].
    destruct (ParseUint text) eqn:Ep; [|done]. injection E as <-. by apply ParseUint_range in Ep. }
  destruct j; try done; [by intros [= <-]|]. apply Hfold. done.
Qed.

Lemma Load_range f n : Load f = Ok n -> is_u64 n.
Proof.
  assert (H0 : is_u64 0) by (unfold is_u64, two64; lia).
  unfold Load, Unmarshal. destruct (ReadFile _ _) as [b|e]; [|case_match; [by intros [= <-]|done]].
  destruct (parse b) as [j|]; cbn [mbind option_bind]; [|done].
  destruct (decode_map decode_uint64 0 j ∅) as [m|] eqn:E; [|done]. intros [= <-].
  destruct (m !! last_block) as [v|] eqn:El; [|done]. by apply (decode_map_range j m E last_block).
Qed.

(** ** A file cut short *)

(** What is left of digits after a number is digits. *)
Lemma parse_frac_digits acc s t r : all_chars is_dec s = true -> parse_frac acc s = Some (t, r) -> all_chars is_dec r = true.
Proof.
  destruct s as [|c s]; cbn [all_chars]; [by intros _ [= _ <-]|]. intros Hs. pose proof Hs as [Hc _]%andb_prop.
  assert (Hn : Ascii.eqb c "." = false /\ Ascii.eqb c "e" = false /\ Ascii.eqb c "E" = false)
    by (clear -Hc; destruct c as [[] [] [] [] [] [] [] []]; done).
  destruct Hn as (H1 & H2 & H3). cbn [parse_frac parse_exp]. rewrite H1, H2, H3. by intros [= _ <-].
Qed.

Lemma parse_value_digits f s v r : all_chars is_dec s = true -> parse_value f s = Some (v, r) -> all_chars is_dec r = true.
Proof.
  destruct f as [|f]; [done|]. destruct s as [|c s]; [done|]. cbn [all_chars]. intros [Hc Hs]%andb_prop.
  destruct (num_start_other c) as (Hws & Hq & Ha & Ho & Hn & Ht & Hf); [unfold num_start; by rewrite Hc|].
  cbn [parse_value]. rewrite skip_ws_start by done. rewrite Hq, Ha, Ho, Hn, Ht, Hf.
  assert (Hm : Ascii.eqb c "-" = false) by (clear -Hc; destruct c as [[] [] [] [] [] [] [] []]; done).
  cbn [parse_number parse_int]. rewrite Hm. destruct (Ascii.eqb c "0").
  - destruct (parse_frac _ _) as [[t x]|] eqn:E; [|done]. intros [= _ <-]. by eapply parse_frac_digits.
  - rewrite Hc, take_digits_all by done. destruct (parse_frac _ _) as [[t x]|] eqn:E; [|done]. intros [= _ <-].
    by eapply parse_frac_digits; [|exact E].
Qed.

Definition head_text : string := sq "{'lastBlock':".

Lemma parse_head_digits s : all_chars is_dec s = true -> parse (head_text +:+ s) = None.
Proof.
  intros Hs. unfold parse. rewrite str_length_app.
  assert (Hf : exists f, (2 * S (String.length head_text + String.length s) = S (S (S (S f))))%nat)
    by (exists (2 * S (String.length head_text + String.length s) - 4)%nat; cbn; lia).
  destruct Hf as [f ->]. change (head_text +:+ s) with (String "{" (String dquote ((last_block +:+ String dquote ":") +:+ s))).
  remember (S (S (S f))) as g eqn:Eg. cbn [parse_value]. rewrite skip_ws_start by done.
  change (Ascii.eqb "{" dquote) with false. change (Ascii.eqb "{" "[") with false. rewrite Ascii.eqb_refl. cbn match.
  rewrite skip_ws_start by done. subst g. remember (S (S f)) as g eqn:Eg. cbn [parse_members]. rewrite skip_ws_start by done.
  rewrite Ascii.eqb_refl. change (parse_string ((last_block +:+ String dquote ":") +:+ s)) with
    (parse_string (quote_json_body (String.length last_block) last_block +:+ String dquote (":" +:+ s))).
  rewrite parse_string_quote by by apply utf8_ascii. change (":" +:+ s) with (String ":" s).
  rewrite skip_ws_start by done. cbn match. destruct (parse_value g s) as [[v r]|] eqn:E; [|done].
  apply parse_value_digits in E; [|done]. destruct r as [|c r]; [done|]. cbn in E. apply andb_prop in E as [Hc _].
  rewrite skip_ws_start by (clear -Hc; destruct c as [[] [] [] [] [] [] [] []]; done).
  clear -Hc. destruct c as [[] [] [] [] [] [] [] []]; done.
Qed.

Lemma all_chars_take p n s : all_chars p s = true -> all_chars p (str_take n s) = true.
Proof.
  revert s. induction n as [|n IH]; intros [|c s]; try done. cbn. intros [Hc Hs]%andb_prop. by rewrite Hc, IH.
Qed.

Lemma str_take_app_ge n a b : str_take (String.length a + n) (a +:+ b) = a +:+ str_take n b.
Proof. induction a as [|c a IH]; [done|]. rewrite !str_cons_app. cbn. by rewrite IH. Qed.

Lemma str_take_app_le n a b : (n <= String.length a)%nat -> str_take n (a +:+ b) = str_take n a.
Proof.
  revert a. induction n as [|n IH]; intros [|c a] Hn; cbn in Hn; try lia; try (by destruct b).
  rewrite str_cons_app. cbn. by rewrite IH by lia.
Qed.

Lemma checkpoint_text_eq b : checkpoint_text b = head_text +:+ (FormatUint b +:+ "}").
Proof. reflexivity. Qed.

Lemma torn_text b n : 0 <= b -> (n < String.length (checkpoint_text b))%nat -> parse (str_take n (checkpoint_text b)) = None.
Proof.
  intros Hb Hn. rewrite checkpoint_text_eq in *. destruct (Nat.le_gt_cases n (String.length head_text)) as [Hle|Hgt].
  - rewrite str_take_app_le by done. cbn in Hle. do 14 (destruct n as [|n]; [vm_compute; reflexivity|]). lia.
  - replace n with (String.length head_text + (n - String.length head_text))%nat by lia. rewrite str_take_app_ge.
    apply parse_head_digits. rewrite !str_length_app in Hn. cbn [String.length] in Hn.
    rewrite str_take_app_le by lia. apply all_chars_take. apply fmt_digits_all; [lia| |done].
    intros d Hd. by apply digit_char_dec.
Qed.

(** C33: The daemon's checkpoint file: after a successful [Save] of a [uint64],
    [Load] returns it, and what [Load] returns is a [uint64] whatever is in the
    file; a file that is not there is block 0.  A write that stops before the end
    of the text reports its error and leaves a file that [Load] refuses, with the
    old checkpoint gone: a smaller block is never taken for the checkpoint. *)
Theorem fileCheckpoint_roundtrip f b :
  is_u64 b ->
  (forall f', Save f b = (f', None) -> Load f' = Ok b) /\
  (forall n, Load f = Ok n -> is_u64 n) /\
  (fs_files (fs f) !! path f = None -> Load f = Ok 0) /\
  (forall n e, fs_torn (fs f) = Some (n, e) -> (n < String.length (checkpoint_text b))%nat ->
     exists f', Save f b = (f', Some e) /\ Load f' = Err (EJson (str_take n (checkpoint_text b)))).
Proof.
  intros Hb. split_and!.
  - intros f'. by apply Save_Load.
  - apply Load_range.
  - intros Hn. unfold Load, ReadFile. rewrite Hn. reflexivity.
  - intros n e Ht Hn. unfold Save, WriteFile. rewrite Ht. eexists. split; [done|].
    unfold Load, ReadFile. cbn [fs path fs_files]. rewrite lookup_insert_eq. unfold Unmarshal.
    destruct Hb. by rewrite torn_text.
Qed.

Lemma fileCheckpoint_roundtrip_witness :
  let full := MkFS {[ "cp" := checkpoint_text 1199 ]} (Some (15%nat, ENew "no space left on device")) in
  Load (MkFileCheckpoint "cp" full) = Ok 1199 /\
  exists f', Save (MkFileCheckpoint "cp" full) 1234 = (f', Some (ENew "no space left on device")) /\
    Load f' = Err (EJson (sq "{'lastBlock':12")).
Proof.
  intros full. split; [vm_compute; reflexivity|].
  destruct (fileCheckpoint_roundtrip (MkFileCheckpoint "cp" full) 1234) as (_ & _ & _ & Ht); [unfold is_u64, two64; lia|].
  apply (Ht 15%nat); [reflexivity|vm_compute; lia].
Defined.
