(* ===== verification/RedisPool.v ===== *)
(** * The Redis pending pool ([go/logfilter/logfilter.go])

    [RedisPendingPool] over the client of [Redis.v]: the JSON form of the logs,
    the operations, and the proof that the pool keeps the contract
    [PendingPoolLaws] of the in-memory pool, and [PendingPoolSpec] when no reply
    of Redis is lost, so that what is proved of [RunOnce] under either holds with
    it.  The other theorems are about what it leaves behind in Redis, and about a
    reply that is lost. *)

From stdpp Require Import base gmap list strings.
From Stdlib Require Import ZArith Lia.
From Stdlib Require String.
From S2P Require Import Prelude GoStd Json LogTypes PendingPool Redis.

Local Open Scope Z_scope.
Local Open Scope go_scope.
#[local] Arguments FormatUint : simpl never.
#[local] Arguments ParseUint : simpl never.

(** ** The JSON form of pending logs *)

(** [json.Marshal] of one log.  The slice of topics is never nil: [fetchRawLogs]
    makes it, of length 0 for a log without topics, which is printed as [[]]. *)
Definition encode_log (l : LogResult) : json :=
  JObj [("BlockNumber", JStr (BlockNumber l)); ("BlockNumUint", JNum (FormatUint (BlockNumUint l)));
        ("TransactionHash", JStr (TransactionHash l)); ("Address", JStr (Address l));
        ("Topics", JArr (map JStr (Topics l))); ("Data", JStr (Data l))].

(** [json.Marshal(logs)].  The empty result of the dedup loop is a nil slice,
    which is printed as [null]. *)
Definition Marshal_logs (logs : list LogResult) : string :=
  match logs with [] => "null" | _ => print (JArr (map encode_log logs)) end.

Definition zero_log : LogResult := MkLog "" 0 "" "" [] "".

Definition decode_log : decoder LogResult := decode_struct
  [("BlockNumber", fun j l =>
      (fun v => MkLog v (BlockNumUint l) (TransactionHash l) (Address l) (Topics l) (Data l)) <$> decode_string j (BlockNumber l));
   ("BlockNumUint", fun j l =>
      (fun v => MkLog (BlockNumber l) v (TransactionHash l) (Address l) (Topics l) (Data l)) <$> decode_uint64 j (BlockNumUint l));
   ("TransactionHash", fun j l =>
      (fun v => MkLog (BlockNumber l) (BlockNumUint l) v (Address l) (Topics l) (Data l)) <$> decode_string j (TransactionHash l));
   ("Address", fun j l =>
      (fun v => MkLog (BlockNumber l) (BlockNumUint l) (TransactionHash l) v (Topics l) (Data l)) <$> decode_string j (Address l));
   ("Topics", fun j l =>
      (fun v => MkLog (BlockNumber l) (BlockNumUint l) (TransactionHash l) (Address l) v (Data l)) <$>
        decode_slice decode_string "" j (Topics l));
   ("Data", fun j l =>
      (fun v => MkLog (BlockNumber l) (BlockNumUint l) (TransactionHash l) (Address l) (Topics l) v) <$> decode_string j (Data l))].

(** [json.Unmarshal(payload, &logs)]. *)
Definition Unmarshal_logs (payload : string) : result (list LogResult) :=
  Unmarshal (decode_slice decode_log zero_log) [] payload.

(** The logs JSON keeps as they are: invalid UTF-8 would be replaced. *)
Definition json_log (l : LogResult) : Prop :=
  is_u64 (BlockNumUint l) /\ utf8 (BlockNumber l) /\ utf8 (TransactionHash l) /\ utf8 (Address l) /\
  Forall utf8 (Topics l) /\ utf8 (Data l).

Lemma encode_log_wf l : json_log l -> wf_json (encode_log l).
Proof.
  intros ([Hn _] & Hb & Ht & Ha & Htp & Hd).
  assert (Htopics : wf_json (JArr (map JStr (Topics l)))) by by apply wf_JArr.
  cbn -[parse_number]. split_and!; try done; try (by apply utf8_ascii). by apply parse_number_FormatUint.
Qed.

Lemma decode_encode_log l : json_log l -> decode_log (encode_log l) zero_log = Some l.
Proof.
  intros (Hn & _ & _ & _ & Htp & _).
  assert (Hts : mapM (fun v => decode_string v "") (map JStr (Topics l)) = Some (Topics l)).
  { apply (decode_slice_encode decode_string "" JStr (Topics l) []). by apply Forall_forall. }
  unfold decode_log, encode_log. cbn [decode_struct fold_left fst snd].
  unfold find_field. cbn -[mapM]. rewrite ParseUint_FormatUint by done. cbn -[mapM]. rewrite Hts. by destruct l.
Qed.

Lemma Unmarshal_Marshal_logs logs : Forall json_log logs -> Unmarshal_logs (Marshal_logs logs) = Ok logs.
Proof.
  intros Hl. unfold Unmarshal_logs, Marshal_logs. destruct logs as [|l logs]; [reflexivity|].
  rewrite Unmarshal_print.
  - rewrite decode_slice_encode; [done|]. eapply Forall_impl; [exact Hl|apply decode_encode_log].
  - apply wf_JArr. eapply Forall_impl; [exact Hl|apply encode_log_wf].
Qed.

(** ** [RedisPendingPool] *)

Record RedisPendingPool (D : Type) := MkRedisPool { rdb : D; prefix : string }.
Arguments MkRedisPool {D} _ _.
Arguments rdb {D} _.
Arguments prefix {D} _.

Definition NewRedisPendingPool {D} (rdb : D) (keyPrefix : string) : RedisPendingPool D := MkRedisPool rdb keyPrefix.

Definition indexKey (prefix : string) : string := prefix +:+ ":index".
Definition blockKey (prefix : string) (h : Z) : string := prefix +:+ ":block:" +:+ FormatUint h.

Section Pool.
Context {D : Type} `{RedisClient D}.
Local Abbreviation pool := (RedisPendingPool D).

(** [Add].  [json.Marshal] of a slice of these records does not fail. *)
Definition Add (ctx : Ctx) (p : pool) (blockHeight : Z) (logs : list LogResult) : pool * option error :=
  let payload := Marshal_logs logs in
  let (d, err) := rdb_Exec ctx (rdb p)
    [CSet (blockKey (prefix p) blockHeight) payload; CSAdd (indexKey (prefix p)) (FormatUint blockHeight)] in
  (MkRedisPool d (prefix p), err).

(** The loop of [PopConfirmed]: [out] and the commands queued in [pipe]. *)
Fixpoint pop_heights (ctx : Ctx) (prefix : string) (latestBlock confirmNum : Z) (heights : list string)
    (out : list LogResult) (pipe : list redis_cmd) (d : D) : D * result (list LogResult * list redis_cmd) :=
  match heights with
  | [] => (d, Ok (out, pipe))
  | hs :: heights' =>
      let continue := pop_heights ctx prefix latestBlock confirmNum heights' in
      match ParseUint hs with
      | Err _ => continue out pipe d
      | Ok h =>
          if latestBlock <? u64_add h confirmNum then continue out pipe d
          else
            let (d, payload) := rdb_Get ctx d (blockKey prefix h) in
            match payload with
            | Err err =>
                if errors_Is (Some err) (Some ERedisNil)
                then continue out (pipe ++ [CSRem (indexKey prefix) (FormatUint h)]) d
                else (d, Err err)
            | Ok payload =>
                match Unmarshal_logs payload with
                | Err err => (d, Err (EWrap ("unmarshal pending block " +:+ FormatUint h +:+ ": ") err))
                | Ok logs =>
                    continue (out ++ logs)
                      (pipe ++ [CDel (blockKey prefix h); CSRem (indexKey prefix) (FormatUint h)]) d
                end
            end
      end
  end.

Definition PopConfirmed (ctx : Ctx) (p : pool) (latestBlock confirmNum : Z) : pool * result (list LogResult) :=
  let (d, heights) := rdb_SMembers ctx (rdb p) (indexKey (prefix p)) in
  match heights with
  | Err err => (MkRedisPool d (prefix p), Err err)
  | Ok heights =>
      let (d, r) := pop_heights ctx (prefix p) latestBlock confirmNum heights [] [] d in
      match r with
      | Err err => (MkRedisPool d (prefix p), Err err)
      | Ok (out, pipe) =>
          match out with
          | [] => (MkRedisPool d (prefix p), Ok out)
          | _ =>
              let (d, err) := rdb_Exec ctx d pipe in
              (MkRedisPool d (prefix p), match err with Some e => Err e | None => Ok out end)
          end
      end
  end.

Definition Count (ctx : Ctx) (p : pool) : pool * result Z :=
  let (d, n) := rdb_SCard ctx (rdb p) (indexKey (prefix p)) in
  (MkRedisPool d (prefix p), n).

#[export] Instance RedisPendingPool_pool : PendingPool pool := {
  pool_Add := Add;
  pool_PopConfirmed := PopConfirmed;
  pool_Count := Count }.
End Pool.

(** ** The keys of a pool *)

Lemma str_app_inj (p a b : string) : p +:+ a = p +:+ b -> a = b.
Proof. induction p as [|c p IH]; [done|]. rewrite !str_cons_app. intros [= Heq]. auto. Qed.

Lemma FormatUint_inj h1 h2 : is_u64 h1 -> is_u64 h2 -> FormatUint h1 = FormatUint h2 -> h1 = h2.
Proof.
  intros H1 H2 Heq. pose proof (ParseUint_FormatUint h1 H1) as P1. rewrite Heq, ParseUint_FormatUint in P1 by done.
  by injection P1.
Qed.

Lemma blockKey_inj pfx h1 h2 : is_u64 h1 -> is_u64 h2 -> blockKey pfx h1 = blockKey pfx h2 -> h1 = h2.
Proof. intros H1 H2 Heq%str_app_inj%str_app_inj. by apply FormatUint_inj. Qed.

Lemma block_not_index pfx h : blockKey pfx h <> indexKey pfx.
Proof. by intros ?%str_app_inj. Qed.

(** The payload under a block's key, decoded. *)
Definition block_logs (K : Keys) (pfx : string) (h : Z) : option (list LogResult) :=
  match K !! blockKey pfx h with
  | Some (RStr payload) => match Unmarshal_logs payload with Ok logs => Some logs | Err _ => None end
  | _ => None
  end.

(** The keys of a pool in good order: every member of the index is a block
    height, whose key is missing or holds logs. *)
Definition keys_wf (K : Keys) (pfx : string) : Prop :=
  exists X, members K (indexKey pfx) = Some X /\
    forall x, x ∈ X -> exists h, is_u64 h /\ x = FormatUint h /\
      (K !! blockKey pfx h = None \/ is_Some (block_logs K pfx h)).

Definition index_of (K : Keys) (pfx : string) : gset string := default ∅ (members K (indexKey pfx)).

(** The heights in the index, as the loop reads them. *)
Definition height_of (x : string) : option Z := match ParseUint x with Ok h => Some h | Err _ => None end.

(** The pool as a map. *)
Definition block_entry (K : Keys) (pfx : string) (x : string) : option (Z * list LogResult) :=
  h ← height_of x; logs ← block_logs K pfx h; Some (h, logs).
Definition contents_of (K : Keys) (pfx : string) : PoolMap :=
  list_to_map (omap (block_entry K pfx) (elements (index_of K pfx))).

Lemma height_of_format h : is_u64 h -> height_of (FormatUint h) = Some h.
Proof. intros Hh. unfold height_of. by rewrite ParseUint_FormatUint. Qed.

Lemma contents_lookup K pfx h logs : keys_wf K pfx ->
  contents_of K pfx !! h = Some logs <->
  is_u64 h /\ FormatUint h ∈ index_of K pfx /\ block_logs K pfx h = Some logs.
Proof.
  intros (X & HX & Hwf). unfold contents_of.
  assert (Hin : forall l, (h, l) ∈ omap (block_entry K pfx) (elements (index_of K pfx)) <->
    is_u64 h /\ FormatUint h ∈ index_of K pfx /\ block_logs K pfx h = Some l).
  { intros l. rewrite list_elem_of_omap. unfold index_of. rewrite HX. cbn [default]. split.
    - intros (x & Hx%elem_of_elements & He). destruct (Hwf x Hx) as (h' & Hh' & -> & _).
      unfold block_entry in He. rewrite height_of_format in He by done. cbn in He.
      destruct (block_logs K pfx h') as [l'|] eqn:E; [|done]. cbn in He. by simplify_eq.
    - intros (Hh & Hx & Hl). exists (FormatUint h). split; [by apply elem_of_elements|].
      unfold block_entry. rewrite height_of_format by done. cbn. by rewrite Hl. }
  rewrite <- Hin. split; [by apply elem_of_list_to_map_2|]. intros Hl.
  apply elem_of_list_to_map_1'; [|done]. intros y Hy. apply Hin in Hy as (_ & _ & Hy).
  apply Hin in Hl as (_ & _ & Hl). congruence.
Qed.

(** ** What [Add] and the queued commands do to the keys *)

(** Block [h] out of the index and its key gone. *)
Definition drop_block (pfx : string) (K : Keys) (h : Z) : Keys :=
  let X := index_of K pfx ∖ {[FormatUint h]} in
  delete (blockKey pfx h) (if decide (X = ∅) then delete (indexKey pfx) K else <[indexKey pfx := RSet X]> K).

Lemma members_insert K k X : members (<[k := RSet X]> K) k = Some X.
Proof. unfold members. by rewrite lookup_insert_eq. Qed.

Lemma members_delete K k : members (delete k K) k = Some ∅.
Proof. unfold members. by rewrite lookup_delete_eq. Qed.

Lemma members_ext K K' k : K' !! k = K !! k -> members K' k = members K k.
Proof. unfold members. by intros ->. Qed.

Lemma members_index K pfx X : members K (indexKey pfx) = Some X -> index_of K pfx = X.
Proof. unfold index_of. by intros ->. Qed.

Lemma drop_block_members pfx K h X : members K (indexKey pfx) = Some X ->
  members (drop_block pfx K h) (indexKey pfx) = Some (X ∖ {[FormatUint h]}).
Proof.
  intros HX. unfold drop_block. rewrite (members_index _ _ _ HX).
  rewrite (members_ext (if decide (X ∖ {[FormatUint h]} = ∅) then delete (indexKey pfx) K
    else <[indexKey pfx := RSet (X ∖ {[FormatUint h]})]> K)) by (apply lookup_delete_ne, block_not_index).
  case_decide as Hd; [by rewrite members_delete, Hd|apply members_insert].
Qed.

Lemma drop_block_lookup pfx K h k : k <> indexKey pfx ->
  drop_block pfx K h !! k = if decide (k = blockKey pfx h) then None else K !! k.
Proof.
  intros Hk. unfold drop_block. destruct (decide (k = blockKey pfx h)) as [->|Hb]; [apply lookup_delete_eq|].
  rewrite lookup_delete_ne by done. case_decide; [by rewrite lookup_delete_ne|by rewrite lookup_insert_ne].
Qed.

(** What the loop queues for a confirmed block. *)
Definition block_cmds (K : Keys) (pfx : string) (h : Z) : list redis_cmd :=
  match K !! blockKey pfx h with
  | None => [CSRem (indexKey pfx) (FormatUint h)]
  | Some _ => [CDel (blockKey pfx h); CSRem (indexKey pfx) (FormatUint h)]
  end.

Lemma srem_apply K k x X : members K k = Some X -> 
  apply_cmd K (CSRem k x) = Some (if decide (X ∖ {[x]} = ∅) then delete k K else <[k := RSet (X ∖ {[x]})]> K).
Proof.
  unfold members, apply_cmd. destruct (K !! k) as [[s|Y]|] eqn:E; [done|by intros [= ->]|].
  intros [= <-]. rewrite decide_True by set_solver. by rewrite delete_id.
Qed.

Lemma srem_drop K K1 pfx h X :
  members K (indexKey pfx) = Some X -> K1 = delete (blockKey pfx h) K ->
  apply_cmd K1 (CSRem (indexKey pfx) (FormatUint h)) = Some (drop_block pfx K h).
Proof.
  intros HX ->. rewrite (srem_apply _ _ _ X).
  - unfold drop_block. rewrite (members_index _ _ _ HX). f_equal. case_decide; [apply delete_delete|].
    by rewrite delete_insert_ne by apply block_not_index.
  - rewrite <- HX. apply members_ext, lookup_delete_ne, block_not_index.
Qed.

(** The commands for a block, queued when the keys were [K], drop it from any
    keys in which it has no more than in [K]. *)
Lemma block_cmds_apply K K' pfx h X :
  members K' (indexKey pfx) = Some X -> (K !! blockKey pfx h = None -> K' !! blockKey pfx h = None) ->
  apply_cmds K' (block_cmds K pfx h) = Some (drop_block pfx K' h).
Proof.
  intros HX Hk. unfold block_cmds. destruct (K !! blockKey pfx h) as [v|] eqn:E.
  - change (apply_cmds K' _) with
      (apply_cmd (delete (blockKey pfx h) K') (CSRem (indexKey pfx) (FormatUint h)) ≫= Some).
    by rewrite (srem_drop K' _ pfx h X HX eq_refl).
  - cbn [apply_cmds]. rewrite (srem_drop K' K' pfx h X HX); [done|]. by rewrite delete_id by auto.
Qed.

Lemma apply_cmds_app K cs1 cs2 : apply_cmds K (cs1 ++ cs2) = apply_cmds K cs1 ≫= fun K' => apply_cmds K' cs2.
Proof.
  revert K. induction cs1 as [|c cs1 IH]; intros K; [done|]. cbn. destruct (apply_cmd K c) as [K'|]; [apply IH|done].
Qed.

(** All the blocks of a list. *)
Definition drop_blocks (pfx : string) (K : Keys) (hs : list Z) : Keys := fold_left (drop_block pfx) hs K.

Lemma drop_blocks_members pfx hs : forall K X, members K (indexKey pfx) = Some X ->
  members (drop_blocks pfx K hs) (indexKey pfx) = Some (X ∖ list_to_set (FormatUint <$> hs)).
Proof.
  induction hs as [|h hs IH]; intros K X HX; cbn [drop_blocks fold_left fmap list_fmap list_to_set].
  - rewrite HX. f_equal. set_solver.
  - unfold drop_blocks in IH. rewrite (IH _ (X ∖ {[FormatUint h]})) by by apply drop_block_members. f_equal. set_solver.
Qed.

Lemma drop_blocks_lookup pfx hs : forall K k, k <> indexKey pfx ->
  drop_blocks pfx K hs !! k = if decide (k ∈ blockKey pfx <$> hs) then None else K !! k.
Proof.
  induction hs as [|h hs IH]; intros K k Hk; cbn [drop_blocks fold_left fmap list_fmap].
  - by rewrite decide_False by apply not_elem_of_nil.
  - unfold drop_blocks in IH. rewrite IH, drop_block_lookup by done.
    destruct (decide (k = blockKey pfx h)) as [->|Hne].
    + rewrite (decide_True (P := blockKey pfx h ∈ blockKey pfx h :: _)) by apply list_elem_of_here. by case_decide.
    + destruct (decide (k ∈ blockKey pfx <$> hs)) as [Hin|Hout].
      * by rewrite decide_True by by apply list_elem_of_further.
      * rewrite decide_False; [done|]. by intros [|]%elem_of_cons.
Qed.

Lemma drop_blocks_apply K pfx hs : forall K' X,
  members K' (indexKey pfx) = Some X -> (forall h, K !! blockKey pfx h = None -> K' !! blockKey pfx h = None) ->
  apply_cmds K' (concat (block_cmds K pfx <$> hs)) = Some (drop_blocks pfx K' hs).
Proof.
  induction hs as [|h hs IH]; intros K' X HX Hk; [done|]. cbn [fmap list_fmap concat]. rewrite apply_cmds_app.
  rewrite (block_cmds_apply K K' pfx h X) by auto. cbn [mbind option_bind].
  apply (IH _ (X ∖ {[FormatUint h]})); [by apply drop_block_members|].
  intros h' Hh'. rewrite drop_block_lookup by apply block_not_index. case_decide; auto.
Qed.
(** ** The contents after each operation *)

Lemma block_logs_ext K K' pfx h : K' !! blockKey pfx h = K !! blockKey pfx h -> block_logs K' pfx h = block_logs K pfx h.
Proof. unfold block_logs. by intros ->. Qed.

Lemma drop_blocks_kept pfx K hs h : is_u64 h -> Forall is_u64 hs -> h ∉ hs ->
  drop_blocks pfx K hs !! blockKey pfx h = K !! blockKey pfx h.
Proof.
  intros Hh Hhs Hn. rewrite drop_blocks_lookup by apply block_not_index. rewrite decide_False; [done|].
  intros (h' & Heq & Hin)%list_elem_of_fmap. rewrite Forall_forall in Hhs.
  apply blockKey_inj in Heq as ->; auto.
Qed.

Lemma format_not_in hs h : is_u64 h -> Forall is_u64 hs -> FormatUint h ∈ FormatUint <$> hs -> h ∈ hs.
Proof.
  intros Hh Hhs (h' & Heq & Hin)%list_elem_of_fmap. rewrite Forall_forall in Hhs.
  by apply FormatUint_inj in Heq as ->; auto.
Qed.

Lemma drop_blocks_wf pfx K hs : Forall is_u64 hs -> keys_wf K pfx -> keys_wf (drop_blocks pfx K hs) pfx.
Proof.
  intros Hhs (X & HX & Hwf). eexists. split; [by apply drop_blocks_members|]. intros x Hxn. apply elem_of_difference in Hxn as [Hx Hn].
  destruct (Hwf x Hx) as (h & Hh & -> & Hb). exists h. split; [done|]. split; [done|].
  assert (Hout : h ∉ hs) by (intros Hin; apply Hn, elem_of_list_to_set, list_elem_of_fmap_2, Hin).
  pose proof (drop_blocks_kept pfx K hs h Hh Hhs Hout) as Hk. by rewrite Hk, (block_logs_ext _ _ _ _ Hk).
Qed.

Lemma drop_blocks_contents pfx K hs : Forall is_u64 hs -> keys_wf K pfx ->
  contents_of (drop_blocks pfx K hs) pfx = filter (fun kv => kv.1 ∉ hs) (contents_of K pfx).
Proof.
  intros Hhs Hw. apply map_eq. intros h. apply option_eq. intros logs.
  rewrite map_lookup_filter_Some. rewrite !contents_lookup by auto using drop_blocks_wf. destruct Hw as (X & HX & Hwf).
  rewrite (members_index _ _ _ HX). rewrite (members_index _ _ _ (drop_blocks_members pfx hs K X HX)).
  rewrite elem_of_difference, elem_of_list_to_set. cbn. split.
  - intros (Hh & [Hin Hn] & Hl).
    assert (Hout : h ∉ hs) by (intros Hi; apply Hn, list_elem_of_fmap_2, Hi).
    rewrite (block_logs_ext K) in Hl by by apply drop_blocks_kept. done.
  - intros ((Hh & Hin & Hl) & Hout). split; [done|]. split; [split; [done|]|].
    + intros Hf. by apply Hout, format_not_in.
    + by rewrite (block_logs_ext K) by by apply drop_blocks_kept.
Qed.

Definition add_cmds (pfx : string) (h : Z) (logs : list LogResult) : list redis_cmd :=
  [CSet (blockKey pfx h) (Marshal_logs logs); CSAdd (indexKey pfx) (FormatUint h)].

Definition add_block (pfx : string) (K : Keys) (h : Z) (logs : list LogResult) : Keys :=
  <[indexKey pfx := RSet ({[FormatUint h]} ∪ index_of K pfx)]> (<[blockKey pfx h := RStr (Marshal_logs logs)]> K).

Lemma add_cmds_apply pfx K h logs X : members K (indexKey pfx) = Some X ->
  apply_cmds K (add_cmds pfx h logs) = Some (add_block pfx K h logs).
Proof.
  intros HX. unfold add_cmds, add_block. rewrite (members_index _ _ _ HX). cbn.
  rewrite lookup_insert_ne by apply block_not_index. unfold members in HX.
  destruct (K !! indexKey pfx) as [[s|Y]|]; [done|by injection HX as ->|].
  injection HX as <-. by rewrite union_empty_r_L.
Qed.

Lemma add_block_lookup pfx K h logs h' : is_u64 h -> is_u64 h' -> 
  add_block pfx K h logs !! blockKey pfx h' =
  if decide (h' = h) then Some (RStr (Marshal_logs logs)) else K !! blockKey pfx h'.
Proof.
  intros Hh Hh'. unfold add_block. rewrite lookup_insert_ne by (symmetry; apply block_not_index).
  case_decide as Hd; [subst; apply lookup_insert_eq|]. apply lookup_insert_ne. intros Heq. by apply blockKey_inj in Heq.
Qed.

Lemma add_block_logs pfx K h logs h' : is_u64 h -> is_u64 h' -> Forall json_log logs ->
  block_logs (add_block pfx K h logs) pfx h' = if decide (h' = h) then Some logs else block_logs K pfx h'.
Proof.
  intros Hh Hh' Hl. pose proof (add_block_lookup pfx K h logs h' Hh Hh') as Hk.
  unfold block_logs. rewrite Hk. case_decide; [|done]. by rewrite Unmarshal_Marshal_logs.
Qed.

Lemma add_block_wf pfx K h logs : is_u64 h -> Forall json_log logs -> keys_wf K pfx -> keys_wf (add_block pfx K h logs) pfx.
Proof.
  intros Hh Hl (X & HX & Hwf). exists ({[FormatUint h]} ∪ X). split.
  - unfold add_block. by rewrite members_insert, (members_index _ _ _ HX).
  - intros x [Hx%elem_of_singleton|Hx]%elem_of_union.
    + exists h. split; [done|]. split; [done|]. right. rewrite add_block_logs, decide_True by done. by eexists.
    + destruct (Hwf x Hx) as (h' & Hh' & -> & Hb). exists h'. split; [done|]. split; [done|].
      rewrite add_block_logs, add_block_lookup by done. case_decide; [right; by eexists|done].
Qed.

Lemma add_block_contents pfx K h logs : is_u64 h -> Forall json_log logs -> keys_wf K pfx ->
  contents_of (add_block pfx K h logs) pfx = <[h := logs]> (contents_of K pfx).
Proof.
  intros Hh Hl Hw. apply map_eq. intros h'. apply option_eq. intros logs'.
  rewrite lookup_insert_Some, !contents_lookup by auto using add_block_wf.
  assert (Hi : index_of (add_block pfx K h logs) pfx = {[FormatUint h]} ∪ index_of K pfx)
    by (apply members_index, members_insert).
  rewrite Hi, elem_of_union, elem_of_singleton. split.
  - intros (Hh' & Hx & Hb). rewrite add_block_logs in Hb by done. case_decide; [left; by simplify_eq|].
    right. split; [done|]. destruct Hx as [Hx|Hx]; [by apply FormatUint_inj in Hx|done].
  - intros [[<- <-]|(Hne & Hh' & Hx & Hb)].
    + split; [done|]. split; [by left|]. by rewrite add_block_logs, decide_True.
    + split; [done|]. split; [by right|]. by rewrite add_block_logs, decide_False.
Qed.
(** ** The loop of [PopConfirmed] *)

(** The confirmed heights among the members read. *)
Definition selected (latest c : Z) (heights : list string) : list Z :=
  filter (fun h => confirmed latest c h = true) (omap height_of heights).

(** The logs popped for a block. *)
Definition popped (K : Keys) (pfx : string) (h : Z) : list LogResult := default [] (block_logs K pfx h).

Definition member_wf (K : Keys) (pfx : string) (x : string) : Prop :=
  exists h, is_u64 h /\ x = FormatUint h /\ (K !! blockKey pfx h = None \/ is_Some (block_logs K pfx h)).

Section Laws.
Context {D : Type} `{RedisLaws D}.
Local Abbreviation pool := (RedisPendingPool D).

Lemma selected_cons latest c h heights : is_u64 h ->
  selected latest c (FormatUint h :: heights) =
  (if confirmed latest c h then [h] else []) ++ selected latest c heights.
Proof.
  intros Hh. unfold selected. cbn [omap list_omap]. rewrite height_of_format by done. rewrite filter_cons.
  destruct (confirmed latest c h); [by rewrite decide_True|by rewrite decide_False].
Qed.

(** The reads change nothing, and what they return decides what is popped. *)
Lemma pop_heights_spec ctx pfx latest c K heights : Forall (member_wf K pfx) heights ->
  forall out pipe (d : D), keys d = K ->
  let (d', r) := pop_heights ctx pfx latest c heights out pipe d in
  keys d' = K /\
  match r with
  | Ok (out', pipe') =>
      out' = out ++ concat (popped K pfx <$> selected latest c heights) /\
      pipe' = pipe ++ concat (block_cmds K pfx <$> selected latest c heights)
  | Err _ => True
  end.
Proof.
  induction 1 as [|x heights (h & Hh & -> & Hb) Hhs IH]; intros out pipe d Hd; cbn [pop_heights].
  { cbn. by rewrite !app_nil_r. }
  rewrite ParseUint_FormatUint, selected_cons by done. unfold confirmed.
  replace (u64_add h c <=? latest) with (negb (latest <? u64_add h c)) by lia.
  destruct (latest <? u64_add h c); cbn [negb]; [by apply IH|].
  destruct (rdb_Get ctx d (blockKey pfx h)) as [d1 r] eqn:Eg. apply Get_law in Eg as [Hk Hr]. rewrite Hd in *.
  cbn [app fmap list_fmap concat]. unfold popped at 1, block_cmds at 1.
  destruct r as [payload|e].
  - rewrite Hr. destruct Hb as [Hb|[logs Hb]]; [congruence|]. rewrite Hb.
    unfold block_logs in Hb. rewrite Hr in Hb. destruct (Unmarshal_logs payload) as [l|]; [|done]. simplify_eq.
    cbn [default]. rewrite !app_assoc. by apply IH.
  - destruct (errors_Is (Some e) (Some ERedisNil)); [|done]. specialize (Hr eq_refl). rewrite Hr.
    assert (Hn : block_logs K pfx h = None) by (unfold block_logs; by rewrite Hr).
    rewrite Hn. cbn [default]. rewrite app_nil_l, (app_assoc pipe). by apply IH.
Qed.

Lemma selected_elem latest c K pfx heights h : Forall (member_wf K pfx) heights ->
  h ∈ selected latest c heights <-> is_u64 h /\ FormatUint h ∈ heights /\ confirmed latest c h = true.
Proof.
  intros Hm. rewrite Forall_forall in Hm. unfold selected. rewrite list_elem_of_filter, list_elem_of_omap. split.
  - intros (Hc & x & Hx & He). destruct (Hm x Hx) as (h' & Hh' & -> & _). rewrite height_of_format in He by done.
    by simplify_eq.
  - intros (Hh & Hx & Hc). split; [done|]. exists (FormatUint h). split; [done|]. by apply height_of_format.
Qed.

Lemma selected_NoDup latest c heights : Forall (fun x => exists h, is_u64 h /\ x = FormatUint h) heights ->
  NoDup heights -> NoDup (selected latest c heights).
Proof.
  intros Hm Hnd. unfold selected. apply NoDup_filter. revert Hm. induction Hnd as [|x heights Hx Hnd IH]; intros Hm.
  - apply NoDup_nil_2.
  - apply Forall_cons in Hm as [(h & Hh & ->) Hm]. cbn [omap list_omap]. rewrite height_of_format by done.
    apply NoDup_cons. split; [|by apply IH]. intros (y & Hy & He)%list_elem_of_omap. rewrite Forall_forall in Hm.
    destruct (Hm y Hy) as (h' & Hh' & ->). rewrite height_of_format in He by done. by simplify_eq.
Qed.

(** What is popped is what the confirmed entries of the pool hold. *)
Lemma popped_perm latest c K pfx heights : keys_wf K pfx -> heights ≡ₚ elements (index_of K pfx) ->
  concat (popped K pfx <$> selected latest c heights) ≡ₚ
  concat (snd <$> map_to_list (ready latest c (contents_of K pfx))).
Proof.
  intros Hw Hp. pose proof Hw as (X & HX & Hwf). rewrite (members_index _ _ _ HX) in Hp.
  assert (Hm : Forall (member_wf K pfx) heights).
  { apply Forall_forall. intros x Hx. rewrite Hp, elem_of_elements in Hx. by apply Hwf. }
  set (sel := selected latest c heights). set (has := fun h => is_Some (block_logs K pfx h)).
  assert (Hfil : concat (popped K pfx <$> sel) = concat (popped K pfx <$> filter has sel)).
  { induction sel as [|h sel IH]; [done|]. rewrite filter_cons. cbn [fmap list_fmap concat].
    case_decide as Hs; cbn [fmap list_fmap concat]; rewrite IH; [done|].
    assert (Hn : popped K pfx h = []); [|by rewrite Hn].
    unfold popped. destruct (block_logs K pfx h) eqn:E; [|done]. destruct Hs. unfold has. by rewrite E. }
  rewrite Hfil. assert (Hnd : NoDup sel).
  { apply selected_NoDup; [|rewrite Hp; apply NoDup_elements].
    eapply Forall_impl; [exact Hm|]. intros x (h & ? & ? & _). eauto. }
  assert (Hml : map_to_list (ready latest c (contents_of K pfx)) ≡ₚ (fun h => (h, popped K pfx h)) <$> filter has sel).
  { apply NoDup_Permutation; [apply NoDup_map_to_list| |].
    - apply NoDup_fmap_2; [by intros ? ? [=]|]. by apply NoDup_filter.
    - intros [h l]. rewrite elem_of_map_to_list. unfold ready. rewrite map_lookup_filter_Some, contents_lookup by done.
      rewrite list_elem_of_fmap. setoid_rewrite list_elem_of_filter. unfold sel.
      setoid_rewrite (selected_elem latest c K pfx heights _ Hm). rewrite (members_index _ _ _ HX). setoid_rewrite Hp.
      setoid_rewrite elem_of_elements. unfold has, popped. cbn. split.
      + intros ((Hh & Hx & Hl) & Hc). exists h. rewrite Hl. split; [done|]. split; [by eexists|done].
      + intros (h' & [= -> ->] & [l' Hl] & Hh & Hx & Hc). rewrite Hl. done. }
  rewrite Hml. clear. induction (filter has sel) as [|h l IH]; [done|]. cbn. by rewrite IH.
Qed.
(** ** The operations *)

Definition pool_keys (p : pool) : Keys := keys (rdb p).
Definition pool_contents (p : pool) : PoolMap := contents_of (pool_keys p) (prefix p).
Definition wf (p : pool) : Prop := keys_wf (pool_keys p) (prefix p).

Lemma Add_cases ctx (p : pool) h logs p' e : wf p -> Add ctx p h logs = (p', e) ->
  prefix p' = prefix p /\
  match e with
  | None => pool_keys p' = add_block (prefix p) (pool_keys p) h logs
  | Some _ => pool_keys p' = pool_keys p \/ pool_keys p' = add_block (prefix p) (pool_keys p) h logs
  end.
Proof.
  unfold Add. intros (X & HX & _). destruct (rdb_Exec _ _ _) as [d r] eqn:E. intros [= <- <-]. split; [done|].
  by apply (Exec_law _ _ _ _ _ _ E), (add_cmds_apply _ _ _ _ X).
Qed.

(** Popping everything selected leaves what is not confirmed. *)
Lemma selected_unready latest c K pfx heights : keys_wf K pfx -> heights ≡ₚ elements (index_of K pfx) ->
  keys_wf (drop_blocks pfx K (selected latest c heights)) pfx /\
  contents_of (drop_blocks pfx K (selected latest c heights)) pfx = unready latest c (contents_of K pfx).
Proof.
  intros Hw Hp. pose proof Hw as (X & HX & Hwf). rewrite (members_index _ _ _ HX) in Hp.
  assert (Hm : Forall (member_wf K pfx) heights).
  { apply Forall_forall. intros x Hx. rewrite Hp, elem_of_elements in Hx. by apply Hwf. }
  assert (Hu : Forall is_u64 (selected latest c heights)).
  { apply Forall_forall. intros h Hh. by apply (selected_elem latest c K pfx heights) in Hh as (? & _). }
  split; [by apply drop_blocks_wf|]. rewrite drop_blocks_contents by done.
  apply map_eq. intros h. apply option_eq. intros logs. unfold unready. rewrite !map_lookup_filter_Some. cbn.
  rewrite (selected_elem latest c K pfx heights) by done. rewrite contents_lookup by done.
  rewrite (members_index _ _ _ HX), Hp, elem_of_elements. destruct (confirmed latest c h); intuition congruence.
Qed.

(** Every way [PopConfirmed] ends. *)
Lemma PopConfirmed_cases ctx (p : pool) latest c p' r : wf p -> PopConfirmed ctx p latest c = (p', r) ->
  exists hs, let K' := drop_blocks (prefix p) (pool_keys p) hs in
    prefix p' = prefix p /\
    keys_wf K' (prefix p) /\ contents_of K' (prefix p) = unready latest c (pool_contents p) /\
    match r with
    | Ok out =>
        out ≡ₚ concat (snd <$> map_to_list (ready latest c (pool_contents p))) /\
        pool_keys p' = (if decide (out = []) then pool_keys p else K')
    | Err _ =>
        pool_keys p' = pool_keys p \/
        (pool_keys p' = K' /\ exists d d' e cs, rdb_Exec ctx d cs = (d', Some e) /\ keys d = pool_keys p /\ keys d' = K')
    end.
Proof.
  intros Hw. pose proof Hw as (X & HX & Hwf). unfold PopConfirmed.
  destruct (rdb_SMembers _ _ _) as [d1 rh] eqn:Es. apply SMembers_law in Es as [Hk1 Hs].
  assert (Hperm : (elements X) ≡ₚ elements (index_of (pool_keys p) (prefix p))) by by rewrite (members_index _ _ _ HX).
  destruct rh as [heights|e].
  2:{ intros [= <- <-]. exists (selected latest c (elements X)). split; [done|].
      destruct (selected_unready latest c _ _ _ Hw Hperm). split_and!; [done|done|]. by left. }
  destruct Hs as (X' & HX' & Hp). change (keys (rdb p)) with (pool_keys p) in *. rewrite HX in HX'. injection HX' as <-.
  rewrite Hperm in Hp. clear Hperm. destruct (selected_unready latest c _ _ _ Hw Hp) as [Hw' Hc'].
  pose proof (popped_perm latest c _ _ _ Hw Hp) as Hout.
  assert (Hm : Forall (member_wf (pool_keys p) (prefix p)) heights).
  { apply Forall_forall. intros x Hx. rewrite Hp, (members_index _ _ _ HX), elem_of_elements in Hx. by apply Hwf. }
  pose proof (pop_heights_spec ctx (prefix p) latest c _ heights Hm [] [] d1 Hk1) as Hl.
  destruct (pop_heights _ _ _ _ _ _ _ _) as [d2 r2]. destruct Hl as [Hk2 Hr2].
  intros Hret. exists (selected latest c heights). cbn zeta. destruct r2 as [[out pipe]|e].
  2:{ injection Hret as <- <-. split_and!; [done|done|done|by left]. }
  destruct Hr2 as [-> ->]. cbn [app] in *. destruct (concat (popped _ _ <$> _)) as [|l out] eqn:Eo.
  { injection Hret as <- <-. split_and!; [done|done|done|by rewrite <- Hout|done]. }
  destruct (rdb_Exec _ _ _) as [d3 r3] eqn:Ex. pose proof Ex as Hex. injection Hret as <- <-.
  apply (Exec_law _ _ _ _ _ (drop_blocks (prefix p) (pool_keys p) (selected latest c heights))) in Hex.
  2:{ rewrite Hk2. by apply (drop_blocks_apply _ _ _ _ X). }
  split; [done|]. split; [done|]. split; [done|]. destruct r3 as [e|].
  - destruct Hex as [Hex|Hex]; [left; by etrans|right]. split; [done|]. by exists d2, d3, e, (concat (block_cmds (pool_keys p) (prefix p) <$> selected latest c heights)).
  - split; [by rewrite <- Hout|]. done.
Qed.
(** A map whose logs are none has entries without logs only. *)
Lemma entries_empty (m : PoolMap) h logs : [] ≡ₚ concat (snd <$> map_to_list m) -> m !! h = Some logs -> logs = [].
Proof.
  intros Ho Hh. destruct logs as [|l logs]; [done|]. exfalso. apply (not_elem_of_nil l). rewrite Ho.
  apply concat_elem_pool_has. exists h, (l :: logs). split; [done|apply list_elem_of_here].
Qed.

(** Entries without logs that stay behind do not count. *)
Lemma nothing_ready latest c (m : PoolMap) : [] ≡ₚ concat (snd <$> map_to_list (ready latest c m)) -> m ≈ unready latest c m.
Proof.
  intros Ho. apply pool_equiv_lookup. intros h logs Hne. unfold unready. rewrite map_lookup_filter_Some. cbn.
  split; [|tauto]. intros Hh. split; [done|]. destruct (confirmed latest c h) eqn:E; [|done].
  destruct Hne. apply (entries_empty _ h _ Ho). unfold ready. by rewrite map_lookup_filter_Some.
Qed.

(** C10: [PopConfirmed] of the Redis pool, on every branch.  With logs to hand
    out it returns those of exactly the confirmed blocks, each block once, and
    removes these blocks.  Without any it leaves Redis as it was, although
    confirmed blocks without logs may be indexed.  When it returns an error
    nothing was removed, or (the reply to the transaction was lost) exactly the
    confirmed blocks were, with their logs. *)
Theorem redis_PopConfirmed_spec ctx (p : pool) latest c p' r :
  wf p -> PopConfirmed ctx p latest c = (p', r) ->
  wf p' /\ prefix p' = prefix p /\
  match r with
  | Ok [] =>
      pool_keys p' = pool_keys p /\ forall h logs, ready latest c (pool_contents p) !! h = Some logs -> logs = []
  | Ok out =>
      out ≡ₚ concat (snd <$> map_to_list (ready latest c (pool_contents p))) /\
      pool_contents p' = unready latest c (pool_contents p)
  | Err _ => pool_keys p' = pool_keys p \/ pool_contents p' = unready latest c (pool_contents p)
  end.
Proof.
  intros Hw Hpop. destruct (PopConfirmed_cases _ _ _ _ _ _ Hw Hpop) as (hs & Hpfx & Hw' & Hc & Hr).
  unfold wf, pool_contents in *. rewrite Hpfx. destruct r as [out|e].
  - destruct Hr as [Ho Hk]. case_decide as Hd; rewrite Hk; (split; [done|]); (split; [done|]).
    + subst out. split; [done|]. intros h logs. by apply entries_empty.
    + by destruct out.
  - destruct Hr as [Hk|[Hk _]]; rewrite Hk; (split; [done|]); (split; [done|]); [by left|by right].
Qed.

(** [Add] then decodes to what was added. *)
Lemma Add_contents ctx (p : pool) h logs p' : wf p -> is_u64 h -> Forall json_log logs ->
  Add ctx p h logs = (p', None) -> wf p' /\ pool_contents p' = <[h := logs]> (pool_contents p).
Proof.
  intros Hw Hh Hl Ha. destruct (Add_cases _ _ _ _ _ _ Hw Ha) as [Hp Hk].
  unfold wf, pool_contents. rewrite Hk, Hp. split; [by apply add_block_wf|by apply add_block_contents].
Qed.

Lemma Count_keys ctx (p : pool) : pool_keys (Count ctx p).1 = pool_keys p /\ prefix (Count ctx p).1 = prefix p.
Proof. unfold Count. destruct (rdb_SCard _ _ _) as [d r] eqn:E. apply SCard_law in E as [Hk _]. done. Qed.

Lemma Count_spec ctx (p : pool) p' n : Count ctx p = (p', Ok n) ->
  exists X, members (pool_keys p) (indexKey (prefix p)) = Some X /\ n = Z.of_nat (size X).
Proof. unfold Count. destruct (rdb_SCard _ _ _) as [d r] eqn:E. apply SCard_law in E as [_ Hr]. by intros [= _ ->]. Qed.

(** ** The contract of a pending pool *)

Lemma Pop_ok ctx (p : pool) latest c p' out : wf p -> PopConfirmed ctx p latest c = (p', Ok out) ->
  wf p' /\ pool_contents p' ≈ unready latest c (pool_contents p) /\
  out ≡ₚ concat (snd <$> map_to_list (ready latest c (pool_contents p))).
Proof.
  intros Hw Hpop. destruct (PopConfirmed_cases _ _ _ _ _ _ Hw Hpop) as (hs & Hpfx & Hw' & Hc & Ho & Hk).
  unfold wf, pool_contents at 1. rewrite Hpfx. case_decide as Hd; rewrite Hk; [subst out|by rewrite Hc].
  split; [done|]. split; [|done]. by apply nothing_ready.
Qed.

Lemma Pop_err `{!RedisReplies D} ctx (p : pool) latest c p' e : wf p -> PopConfirmed ctx p latest c = (p', Err e) ->
  wf p' /\ pool_contents p' ≈ pool_contents p.
Proof.
  intros Hw Hpop. destruct (PopConfirmed_cases _ _ _ _ _ _ Hw Hpop) as (hs & Hpfx & Hw' & Hc & Hr).
  assert (Hk : pool_keys p' = pool_keys p).
  { destruct Hr as [Hk|(Hk & d & d' & e' & cs & Hx & Hd & Hd')]; [done|]. apply Exec_replies in Hx. congruence. }
  unfold wf, pool_contents. by rewrite Hk, Hpfx.
Qed.

Lemma Add_err `{!RedisReplies D} ctx (p : pool) h logs p' e : Add ctx p h logs = (p', Some e) ->
  pool_keys p' = pool_keys p /\ prefix p' = prefix p.
Proof.
  unfold Add. destruct (rdb_Exec _ _ _) as [d r] eqn:E. intros [= <- ->]. by apply Exec_replies in E.
Qed.

#[export] Program Instance RedisPendingPool_laws : PendingPoolLaws pool := {
  pool_keeps := json_log;
  pool_wf := wf;
  contents := pool_contents }.
Next Obligation.
  intros ctx p h logs p' Hw Hh Hl Ha. destruct (Add_contents _ _ _ _ _ Hw Hh Hl Ha) as [Hw' Hc].
  split; [done|]. by rewrite Hc.
Qed.
Next Obligation.
  intros ctx p latest c p' out Hw Hpop. destruct (Pop_ok _ _ _ _ _ _ Hw Hpop) as (Hw' & Hc & Ho).
  split; [done|]. split; [done|]. intros l. by rewrite Ho, concat_elem_pool_has.
Qed.
Next Obligation.
  intros ctx p Hw. destruct (Count_keys ctx p) as [Hk Hp]. unfold wf, pool_contents in *.
  cbn [pool_Count RedisPendingPool_pool]. by rewrite Hk, Hp.
Qed.

(** When no reply is lost, a call that fails has changed nothing. *)
#[export] Program Instance RedisPendingPool_spec `{!RedisReplies D} : PendingPoolSpec pool.
Next Obligation.
  intros ? ctx p h logs p' e Hw Ha. cbn in Hw. destruct (Add_err _ _ _ _ _ _ Ha) as [Hk Hp].
  cbn. unfold wf, pool_contents in *. by rewrite Hk, Hp.
Qed.
Next Obligation. intros ? ctx p latest c p' e. apply Pop_err. Qed.

(** ** Blocks without logs stay *)

(** A batch without logs for each of the heights, and a pop after each. *)
Fixpoint empty_rounds (latest c : Z) (hs : list Z) (p : pool) : option pool :=
  match hs with
  | [] => Some p
  | h :: hs' =>
      match Add None p h [] with
      | (p1, None) =>
          match PopConfirmed None p1 latest c with
          | (p2, Ok []) => empty_rounds latest c hs' p2
          | _ => None
          end
      | _ => None
      end
  end.

(** The index has exactly the heights [hs], all without logs. *)
Definition only_empty (p : pool) (hs : list Z) : Prop :=
  wf p /\ index_of (pool_keys p) (prefix p) = list_to_set (FormatUint <$> hs) /\
  forall h logs, pool_contents p !! h = Some logs -> logs = [].

Lemma empty_round latest c h hs (p p1 p2 : pool) r : is_u64 h -> only_empty p hs ->
  Add None p h [] = (p1, None) -> PopConfirmed None p1 latest c = (p2, Ok r) -> r = [] /\ only_empty p2 (h :: hs).
Proof.
  intros Hh (Hw & Hi & He) Ha Hpop. destruct (Add_contents _ _ _ _ _ Hw Hh (Forall_nil_2 _) Ha) as [Hw1 Hc1].
  destruct (Add_cases _ _ _ _ _ _ Hw Ha) as [Hp1 Hk1].
  destruct (PopConfirmed_cases _ _ _ _ _ _ Hw1 Hpop) as (hs' & Hp2 & _ & _ & Ho & Hk2).
  assert (Hr : r = []).
  { destruct r as [|l r]; [done|]. exfalso. assert (Hl : l ∈ l :: r) by apply list_elem_of_here. rewrite Ho in Hl.
    apply concat_elem_pool_has in Hl as (h' & logs & Hl & Hin). unfold ready in Hl.
    apply map_lookup_filter_Some in Hl as [Hl _]. rewrite Hc1 in Hl.
    apply lookup_insert_Some in Hl as [[_ <-]|[_ Hl]]; [by apply not_elem_of_nil in Hin|].
    rewrite (He _ _ Hl) in Hin. by apply not_elem_of_nil in Hin. }
  split; [done|]. rewrite decide_True in Hk2 by done. unfold only_empty, wf, pool_contents in *. rewrite Hk2, Hp2.
  split; [done|]. split.
  - rewrite Hk1, Hp1. cbn [fmap list_fmap list_to_set]. rewrite <- Hi. by apply members_index, members_insert.
  - intros h' logs. rewrite Hc1. intros [[_ <-]|[_ Hl]]%lookup_insert_Some; [done|]. by eapply He.
Qed.

Lemma empty_rounds_index latest c hs : forall hs0 (p p' : pool), Forall is_u64 hs -> only_empty p hs0 ->
  empty_rounds latest c hs p = Some p' -> only_empty p' (reverse hs ++ hs0).
Proof.
  induction hs as [|h hs IH]; intros hs0 p p' Hhs Hp; cbn [empty_rounds]; [by intros [= <-]|].
  apply Forall_cons in Hhs as [Hh Hhs]. destruct (Add None p h []) as [p1 [e|]] eqn:Ea; [done|].
  destruct (PopConfirmed None p1 latest c) as [p2 [r|e]] eqn:Ep; [|done].
  destruct (empty_round _ _ _ _ _ _ _ _ Hh Hp Ea Ep) as [-> Hp2]. intros Hr.
  rewrite reverse_cons, <- app_assoc. by apply (IH (h :: hs0) p2).
Qed.

(** Blocks without logs are never removed from Redis: whatever the head
    is, after a batch without logs for each of [n] heights, and a pop after each
    of them, a pool that was empty holds [n] blocks, however deep they are. *)
Theorem redis_pool_leaks latest c hs (p p' p'' : pool) n :
  Forall is_u64 hs -> NoDup hs -> pool_keys p !! indexKey (prefix p) = None ->
  empty_rounds latest c hs p = Some p' -> Count None p' = (p'', Ok n) -> n = Z.of_nat (length hs).
Proof.
  intros Hhs Hnd Hk Hr (X & HX & ->)%Count_spec.
  assert (Hm : members (pool_keys p) (indexKey (prefix p)) = Some ∅) by (unfold members; by rewrite Hk).
  assert (Hw : wf p) by (exists ∅; split; [done|set_solver]).
  destruct (empty_rounds_index latest c hs [] p p' Hhs) as (_ & Hi & _); [|done|].
  - split; [done|]. split; [by apply members_index|]. intros h logs Hl.
    apply contents_lookup in Hl as (_ & Hin & _); [|done]. rewrite (members_index _ _ _ Hm) in Hin. set_solver.
  - rewrite (members_index _ _ _ HX), app_nil_r in Hi. subst X. f_equal.
    rewrite size_list_to_set, length_fmap; [apply length_reverse|].
    apply NoDup_fmap_2_strong; [|by rewrite reverse_Permutation]. intros x y Hx Hy. rewrite elem_of_reverse in *.
    rewrite Forall_forall in Hhs. apply FormatUint_inj; auto.
Qed.
End Laws.

(** ** At a concrete server *)

Definition fresh_redis (lossy : bool) (faults : list fault) : RedisPendingPool (MemRedis lossy) :=
  NewRedisPendingPool (MkRedis ∅ faults) "logfilter".

Lemma redis_pool_leaks_witness :
  let p := fresh_redis false [] in
  exists p', empty_rounds 1000 6 [100; 110; 120] p = Some p' /\ (Count None p').2 = Ok 3.
Proof.
  intros p. assert (Hok : (fun q => is_ok (Count None q).2) <$> empty_rounds 1000 6 [100; 110; 120] p = Some true)
    by (vm_compute; reflexivity).
  destruct (empty_rounds 1000 6 [100; 110; 120] p) as [p'|] eqn:E; [|discriminate].
  exists p'. split; [done|]. destruct (Count None p') as [p'' [n|e]] eqn:Ec; change (Some (is_ok (Count None p').2) = Some true) in Hok; rewrite Ec in Hok; [|discriminate].
  cbn. f_equal. apply (redis_pool_leaks 1000 6 [100; 110; 120] p p' p''); [| |reflexivity|exact E|exact Ec].
  - repeat constructor; unfold two64; lia.
  - apply (bool_decide_unpack _). vm_compute. exact I.
Defined.
Lemma fresh_wf lossy faults : wf (fresh_redis lossy faults).
Proof. exists ∅. split; [done|set_solver]. Qed.

Definition redis_log : LogResult := MkLog "100" 100 "0xabc" "0xa" ["Transfer"] "01".

Lemma redis_log_json : json_log redis_log.
Proof. split; [unfold is_u64, two64; cbn; lia|]. split_and!; try (by apply utf8_ascii). repeat constructor; by apply utf8_ascii. Qed.

(** A pool with one block, whose third call from now loses its reply. *)
Definition unlucky : RedisPendingPool (MemRedis true) :=
  (Add None (fresh_redis true [FOk; FOk; FOk; FLost]) 100 [redis_log]).1.

Lemma unlucky_wf : wf unlucky.
Proof.
  apply (Add_contents None (fresh_redis true [FOk; FOk; FOk; FLost]) 100 [redis_log] unlucky).
  - apply fresh_wf.
  - unfold is_u64, two64. lia.
  - apply Forall_singleton, redis_log_json.
  - vm_compute. reflexivity.
Qed.

Lemma redis_PopConfirmed_spec_witness :
  let p' := (PopConfirmed None unlucky 110 6).1 in
  (PopConfirmed None unlucky 110 6).2 = Err io_timeout /\ (PopConfirmed None p' 110 6).2 = Ok [] /\
  (pool_keys p' = pool_keys unlucky \/ pool_contents p' = unready 110 6 (pool_contents unlucky)).
Proof.
  cbn zeta. assert (Hr : (PopConfirmed None unlucky 110 6).2 = Err io_timeout) by (vm_compute; reflexivity).
  split; [exact Hr|]. split; [vm_compute; reflexivity|].
  destruct (PopConfirmed None unlucky 110 6) as [p' r] eqn:E. cbn [fst snd] in *. rewrite Hr in E.
  apply (redis_PopConfirmed_spec None unlucky 110 6 p' (Err io_timeout) unlucky_wf E).
Defined.
