(* ===== verification/RedisCheckpoint.v ===== *)
(** * The Redis checkpoint store ([go/logfilter/logfilter.go])

    [RedisCheckpointStore] over the client of [Redis.v], and the proof that it
    keeps the contract [CheckpointStoreSpec]. *)

From stdpp Require Import base gmap list strings.
From Stdlib Require Import ZArith Lia.
From Stdlib Require String.
From S2P Require Import Prelude GoStd LogTypes Checkpoint Redis.

Local Open Scope Z_scope.

(** ** [RedisCheckpointStore] *)

Record RedisCheckpointStore (D : Type) := MkStore { rdb : D; key : string }.
Arguments MkStore {D} _ _.
Arguments rdb {D} _.
Arguments key {D} _.

Definition NewRedisCheckpointStore {D} (rdb : D) (key : string) : RedisCheckpointStore D := MkStore rdb key.

Section Store.
Context {D : Type} `{RedisClient D}.

Definition Save (ctx : Ctx) (r : RedisCheckpointStore D) (block : Z) : RedisCheckpointStore D * option error :=
  let (d, err) := rdb_Set ctx (rdb r) (key r) (FormatUint block) in (MkStore d (key r), err).

(** [Uint64()] parses the value; its errors are not [redis.Nil]. *)
Definition Load (ctx : Ctx) (r : RedisCheckpointStore D) : RedisCheckpointStore D * result Z :=
  let (d, v) := rdb_Get ctx (rdb r) (key r) in
  let v := match v with Ok s => ParseUint s | Err err => Err err end in
  (MkStore d (key r),
   match v with
   | Err err => if errors_Is (Some err) (Some ERedisNil) then Ok 0 else Err err
   | Ok v => Ok v
   end).

#[global] Instance RedisCheckpointStore_store : CheckpointStore (RedisCheckpointStore D) := {
  store_Save := Save;
  store_Load := Load }.
End Store.

Section Spec.
Context {D : Type} `{RedisLaws D}.

Lemma parse_uint_loop_nil orig s : forall n e,
  parse_uint_loop orig s n = Err e -> errors_Is (Some e) (Some ERedisNil) = false.
Proof.
  induction s as [|c s IH]; intros n e; [done|]. cbn [parse_uint_loop].
  case_match; [|by intros [= <-]].
  case_match; [by intros [= <-]|]. apply IH.
Qed.

Lemma ParseUint_nil s e : ParseUint s = Err e -> errors_Is (Some e) (Some ERedisNil) = false.
Proof. destruct s as [|c s]; [by intros [= <-]|]. apply parse_uint_loop_nil. Qed.

(** The checkpoint a store would be read back as. *)
Definition saved (r : RedisCheckpointStore D) : option Z :=
  match keys (rdb r) !! key r with
  | None => Some 0
  | Some (RStr v) => match ParseUint v with Ok n => Some n | Err _ => None end
  | Some (RSet _) => None
  end.

#[global] Program Instance RedisCheckpointStore_spec : CheckpointStoreSpec (RedisCheckpointStore D) := { stored := saved }.
Next Obligation.
  intros c r b r' Hb. cbn. unfold Save. destruct (rdb_Set _ _ _ _) as [d e] eqn:E. intros [= <- ->].
  apply Set_law in E. unfold saved. cbn. by rewrite E, lookup_insert_eq, ParseUint_FormatUint.
Qed.
Next Obligation.
  intros c r r' v. cbn. unfold Load. destruct (rdb_Get _ _ _) as [d x] eqn:E. apply Get_law in E as [Hk Hx].
  unfold saved. destruct x as [s|e].
  - destruct (ParseUint s) as [n|e'] eqn:Ep.
    + intros [= <- <-]. cbn. rewrite Hk, Hx, Ep. done.
    + rewrite (ParseUint_nil _ _ Ep). by intros [=].
  - destruct (errors_Is (Some e) (Some ERedisNil)); [|by intros [=]]. intros [= <- <-]. cbn. by rewrite Hk, Hx.
Qed.
End Spec.
