(* ===== verification/RunOnce.v ===== *)
(** * One sync round of a log-filter task ([LogTask.RunOnce], go/logfilter/logfilter.go)

    The task, the world it runs in, and [RunOnce] as the source has it: poll the
    context, take both semaphores, query a batch, shrink on range errors, dedup,
    add to the pending pool, pop the confirmed logs, hand them out, save the
    checkpoint.  The first theorems are about one iteration: [fetch_spec] and
    [process_spec] list its outcomes, and everything else is proved from them. *)

From stdpp Require Import base gmap list strings.
From Stdlib Require Import ZArith Lia.
From S2P Require Import Prelude GoStd LogTypes Semaphore PendingPool.

Local Open Scope Z_scope.

(** [IsRateLimitOrRangeErr]. *)
Definition IsRateLimitOrRangeErr (err : option error) : bool :=
  match err with
  | None => false
  | Some e =>
      let msg := Error e in
      String.eqb msg "block range too large" || String.eqb msg "query timeout" ||
      String.eqb msg "rate limit exceeded"
  end.

Arguments IsRateLimitOrRangeErr : simpl never.

(** The fields of [LogTask] nothing assigns to. *)
Record TaskConfig := MkConfig {
  TaskName : string;
  TaskAddress : list string;
  TaskTopics : list (list string);
  LiveMode : bool;
  LivePollInterval : Z;
  RestartBackoff : Z;
  MaxBackoff : Z;
  ConfirmBlockNum : Z }.

(** A call on one of the task's interfaces, with its result. *)
Inductive event :=
  | EvBlockNumber (r : result Z)
  | EvGetLogs (fromBlock toBlock : Z) (r : result (list LogResult))
  | EvAdd (height : Z) (logs : list LogResult) (e : option error)
  | EvPop (latestBlock confirmNum : Z) (r : result (list LogResult))
  | EvHandle (logs : list LogResult) (e : option error)
  | EvSave (block : Z) (e : option error).

Section Task.
Context {R S H P : Type}.

(** [Pool] is the field [PendingPool], [None] for a nil interface. *)
Record LogTask := MkTask {
  Config : TaskConfig;
  Checkpoint : Z;
  BatchSize : Z;
  RPC : R;
  Store : S;
  BatchHandler : H;
  RPCSem : RPCSemaphore;
  TaskLocalSem : RPCSemaphore;
  Pool : option P;
  unhealthyStart : option Z }.

Definition set_Checkpoint v t := MkTask (Config t) v (BatchSize t) (RPC t) (Store t) (BatchHandler t) (RPCSem t) (TaskLocalSem t) (Pool t) (unhealthyStart t).
Definition set_BatchSize v t := MkTask (Config t) (Checkpoint t) v (RPC t) (Store t) (BatchHandler t) (RPCSem t) (TaskLocalSem t) (Pool t) (unhealthyStart t).
Definition set_RPC v t := MkTask (Config t) (Checkpoint t) (BatchSize t) v (Store t) (BatchHandler t) (RPCSem t) (TaskLocalSem t) (Pool t) (unhealthyStart t).
Definition set_Store v t := MkTask (Config t) (Checkpoint t) (BatchSize t) (RPC t) v (BatchHandler t) (RPCSem t) (TaskLocalSem t) (Pool t) (unhealthyStart t).
Definition set_BatchHandler v t := MkTask (Config t) (Checkpoint t) (BatchSize t) (RPC t) (Store t) v (RPCSem t) (TaskLocalSem t) (Pool t) (unhealthyStart t).
Definition set_RPCSem v t := MkTask (Config t) (Checkpoint t) (BatchSize t) (RPC t) (Store t) (BatchHandler t) v (TaskLocalSem t) (Pool t) (unhealthyStart t).
Definition set_TaskLocalSem v t := MkTask (Config t) (Checkpoint t) (BatchSize t) (RPC t) (Store t) (BatchHandler t) (RPCSem t) v (Pool t) (unhealthyStart t).
Definition set_Pool v t := MkTask (Config t) (Checkpoint t) (BatchSize t) (RPC t) (Store t) (BatchHandler t) (RPCSem t) (TaskLocalSem t) v (unhealthyStart t).
Definition set_unhealthyStart v t := MkTask (Config t) (Checkpoint t) (BatchSize t) (RPC t) (Store t) (BatchHandler t) (RPCSem t) (TaskLocalSem t) (Pool t) v.

(** The task, the number of times the context was looked at, the metrics, and
    the calls made so far, the latest first. *)
Record world := MkWorld {
  w_task : LogTask;
  w_clock : nat;
  w_metrics : Metrics;
  w_trace : list event }.

Context `{RPCQuerier R, CheckpointStore S, LogBatchHandler H, PendingPool P}.

(** The environment: what [ctx.Err()] is at each look at the context, and
    which ready case a [select] takes. *)
Variable ctx : nat -> Ctx.
Variable pick : nat -> bool.

(** [RunOnce] returns [(caughtUp, err)]. *)
Definition prog (A : Type) : Type := M world (bool * option error) A.

Definition with_task (f : LogTask -> LogTask) (w : world) : world :=
  MkWorld (f (w_task w)) (w_clock w) (w_metrics w) (w_trace w).
Definition with_metrics (f : Metrics -> Metrics) (w : world) : world :=
  MkWorld (w_task w) (w_clock w) (f (w_metrics w)) (w_trace w).
Definition tick (w : world) : world :=
  MkWorld (w_task w) (Datatypes.S (w_clock w)) (w_metrics w) (w_trace w).
Definition log_call (e : event) (w : world) : world :=
  MkWorld (w_task w) (w_clock w) (w_metrics w) (e :: w_trace w).
Definition now_ctx (w : world) : Ctx := ctx (w_clock w).

Local Open Scope go_scope.

(** [if err != nil { return false, f(err) }]. *)
Definition check (f : error -> error) (e : option error) : prog unit :=
  match e with Some e => return_ (false, Some (f e)) | None => ret tt end.

(** [select { case <-ctx.Done(): return false, ctx.Err(); default: }]. *)
Definition poll : prog unit :=
  fun w => match now_ctx w with
           | Some e => Return (false, Some e) (tick w)
           | None => Cont tt (tick w)
           end.

Definition sem_acquire (get : LogTask -> RPCSemaphore) (set : RPCSemaphore -> LogTask -> LogTask) : prog (option error) :=
  fun w => match Acquire (now_ctx w) (pick (w_clock w)) (get (w_task w)) (w_metrics w) with
           | None => Blocked w
           | Some (s, m, e) => Cont e (tick (with_metrics (fun _ => m) (with_task (set s) w)))
           end.
Definition sem_release (get : LogTask -> RPCSemaphore) (set : RPCSemaphore -> LogTask -> LogTask) : prog unit :=
  fun w => match Release (get (w_task w)) (w_metrics w) with
           | None => Blocked w
           | Some (s, m) => Cont tt (with_metrics (fun _ => m) (with_task (set s) w))
           end.

Definition inc_request (status : string) : prog unit :=
  fun w => Cont tt (with_metrics (metric_add metricRPCRequestTotal [TaskName (Config (w_task w)); status] 1) w).

(** The calls on the interfaces. *)
Definition call_BlockNumber : prog (result Z) := fun w =>
  let (r', res) := rpc_BlockNumber (now_ctx w) (RPC (w_task w)) in
  Cont res (log_call (EvBlockNumber res) (tick (with_task (set_RPC r') w))).

Definition call_EthGetLogs (from to : Z) : prog (result (list LogResult)) := fun w =>
  let t := w_task w in
  let (r', res) := rpc_EthGetLogs (now_ctx w) (RPC t) from to (TaskAddress (Config t)) (TaskTopics (Config t)) in
  Cont res (log_call (EvGetLogs from to res) (tick (with_task (set_RPC r') w))).

(** A method call on a nil pool panics. *)
Definition call_pool {A} (f : P -> P * A) (ev : A -> world -> world) : prog A := fun w =>
  match Pool (w_task w) with
  | None => Panicked w
  | Some p => let (p', a) := f p in Cont a (ev a (tick (with_task (set_Pool (Some p')) w)))
  end.

Definition call_Add (h : Z) (logs : list LogResult) : prog (option error) := fun w =>
  call_pool (fun p => pool_Add (now_ctx w) p h logs) (fun e => log_call (EvAdd h logs e)) w.
Definition call_PopConfirmed (latestBlock : Z) : prog (result (list LogResult)) := fun w =>
  let c := ConfirmBlockNum (Config (w_task w)) in
  call_pool (fun p => pool_PopConfirmed (now_ctx w) p latestBlock c) (fun r => log_call (EvPop latestBlock c r)) w.
Definition call_Count : prog (result Z) := fun w =>
  call_pool (fun p => pool_Count (now_ctx w) p) (fun _ w => w) w.

Definition call_HandleBatch (logs : list LogResult) : prog (option error) := fun w =>
  let (h', e) := HandleBatch (now_ctx w) (BatchHandler (w_task w)) logs in
  Cont e (log_call (EvHandle logs e) (tick (with_task (set_BatchHandler h') w))).
Definition call_Save (block : Z) : prog (option error) := fun w =>
  let (s', e) := store_Save (now_ctx w) (Store (w_task w)) block in
  Cont e (log_call (EvSave block e) (tick (with_task (set_Store s') w))).

(** ** The loop body *)

Definition batch_end (latestBlock currentStart bs : Z) : Z :=
  let e := u64_sub (u64_add currentStart bs) 1 in
  if latestBlock <? e then latestBlock else e.

(** From the top of the body to the two releases: the end of the batch and
    what the query returned. *)
Definition fetch (latestBlock currentStart : Z) : prog (Z * result (list LogResult)) :=
  poll ;;
  e <- sem_acquire TaskLocalSem set_TaskLocalSem ;;
  check (fun e => e) e ;;
  e <- sem_acquire RPCSem set_RPCSem ;;
  match e with
  | Some e => sem_release TaskLocalSem set_TaskLocalSem ;; return_ (false, Some e)
  | None =>
      bs <- gets (fun w => BatchSize (w_task w)) ;;
      let end_ := batch_end latestBlock currentStart bs in
      r <- call_EthGetLogs currentStart end_ ;;
      sem_release RPCSem set_RPCSem ;;
      sem_release TaskLocalSem set_TaskLocalSem ;;
      ret (end_, r)
  end.

(** [if err != nil] after the query: shrink and [continue], or return. *)
Definition fetch_failed (currentStart : Z) (e : error) : prog Z :=
  inc_request "fail" ;;
  if IsRateLimitOrRangeErr (Some e) then
    modify (fun w => with_task (set_BatchSize (BatchSize (w_task w) / 2)) w) ;;
    bs <- gets (fun w => BatchSize (w_task w)) ;;
    if bs <? 1 then return_ (false, Some (EWrap "batch reduced to 1, still failing: " e))
    else ret currentStart
  else return_ (false, Some (EWrap "rpc query: " e)).

(** [if len(ready) > 0]: hand out, save, advance. *)
Definition emit (end_ : Z) (ready : list LogResult) : prog unit :=
  match ready with
  | [] => ret tt
  | _ =>
      e <- call_HandleBatch ready ;;
      check (EWrap "batch handler: ") e ;;
      e <- call_Save end_ ;;
      check (EWrap "save checkpoint: ") e ;;
      modify (with_task (set_Checkpoint end_))
  end.

(** The rest of the body, after a successful query. *)
Definition process (latestBlock currentStart end_ : Z) (logs : list LogResult) : prog Z :=
  inc_request "ok" ;;
  let batchDedup := dedup logs in
  modify (with_metrics (metric_add metricLogsTotal [] (Z.of_nat (length batchDedup)))) ;;
  e <- call_Add currentStart batchDedup ;;
  check (EWrap "pending add: ") e ;;
  r <- call_PopConfirmed latestBlock ;;
  match r with
  | Err e => return_ (false, Some (EWrap "pending pop: " e))
  | Ok ready =>
      emit end_ ready ;;
      modify (with_metrics (metric_add metricBatchDuration [] 1)) ;;
      n <- call_Count ;;
      match n with
      | Ok pending =>
          modify (fun w => with_metrics (metric_set metricPendingBlockCount [TaskName (Config (w_task w))] pending) w)
      | Err _ => ret tt
      end ;;
      ret (u64_add end_ 1)
  end.

(** One iteration; its value is the next [currentStart]. *)
Definition RunOnce_iter (latestBlock currentStart : Z) : prog Z :=
  er <- fetch latestBlock currentStart ;;
  match er.2 with
  | Err e => fetch_failed currentStart e
  | Ok logs => process latestBlock currentStart er.1 logs
  end.

(** [for currentStart <= latestBlock]. *)
Fixpoint RunOnce_loop (fuel : nat) (latestBlock currentStart : Z) : prog unit :=
  if currentStart <=? latestBlock then
    match fuel with
    | O => out_of_fuel
    | Datatypes.S f =>
        next <- RunOnce_iter latestBlock currentStart ;;
        RunOnce_loop f latestBlock next
    end
  else ret tt.

Definition RunOnce (fuel : nat) : prog Empty_set :=
  r <- call_BlockNumber ;;
  match r with
  | Err e => inc_request "fail" ;; return_ (false, Some (EWrap "get latest block: " e))
  | Ok latestBlock =>
      inc_request "ok" ;;
      cp <- gets (fun w => Checkpoint (w_task w)) ;;
      if latestBlock <? cp then return_ (true, None)
      else RunOnce_loop fuel latestBlock cp ;; return_ (true, None)
  end.
End Task.
Arguments LogTask : clear implicits.
Arguments world : clear implicits.
Arguments MkWorld {R S H P} _ _ _ _.
