(* ===== verification/Scenario.v ===== *)
(** * A concrete environment for the log filter

    A node with a fixed list of logs, the in-memory pool and checkpoint store, and
    the handler that accepts everything: the inputs at which the witnesses
    instantiate the theorems about [RunOnce]. *)

From stdpp Require Import base gmap list strings.
From Stdlib Require Import ZArith Lia.
From S2P Require Import Prelude GoStd LogTypes Semaphore PendingPool Checkpoint RunOnce.

Local Open Scope Z_scope.

(** A node on the chain with the given logs, at some head. *)
Record ChainRPC (chain : list LogResult) := MkChain { chain_head : Z }.
Arguments MkChain {chain} _.
Arguments chain_head {chain} _.

#[export] Instance ChainRPC_querier chain : RPCQuerier (ChainRPC chain) := {
  rpc_BlockNumber _ r := (r, Ok (u64 (chain_head r)));
  rpc_EthGetLogs _ r a b _ _ :=
    (r, Ok (List.filter (fun l => (a <=? BlockNumUint l) && (BlockNumUint l <=? b)) chain)) }.

(** The logs of one block of it. *)
Definition chain_logs_of (chain : list LogResult) (n : Z) : list LogResult :=
  List.filter (fun l => BlockNumUint l =? n) chain.

#[export] Instance Pool_in_order : PendingPool BlockPendingPool := BlockPendingPool_pool list_order.
#[export] Instance Pool_in_order_laws : PendingPoolLaws BlockPendingPool := BlockPendingPool_laws list_order list_order_perm.
#[export] Instance Pool_in_order_spec : PendingPoolSpec BlockPendingPool := BlockPendingPool_spec list_order list_order_perm.

(** The task of the scenarios: the address and topic filters play no role. *)
Definition demo_config (confirm : Z) : TaskConfig :=
  MkConfig "demo" ["0xa"] [] true 12000000000 1000000000 60000000000 confirm.

Abbreviation DemoWorld chain := (world (ChainRPC chain) Memory.MemoryCheckpointStore unit BlockPendingPool).

(** A task at checkpoint [cp] with batches of [B] blocks, a pool holding [pool],
    and a node whose head is [head]. *)
Definition demo (cp B confirm head : Z) (chain : list LogResult) (pool : PoolMap) : DemoWorld chain :=
  MkWorld (MkTask (demo_config confirm) cp B (MkChain head) (Memory.NewMemoryCheckpointStore cp) tt
             (MkSem 10 0) (MkSem 3 0) (Some (MkPool pool 0)) None) 0 ∅ [].

(** The context never done; with both cases of a [select] ready, the first. *)
Definition live (_ : nat) : Ctx := None.
Definition first_case (_ : nat) : bool := false.

(** The logs of block [n] in the scenarios: one. *)
Definition log_at (n : Z) : LogResult := MkLog (FormatUint n) n "0xtx" "0xa" [] "".

(** The world with a new head, before the next round. *)
Definition at_head {chain} {S H P} (head : Z) (w : world (ChainRPC chain) S H P) : world (ChainRPC chain) S H P :=
  MkWorld (set_RPC (MkChain head) (w_task w)) (w_clock w) (w_metrics w) (w_trace w).

(** The task after a crash: what the checkpoint store has, an empty pool. *)
Definition restarted {chain} {H} (w : world (ChainRPC chain) Memory.MemoryCheckpointStore H BlockPendingPool) :
    world (ChainRPC chain) Memory.MemoryCheckpointStore H BlockPendingPool :=
  MkWorld (set_Pool (Some NewBlockPendingPool) (set_Checkpoint (Memory.val (Store (w_task w))) (w_task w)))
    (w_clock w) (w_metrics w) (w_trace w).

(** A handler that fails on the calls marked [true]. *)
Record Handler := MkHandler { handler_fails : list bool }.

#[export] Instance Handler_batch : LogBatchHandler Handler := {
  HandleBatch _ h _ :=
    (MkHandler (tail (handler_fails h)),
     if hd_error (handler_fails h) is Some true then Some (ENew "insert failed") else None) }.

Definition with_handler {R S H P} (h : Handler) (w : world R S H P) : world R S Handler P :=
  let t := w_task w in
  MkWorld (MkTask (Config t) (Checkpoint t) (BatchSize t) (RPC t) (Store t) h (RPCSem t) (TaskLocalSem t) (Pool t)
             (unhealthyStart t)) (w_clock w) (w_metrics w) (w_trace w).
