(* ===== verification/RunOnceSpec.v ===== *)
(** * The outcomes of one iteration of [RunOnce]

    [fetch_result] and [process_result] are the abstract step of the loop: every
    way an iteration can end, with the calls made, the task it leaves and the
    trace it adds.  [fetch_spec] and [process_spec] prove that the code of
    [RunOnce.v] has only these outcomes.  The properties that need nothing else
    follow: semaphores are returned, the loop ends, failures are reported. *)

From stdpp Require Import base gmap list strings.
From Stdlib Require Import ZArith Lia.
From S2P Require Import Prelude GoStd LogTypes Semaphore PendingPool RunOnce.

Local Open Scope Z_scope.

Section Spec.
Context {R S H P : Type}.
Context `{RPCQuerier R, CheckpointStore S, LogBatchHandler H, PendingPool P}.
Variable ctx : nat -> Ctx.
Variable pick : nat -> bool.

Local Abbreviation LogTask := (LogTask R S H P).
Local Abbreviation world := (world R S H P).
Local Abbreviation outcome A := (exec world (bool * option error) A).

Definition rpc_gauge (w : world) : Z := metric_get (w_metrics w) metricRPCConcurrent [].

(** No negative token counts, and room for one more token in each channel. *)
Definition sems_ok (t : LogTask) : Prop := 0 <= sem_len (RPCSem t) /\ 0 <= sem_len (TaskLocalSem t).
Definition sems_free (t : LogTask) : Prop :=
  sem_len (RPCSem t) < sem_cap (RPCSem t) /\ sem_len (TaskLocalSem t) < sem_cap (TaskLocalSem t).

(** ** [fetch] *)

Inductive fetch_result (latest cs : Z) (w : world) : outcome (Z * result (list LogResult)) -> Prop :=
  | fetch_cancelled e n w' :
      ctx n = Some e ->
      w_task w' = w_task w -> w_trace w' = w_trace w -> rpc_gauge w' = rpc_gauge w ->
      fetch_result latest cs w (Return (false, Some e) w')
  | fetch_blocked w' :
      ~ sems_free (w_task w) -> w_trace w' = w_trace w -> fetch_result latest cs w (Blocked w')
  | fetch_done n r' res w' :
      let t := w_task w in
      let e := batch_end latest cs (BatchSize t) in
      rpc_EthGetLogs (ctx n) (RPC t) cs e (TaskAddress (Config t)) (TaskTopics (Config t)) = (r', res) ->
      w_task w' = set_RPC r' t -> w_trace w' = EvGetLogs cs e res :: w_trace w -> rpc_gauge w' = rpc_gauge w ->
      fetch_result latest cs w (Cont (e, res) w').

Lemma sem_restore (s : RPCSemaphore) : MkSem (sem_cap s) (sem_len s + 1 - 1) = s.
Proof. destruct s as [cap len]. cbn. f_equal. lia. Qed.

Lemma set_sems_id (t : LogTask) : set_RPCSem (RPCSem t) (set_TaskLocalSem (TaskLocalSem t) t) = t.
Proof. by destruct t. Qed.

Lemma set_local_id (t : LogTask) : set_TaskLocalSem (TaskLocalSem t) t = t.
Proof. by destruct t. Qed.

Ltac gauge_eq := unfold rpc_gauge; cbn; rewrite ?metric_get_add, ?decide_True by done; lia.

Lemma fetch_spec latest cs w : sems_ok (w_task w) -> fetch_result latest cs w (fetch ctx pick latest cs w).
Proof.
  intros [Hrok Hlok]. unfold fetch. unfold bind at 1, poll, now_ctx.
  destruct (ctx (w_clock w)) as [e0|] eqn:E0; [by eapply fetch_cancelled|].
  unfold bind at 1, sem_acquire at 1. cbn [tick w_task w_metrics w_clock].
  destruct (Acquire _ _ (TaskLocalSem _) _) as [[[sl ml] el]|] eqn:El.
  2:{ eapply fetch_blocked; [|done]. intros [_ Hf]. unfold Acquire in El.
      rewrite (proj2 (Z.ltb_lt _ _) Hf) in El. by case_match. }
  apply Acquire_inv in El as [(e & Hc & -> & -> & ->)|(-> & Hlt & -> & ->)].
  { eapply fetch_cancelled; [exact Hc|cbn; apply set_local_id|done|done]. }
  cbn [check]. rewrite bind_ret. unfold bind at 1, sem_acquire at 1.
  cbn [tick with_metrics with_task w_task w_metrics w_clock set_TaskLocalSem RPCSem].
  destruct (Acquire _ _ (RPCSem _) _) as [[[sr mr] er]|] eqn:Er.
  2:{ eapply fetch_blocked; [|done]. intros [Hf _]. unfold Acquire in Er.
      rewrite (proj2 (Z.ltb_lt _ _) Hf) in Er. by case_match. }
  apply Acquire_inv in Er as [(e & Hc & -> & -> & ->)|(-> & Hltr & -> & ->)].
  { unfold bind at 1, sem_release. cbn.
    rewrite Release_held by (cbn; lia). cbn. rewrite sem_restore.
    eapply fetch_cancelled; [exact Hc|destruct w as [[] ? ? ?]; reflexivity|reflexivity|gauge_eq]. }
  unfold bind at 1, gets. cbn [w_task with_metrics with_task tick set_RPCSem set_TaskLocalSem BatchSize].
  unfold bind at 1, call_EthGetLogs. cbn [w_task with_metrics with_task tick set_RPCSem set_TaskLocalSem RPC Config].
  destruct (rpc_EthGetLogs _ _ _ _ _ _) as [r' res] eqn:Eq.
  unfold bind at 1, sem_release at 1. cbn.
  rewrite Release_held by (cbn; lia). cbn.
  unfold bind, sem_release. cbn. rewrite Release_held by (cbn; lia). cbn. rewrite !sem_restore.
  eapply fetch_done; [exact Eq|destruct w as [[] ? ? ?]; reflexivity|reflexivity|gauge_eq].
Qed.

(** ** [process] *)

Ltac gauge_same :=
  unfold rpc_gauge; cbn; rewrite ?metric_get_set, ?metric_get_add, ?decide_False by done; lia.

Inductive process_result (latest cs e : Z) (logs : list LogResult) (w : world) : outcome Z -> Prop :=
  | process_nil w' : Pool (w_task w) = None -> w_task w' = w_task w -> w_trace w' = w_trace w ->
      process_result latest cs e logs w (Panicked w')
  | process_add_err p c1 p1 er w' :
      Pool (w_task w) = Some p -> pool_Add c1 p cs (dedup logs) = (p1, Some er) ->
      w_task w' = set_Pool (Some p1) (w_task w) ->
      w_trace w' = EvAdd cs (dedup logs) (Some er) :: w_trace w ->
      process_result latest cs e logs w (Return (false, Some (EWrap "pending add: " er)) w')
  | process_pop_err p c1 p1 c2 p2 er w' :
      Pool (w_task w) = Some p -> pool_Add c1 p cs (dedup logs) = (p1, None) ->
      let cn := ConfirmBlockNum (Config (w_task w)) in
      pool_PopConfirmed c2 p1 latest cn = (p2, Err er) ->
      w_task w' = set_Pool (Some p2) (w_task w) ->
      w_trace w' = EvPop latest cn (Err er) :: EvAdd cs (dedup logs) None :: w_trace w ->
      process_result latest cs e logs w (Return (false, Some (EWrap "pending pop: " er)) w')
  | process_idle p c1 p1 c2 p2 c3 w' :
      Pool (w_task w) = Some p -> pool_Add c1 p cs (dedup logs) = (p1, None) ->
      let cn := ConfirmBlockNum (Config (w_task w)) in
      pool_PopConfirmed c2 p1 latest cn = (p2, Ok []) ->
      w_task w' = set_Pool (Some (pool_Count c3 p2).1) (w_task w) ->
      w_trace w' = EvPop latest cn (Ok []) :: EvAdd cs (dedup logs) None :: w_trace w ->
      process_result latest cs e logs w (Cont (u64_add e 1) w')
  | process_handle_err p c1 p1 c2 p2 rdy c3 h' er w' :
      Pool (w_task w) = Some p -> pool_Add c1 p cs (dedup logs) = (p1, None) ->
      let cn := ConfirmBlockNum (Config (w_task w)) in
      pool_PopConfirmed c2 p1 latest cn = (p2, Ok rdy) -> rdy <> [] ->
      HandleBatch c3 (BatchHandler (w_task w)) rdy = (h', Some er) ->
      w_task w' = set_BatchHandler h' (set_Pool (Some p2) (w_task w)) ->
      w_trace w' = EvHandle rdy (Some er) :: EvPop latest cn (Ok rdy) :: EvAdd cs (dedup logs) None :: w_trace w ->
      process_result latest cs e logs w (Return (false, Some (EWrap "batch handler: " er)) w')
  | process_save_err p c1 p1 c2 p2 rdy c3 h' c4 s' er w' :
      Pool (w_task w) = Some p -> pool_Add c1 p cs (dedup logs) = (p1, None) ->
      let cn := ConfirmBlockNum (Config (w_task w)) in
      pool_PopConfirmed c2 p1 latest cn = (p2, Ok rdy) -> rdy <> [] ->
      HandleBatch c3 (BatchHandler (w_task w)) rdy = (h', None) ->
      store_Save c4 (Store (w_task w)) e = (s', Some er) ->
      w_task w' = set_Store s' (set_BatchHandler h' (set_Pool (Some p2) (w_task w))) ->
      w_trace w' = EvSave e (Some er) :: EvHandle rdy None :: EvPop latest cn (Ok rdy) ::
                   EvAdd cs (dedup logs) None :: w_trace w ->
      process_result latest cs e logs w (Return (false, Some (EWrap "save checkpoint: " er)) w')
  | process_saved p c1 p1 c2 p2 rdy c3 h' c4 s' c5 w' :
      Pool (w_task w) = Some p -> pool_Add c1 p cs (dedup logs) = (p1, None) ->
      let cn := ConfirmBlockNum (Config (w_task w)) in
      pool_PopConfirmed c2 p1 latest cn = (p2, Ok rdy) -> rdy <> [] ->
      HandleBatch c3 (BatchHandler (w_task w)) rdy = (h', None) ->
      store_Save c4 (Store (w_task w)) e = (s', None) ->
      w_task w' = set_Pool (Some (pool_Count c5 p2).1)
                    (set_Checkpoint e (set_Store s' (set_BatchHandler h' (w_task w)))) ->
      w_trace w' = EvSave e None :: EvHandle rdy None :: EvPop latest cn (Ok rdy) ::
                   EvAdd cs (dedup logs) None :: w_trace w ->
      process_result latest cs e logs w (Cont (u64_add e 1) w').

(** One of the outcomes, and the gauge is as it was. *)
Definition process_ok (latest cs e : Z) (logs : list LogResult) (w : world) (x : outcome Z) : Prop :=
  process_result latest cs e logs w x /\ rpc_gauge (final x) = rpc_gauge w.

Lemma process_spec latest cs e logs w : process_ok latest cs e logs w (process ctx latest cs e logs w).
Proof.
  unfold process. unfold bind at 1, inc_request at 1. unfold bind at 1, modify at 1.
  unfold bind at 1, call_Add, call_pool. cbn [with_metrics w_task].
  destruct (Pool (w_task w)) as [p|] eqn:Ep; [|split; [by apply process_nil|gauge_same]].
  destruct (pool_Add _ p cs (dedup logs)) as [p1 [er|]] eqn:Ea; cbn [check].
  { split; [by eapply process_add_err|gauge_same]. }
  rewrite bind_ret. unfold bind at 1, call_PopConfirmed, call_pool. cbn [with_task log_call tick w_task set_Pool Pool Config with_metrics].
  destruct (pool_PopConfirmed _ p1 latest _) as [p2 [rdy|er]] eqn:Eo; cbn [return_].
  2:{ split; [by eapply process_pop_err|gauge_same]. }
  unfold bind at 1. destruct rdy as [|l rdy]; cbn [emit].
  { unfold ret at 1. unfold bind, modify, call_Count, call_pool. cbn.
    destruct (pool_Count _ p2) as [p3 [n|er]] eqn:Ec; cbn;
      (split; [eapply (process_idle _ _ _ _ _ p); eauto; rewrite Ec; done|gauge_same]). }
  unfold bind at 1, call_HandleBatch. cbn.
  destruct (HandleBatch _ (BatchHandler (w_task w)) (l :: rdy)) as [h' [er|]] eqn:Eh; cbn.
  { split; [by eapply process_handle_err|gauge_same]. }
  unfold bind at 1, call_Save at 1. cbn.
  destruct (store_Save _ (Store (w_task w)) e) as [s' [er|]] eqn:Es; cbn.
  { split; [by eapply process_save_err|gauge_same]. }
  unfold bind, modify, call_Count, call_pool. cbn.
  destruct (pool_Count _ p2) as [p3 [n|er]] eqn:Ec; cbn;
    (split; [eapply (process_saved _ _ _ _ _ p); eauto; rewrite Ec; done|gauge_same]).
Qed.

(** ** The whole body *)

Inductive iter_result (latest cs : Z) (w : world) : outcome Z -> Prop :=
  | iter_cancelled e n w' :
      ctx n = Some e -> w_task w' = w_task w -> w_trace w' = w_trace w ->
      iter_result latest cs w (Return (false, Some e) w')
  | iter_blocked w' :
      ~ sems_free (w_task w) -> w_trace w' = w_trace w -> iter_result latest cs w (Blocked w')
  | iter_rpc_err n r' er e bs x w' :
      let t := w_task w in
      let end_ := batch_end latest cs (BatchSize t) in
      rpc_EthGetLogs (ctx n) (RPC t) cs end_ (TaskAddress (Config t)) (TaskTopics (Config t)) = (r', Err er) ->
      w_task w' = set_BatchSize bs (set_RPC r' t) -> w_trace w' = EvGetLogs cs end_ (Err er) :: w_trace w ->
      (if IsRateLimitOrRangeErr (Some er) then bs = BatchSize t / 2 else bs = BatchSize t) ->
      (IsRateLimitOrRangeErr (Some er) = true /\ 1 <= bs /\ x = Cont cs w' \/
       IsRateLimitOrRangeErr (Some er) = true /\ bs < 1 /\
         e = EWrap "batch reduced to 1, still failing: " er /\ x = Return (false, Some e) w' \/
       IsRateLimitOrRangeErr (Some er) = false /\ e = EWrap "rpc query: " er /\ x = Return (false, Some e) w') ->
      iter_result latest cs w x
  | iter_process n r' logs w1 x :
      let t := w_task w in
      let end_ := batch_end latest cs (BatchSize t) in
      rpc_EthGetLogs (ctx n) (RPC t) cs end_ (TaskAddress (Config t)) (TaskTopics (Config t)) = (r', Ok logs) ->
      w_task w1 = set_RPC r' t -> w_trace w1 = EvGetLogs cs end_ (Ok logs) :: w_trace w ->
      process_result latest cs end_ logs w1 x ->
      iter_result latest cs w x.

Lemma set_BatchSize_id (t : LogTask) : set_BatchSize (BatchSize t) t = t.
Proof. by destruct t. Qed.

Lemma iter_spec latest cs w : sems_ok (w_task w) ->
  iter_result latest cs w (RunOnce_iter ctx pick latest cs w).
Proof.
  intros Hok. unfold RunOnce_iter, bind at 1.
  destruct (fetch_spec latest cs w Hok) as [e n w' Hc Ht Htr _|w' Hf Htr|c r' res w' t e Hq Ht Htr _].
  - by eapply iter_cancelled.
  - by apply iter_blocked.
  - cbn [fst snd]. destruct res as [logs|er].
    + eapply iter_process; [exact Hq|exact Ht|exact Htr|]. apply process_spec.
    + unfold fetch_failed, bind at 1, inc_request. cbn [with_metrics].
      destruct (IsRateLimitOrRangeErr (Some er)) eqn:Ei.
      * unfold bind, modify, gets. cbn. destruct (Z.ltb_spec (BatchSize (w_task w') / 2) 1) as [Hlt|Hge];
          (eapply (iter_rpc_err _ _ _ c r' er (EWrap "batch reduced to 1, still failing: " er) (BatchSize t / 2)); [exact Hq| | |by rewrite Ei|rewrite Ht in *; auto 10]);
          cbn; rewrite ?Ht; done.
      * eapply (iter_rpc_err _ _ _ c r' er _ (BatchSize t)); [exact Hq| | |by rewrite Ei|right; right; done];
          cbn; rewrite ?Ht; [by destruct (w_task w)|done].
Qed.

Lemma iter_gauge latest cs w : sems_ok (w_task w) -> sems_free (w_task w) ->
  rpc_gauge (final (RunOnce_iter ctx pick latest cs w)) = rpc_gauge w.
Proof.
  intros Hok Hfree. unfold RunOnce_iter, bind at 1.
  destruct (fetch_spec latest cs w Hok) as [e n w' Hc Ht Htr Hg|w' Hf Htr|c r' res w' t e Hq Ht Htr Hg];
    [exact Hg|by destruct Hf|]. cbn [fst snd]. rewrite <- Hg. destruct res as [logs|er].
  - apply process_spec.
  - unfold fetch_failed, bind, inc_request, modify, gets. cbn [with_metrics].
    destruct (IsRateLimitOrRangeErr (Some er)); [cbn; case_match|]; cbn; gauge_same.
Qed.
End Spec.
