(* ===== verification/RunOnceTotal.v ===== *)
(** * [RunOnce] returns

    A rule for the loop of [RunOnce], what an iteration leaves untouched, and
    the theorems on termination: with a batch size of at least one and no
    [uint64] overflow the round returns, with both semaphores as they were; with
    a batch size of zero it does not. *)

From stdpp Require Import base gmap list strings.
From Stdlib Require Import ZArith Lia.
From S2P Require Import Prelude GoStd LogTypes Semaphore PendingPool Checkpoint RunOnce Scenario RunOnceSpec.

Local Open Scope Z_scope.

(** The end of a batch when nothing overflows. *)
Lemma batch_end_small latest cs bs :
  0 <= cs <= latest -> 1 <= bs -> latest + bs < two64 ->
  batch_end latest cs bs = Z.min latest (cs + bs - 1) /\ u64_add (batch_end latest cs bs) 1 = batch_end latest cs bs + 1.
Proof.
  intros Hcs Hbs Hov. unfold batch_end.
  rewrite (u64_add_small cs bs), (u64_sub_small (cs + bs) 1) by (unfold two64 in *; lia).
  destruct (Z.ltb_spec latest (cs + bs - 1)); rewrite u64_add_small by (unfold two64 in *; lia); lia.
Qed.

Lemma half_log2 bs : 1 <= bs / 2 -> Z.log2 (bs / 2) + 1 <= Z.log2 bs /\ bs / 2 <= bs.
Proof.
  intros H. assert (2 <= bs) by (pose proof (Z.div_mod bs 2); pose proof (Z.mod_pos_bound bs 2); lia).
  split; [|apply Z.div_le_upper_bound; lia].
  pose proof (Z.log2_double (bs / 2) ltac:(lia)) as Hd. rewrite <- Z.add_1_r in Hd. rewrite <- Hd.
  apply Z.log2_le_mono. pose proof (Z.div_mod bs 2). pose proof (Z.mod_pos_bound bs 2). lia.
Qed.

Section Total.
Context {R S H P : Type}.
Context `{RPCQuerier R, CheckpointStore S, LogBatchHandler H, PendingPool P}.
Variable ctx : nat -> Ctx.
Variable pick : nat -> bool.

Local Abbreviation LogTask := (LogTask R S H P).
Local Abbreviation world := (world R S H P).
Local Abbreviation loop := (RunOnce_loop ctx pick).
Local Abbreviation iter := (RunOnce_iter ctx pick).

(** The head of the chain as the first call of [RunOnce] sees it. *)
Definition head (w : world) : result Z := (rpc_BlockNumber (ctx (w_clock w)) (RPC (w_task w))).2.

(** ** The rule for the loop *)

Lemma loop_wp latest (I : Z -> world -> Prop) E X :
  (forall cs w, cs <= latest -> I cs w -> wp I E X (iter latest cs w)) ->
  (forall cs w, I cs w -> X w) ->
  forall fuel cs w, I cs w ->
  wp (fun _ w' => exists cs', latest < cs' /\ I cs' w') E X (loop fuel latest cs w).
Proof.
  intros Hiter HX fuel. induction fuel as [|fuel IH]; intros cs w HI; cbn [RunOnce_loop];
    destruct (Z.leb_spec cs latest) as [Hle|Hgt]; try (cbn; eauto; fail).
  apply wp_bind. eapply wp_mono; [by apply Hiter| |done|done]. cbn. auto.
Qed.

(** ** What an iteration leaves as it was *)

(** The fields [RunOnce] only reads, the semaphores, and a pool that is there. *)
Definition frame (t t' : LogTask) : Prop :=
  Config t' = Config t /\ RPCSem t' = RPCSem t /\ TaskLocalSem t' = TaskLocalSem t /\
  (is_Some (Pool t) -> is_Some (Pool t')) /\ unhealthyStart t' = unhealthyStart t.

#[export] Instance frame_preorder : PreOrder frame.
Proof.
  split; [done|]. intros t1 t2 t3 (? & ? & ? & ? & ?) (? & ? & ? & ? & ?). repeat split; auto; congruence.
Qed.

Lemma frame_sems t t' : frame t t' -> (sems_ok t -> sems_ok t') /\ (sems_free t -> sems_free t').
Proof. intros (_ & Hr & Hl & _). unfold sems_ok, sems_free. by rewrite Hr, Hl. Qed.

Lemma process_frame latest cs e logs w x :
  process_result latest cs e logs w x -> frame (w_task w) (w_task (final x)).
Proof. 
  assert (Hset : forall t', w_task (final x) = t' -> frame (w_task w) t' -> frame (w_task w) (w_task (final x)))
    by (by intros ? ->).
  destruct 1; (eapply Hset; [eassumption|]); repeat split; eauto.
Qed.

Lemma iter_frame latest cs w : sems_ok (w_task w) -> sems_free (w_task w) ->
  frame (w_task w) (w_task (final (iter latest cs w))).
Proof.
  intros Hok Hfree. destruct (iter_spec ctx pick latest cs w Hok)
    as [e n w' _ Ht _|w' Hf _|c r' er e bs x w' t end_ _ Ht _ _ Hx|c r' logs w1 x t end_ _ Ht _ Hp].
  - cbn. by rewrite Ht.
  - by destruct Hf.
  - assert (w_task (final x) = w_task w') as -> by (destruct Hx as [(_ & _ & ->)|[(_ & _ & _ & ->)|(_ & _ & ->)]]; done).
    rewrite Ht. done.
  - etrans; [|by eapply process_frame]. rewrite Ht. done.
Qed.

(** ** Termination *)

(** A task that can take its semaphores, with a pool, and batches of [1] to [B] blocks. *)
Definition runnable (B : Z) (t : LogTask) : Prop :=
  sems_ok t /\ sems_free t /\ is_Some (Pool t) /\ 1 <= BatchSize t <= B.

(** A failed round: [return false, err]. *)
Definition failed (r : bool * option error) : Prop := r.1 = false /\ r.2 <> None.

(** The blocks still to query, and the times the batch can still be halved. *)
Definition todo (latest cs : Z) (t : LogTask) : Z := latest + 1 - cs + Z.log2 (BatchSize t).

Lemma process_outcome latest cs e logs w x :
  process_result latest cs e logs w x -> is_Some (Pool (w_task w)) ->
  wp (fun n (w' : world) => n = u64_add e 1 /\ BatchSize (w_task w') = BatchSize (w_task w))
     (fun r (w' : world) => failed r /\ BatchSize (w_task w') = BatchSize (w_task w)) (fun _ => False) x.
Proof.
  unfold failed. intros Hp [p Hpool].
  destruct Hp; cbn; try (repeat split; try done; congruence);
    repeat match goal with Hw : w_task ?w' = _ |- context [w_task ?w'] => rewrite Hw end; auto.
Qed.

Lemma iter_outcome B latest cs w :
  runnable B (w_task w) -> 0 <= cs <= latest -> latest + B < two64 ->
  wp (fun n (w' : world) => 0 <= n /\ runnable B (w_task w') /\ todo latest n (w_task w') + 1 <= todo latest cs (w_task w))
     (fun r (w' : world) => failed r) (fun _ => False) (iter latest cs w).
Proof.
  intros (Hok & Hfree & Hpool & HB) Hcs Hov. pose proof (iter_frame latest cs w Hok Hfree) as Hfr.
  pose proof (proj1 (frame_sems _ _ Hfr) Hok) as Hok'. pose proof (proj2 (frame_sems _ _ Hfr) Hfree) as Hfree'.
  destruct Hfr as (_ & _ & _ & Hpool' & _). specialize (Hpool' Hpool).
  destruct (iter_spec ctx pick latest cs w Hok)
    as [e n w' _ Ht _|w' Hf _|c r' er e bs x w' t end_ _ Ht _ Hbs Hx|c r' logs w1 x t end_ _ Ht _ Hp].
  - done.
  - by destruct Hf.
  - destruct Hx as [(Ei & Hge & ->)|[(_ & _ & _ & ->)|(_ & _ & ->)]]; [|done|done].
    rewrite Ei in Hbs. cbn. cbn in *. subst bs. assert (BatchSize (w_task w') = BatchSize t / 2) as Hb by by rewrite Ht.
    pose proof (half_log2 (BatchSize t) Hge). unfold runnable, todo. fold t in HB. rewrite Hb. unfold t in *. split_and!; done || lia.
  - assert (Hw1 : is_Some (Pool (w_task w1)) /\ BatchSize (w_task w1) = BatchSize (w_task w)) by by rewrite Ht.
    destruct Hw1 as [Hp1 Hb1]. pose proof (process_outcome _ _ _ _ _ _ Hp Hp1) as Ho.
    destruct (batch_end_small latest cs (BatchSize t)) as [He Hn]; [lia|unfold t; lia|unfold t; lia|].
    fold end_ in He, Hn. unfold t in *. destruct x as [n w'|r w'|w'|w'|w']; cbn in *; [|tauto..].
    destruct Ho as [-> Hb']. rewrite Hb1 in Hb'. unfold runnable, todo. rewrite Hb', Hn, He. split_and!; done || lia.
Qed.

Lemma loop_returns B latest fuel : forall cs w,
  runnable B (w_task w) -> 0 <= cs -> latest + B < two64 -> todo latest cs (w_task w) <= Z.of_nat fuel ->
  wp (fun _ w' => True) (fun r _ => failed r) (fun _ => False) (loop fuel latest cs w).
Proof.
  induction fuel as [|fuel IH]; intros cs w Hr Hcs Hov Hf; cbn [RunOnce_loop];
    destruct (Z.leb_spec cs latest) as [Hle|Hgt]; try done.
  - unfold todo in Hf. pose proof (Z.log2_nonneg (BatchSize (w_task w))). lia.
  - apply wp_bind. eapply wp_mono; [apply (iter_outcome B); done || lia| |done|done].
    cbn. intros n w' (Hn & Hr' & Ht). apply IH; [done|done|done|lia].
Qed.

(** Whatever the fuel, the loop neither blocks nor panics. *)
Lemma loop_returns_stuck B latest fuel : forall cs w,
  runnable B (w_task w) -> 0 <= cs -> latest + B < two64 ->
  match loop fuel latest cs w with Blocked _ | Panicked _ => False | _ => True end.
Proof.
  induction fuel as [|fuel IH]; intros cs w Hr Hcs Hov; cbn [RunOnce_loop];
    destruct (Z.leb_spec cs latest) as [Hle|Hgt]; try done.
  unfold bind. pose proof (iter_outcome B latest cs w Hr (conj Hcs Hle) Hov) as Ho.
  destruct (iter latest cs w); cbn in *; try done. by apply IH; try apply Ho.
Qed.

Lemma loop_frame B latest fuel : forall cs w, runnable B (w_task w) -> 0 <= cs -> latest + B < two64 ->
  let w' := final (loop fuel latest cs w) in frame (w_task w) (w_task w') /\ rpc_gauge w' = rpc_gauge w.
Proof.
  intros cs w Hr Hcs Hov. cbn zeta.
  pose (I := fun cs (w' : world) => 0 <= cs /\ runnable B (w_task w') /\ frame (w_task w) (w_task w') /\ rpc_gauge w' = rpc_gauge w).
  pose (Q := fun (w' : world) => frame (w_task w) (w_task w') /\ rpc_gauge w' = rpc_gauge w).
  change (Q (final (loop fuel latest cs w))). apply wp_final. eapply wp_mono.
  - apply (loop_wp latest I (fun _ => Q) Q).
    + intros cs0 w0 Hle (Hcs0 & Hr0 & Hf0 & Hg0). pose proof Hr0 as (Hok & Hfree & _).
      pose proof (iter_outcome B latest cs0 w0 Hr0 (conj Hcs0 Hle) Hov) as Ho.
      pose proof (iter_frame latest cs0 w0 Hok Hfree) as Hf. pose proof (iter_gauge ctx pick latest cs0 w0 Hok Hfree) as Hg.
      destruct (iter latest cs0 w0) as [n w'|r w'|w'|w'|w']; cbn in *; [|split; [by etrans|congruence]|done..].
      destruct Ho as (Hn & Hr' & _). split_and!; [done|done|by etrans|congruence].
    + intros cs0 w0 (_ & _ & ? & ?). by split.
    + done.
  - intros _ w' (? & _ & _ & _ & ? & ?). by split.
  - done.
  - done.
Qed.

(** ** [RunOnce] *)

(** What is needed for a round to end: the head leaves room for a batch. *)
Definition room (B : Z) (w : world) : Prop :=
  0 <= Checkpoint (w_task w) /\ match head w with Ok latest => latest + B < two64 | Err _ => True end.

(** Fuel that is enough for a round. *)
Definition enough (w : world) : nat :=
  match head w with
  | Ok latest => Z.to_nat (todo latest (Checkpoint (w_task w)) (w_task w))
  | Err _ => 0
  end.

(** [RunOnce] is its first call, then the loop. *)
Lemma RunOnce_cases fuel w :
  exists w1, w_task w1 = set_RPC (RPC (w_task w1)) (w_task w) /\ rpc_gauge w1 = rpc_gauge w /\
    w_trace w1 = EvBlockNumber (head w) :: w_trace w /\
    RunOnce ctx pick fuel w =
    match head w with
    | Err e => Return (false, Some (EWrap "get latest block: " e)) w1
    | Ok latest =>
        if latest <? Checkpoint (w_task w) then Return (true, None) w1
        else bind (loop fuel latest (Checkpoint (w_task w))) (fun _ => return_ (true, None)) w1
    end.
Proof.
  unfold RunOnce, head. unfold bind at 1, call_BlockNumber. unfold now_ctx.
  destruct (rpc_BlockNumber _ _) as [r' [latest|e]].
  - eexists. split; [|split; [|split; [|cbn [snd]; unfold bind at 1, inc_request, bind at 1, gets]]].
    4:{ cbn [with_metrics log_call tick with_task w_task]. cbn [set_RPC Checkpoint].
        destruct (latest <? Checkpoint (w_task w)); reflexivity. }
    + done.
    + unfold rpc_gauge. cbn. rewrite metric_get_add, decide_False by done. lia.
    + done.
  - eexists. split; [|split; [|split; [|cbn [snd]; unfold bind, inc_request; reflexivity]]].
    + done.
    + unfold rpc_gauge. cbn. rewrite metric_get_add, decide_False by done. lia.
    + done.
Qed.

Lemma RunOnce_frame B fuel w :
  runnable B (w_task w) -> room B w -> frame (w_task w) (w_task (final (RunOnce ctx pick fuel w))).
Proof.
  intros Hr [Hcp Hroom]. destruct (RunOnce_cases fuel w) as (w1 & Ht & _ & _ & ->).
  assert (Hf1 : frame (w_task w) (w_task w1)) by by rewrite Ht.
  destruct (head w) as [latest|e]; [|done]. destruct (latest <? Checkpoint (w_task w)); [done|].
  assert (Hr1 : runnable B (w_task w1)) by (rewrite Ht; exact Hr).
  destruct (loop_frame B latest fuel _ _ Hr1 Hcp Hroom) as [Hf2 _].
  unfold bind, return_. destruct (loop _ _ _ _); cbn in *; by etrans.
Qed.

(** C6: A round ends.  With free semaphores, a pool, a batch size of at least
    one and no [uint64] overflow at the head of the chain, [RunOnce] returns
    within [latest + 1 - Checkpoint + log2 BatchSize] iterations, whatever the
    RPC, the pool, the handler and the store answer and whenever the context
    is cancelled: with [(true, nil)] or with [false] and an error, with both
    semaphores and the in-flight gauge as they were before. *)
Theorem RunOnce_returns B fuel w :
  runnable B (w_task w) -> room B w -> (enough w <= fuel)%nat ->
  exists r w', RunOnce ctx pick fuel w = Return r w' /\ (r = (true, None) \/ failed r) /\
    frame (w_task w) (w_task w') /\ rpc_gauge w' = rpc_gauge w.
Proof.
  intros Hr [Hcp Hroom] Hfuel. destruct (RunOnce_cases fuel w) as (w1 & Ht & Hg & _ & ->).
  assert (Hf1 : frame (w_task w) (w_task w1)) by by rewrite Ht.
  unfold enough in Hfuel. destruct (head w) as [latest|e]; [|eexists _, _; split_and!; [done|by right|done|done]].
  destruct (Z.ltb_spec latest (Checkpoint (w_task w))); [eexists _, _; split_and!; [done|by left|done|done]|].
  assert (Hr1 : runnable B (w_task w1)) by (rewrite Ht; exact Hr).
  assert (Htd : todo latest (Checkpoint (w_task w)) (w_task w1) <= Z.of_nat fuel) by (rewrite Ht; unfold todo in *; cbn; lia).
  pose proof (loop_returns B latest fuel _ _ Hr1 Hcp Hroom Htd) as Ho.
  destruct (loop_frame B latest fuel _ _ Hr1 Hcp Hroom) as [Hf2 Hg2].
  unfold bind, return_. destruct (loop _ _ _ _) as [? w'|r w'|w'|w'|w']; cbn in *; try done;
    eexists _, _; (split_and!; [done|by auto|by etrans|congruence]).
Qed.

(** ** The metrics a round leaves alone *)

(** Those it writes. *)
Definition round_metrics : list string :=
  [metricRPCConcurrent; metricRPCRequestTotal; metricLogsTotal; metricBatchDuration; metricPendingBlockCount].

Section Quiet.
Variable name : string.
Variable labels : list string.
Hypothesis quiet : name ∉ round_metrics.

Definition shown (w : world) : Z := metric_get (w_metrics w) name labels.

Lemma shown_set m v ls (w : world) : m ∈ round_metrics -> shown (with_metrics (metric_set m ls v) w) = shown w.
Proof. intros Hm. unfold shown. cbn. rewrite metric_get_set, decide_False; [done|]. intros [= -> _]. by apply quiet. Qed.
Lemma shown_add m v ls (w : world) : m ∈ round_metrics -> shown (with_metrics (metric_add m ls v) w) = shown w.
Proof. intros Hm. unfold shown. cbn. rewrite metric_get_add, decide_False; [lia|]. intros [= -> _]. by apply quiet. Qed.

Ltac listed := unfold round_metrics; rewrite !elem_of_cons; tauto.

Lemma keeps_sem_acquire get set : keeps shown (sem_acquire ctx pick get set : prog (R:=R) (S:=S) (H:=H) (P:=P) _).
Proof.
  intros w. unfold sem_acquire. destruct (Acquire _ _ _ _) as [[[s m] e]|] eqn:E; [|done].
  apply Acquire_inv in E as [(e' & _ & -> & -> & ->)|(-> & _ & -> & ->)]; [done|].
  apply (shown_add metricRPCConcurrent 1 [] w). listed.
Qed.
Lemma keeps_sem_release get set : keeps shown (sem_release get set : prog (R:=R) (S:=S) (H:=H) (P:=P) _).
Proof.
  intros w. unfold sem_release. destruct (Release _ _) as [[s m]|] eqn:E; [|done].
  apply Release_inv in E as (_ & -> & ->). apply (shown_add metricRPCConcurrent (-1) [] w). listed.
Qed.
Lemma keeps_inc_request status : keeps shown (inc_request status : prog (R:=R) (S:=S) (H:=H) (P:=P) _).
Proof. intros w. apply shown_add. listed. Qed.
Lemma keeps_poll : keeps shown (poll ctx : prog (R:=R) (S:=S) (H:=H) (P:=P) _).
Proof. intros w. unfold poll. by destruct (now_ctx ctx w). Qed.
Lemma keeps_BlockNumber : keeps shown (call_BlockNumber ctx : prog (R:=R) (S:=S) (H:=H) (P:=P) _).
Proof. intros w. unfold call_BlockNumber. by destruct (rpc_BlockNumber _ _). Qed.
Lemma keeps_EthGetLogs a b : keeps shown (call_EthGetLogs ctx a b : prog (R:=R) (S:=S) (H:=H) (P:=P) _).
Proof. intros w. unfold call_EthGetLogs. by destruct (rpc_EthGetLogs _ _ _ _ _ _). Qed.
Lemma keeps_pool {A} (f : P -> P * A) ev : (forall a w, shown (ev a w) = shown w) ->
  keeps shown (call_pool f ev : prog (R:=R) (S:=S) (H:=H) (P:=P) A).
Proof. intros Hev w. unfold call_pool. destruct (Pool _) as [p|]; [|done]. destruct (f p). cbn. by rewrite Hev. Qed.
Lemma keeps_HandleBatch logs : keeps shown (call_HandleBatch ctx logs : prog (R:=R) (S:=S) (H:=H) (P:=P) _).
Proof. intros w. unfold call_HandleBatch. by destruct (HandleBatch _ _ _). Qed.
Lemma keeps_Save b : keeps shown (call_Save ctx b : prog (R:=R) (S:=S) (H:=H) (P:=P) _).
Proof. intros w. unfold call_Save. by destruct (store_Save _ _ _). Qed.

Ltac keep :=
  repeat lazymatch goal with
    | |- forall _, _ => intros ?
    | |- keeps _ (bind _ _) => apply keeps_bind
    | |- keeps _ (sem_acquire _ _ _ _) => apply keeps_sem_acquire
    | |- keeps _ (sem_release _ _) => apply keeps_sem_release
    | |- keeps _ (inc_request _) => apply keeps_inc_request
    | |- keeps _ (poll _) => apply keeps_poll
    | |- keeps _ (call_BlockNumber _) => apply keeps_BlockNumber
    | |- keeps _ (call_EthGetLogs _ _ _) => apply keeps_EthGetLogs
    | |- keeps _ (call_HandleBatch _ _) => apply keeps_HandleBatch
    | |- keeps _ (call_Save _ _) => apply keeps_Save
    | |- keeps _ (call_Add _ _ _) => intros ?; apply keeps_pool; reflexivity
    | |- keeps _ (call_PopConfirmed _ _) => intros ?; apply keeps_pool; reflexivity
    | |- keeps _ (call_Count _) => intros ?; apply keeps_pool; reflexivity
    | |- keeps _ (modify _) => apply keeps_modify; intros ?; first [apply shown_add; listed|apply shown_set; listed|reflexivity]
    | |- keeps _ (match ?x with _ => _ end) => destruct x
    | |- keeps _ (ret _) => intros ?; reflexivity
    | |- keeps _ (return_ _) => intros ?; reflexivity
    | |- keeps _ (gets _) => intros ?; reflexivity
    end.

Lemma keeps_iter latest cs : keeps shown (RunOnce_iter ctx pick latest cs : prog (R:=R) (S:=S) (H:=H) (P:=P) _).
Proof. unfold RunOnce_iter, fetch, fetch_failed, process, emit, check. keep. Qed.

Lemma keeps_loop latest fuel : forall cs, keeps shown (RunOnce_loop ctx pick fuel latest cs : prog (R:=R) (S:=S) (H:=H) (P:=P) _).
Proof.
  induction fuel as [|fuel IH]; intros cs; cbn [RunOnce_loop]; destruct (cs <=? latest); try (by intros w).
  apply keeps_bind; [apply keeps_iter|apply IH].
Qed.

Lemma RunOnce_quiet fuel w : shown (final (RunOnce ctx pick fuel w)) = shown w.
Proof. revert w. change (keeps shown (RunOnce ctx pick fuel : prog (R:=R) (S:=S) (H:=H) (P:=P) _)). unfold RunOnce. keep. apply keeps_loop. Qed.
End Quiet.

(** ** When nothing fails *)

Record healthy : Prop := {
  healthy_ctx n : ctx n = None;
  healthy_head c (r : R) : is_ok (rpc_BlockNumber c r).2 = true;
  healthy_logs c (r : R) a b ad tp : is_ok (rpc_EthGetLogs c r a b ad tp).2 = true;
  healthy_add c (p : P) h logs : (pool_Add c p h logs).2 = None;
  healthy_pop c (p : P) latest n : is_ok (pool_PopConfirmed c p latest n).2 = true;
  healthy_handle c (h : H) logs : (HandleBatch c h logs).2 = None;
  healthy_save c (s : S) b : (store_Save c s b).2 = None }.

Ltac unhealthy :=
  exfalso;
  match goal with
  | Hh : healthy, He : ctx ?n = Some _ |- _ => by rewrite (healthy_ctx Hh) in He
  | Hh : healthy, He : rpc_EthGetLogs ?c ?r ?a ?b ?ad ?tp = (_, Err _) |- _ =>
      pose proof (healthy_logs Hh c r a b ad tp) as HX; by rewrite He in HX
  | Hh : healthy, He : pool_Add ?c ?p ?h ?l = (_, Some _) |- _ =>
      pose proof (healthy_add Hh c p h l) as HX; by rewrite He in HX
  | Hh : healthy, He : pool_PopConfirmed ?c ?p ?l ?n = (_, Err _) |- _ =>
      pose proof (healthy_pop Hh c p l n) as HX; by rewrite He in HX
  | Hh : healthy, He : HandleBatch ?c ?h ?l = (_, Some _) |- _ =>
      pose proof (healthy_handle Hh c h l) as HX; by rewrite He in HX
  | Hh : healthy, He : store_Save ?c ?s ?b = (_, Some _) |- _ =>
      pose proof (healthy_save Hh c s b) as HX; by rewrite He in HX
  end.

(** An iteration goes on, at the block after the end of its batch. *)
Lemma iter_healthy latest cs w :
  healthy -> sems_ok (w_task w) -> sems_free (w_task w) -> is_Some (Pool (w_task w)) ->
  exists w', iter latest cs w = Cont (u64_add (batch_end latest cs (BatchSize (w_task w))) 1) w' /\
    BatchSize (w_task w') = BatchSize (w_task w).
Proof.
  intros Hh Hok Hfree [p Hpool].
  destruct (iter_spec ctx pick latest cs w Hok)
    as [e n w' Hc Ht _|w' Hf _|c r' er e bs x w' t end_ Hq Ht _ Hbs Hx|c r' logs w1 x t end_ Hq Ht _ Hp];
    [unhealthy|by destruct Hf|unhealthy|].
  assert (is_Some (Pool (w_task w1))) as Hp1 by (rewrite Ht; by eexists).
  pose proof (process_outcome _ _ _ _ _ _ Hp Hp1) as Ho.
  destruct Hp; try unhealthy; [by rewrite H4 in Hp1; destruct Hp1| |]; cbn in Ho;
    (eexists; split; [reflexivity|]; destruct Ho as [_ ->]; by rewrite Ht).
Qed.

(** If no call fails and the context stays live, the round reaches the head. *)
Lemma RunOnce_healthy B fuel w :
  healthy -> runnable B (w_task w) -> room B w -> (enough w <= fuel)%nat ->
  exists w', RunOnce ctx pick fuel w = Return (true, None) w'.
Proof.
  intros Hh Hr [Hcp Hroom] Hfuel. destruct (RunOnce_cases fuel w) as (w1 & Ht & _ & _ & ->).
  unfold enough in Hfuel. pose proof (healthy_head Hh (ctx (w_clock w)) (RPC (w_task w))) as Hhd.
  fold (head w) in Hhd. destruct (head w) as [latest|e]; [|done].
  destruct (latest <? Checkpoint (w_task w)); [by eexists|].
  assert (Hr1 : runnable B (w_task w1)) by (rewrite Ht; exact Hr).
  assert (Htd : todo latest (Checkpoint (w_task w)) (w_task w1) <= Z.of_nat fuel) by (rewrite Ht; unfold todo in *; cbn; lia).
  pose proof (loop_returns B latest fuel _ _ Hr1 Hcp Hroom Htd) as Ho.
  pose (I := fun cs (w : world) => 0 <= cs /\ runnable B (w_task w)).
  assert (HI : wp (fun _ _ => True) (fun _ _ => False) (fun _ => True) (loop fuel latest (Checkpoint (w_task w)) w1)).
  { eapply wp_mono; [apply (loop_wp latest I (fun _ _ => False) (fun _ => True))|done|done|done]; [|done|done].
    intros cs w0 Hle [Hcs Hr0]. pose proof (iter_outcome B latest cs w0 Hr0 (conj Hcs Hle) Hroom) as Hio.
    destruct Hr0 as (Hok & Hfree & Hpool & _).
    destruct (iter_healthy latest cs w0 Hh Hok Hfree Hpool) as (w' & Hi & _). rewrite Hi in *. split; apply Hio. }
  unfold bind, return_. destruct (loop _ _ _ _) as [? w'|r w'|w'|w'|w']; cbn in *; try done. by eexists.
Qed.

(** A batch size of zero, which nothing rejects, makes the round spin:
    the batch of block [cs] ends at [cs - 1] and the next one starts at [cs]
    again.  If no call fails and the checkpoint is between 1 and the head,
    [RunOnce] does not return, however long it runs. *)
Theorem RunOnce_zero_batch fuel w latest :
  healthy -> sems_ok (w_task w) -> sems_free (w_task w) -> is_Some (Pool (w_task w)) ->
  BatchSize (w_task w) = 0 -> head w = Ok latest -> 1 <= Checkpoint (w_task w) <= latest -> latest < two64 ->
  exists w', RunOnce ctx pick fuel w = OutOfFuel w'.
Proof.
  intros Hh Hok Hfree Hpool Hb Hhd Hcp Hlt. destruct (RunOnce_cases fuel w) as (w1 & Ht & _ & _ & ->).
  rewrite Hhd. destruct (Z.ltb_spec latest (Checkpoint (w_task w))); [lia|].
  set (cs := Checkpoint (w_task w)) in *.
  assert (Hw1 : sems_ok (w_task w1) /\ sems_free (w_task w1) /\ is_Some (Pool (w_task w1)) /\ BatchSize (w_task w1) = 0)
    by (rewrite Ht; split_and!; done).
  clear Ht. revert w1 Hw1. induction fuel as [|fuel IH]; intros w1 (Hok1 & Hfree1 & Hpool1 & Hb1);
    unfold bind at 1; cbn [RunOnce_loop]; destruct (Z.leb_spec cs latest); try lia; [by eexists|].
  destruct (iter_healthy latest cs w1 Hh Hok1 Hfree1 Hpool1) as (w' & Hi & Hb').
  pose proof (iter_frame latest cs w1 Hok1 Hfree1) as Hf. rewrite Hi in Hf. cbn in Hf.
  destruct (frame_sems _ _ Hf) as [Hs1 Hs2]. destruct Hf as (_ & _ & _ & Hp & _).
  assert (Hnext : u64_add (batch_end latest cs (BatchSize (w_task w1))) 1 = cs).
  { rewrite Hb1. unfold batch_end. rewrite (u64_add_small cs 0), (u64_sub_small (cs + 0) 1) by (unfold two64 in *; lia).
    destruct (Z.ltb_spec latest (cs + 0 - 1)); [lia|]. rewrite u64_add_small; unfold two64 in *; lia. }
  rewrite Hnext in Hi. unfold bind. rewrite Hi. apply (IH w'). split_and!; auto. congruence.
Qed.

(** ** When the node refuses every range *)

(** The node answers every query with an error that asks for a smaller range. *)
Definition refuses : Prop :=
  forall cx (r : R) a b ad tp, exists er, (rpc_EthGetLogs cx r a b ad tp).2 = Err er /\ IsRateLimitOrRangeErr (Some er) = true.

Lemma loop_refused latest fuel : forall w,
  (forall n, ctx n = None) -> refuses ->
  sems_ok (w_task w) -> sems_free (w_task w) -> 1 <= BatchSize (w_task w) ->
  Checkpoint (w_task w) <= latest -> Z.log2 (BatchSize (w_task w)) < Z.of_nat fuel ->
  exists er w', loop fuel latest (Checkpoint (w_task w)) w =
      Return (false, Some (EWrap "batch reduced to 1, still failing: " er)) w' /\
    exists r', w_task w' = set_BatchSize 0 (set_RPC r' (w_task w)).
Proof.
  induction fuel as [|fuel IH]; intros w Hctx Href Hok Hfree Hb Hcp Hf; [pose proof (Z.log2_nonneg (BatchSize (w_task w))); lia|].
  cbn [RunOnce_loop]. destruct (Z.leb_spec (Checkpoint (w_task w)) latest); [|lia]. unfold bind.
  destruct (iter_spec ctx pick latest (Checkpoint (w_task w)) w Hok)
    as [e n w' Hc _ _|w' Hnf _|c r' er e bs x w' t end_ Hq Ht _ Hbs Hx|c r' logs w1 x t end_ Hq _ _ _].
  - by rewrite Hctx in Hc.
  - by destruct Hnf.
  - destruct (Href (ctx c) (RPC t) (Checkpoint (w_task w)) end_ (TaskAddress (Config t)) (TaskTopics (Config t))) as (er' & He & Hrange).
    rewrite Hq in He. injection He as <-. rewrite Hrange in Hbs, Hx.
    destruct Hx as [(_ & Hge & ->)|[(_ & Hlt & -> & ->)|(? & _)]]; [| |done].
    + pose proof (half_log2 (BatchSize t)) as Hh. unfold t in *. rewrite <- Hbs in Hh. specialize (Hh Hge).
      assert (Hcp' : Checkpoint (w_task w') = Checkpoint (w_task w)) by by rewrite Ht.
      destruct (IH w') as (er1 & w1 & Hl & r1 & Ht1); try done; rewrite ?Ht; cbn; try done; try lia.
      exists er1, w1. rewrite Hcp' in Hl. split; [exact Hl|]. exists r1. by rewrite Ht1, Ht.
    + exists er, w'. split; [done|]. exists r'. rewrite Ht. f_equal.
      assert (BatchSize t = 1) as Hone by (unfold t in *; pose proof (Z.div_le_lower_bound (BatchSize (w_task w)) 2 1); lia).
      by rewrite Hbs, Hone.
  - destruct (Href (ctx c) (RPC t) (Checkpoint (w_task w)) end_ (TaskAddress (Config t)) (TaskTopics (Config t))) as (er' & He & _).
    by rewrite Hq in He.
Qed.

(** A node that refuses every range makes the task halve its batch until
    the round fails, and the batch size is then 0, not 1: the error leaves the
    task in the state in which a later round spins (the theorem above).  The
    checkpoint and the pool are as they were. *)
Theorem RunOnce_refused fuel w latest :
  (forall n, ctx n = None) -> refuses ->
  sems_ok (w_task w) -> sems_free (w_task w) -> 1 <= BatchSize (w_task w) ->
  head w = Ok latest -> Checkpoint (w_task w) <= latest -> Z.log2 (BatchSize (w_task w)) < Z.of_nat fuel ->
  exists er w', RunOnce ctx pick fuel w =
      Return (false, Some (EWrap "batch reduced to 1, still failing: " er)) w' /\
    BatchSize (w_task w') = 0 /\ Checkpoint (w_task w') = Checkpoint (w_task w) /\ Pool (w_task w') = Pool (w_task w).
Proof.
  intros Hctx Href Hok Hfree Hb Hhd Hcp Hf. destruct (RunOnce_cases fuel w) as (w1 & Ht & _ & _ & ->).
  rewrite Hhd. destruct (Z.ltb_spec latest (Checkpoint (w_task w))); [lia|].
  assert (exists r, w_task w1 = set_RPC r (w_task w)) as [r Hr] by eauto. clear Ht.
  assert (Hcp1 : Checkpoint (w_task w1) = Checkpoint (w_task w)) by by rewrite Hr.
  destruct (loop_refused latest fuel w1 Hctx Href) as (er & w' & Hl & r' & Ht'); rewrite ?Hr; try done.
  exists er, w'. unfold bind. rewrite Hcp1 in Hl. rewrite Hl. split; [done|]. by rewrite Ht', Hr.
Qed.

(** ** What a round keeps *)

(** A property of worlds that the first call and every iteration keep. *)
Lemma RunOnce_keeps (Q : world -> Prop) fuel w :
  sems_ok (w_task w) -> sems_free (w_task w) ->
  (forall w1, (exists r, w_task w1 = set_RPC r (w_task w)) -> w_trace w1 = EvBlockNumber (head w) :: w_trace w -> Q w1) ->
  (forall latest cs w0, Checkpoint (w_task w) <= latest -> cs <= latest ->
     sems_ok (w_task w0) -> sems_free (w_task w0) -> Q w0 -> Q (final (iter latest cs w0))) ->
  Q (final (RunOnce ctx pick fuel w)).
Proof.
  intros Hok Hfree Hfirst Hiter. destruct (RunOnce_cases fuel w) as (w1 & Ht & _ & Htr & ->).
  assert (exists r, w_task w1 = set_RPC r (w_task w)) as Hr by eauto. pose proof (Hfirst w1 Hr Htr) as HQ1.
  destruct Hr as [r Hr]. destruct (head w) as [latest|e]; [|done].
  destruct (Z.ltb_spec latest (Checkpoint (w_task w))) as [|Hcp]; [done|].
  pose (I := fun (_ : Z) (w' : world) => Q w' /\ sems_ok (w_task w') /\ sems_free (w_task w')).
  assert (Hl : wp (fun _ => Q) (fun _ => Q) Q (loop fuel latest (Checkpoint (w_task w)) w1)).
  { eapply wp_mono; [apply (loop_wp latest I (fun _ => Q) Q)| |done|done]; [|by intros ? ? []| |by intros ? ? (? & _ & ? & _)].
    - intros cs0 w0 Hle (HQ & Hok0 & Hfree0). pose proof (Hiter latest cs0 w0 Hcp Hle Hok0 Hfree0 HQ) as HQ'.
      pose proof (iter_frame latest cs0 w0 Hok0 Hfree0) as Hfr. destruct (frame_sems _ _ Hfr) as [Hs1 Hs2].
      destruct (iter latest cs0 w0); cbn in *; [split; auto|done..].
    - unfold I. by rewrite Hr. }
  unfold bind, return_. destruct (loop _ _ _ _); exact Hl.
Qed.

(** A round that returns keeps the frame, also when a semaphore could be full. *)
Lemma RunOnce_return_frame fuel w r w' :
  sems_ok (w_task w) -> RunOnce ctx pick fuel w = Return r w' -> frame (w_task w) (w_task w').
Proof.
  intros Hok. destruct (RunOnce_cases fuel w) as (w1 & Ht & _ & _ & ->).
  assert (exists r, w_task w1 = set_RPC r (w_task w)) as [r1 Hr] by eauto. clear Ht.
  assert (Hf1 : frame (w_task w) (w_task w1)) by by rewrite Hr.
  destruct (head w) as [latest|e]; [|by intros [= _ <-]]. destruct (latest <? Checkpoint (w_task w)); [by intros [= _ <-]|].
  pose (I := fun (_ : Z) (w' : world) => frame (w_task w) (w_task w')).
  assert (Hl : wp (fun _ => I 0) (fun _ => I 0) (fun _ => True) (loop fuel latest (Checkpoint (w_task w)) w1)).
  { eapply wp_mono; [apply (loop_wp latest I (fun _ => I 0) (fun _ => True))| |done|done]; [|done|done|by intros ? ? (? & _ & ?)].
    intros cs0 w0 _ Hf0. unfold I in *. pose proof (proj1 (frame_sems _ _ Hf0) Hok) as Hok0.
    destruct (iter_spec ctx pick latest cs0 w0 Hok0)
      as [e n w2 _ Ht _|w2 Hf _|c r' er e bs x w2 t end_ _ Ht _ _ Hx|c r' logs w2 x t end_ _ Ht _ Hp]; cbn.
    - by rewrite Ht.
    - done.
    - assert (frame (w_task w) (w_task w2)) by (rewrite Ht; etrans; [exact Hf0|done]).
      destruct Hx as [(_ & _ & ->)|[(_ & _ & _ & ->)|(_ & _ & ->)]]; done.
    - assert (frame (w_task w) (w_task (final x)))
        by (etrans; [exact Hf0|]; etrans; [|by eapply process_frame]; rewrite Ht; done).
      by destruct x. }
  unfold bind, return_. destruct (loop _ _ _ _); try discriminate; intros [= _ <-]; exact Hl.
Qed.

(** ** When the node never asks for a smaller range *)

Definition no_range_errors : Prop :=
  forall n (r r' : R) a b ad tp er, rpc_EthGetLogs (ctx n) r a b ad tp = (r', Err er) -> IsRateLimitOrRangeErr (Some er) = false.

Lemma process_batch latest cs e logs (w : world) x :
  process_result latest cs e logs w x -> BatchSize (w_task (final x)) = BatchSize (w_task w).
Proof.
  assert (Hset : forall t' : LogTask, w_task (final x) = t' -> BatchSize t' = BatchSize (w_task w) ->
    BatchSize (w_task (final x)) = BatchSize (w_task w)) by (by intros ? ->).
  destruct 1; by (eapply Hset; [eassumption|]).
Qed.

Lemma iter_batch latest cs (w : world) :
  no_range_errors -> sems_ok (w_task w) -> sems_free (w_task w) ->
  BatchSize (w_task (final (iter latest cs w))) = BatchSize (w_task w).
Proof.
  intros Hno Hok Hfree. destruct (iter_spec ctx pick latest cs w Hok)
    as [e n w' _ Ht _|w' Hf _|c r' er e bs x w' t end_ Hq Ht _ Hbs Hx|c r' logs w1 x t end_ _ Ht _ Hp].
  - cbn. by rewrite Ht.
  - by destruct Hf.
  - apply Hno in Hq. rewrite Hq in Hx, Hbs. destruct Hx as [(? & _)|[(? & _)|(_ & _ & ->)]]; [done..|].
    cbn. by rewrite Ht.
  - rewrite (process_batch _ _ _ _ _ _ Hp). by rewrite Ht.
Qed.

Lemma RunOnce_batch fuel (w : world) :
  no_range_errors -> sems_ok (w_task w) -> sems_free (w_task w) ->
  BatchSize (w_task (final (RunOnce ctx pick fuel w))) = BatchSize (w_task w).
Proof.
  intros Hno Hok Hfree. apply RunOnce_keeps; [done|done|by intros w1 [r ->] _|].
  intros latest cs w0 _ _ Hok0 Hfree0 <-. by apply iter_batch.
Qed.

Lemma healthy_no_range : healthy -> no_range_errors.
Proof. intros Hh n r r' a b ad tp er Hq. unhealthy. Qed.

(** ** The checkpoint stays a block number *)

Lemma batch_end_nonneg latest cs bs : 0 <= latest -> 0 <= batch_end latest cs bs.
Proof.
  intros Hl. unfold batch_end. pose proof (u64_sub_range (u64_add cs bs) 1) as [? _]. by case_match.
Qed.

Lemma iter_checkpoint latest cs (w : world) :
  sems_ok (w_task w) -> sems_free (w_task w) -> 0 <= latest -> 0 <= Checkpoint (w_task w) ->
  0 <= Checkpoint (w_task (final (iter latest cs w))).
Proof.
  intros Hok Hfree Hl Hcp. destruct (iter_spec ctx pick latest cs w Hok)
    as [e n w' _ Ht _|w' Hf _|c r' er e bs x w' t end_ _ Ht _ _ Hx|c r' logs w1 x t end_ _ Ht _ Hp].
  - cbn. by rewrite Ht.
  - by destruct Hf.
  - assert (w_task (final x) = w_task w') as -> by (destruct Hx as [(_ & _ & ->)|[(_ & _ & _ & ->)|(_ & _ & ->)]]; done).
    by rewrite Ht.
  - assert (Hset : forall t' : LogTask, w_task (final x) = t' -> 0 <= Checkpoint t' -> 0 <= Checkpoint (w_task (final x)))
      by (by intros ? ->).
    pose proof (batch_end_nonneg latest cs (BatchSize t) Hl).
    destruct Hp; (eapply Hset; [eassumption|]); cbn; rewrite ?Ht; done.
Qed.

Lemma RunOnce_checkpoint fuel (w : world) :
  sems_ok (w_task w) -> sems_free (w_task w) -> 0 <= Checkpoint (w_task w) ->
  0 <= Checkpoint (w_task (final (RunOnce ctx pick fuel w))).
Proof.
  intros Hok Hfree Hcp. apply RunOnce_keeps; [done|done|by intros w1 [r ->] _|].
  intros latest cs w0 Hle _ Hok0 Hfree0 Hcp0. apply iter_checkpoint; lia || done.
Qed.
End Total.

(** ** At a concrete task: checkpoint 100, batches of 10, head 125 *)

Lemma demo_runnable cp B c h logs pool : 1 <= B -> runnable B (w_task (demo cp B c h logs pool)).
Proof. intros HB. split_and!; cbn; done || lia || eauto. Defined.

Lemma demo_healthy logs : @healthy (ChainRPC logs) Memory.MemoryCheckpointStore unit BlockPendingPool _ _ _ _ live.
Proof.
  split; try done. intros c p latest n. cbn. unfold PopConfirmed. by destruct (fold_left _ _ _).
Qed.

Lemma RunOnce_returns_witness :
  exists r w', RunOnce (fun n => if Nat.ltb n 12 then None else Some ECanceled) first_case 29
                 (demo 100 10 6 125 [log_at 101; log_at 117] ∅) = Return r w' /\
    rpc_gauge w' = 0 /\ failed r.
Proof.
  destruct (RunOnce_returns (fun n => if Nat.ltb n 12 then None else Some ECanceled) first_case 10 29
    (demo 100 10 6 125 [log_at 101; log_at 117] ∅)) as (r & w' & Hr & Ho & _ & Hg).
  - apply demo_runnable. lia.
  - split; [cbn; lia|]. vm_compute. reflexivity.
  - vm_compute. lia.
  - exists r, w'. split; [exact Hr|]. split; [exact Hg|]. destruct Ho as [->|Hf]; [|exact Hf].
    apply (f_equal (fun x => default true (fst <$> returned x))) in Hr. vm_compute in Hr. discriminate Hr.
Defined.

Lemma RunOnce_zero_batch_witness :
  exists w', RunOnce live first_case 1000 (demo 100 0 6 125 [] ∅) = OutOfFuel w'.
Proof.
  apply (RunOnce_zero_batch live first_case 1000 _ 125); try (cbn; done || lia). apply demo_healthy.
Defined.

(** A node that only answers that the range is too large. *)
Record Refusing := MkRefusing { refusing_head : Z }.

#[export] Instance Refusing_querier : RPCQuerier Refusing := {
  rpc_BlockNumber _ r := (r, Ok (refusing_head r));
  rpc_EthGetLogs _ r _ _ _ _ := (r, Err (ENew "block range too large")) }.

Lemma RunOnce_refused_witness :
  let w : world Refusing Memory.MemoryCheckpointStore unit BlockPendingPool :=
    MkWorld (MkTask (demo_config 6) 100 10 (MkRefusing 125) (Memory.NewMemoryCheckpointStore 100) tt
      (MkSem 10 0) (MkSem 3 0) (Some NewBlockPendingPool) None) 0 ∅ [] in
  exists er w', RunOnce live first_case 4 w =
      Return (false, Some (EWrap "batch reduced to 1, still failing: " er)) w' /\ BatchSize (w_task w') = 0.
Proof.
  intros w. destruct (RunOnce_refused live first_case 4 w 125) as (er & w' & Hr & Hb & _);
    [done| |done|done|cbn; lia|done|cbn; lia|cbn; lia|].
  - intros cx r a b ad tp. exists (ENew "block range too large"). split; [reflexivity|vm_compute; reflexivity].
  - exists er, w'. split; [exact Hr|exact Hb].
Defined.
