(* ===== verification/Sync.v ===== *)
(** * The specification of a sync round

    An abstract machine for [RunOnce]: a checkpoint, a batch size, a map from
    batch starts to the logs that wait for confirmation, the logs handed out and
    the logs given to a handler that failed.  It forgets the RPC, the semaphores,
    the metrics, the context and the implementation of the pool.  Its theorems
    are the promises of the log filter: nothing is lost between the first block
    and the next one to query, everything deep enough is handed out, and nothing
    is handed out much earlier than that.  [RunOnceRefines.v] proves that
    [RunOnce] refines it. *)

From stdpp Require Import base gmap list strings.
From Stdlib Require Import ZArith Lia.
From S2P Require Import Prelude GoStd LogTypes Semaphore PendingPool RunOnce Scenario RunOnceTotal.

Local Open Scope Z_scope.

Record sync := MkSync {
  s_cp : Z;
  s_bs : Z;
  s_pool : PoolMap;
  s_handed : list LogResult;
  s_lost : list LogResult }.

Section Sync.
(** The matching logs of each block of the chain. *)
Variable logs_of : Z -> list LogResult.
(** [ConfirmBlockNum]. *)
Variable c : Z.

(** An answer of the node: the logs of the blocks from [a] to [b], in any order. *)
Definition range_logs (a b : Z) (logs : list LogResult) : Prop :=
  forall l, l ∈ logs <-> exists n, a <= n <= b /\ l ∈ logs_of n.

(** The logs of the confirmed entries, in any order. *)
Definition pops (latest : Z) (m : PoolMap) (out : list LogResult) : Prop :=
  forall l, l ∈ out <-> pool_has (ready latest c m) l.

Definition filled (s : sync) (cs : Z) (logs : list LogResult) : PoolMap := <[cs := dedup logs]> (s_pool s).

(** One iteration from block [cs]: the next block, or [None] when the round fails. *)
Inductive sync_iter (latest cs : Z) (s : sync) : option Z -> sync -> Prop :=
  | sync_stop bs :
      bs <= s_bs s -> sync_iter latest cs s None (MkSync (s_cp s) bs (s_pool s) (s_handed s) (s_lost s))
  | sync_shrink :
      1 <= s_bs s / 2 ->
      sync_iter latest cs s (Some cs) (MkSync (s_cp s) (s_bs s / 2) (s_pool s) (s_handed s) (s_lost s))
  | sync_pop_failed logs :
      range_logs cs (batch_end latest cs (s_bs s)) logs ->
      sync_iter latest cs s None (MkSync (s_cp s) (s_bs s) (filled s cs logs) (s_handed s) (s_lost s))
  | sync_idle logs e :
      e = batch_end latest cs (s_bs s) -> range_logs cs e logs -> pops latest (filled s cs logs) [] ->
      sync_iter latest cs s (Some (u64_add e 1))
        (MkSync (s_cp s) (s_bs s) (unready latest c (filled s cs logs)) (s_handed s) (s_lost s))
  | sync_handler_failed logs out :
      range_logs cs (batch_end latest cs (s_bs s)) logs -> pops latest (filled s cs logs) out -> out <> [] ->
      sync_iter latest cs s None
        (MkSync (s_cp s) (s_bs s) (unready latest c (filled s cs logs)) (s_handed s) (out ++ s_lost s))
  | sync_save_failed logs out :
      range_logs cs (batch_end latest cs (s_bs s)) logs -> pops latest (filled s cs logs) out ->
      sync_iter latest cs s None
        (MkSync (s_cp s) (s_bs s) (unready latest c (filled s cs logs)) (out ++ s_handed s) (s_lost s))
  | sync_emitted logs e out :
      e = batch_end latest cs (s_bs s) -> range_logs cs e logs -> pops latest (filled s cs logs) out ->
      sync_iter latest cs s (Some (u64_add e 1))
        (MkSync e (s_bs s) (unready latest c (filled s cs logs)) (out ++ s_handed s) (s_lost s)).

(** The loop, up to any point: the block it has come to, [None] once it failed. *)
Inductive sync_run (latest : Z) : Z -> sync -> option Z -> sync -> Prop :=
  | run_here cs s : sync_run latest cs s (Some cs) s
  | run_next cs s n s1 r s2 :
      cs <= latest -> sync_iter latest cs s (Some n) s1 -> sync_run latest n s1 r s2 -> sync_run latest cs s r s2
  | run_failed cs s s1 : cs <= latest -> sync_iter latest cs s None s1 -> sync_run latest cs s None s1.

(** ** Invariants *)

(** A log with the key of [l], a log of block [n], was handed out or waits in
    an entry that starts at [n] or before. *)
Definition accounted (s : sync) (n : Z) (l : LogResult) : Prop :=
  exists l', uniqueKey l' = uniqueKey l /\
    (l' ∈ s_handed s \/ exists h logs, h <= n /\ s_pool s !! h = Some logs /\ l' ∈ logs).

(** Every log of the blocks from [c0] to before [cs] is accounted for. *)
Definition covered (c0 cs : Z) (s : sync) : Prop :=
  forall n l, c0 <= n < cs -> l ∈ logs_of n -> accounted s n l.

(** No entry that is confirmed at [latest] is left. *)
Definition drained (latest : Z) (s : sync) : Prop :=
  forall h logs, s_pool s !! h = Some logs -> confirmed latest c h = false.

(** Entries hold logs of at most [B] blocks from their start, up to block [top]. *)
Definition shaped (top B : Z) (m : PoolMap) : Prop :=
  forall h logs l, m !! h = Some logs -> l ∈ logs -> 0 <= h <= top /\ exists n, h <= n < h + B /\ l ∈ logs_of n.

Lemma range_dedup a b logs n l :
  range_logs a b logs -> a <= n <= b -> l ∈ logs_of n -> exists l', uniqueKey l' = uniqueKey l /\ l' ∈ dedup logs.
Proof.
  intros Hr Hn Hl. assert (Hin : l ∈ logs) by (apply Hr; eauto).
  assert (Hk : uniqueKey l ∈ uniqueKey <$> dedup logs) by by apply dedup_keys, list_elem_of_fmap_2.
  apply list_elem_of_fmap in Hk as (l' & Heq & Hl'). eauto.
Qed.

(** Popping hands out what it removes. *)
Lemma pops_accounted latest m out n l' :
  pops latest m out -> (exists h logs, h <= n /\ m !! h = Some logs /\ l' ∈ logs) ->
  l' ∈ out \/ exists h logs, h <= n /\ unready latest c m !! h = Some logs /\ l' ∈ logs.
Proof.
  intros Hp (h & logs & Hh & Hm & Hl). destruct (confirmed latest c h) eqn:E.
  - left. apply Hp. exists h, logs. split; [|done]. unfold ready. by apply map_lookup_filter_Some.
  - right. exists h, logs. split; [done|]. split; [|done]. unfold unready. by apply map_lookup_filter_Some.
Qed.

(** What is accounted for, by the logs handed out and the pool alone. *)
Definition held (handed : list LogResult) (m : PoolMap) (n : Z) (l : LogResult) : Prop :=
  exists l', uniqueKey l' = uniqueKey l /\
    (l' ∈ handed \/ exists h logs, h <= n /\ m !! h = Some logs /\ l' ∈ logs).

Lemma covered_filled c0 cs s e logs n l :
  covered c0 cs s -> range_logs cs e logs -> c0 <= n <= e -> l ∈ logs_of n ->
  held (s_handed s) (filled s cs logs) n l.
Proof.
  intros Hc Hr Hn Hl. destruct (decide (n < cs)) as [Hlt|Hge].
  - destruct (Hc n l ltac:(lia) Hl) as (l' & Hk & [Hh|(h & lg & Hle & Hp & Hin)]); exists l'; [by auto|].
    split; [done|]. right. exists h, lg. unfold filled. rewrite lookup_insert_ne by lia. done.
  - destruct (range_dedup _ _ _ n l Hr ltac:(lia) Hl) as (l' & Hk & Hin). exists l'. split; [done|].
    right. exists cs, (dedup logs). unfold filled. rewrite lookup_insert_eq. split; [lia|done].
Qed.

Lemma held_popped latest handed m out n l :
  pops latest m out -> held handed m n l -> held (out ++ handed) (unready latest c m) n l.
Proof.
  intros Hp (l' & Hk & [Hh|Hh]); exists l'; (split; [done|]); [left; apply elem_of_app; by right|].
  destruct (pops_accounted _ _ _ _ _ Hp Hh) as [Ho|Hu]; [left; apply elem_of_app; by left|by right].
Qed.

Lemma held_mono handed m n l out : held handed m n l -> held (out ++ handed) m n l.
Proof. intros (l' & Hk & [Hh|Hh]); exists l'; rewrite elem_of_app; auto. Qed.

Lemma app_nonempty_neq (out l : list LogResult) : out <> [] -> out ++ l <> l.
Proof. intros Hne Heq. apply (f_equal length) in Heq. rewrite length_app in Heq. destruct out; cbn in *; [done|lia]. Qed.

(** An iteration that gives no logs to a failing handler keeps every log
    accounted for, up to the next block to query. *)
Lemma iter_covered B latest c0 cs s r s' :
  sync_iter latest cs s r s' -> s_lost s' = s_lost s -> covered c0 cs s ->
  0 <= cs <= latest -> 1 <= s_bs s <= B -> latest + B < two64 -> covered c0 (default cs r) s'.
Proof.
  intros Hi Hl Hc Hcs HB Hov.
  destruct (batch_end_small latest cs (s_bs s)) as [He Hn]; [lia..|].
  assert (Hge : cs <= batch_end latest cs (s_bs s)) by lia.
  destruct Hi as [bs _|_|logs Hr|logs e -> Hr Hp|logs out Hr Hp Ho|logs out Hr Hp|logs e out -> Hr Hp];
    cbn [default from_option id s_lost] in *; try exact Hc;
    intros n l Hin Hlog; rewrite ?Hn in Hin.
  - eapply (covered_filled c0 cs s _ logs n l Hc Hr ltac:(lia) Hlog).
  - apply (held_popped latest _ _ [] n l Hp). eapply (covered_filled c0 cs s _ logs n l Hc Hr ltac:(lia) Hlog).
  - by apply app_nonempty_neq in Hl.
  - apply (held_popped latest _ _ out n l Hp). eapply (covered_filled c0 cs s _ logs n l Hc Hr ltac:(lia) Hlog).
  - apply (held_popped latest _ _ out n l Hp). eapply (covered_filled c0 cs s _ logs n l Hc Hr ltac:(lia) Hlog).
Qed.

(** The numbers: the batch size only shrinks, the checkpoint stays behind. *)
Definition sized (B cs : Z) (s : sync) : Prop := 0 <= cs /\ s_cp s <= cs /\ 1 <= s_bs s <= B.

Lemma iter_sized B latest cs s n s' :
  sync_iter latest cs s (Some n) s' -> sized B cs s -> cs <= latest -> latest + B < two64 ->
  sized B n s' /\ cs <= n /\ s_cp s <= s_cp s'.
Proof.
  intros Hi (H0 & Hcp & HB) Hle Hov. destruct (batch_end_small latest cs (s_bs s)) as [He Hn]; [lia..|].
  inversion Hi; subst; unfold sized; cbn; [pose proof (half_log2 _ H1)|..]; try lia.
Qed.

Lemma iter_lost latest cs s r s' : sync_iter latest cs s r s' -> exists out, s_lost s' = out ++ s_lost s.
Proof. destruct 1; cbn; try (by exists []). by exists out. Qed.

Lemma run_lost latest cs s r s' : sync_run latest cs s r s' -> exists out, s_lost s' = out ++ s_lost s.
Proof.
  induction 1 as [|cs s n s1 r s2 _ Hi _ [o2 IH]|cs s s1 _ Hi]; [by exists []| |by eapply iter_lost].
  destruct (iter_lost _ _ _ _ _ Hi) as [o1 Ho]. exists (o2 ++ o1). by rewrite IH, Ho, app_assoc.
Qed.

(** A round that has not failed gave no logs to a failing handler. *)
Lemma run_Some_lost latest cs s cs' s' : sync_run latest cs s (Some cs') s' -> s_lost s' = s_lost s.
Proof.
  remember (Some cs') as r eqn:Er. induction 1 as [|cs s n s1 r s2 _ Hi _ IH|]; [done| |done].
  rewrite IH by done. by inversion Hi.
Qed.

Lemma iter_bs latest cs s r s' : 0 <= s_bs s -> sync_iter latest cs s r s' -> s_bs s' <= s_bs s.
Proof. intros Hb Hi. destruct Hi; cbn; try lia. apply Z.div_le_upper_bound; lia. Qed.

Lemma run_bs B latest cs s r s' :
  sync_run latest cs s r s' -> sized B cs s -> latest + B < two64 -> s_bs s' <= s_bs s.
Proof.
  intros Hr Hz Hov. induction Hr as [|cs s n s1 r s2 Hle Hi _ IH|cs s s1 Hle Hi]; [done| |].
  - destruct (iter_sized B _ _ _ _ _ Hi Hz Hle Hov) as (Hz1 & _). destruct Hz as (_ & _ & Hb).
    assert (s_bs s1 <= s_bs s) by (by eapply iter_bs; [|exact Hi]; lia). specialize (IH Hz1). lia.
  - destruct Hz as (_ & _ & Hb). by eapply iter_bs; [lia|].
Qed.

(** The same for any number of iterations. *)
Lemma run_covered B latest c0 cs s r s' :
  sync_run latest cs s r s' -> s_lost s' = s_lost s -> covered c0 cs s -> sized B cs s -> latest + B < two64 ->
  covered c0 (default (s_cp s') r) s' /\ s_cp s <= s_cp s' /\ s_cp s' <= default (s_cp s') r.
Proof.
  induction 1 as [cs s|cs s n s1 r s2 Hle Hi Hr IH|cs s s1 Hle Hi]; intros Hl Hc Hs Hov.
  - cbn. split; [done|]. destruct Hs as (_ & ? & _). lia.
  - destruct (iter_lost _ _ _ _ _ Hi) as [o1 Ho1]. destruct (run_lost _ _ _ _ _ Hr) as [o2 Ho2].
    assert (Ho : o2 ++ o1 = []).
    { rewrite Ho2, Ho1, app_assoc in Hl. apply (f_equal length) in Hl. rewrite length_app in Hl.
      apply nil_length_inv. lia. }
    apply app_nil in Ho as [-> ->]. destruct (iter_sized B _ _ _ _ _ Hi Hs Hle Hov) as (Hs1 & Hn & Hcp).
    destruct Hs as (H0 & Hcp0 & HB).
    pose proof (iter_covered B _ c0 _ _ _ _ Hi Ho1 Hc (conj H0 Hle) HB Hov) as Hc1.
    destruct (IH Ho2 Hc1 Hs1 Hov) as (? & ? & ?). split; [done|]. lia.
  - destruct Hs as (H0 & Hcp & HB). pose proof (iter_covered B _ c0 _ _ _ _ Hi Hl Hc (conj H0 Hle) HB Hov) as Hc1.
    assert (Hsame : s_cp s1 = s_cp s) by (inversion Hi; done). cbn in *. rewrite Hsame.
    split; [|lia]. intros n l Hin. apply Hc1. lia.
Qed.

(** ** What is left, and what is handed out *)

Lemma unready_drained latest cp bs m handed lost : drained latest (MkSync cp bs (unready latest c m) handed lost).
Proof. intros h logs Hh. cbn in Hh. unfold unready in Hh. by apply map_lookup_filter_Some in Hh as [_ ?]. Qed.

(** A round that got past the head leaves no confirmed entry. *)
Lemma run_drained latest cs s r s' :
  sync_run latest cs s r s' -> cs <= latest \/ drained latest s ->
  match r with Some cs' => cs' <= latest \/ drained latest s' | None => True end.
Proof.
  induction 1 as [cs s|cs s n s1 r s2 Hle Hi Hr IH|cs s s1 Hle Hi]; [done| |done].
  intros _. apply IH. inversion Hi; subst; auto using unready_drained.
Qed.

(** In a round to head [latest]: a log of a block less than [B] blocks above
    the last block that is deep enough. *)
Definition deep (B latest : Z) (l : LogResult) : Prop := exists n, l ∈ logs_of n /\ n + c < latest + B.

Lemma shaped_filled top B s cs e logs :
  shaped top B (s_pool s) -> 0 <= cs <= top -> e < cs + B -> range_logs cs e logs -> shaped top B (filled s cs logs).
Proof.
  intros Hs Hcs He Hr h lg l Hh Hl. unfold filled in Hh. apply lookup_insert_Some in Hh as [[<- <-]|[_ Hh]].
  - split; [done|]. apply dedup_elem, Hr in Hl as (n & Hn & Hl). exists n. split; [lia|done].
  - by eapply Hs.
Qed.

Lemma shaped_unready top B latest m : shaped top B m -> shaped top B (unready latest c m).
Proof. intros Hs h lg l Hh. unfold unready in Hh. apply map_lookup_filter_Some in Hh as [Hh _]. by apply Hs. Qed.

Lemma pops_deep top B latest m out :
  shaped top B m -> 0 <= c -> top + c < two64 -> pops latest m out -> Forall (deep B latest) out.
Proof.
  intros Hs Hc Hov Hp. apply Forall_forall. intros l Hl. apply Hp in Hl as (h & lg & Hh & Hl).
  unfold ready in Hh. apply map_lookup_filter_Some in Hh as [Hh Hconf]. cbn in Hconf.
  destruct (Hs h lg l Hh Hl) as (Hh0 & n & Hn & Hln). exists n. split; [done|].
  unfold confirmed in Hconf. rewrite u64_add_small in Hconf by lia. lia.
Qed.

Record bounds (top B latest : Z) : Prop := {
  bounds_c : 0 <= c;
  bounds_conf : top + c < two64;
  bounds_batch : top + B < two64;
  bounds_head : latest <= top }.

Lemma iter_deep top B latest cs s r s' :
  bounds top B latest -> sync_iter latest cs s r s' -> shaped top B (s_pool s) -> sized B cs s -> cs <= latest ->
  shaped top B (s_pool s') /\
  exists out lout, s_handed s' = out ++ s_handed s /\ s_lost s' = lout ++ s_lost s /\
    Forall (deep B latest) (out ++ lout).
Proof.
  intros [Hc0 Hcf Hov Hh] Hi Hs (H0 & Hcp & HB) Hle.
  assert (Hnil : Forall (deep B latest) []) by constructor.
  destruct (batch_end_small latest cs (s_bs s)) as [He Hn]; [lia..|].
  assert (Hfill : forall logs, range_logs cs (batch_end latest cs (s_bs s)) logs -> shaped top B (filled s cs logs)).
  { intros logs Hr. eapply shaped_filled; [done|lia| |exact Hr]. lia. }
  destruct Hi as [bs _|_|logs Hr|logs e -> Hr Hp|logs out Hr Hp Ho|logs out Hr Hp|logs e out -> Hr Hp]; cbn.
  1, 2: split; [done|exists [], []; done].
  1: split; [by apply Hfill|exists [], []; done].
  all: (split; [by apply shaped_unready, Hfill|]).
  - exists [], []. done.
  - exists [], out. split_and!; [done|done|]. by apply (pops_deep top B latest (filled s cs logs)); auto.
  - exists out, []. rewrite app_nil_r. split_and!; [done|done|]. by apply (pops_deep top B latest (filled s cs logs)); auto.
  - exists out, []. rewrite app_nil_r. split_and!; [done|done|]. by apply (pops_deep top B latest (filled s cs logs)); auto.
Qed.

Lemma run_deep top B latest cs s r s' :
  bounds top B latest -> sync_run latest cs s r s' -> shaped top B (s_pool s) -> sized B cs s ->
  shaped top B (s_pool s') /\
  exists out lout, s_handed s' = out ++ s_handed s /\ s_lost s' = lout ++ s_lost s /\
    Forall (deep B latest) (out ++ lout).
Proof.
  intros Hb. induction 1 as [cs s|cs s n s1 r s2 Hle Hi Hr IH|cs s s1 Hle Hi]; intros Hs Hz.
  - split; [done|]. exists [], []. split_and!; [done|done|constructor].
  - destruct (iter_deep top B _ _ _ _ _ Hb Hi Hs Hz Hle) as (Hs1 & o1 & l1 & Ho1 & Hl1 & Hd1).
    pose proof Hb as [_ _ Hov Hh].
    destruct (iter_sized B _ _ _ _ _ Hi Hz Hle ltac:(lia)) as (Hz1 & _ & _).
    destruct (IH Hs1 Hz1) as (Hs2 & o2 & l2 & Ho2 & Hl2 & Hd2). split; [done|].
    exists (o2 ++ o1), (l2 ++ l1). rewrite Ho2, Hl2, Ho1, Hl1, !app_assoc. split_and!; [done|done|].
    rewrite !Forall_app in *. tauto.
  - by eapply iter_deep.
Qed.

(** ** A round *)

(** How far a round is: cut off, over with success, over with an error. *)
Inductive status := Running | Finished | Failed.

Inductive sync_round (hd : result Z) (s : sync) : status -> sync -> Prop :=
  | round_no_head e : hd = Err e -> sync_round hd s Failed s
  | round_behind latest : hd = Ok latest -> latest < s_cp s -> sync_round hd s Finished s
  | round_finished latest cs' s' :
      hd = Ok latest -> s_cp s <= latest < cs' -> sync_run latest (s_cp s) s (Some cs') s' ->
      sync_round hd s Finished s'
  | round_failed latest s' :
      hd = Ok latest -> s_cp s <= latest -> sync_run latest (s_cp s) s None s' -> sync_round hd s Failed s'
  | round_running latest cs' s' :
      hd = Ok latest -> s_cp s <= latest -> sync_run latest (s_cp s) s (Some cs') s' -> sync_round hd s Running s'.

(** A round moves the checkpoint forward only, and unless the handler failed
    every log up to the checkpoint stays accounted for. *)
Lemma round_covered B c0 hd s st s' :
  sync_round hd s st s' -> s_lost s' = s_lost s -> covered c0 (s_cp s) s -> sized B (s_cp s) s ->
  (forall latest, hd = Ok latest -> latest + B < two64) ->
  covered c0 (s_cp s') s' /\ s_cp s <= s_cp s'.
Proof.
  assert (Hless : forall s' cs, s_cp s' <= cs -> covered c0 cs s' -> covered c0 (s_cp s') s')
    by (intros s2 cs Hle Hc n l Hn; apply Hc; lia).
  intros [e _|latest _ _|latest cs' s1 Hh _ Hr|latest s1 Hh _ Hr|latest cs' s1 Hh _ Hr] Hl Hc Hz Hov; try done;
    destruct (run_covered B _ c0 _ _ _ _ Hr Hl Hc Hz (Hov _ Hh)) as (Hc1 & Hle & Hle'); cbn in Hc1, Hle';
    (split; [by eapply Hless|done]).
Qed.

Lemma round_bs B hd s st s' :
  sync_round hd s st s' -> sized B (s_cp s) s -> (forall latest, hd = Ok latest -> latest + B < two64) ->
  s_bs s' <= s_bs s.
Proof. intros [] Hz Hov; try lia; by eapply run_bs; eauto. Qed.

(** After a finished round to head [latest] every log of a block at least [c]
    below the head was handed out. *)
Lemma round_delivers top B c0 latest s s' n l :
  sync_round (Ok latest) s Finished s' -> s_cp s <= latest ->
  covered c0 (s_cp s) s -> sized B (s_cp s) s -> bounds top B latest -> shaped top B (s_pool s) ->
  c0 <= n -> n + c <= latest -> l ∈ logs_of n -> exists l', uniqueKey l' = uniqueKey l /\ l' ∈ s_handed s'.
Proof.
  intros Hrd Hcp Hc Hz Hb Hs Hn Hdeep Hlog.
  inversion Hrd as [|lt Hh Hlt|lt cs' s1 Hh Hlt Hr| |]; subst; try (injection Hh as <-); [lia|].
  pose proof Hb as [Hc0 Hcf Hov Hhd].
  destruct (run_covered B _ c0 _ _ _ _ Hr (run_Some_lost _ _ _ _ _ Hr) Hc Hz ltac:(lia)) as (Hc1 & _ & _). cbn in Hc1.
  destruct (run_drained _ _ _ _ _ Hr (or_introl Hcp)) as [?|Hd]; [lia|].
  destruct (run_deep top B _ _ _ _ _ Hb Hr Hs Hz) as (Hs' & _).
  destruct (Hc1 n l ltac:(lia) Hlog) as (l' & Hk & [Hin|(h & lg & Hle & Hp & Hin)]); [by exists l'|].
  exfalso. specialize (Hd h lg Hp). destruct (Hs' h lg l' Hp Hin) as ([Hh0 _] & _).
  unfold confirmed in Hd. rewrite u64_add_small in Hd by lia. lia.
Qed.

(** What a round hands out is deep. *)
Lemma round_deep top B hd s st s' :
  sync_round hd s st s' -> (forall latest, hd = Ok latest -> bounds top B latest) ->
  shaped top B (s_pool s) -> sized B (s_cp s) s ->
  shaped top B (s_pool s') /\
  exists out lout, s_handed s' = out ++ s_handed s /\ s_lost s' = lout ++ s_lost s /\
    forall latest, hd = Ok latest -> Forall (deep B latest) (out ++ lout).
Proof.
  intros [e Hh|latest Hh _|latest cs' s1 Hh _ Hr|latest s1 Hh _ Hr|latest cs' s1 Hh _ Hr] Hb Hs Hz.
  1, 2: split; [done|]; exists [], []; split_and!; [done|done|constructor].
  all: destruct (run_deep top B _ _ _ _ _ (Hb _ Hh) Hr Hs Hz) as (Hs' & out & lout & Ho & Hlo & Hd);
    (split; [done|]); exists out, lout; split_and!; [done|done|]; intros lt Hlt; rewrite Hh in Hlt; by injection Hlt as <-.
Qed.
End Sync.
