(* ===== verification/RunOnceRefines.v ===== *)
(** * [RunOnce] refines the specification of a sync round

    A simulation between the worlds of [RunOnce.v] and the abstract machine of
    [Sync.v], for any pending pool that keeps the contract [PendingPoolLaws] and
    any node whose answers agree with one chain; then the promises of [Sync.v] as
    theorems about [RunOnce].  A call on the pool that fails ends the round; where
    it may have changed the pool, the simulation holds up to such a call. *)

From stdpp Require Import base gmap list strings.
From Stdlib Require Import ZArith Lia.
From S2P Require Import Prelude GoStd LogTypes Semaphore PendingPool Checkpoint RunOnce Scenario RunOnceSpec RunOnceTotal Sync.

Local Open Scope Z_scope.
Local Open Scope go_scope.

(** The logs given to the handler, the latest first: with success, and without. *)
Definition handed (tr : list event) : list LogResult :=
  concat (omap (fun e => match e with EvHandle logs None => Some logs | _ => None end) tr).
Definition lost (tr : list event) : list LogResult :=
  concat (omap (fun e => match e with EvHandle logs (Some _) => Some logs | _ => None end) tr).

(** The calls on the pool that failed. *)
Definition pool_failures (tr : list event) : list error :=
  omap (fun e => match e with EvAdd _ _ (Some er) => Some er | EvPop _ _ (Err er) => Some er | _ => None end) tr.

(** The part of the contract that speaks of calls that fail. *)
Definition failures_keep (P : Type) `{PendingPoolLaws P} : Prop :=
  (forall ctx p h logs p' e, pool_wf p -> pool_Add ctx p h logs = (p', Some e) -> pool_wf p' /\ contents p' ≈ contents p) /\
  (forall ctx p latest c p' e, pool_wf p -> pool_PopConfirmed ctx p latest c = (p', Err e) -> pool_wf p' /\ contents p' ≈ contents p).

Lemma spec_failures_keep P `{PendingPoolSpec P} : failures_keep P.
Proof. split; [apply pool_Add_err|apply pool_Pop_err]. Qed.

Section Steps.
Context {R S H P : Type}.
Context `{RPCQuerier R, CheckpointStore S, LogBatchHandler H, PendingPoolLaws P}.
(** Whether calls on the pool that fail may change it. *)
Variable lossy : Prop.
Hypothesis lossy_or : lossy \/ failures_keep P.
Variable ctx : nat -> Ctx.
Variable pick : nat -> bool.
Variable cfg : TaskConfig.
Variable logs_of : Z -> list LogResult.

Local Abbreviation world := (world R S H P).
Local Abbreviation c := (ConfirmBlockNum cfg).

(** The node's head is a [uint64], its answers to the task's query agree with
    one chain, and the pool can store the logs of that chain. *)
Record honest_node : Prop := {
  node_head cx (r r' : R) n : rpc_BlockNumber cx r = (r', Ok n) -> is_u64 n;
  node_logs cx (r r' : R) a b logs :
    rpc_EthGetLogs cx r a b (TaskAddress cfg) (TaskTopics cfg) = (r', Ok logs) -> range_logs logs_of a b logs;
  node_keeps n l : l ∈ logs_of n -> pool_keeps l }.

Lemma range_keeps a b logs : honest_node -> range_logs logs_of a b logs -> Forall pool_keeps (dedup logs).
Proof.
  intros Hhon Hr. apply Forall_forall. intros l Hl%dedup_elem. apply Hr in Hl as (n & _ & Hn). by eapply node_keeps.
Qed.

(** A call failed that may have changed the pool. *)
Definition broke (w : world) : Prop := lossy /\ pool_failures (w_trace w) <> [].

(** The world [w] is in the abstract state [s]. *)
Record sim (w : world) (s : sync) : Prop := {
  sim_cfg : Config (w_task w) = cfg;
  sim_cp : Checkpoint (w_task w) = s_cp s;
  sim_bs : BatchSize (w_task w) = s_bs s;
  sim_pool : exists p, Pool (w_task w) = Some p /\ pool_wf p /\ contents p ≈ s_pool s;
  sim_handed : handed (w_trace w) = s_handed s;
  sim_lost : lost (w_trace w) = s_lost s }.

Lemma add_filled cx p p1 s cs logs :
  pool_wf p -> contents p ≈ s_pool s -> is_u64 cs -> Forall pool_keeps (dedup logs) ->
  pool_Add cx p cs (dedup logs) = (p1, None) -> pool_wf p1 /\ contents p1 ≈ filled s cs logs.
Proof. intros Hwf Heq Hcs Hk Ha. destruct (pool_Add_ok _ _ _ _ _ Hwf Hcs Hk Ha) as [Hwf1 Hc]. split; [done|]. by rewrite Hc, Heq. Qed.

Lemma pop_pops cx p p' m latest out :
  pool_wf p -> contents p ≈ m -> pool_PopConfirmed cx p latest c = (p', Ok out) ->
  pool_wf p' /\ contents p' ≈ unready latest c m /\ pops c latest m out.
Proof.
  intros Hwf Heq Hp. destruct (pool_Pop_ok _ _ _ _ _ _ Hwf Hp) as (Hwf' & Hc & Ho).
  split; [done|]. split; [by rewrite Hc, Heq|]. intros l. by rewrite Ho, Heq.
Qed.

Lemma count_same cx p m : pool_wf p -> contents p ≈ m ->
  pool_wf (pool_Count cx p).1 /\ contents (pool_Count cx p).1 ≈ m.
Proof. intros Hwf Heq. destruct (pool_Count_same cx p Hwf) as [Hw Hc]. split; [done|]. by rewrite Hc. Qed.

(** A world with a pool that is in step, from its task and trace. *)
Lemma sim_intro w' (t : LogTask R S H P) tr p s' :
  w_task w' = t -> w_trace w' = tr -> Config t = cfg -> Checkpoint t = s_cp s' -> BatchSize t = s_bs s' ->
  Pool t = Some p -> pool_wf p /\ contents p ≈ s_pool s' -> handed tr = s_handed s' -> lost tr = s_lost s' -> sim w' s'.
Proof. intros Ht Htr ? ? ? ? [? ?] ? ?. split; rewrite ?Ht, ?Htr; eauto. Qed.

Ltac in_step p' :=
  eapply (sim_intro _ _ _ p'); [eassumption|eassumption|try done|try done|try done|try done|try by split|try done|try done].

(** The rest of the body, after a successful query. *)
Lemma process_refines latest cs e logs w s x :
  honest_node -> process_result latest cs e logs w x -> sim w s -> is_u64 cs -> e = batch_end latest cs (s_bs s) ->
  range_logs logs_of cs e logs ->
  wp (fun n w' => exists s', sync_iter logs_of c latest cs s (Some n) s' /\ sim w' s')
     (fun r w' => failed r /\ (broke w' \/ exists s', sync_iter logs_of c latest cs s None s' /\ sim w' s'))
     (fun _ => False) x.
Proof.
  intros Hhon Hp [Hcfg Hcp Hbs (p0 & Hpool & Hwf & Heq) Hh Hl] Hcs He Hr.
  pose proof (range_keeps _ _ _ Hhon Hr) as Hk.
  destruct Hp as [w' Hn|p c1 p1 er w' Hp Ha Ht Htr|p c1 p1 c2 p2 er w' Hp Ha cn Ho Ht Htr
    |p c1 p1 c2 p2 c3 w' Hp Ha cn Ho Ht Htr|p c1 p1 c2 p2 rdy c3 h' er w' Hp Ha cn Ho Hne Hhd Ht Htr
    |p c1 p1 c2 p2 rdy c3 h' c4 s' er w' Hp Ha cn Ho Hne Hhd Hsv Ht Htr
    |p c1 p1 c2 p2 rdy c3 h' c4 s' c5 w' Hp Ha cn Ho Hne Hhd Hsv Ht Htr];
    [congruence|..]; rewrite Hpool in Hp; injection Hp as <-; cbn [wp]; subst e.
  1: { split; [done|]. destruct lossy_or as [Hlossy|[Hadd _]]; [left; unfold broke; by rewrite Htr|right].
       destruct (Hadd _ _ _ _ _ _ Hwf Ha) as [Hwf1 Hc1]. eexists. split; [apply (sync_stop _ _ _ _ _ (s_bs s)); lia|]. in_step p1.
       split; [done|]. by rewrite Hc1. }
  all: destruct (add_filled _ _ _ _ _ _ Hwf Heq Hcs Hk Ha) as [Hwf1 Hc1].
  1: { split; [done|]. destruct lossy_or as [Hlossy|[_ Hpop]]; [left; unfold broke; by rewrite Htr|right].
       destruct (Hpop _ _ _ _ _ _ Hwf1 Ho) as [Hwf2 Hc2]. eexists. split; [by eapply sync_pop_failed|]. in_step p2.
       split; [done|]. cbn. by rewrite Hc2. }
  all: unfold cn in Ho; rewrite Hcfg in Ho; destruct (pop_pops _ _ _ _ _ _ Hwf1 Hc1 Ho) as (Hwf2 & Hc2 & Hps).
  - destruct (count_same c3 p2 _ Hwf2 Hc2) as [Hwf3 Hc3].
    eexists. split; [by eapply sync_idle|]. in_step (pool_Count c3 p2).1.
  - split; [done|]. right. eexists. split; [by eapply sync_handler_failed|]. in_step p2. cbn. by rewrite <- Hl.
  - split; [done|]. right. eexists. split; [by eapply sync_save_failed|]. in_step p2. cbn. by rewrite <- Hh.
  - destruct (count_same c5 p2 _ Hwf2 Hc2) as [Hwf3 Hc3].
    eexists. split; [by eapply sync_emitted|]. in_step (pool_Count c5 p2).1. cbn. by rewrite <- Hh.
Qed.

(** What the loop needs of a world besides being in step. *)
Definition ready_world (B : Z) (w : world) (s : sync) : Prop := runnable B (w_task w) /\ sim w s.

Lemma iter_refines B latest cs w s :
  honest_node -> ready_world B w s -> 0 <= cs <= latest -> is_u64 latest ->
  wp (fun n w' => exists s', sync_iter logs_of c latest cs s (Some n) s' /\ sim w' s')
     (fun r w' => failed r /\ (broke w' \/ exists s', sync_iter logs_of c latest cs s None s' /\ sim w' s'))
     (fun _ => False) (RunOnce_iter ctx pick latest cs w).
Proof.
  intros Hhon [(Hok & Hfree & _ & HB) Hsim] Hcs Hlt. pose proof Hsim as [Hcfg Hcp Hbs Hpool Hh Hl].
  destruct (iter_spec ctx pick latest cs w Hok)
    as [e n w' _ Ht Htr|w' Hf _|c1 r' er e bs x w' t end_ _ Ht Htr Hb Hx|c1 r' logs w1 x t end_ Hq Ht Htr Hp].
  - split; [done|]. right. exists s. split; [|split; rewrite ?Ht, ?Htr; done].
    destruct s as [cp bs m hd ls]. apply (sync_stop _ _ _ _ (MkSync cp bs m hd ls) bs). cbn. lia.
  - by destruct Hf.
  - assert (Hs' : sim w' (MkSync (s_cp s) bs (s_pool s) (s_handed s) (s_lost s)))
      by (split; rewrite ?Ht, ?Htr; done).
    assert (Hle : bs <= s_bs s).
    { rewrite <- Hbs. destruct (IsRateLimitOrRangeErr (Some er)); rewrite Hb; [|done].
      apply Z.div_le_upper_bound; unfold t; lia. }
    destruct Hx as [(Ei & Hge & ->)|[(_ & _ & _ & ->)|(_ & _ & ->)]];
      [|split; [done|]; right; eexists; split; [by apply sync_stop|done]..].
    rewrite Ei in Hb. eexists. split; [|exact Hs']. subst bs. unfold t in *. rewrite Hbs in *. by apply sync_shrink.
  - apply (process_refines latest cs end_ logs w1); [exact Hhon|exact Hp| | | |].
    + split; rewrite ?Ht, ?Htr; done.
    + unfold is_u64 in *. lia.
    + unfold end_, t. by rewrite Hbs.
    + unfold t in Hq. rewrite Hcfg in Hq. by eapply node_logs.
Qed.

(** The simulation diagram of the loop: wherever it is stopped, the world it is
    in is one the abstract round can be in. *)
Lemma loop_refines B latest fuel : forall cs w s,
  honest_node -> ready_world B w s -> 0 <= cs -> is_u64 latest -> latest + B < two64 ->
  wp (fun _ w' => exists cs' s', latest < cs' /\ sync_run logs_of c latest cs s (Some cs') s' /\ sim w' s')
     (fun r w' => failed r /\ (broke w' \/ exists s', sync_run logs_of c latest cs s None s' /\ sim w' s'))
     (fun w' => exists cs' s', sync_run logs_of c latest cs s (Some cs') s' /\ sim w' s')
     (RunOnce_loop ctx pick fuel latest cs w).
Proof.
  induction fuel as [|fuel IH]; intros cs w s Hhon Hw Hcs Hlt Hov; cbn [RunOnce_loop];
    destruct (Z.leb_spec cs latest) as [Hle|Hgt];
    try (exists cs, s; split_and!; [done|constructor|apply Hw]).
  - exists cs, s. split; [constructor|apply Hw].
  - apply wp_bind. pose proof Hw as [Hr Hsim].
    pose proof (iter_refines B latest cs w s Hhon Hw (conj Hcs Hle) Hlt) as Hi.
    pose proof (iter_outcome ctx pick B latest cs w Hr (conj Hcs Hle) Hov) as Ho.
    destruct (RunOnce_iter ctx pick latest cs w) as [n w'|r w'|w'|w'|w']; cbn in *; try done.
    + destruct Hi as (s1 & Hi & Hs1). destruct Ho as (Hn & Hr' & _).
      eapply wp_mono; [by apply (IH n w' s1)|..]; cbn.
      * intros _ w2 (cs' & s' & Hgt & Hrun & Hs'). exists cs', s'. split_and!; [done|by eapply run_next|done].
      * intros r w2 (Hf & [Hbr|(s' & Hrun & Hs')]); (split; [done|]); [by left|right].
        exists s'. split; [by eapply run_next|done].
      * intros w2 (cs' & s' & Hrun & Hs'). exists cs', s'. split; [by eapply run_next|done].
    + destruct Hi as (Hf & [Hbr|(s' & Hi & Hs')]); (split; [done|]); [by left|right].
      exists s'. split; [by eapply run_failed|done].
Qed.

(** The first call leaves the abstract state alone. *)
Lemma sim_first (w w1 : world) s :
  w_task w1 = set_RPC (RPC (w_task w1)) (w_task w) -> w_trace w1 = EvBlockNumber (head ctx w) :: w_trace w ->
  sim w s -> sim w1 s.
Proof. intros Ht Htr [Hcfg Hcp Hbs Hpool Hh Hl].
  assert (exists r, w_task w1 = set_RPC r (w_task w)) as [r Hr] by eauto. clear Ht.
  split; rewrite ?Hr, ?Htr; done. Qed.

Lemma head_u64 (w : world) latest : honest_node -> head ctx w = Ok latest -> is_u64 latest.
Proof.
  intros Hhon Hhd. unfold head in Hhd. destruct (rpc_BlockNumber _ _) as [r' r] eqn:E. cbn in Hhd. subst r.
  by eapply node_head.
Qed.

(** ** Rounds *)

Definition status_of (r : bool * option error) : status := if r.1 then Finished else Failed.

(** Every execution of [RunOnce], also one cut off at the top of the loop, is
    a round of the abstract machine. *)
Lemma RunOnce_round B fuel w s :
  honest_node -> ready_world B w s -> room ctx B w ->
  match RunOnce ctx pick fuel w with
  | Return r w' =>
      (broke w' /\ failed r) \/
      exists s', sim w' s' /\ sync_round logs_of c (head ctx w) s (status_of r) s' /\ (r = (true, None) \/ failed r)
  | OutOfFuel w' => exists s', sim w' s' /\ sync_round logs_of c (head ctx w) s Running s'
  | _ => False
  end.
Proof.
  intros Hhon [Hr Hsim] [Hcp Hroom]. destruct (RunOnce_cases ctx pick fuel w) as (w1 & Ht & _ & Htr & ->).
  pose proof (sim_first w w1 s Ht Htr Hsim) as Hs1.
  destruct (head ctx w) as [latest|e] eqn:Hhd.
  2:{ right. exists s. split_and!; [done|by econstructor|by right]. }
  destruct (Z.ltb_spec latest (Checkpoint (w_task w))) as [Hlt|Hge].
  { right. exists s. split_and!; [done| |by left]. eapply round_behind; [done|]. by rewrite <- (sim_cp _ _ Hsim). }
  assert (Hr1 : runnable B (w_task w1)) by (rewrite Ht; exact Hr).
  pose proof (loop_refines B latest fuel (Checkpoint (w_task w)) w1 s Hhon (conj Hr1 Hs1) Hcp
    (head_u64 w latest Hhon Hhd) Hroom) as Hl.
  pose proof (loop_returns_stuck ctx pick B latest fuel _ _ Hr1 Hcp Hroom) as Hst.
  rewrite (sim_cp _ _ Hsim) in *. unfold bind, return_.
  destruct (RunOnce_loop _ _ _ _ _) as [? w'|r w'|w'|w'|w']; cbn in Hl, Hst; try done.
  - destruct Hl as (cs' & s' & Hlt & Hrun & Hs'). right. exists s'. split_and!; [done| |by left].
    by eapply round_finished.
  - destruct Hl as (Hf & [Hbr|(s' & Hrun & Hs')]); [by left|right]. exists s'. split_and!; [done| |by right].
    unfold status_of. rewrite (proj1 Hf). by eapply round_failed.
  - destruct Hl as (cs' & s' & Hrun & Hs'). exists s'. split; [done|]. by eapply round_running.
Qed.

(** The state between rounds: block [c0] is where the task started. *)
Definition engine_inv (top B c0 : Z) (w : world) : Prop :=
  sems_ok (w_task w) /\ sems_free (w_task w) /\ BatchSize (w_task w) <= B /\ 0 <= Checkpoint (w_task w) /\
  exists s, sim w s /\ covered logs_of c0 (s_cp s) s /\ shaped logs_of top B (s_pool s).

Lemma bounds_room top B (w : world) :
  0 <= Checkpoint (w_task w) -> (forall latest, head ctx w = Ok latest -> bounds c top B latest) -> room ctx B w.
Proof.
  intros Hcp Hb. split; [done|]. destruct (head ctx w) as [latest|]; [|done].
  destruct (Hb latest eq_refl) as [_ _ ? ?]. lia.
Qed.

Lemma sim_sized B (w : world) s :
  sim w s -> 0 <= Checkpoint (w_task w) -> 1 <= BatchSize (w_task w) <= B -> sized B (s_cp s) s.
Proof. intros [_ Hcp Hbs _ _ _] Hge HB. unfold sized. lia. Qed.

(** Where a round ends, from where it started. *)
Lemma RunOnce_final top B fuel (w : world) s :
  honest_node -> runnable B (w_task w) -> 0 <= Checkpoint (w_task w) ->
  (forall latest, head ctx w = Ok latest -> bounds c top B latest) -> sim w s ->
  broke (final (RunOnce ctx pick fuel w)) \/
  exists st s', sim (final (RunOnce ctx pick fuel w)) s' /\ sync_round logs_of c (head ctx w) s st s'.
Proof.
  intros Hhon Hr Hcp Hb Hsim.
  pose proof (RunOnce_round B fuel w s Hhon (conj Hr Hsim) (bounds_room top B w Hcp Hb)) as Hrd.
  destruct (RunOnce ctx pick fuel w) as [?|r w'|w'|w'|w']; try done; cbn [final].
  - destruct Hrd as [[? _]|(s' & ? & ? & _)]; [by left|eauto].
  - destruct Hrd as (s' & ? & ?). eauto.
Qed.

(** A round can start from a state between rounds. *)
Lemma engine_start top B c0 w :
  engine_inv top B c0 w -> 1 <= BatchSize (w_task w) ->
  runnable B (w_task w) /\ 0 <= Checkpoint (w_task w) /\
  exists s, sim w s /\ sized B (s_cp s) s /\ covered logs_of c0 (s_cp s) s /\ shaped logs_of top B (s_pool s).
Proof.
  intros (Hok & Hfree & HB & Hcp & s & Hsim & Hcov & Hsh) Hone.
  split; [|split; [done|exists s; split_and!; auto; by apply (sim_sized B w)]].
  split_and!; try done. destruct (sim_pool _ _ Hsim) as (p & -> & _). by eexists.
Qed.

(** What a round keeps, unless it broke the pool. *)
Lemma round_inv top B c0 fuel w :
  honest_node -> engine_inv top B c0 w -> 1 <= BatchSize (w_task w) ->
  (forall latest, head ctx w = Ok latest -> bounds c top B latest) ->
  lost (w_trace (final (RunOnce ctx pick fuel w))) = lost (w_trace w) ->
  broke (final (RunOnce ctx pick fuel w)) \/
  engine_inv top B c0 (final (RunOnce ctx pick fuel w)) /\
  Checkpoint (w_task w) <= Checkpoint (w_task (final (RunOnce ctx pick fuel w))).
Proof.
  intros Hhon Hinv Hone Hb Hl. pose proof Hinv as (Hok & Hfree & HB & _).
  destruct (engine_start _ _ _ _ Hinv Hone) as (Hr & Hcp & s & Hsim & Hz & Hcov & Hsh).
  pose proof (RunOnce_frame ctx pick B fuel w Hr (bounds_room top B w Hcp Hb)) as Hf.
  destruct (frame_sems _ _ Hf) as [Hf1 Hf2].
  destruct (RunOnce_final top B fuel w s Hhon Hr Hcp Hb Hsim) as [Hbr|(st & s' & Hs' & Hrd)]; [by left|right].
  revert Hl Hs' Hf1 Hf2. generalize (final (RunOnce ctx pick fuel w)) as w'. intros w' Hl Hs' Hf1 Hf2.
  rewrite (sim_lost _ _ Hs'), (sim_lost _ _ Hsim) in Hl.
  assert (Hov : forall latest, head ctx w = Ok latest -> latest + B < two64)
    by (intros lt Hlt; destruct (Hb lt Hlt); lia).
  destruct (round_covered logs_of c B c0 _ _ _ _ Hrd Hl Hcov Hz Hov) as [Hcov' Hle].
  destruct (round_deep logs_of c top B _ _ _ _ Hrd Hb Hsh Hz) as (Hsh' & _).
  pose proof (round_bs logs_of c B _ _ _ _ Hrd Hz Hov) as Hbs.
  pose proof Hs' as [_ Hcp' Hbs' _ _ _]. pose proof Hsim as [_ Hcp0 Hbs0 _ _ _].
  split; [|lia]. split_and!; [auto|auto|lia|lia|]. by exists s'.
Qed.

End Steps.

Section Refines.
Context {R S H P : Type}.
Context `{RPCQuerier R, CheckpointStore S, LogBatchHandler H, PendingPoolSpec P}.
Variable ctx : nat -> Ctx.
Variable pick : nat -> bool.
Variable cfg : TaskConfig.
Variable logs_of : Z -> list LogResult.

Local Abbreviation world := (world R S H P).
Local Abbreviation c := (ConfirmBlockNum cfg).
Local Abbreviation honest_node := (honest_node (R:=R) (P:=P) cfg logs_of).
Local Abbreviation engine_inv := (engine_inv cfg logs_of).

Lemma unbroken (w : world) : ~ broke False w.
Proof. by intros [? _]. Qed.

Lemma round_keeps_inv top B c0 fuel w :
  honest_node -> engine_inv top B c0 w -> 1 <= BatchSize (w_task w) ->
  (forall latest, head ctx w = Ok latest -> bounds c top B latest) ->
  lost (w_trace (final (RunOnce ctx pick fuel w))) = lost (w_trace w) ->
  engine_inv top B c0 (final (RunOnce ctx pick fuel w)) /\
  Checkpoint (w_task w) <= Checkpoint (w_task (final (RunOnce ctx pick fuel w))).
Proof.
  intros Hhon Hinv Hone Hb Hl.
  destruct (round_inv False (or_intror (spec_failures_keep P)) ctx pick cfg logs_of top B c0 fuel w Hhon Hinv Hone Hb Hl)
    as [Hbr|Hk]; [by apply unbroken in Hbr|exact Hk].
Qed.

Lemma round_hands_out top B c0 fuel w w' latest n l :
  honest_node -> engine_inv top B c0 w -> 1 <= BatchSize (w_task w) ->
  head ctx w = Ok latest -> Checkpoint (w_task w) <= latest -> bounds c top B latest ->
  RunOnce ctx pick fuel w = Return (true, None) w' ->
  c0 <= n -> n + c <= latest -> l ∈ logs_of n ->
  exists l', uniqueKey l' = uniqueKey l /\ l' ∈ handed (w_trace w').
Proof.
  intros Hhon Hinv Hone Hhd Hle Hb Hret Hn Hdeep Hlog.
  destruct (engine_start _ _ _ _ _ _ Hinv Hone) as (Hr & Hcp & s & Hsim & Hz & Hcov & Hsh).
  assert (Hb' : forall lt, head ctx w = Ok lt -> bounds c top B lt) by (intros lt; rewrite Hhd; by intros [= <-]).
  pose proof (RunOnce_round False (or_intror (spec_failures_keep P)) ctx pick cfg logs_of B fuel w s Hhon (conj Hr Hsim)
    (bounds_room ctx cfg top B w Hcp Hb')) as Hrd.
  rewrite Hret, Hhd in Hrd. destruct Hrd as [[Hbr _]|(s' & Hs' & Hrd & _)]; [by apply unbroken in Hbr|].
  rewrite (sim_handed _ _ _ Hs').
  eapply (round_delivers logs_of c top B c0 latest s s' n l); eauto.
  by rewrite <- (sim_cp _ _ _ Hsim).
Qed.

(** C3: The invariant of the log filter.  A round that is not given a failing
    handler, wherever it stops, keeps every log of the blocks from [c0] up to
    the checkpoint accounted for: one with its key was handed out or waits in
    the pool under a block that is not above it.  The checkpoint never moves
    back, and no pool entry holds logs of more than [B] blocks. *)
Theorem RunOnce_invariant top B c0 fuel w :
  honest_node -> engine_inv top B c0 w -> 1 <= BatchSize (w_task w) ->
  (forall latest, head ctx w = Ok latest -> bounds c top B latest) ->
  lost (w_trace (final (RunOnce ctx pick fuel w))) = lost (w_trace w) ->
  engine_inv top B c0 (final (RunOnce ctx pick fuel w)) /\
  Checkpoint (w_task w) <= Checkpoint (w_task (final (RunOnce ctx pick fuel w))).
Proof. exact (round_keeps_inv top B c0 fuel w). Qed.

(** C1: Everything that is deep enough is handed out: when [RunOnce] returns
    [(true, nil)] at head [latest], then for every log of a block from [c0] to
    [latest - ConfirmBlockNum] the handler has accepted a log with its key. *)
Theorem RunOnce_delivers top B c0 fuel w w' latest n l :
  honest_node -> engine_inv top B c0 w -> 1 <= BatchSize (w_task w) ->
  head ctx w = Ok latest -> Checkpoint (w_task w) <= latest -> bounds c top B latest ->
  RunOnce ctx pick fuel w = Return (true, None) w' ->
  c0 <= n -> n + c <= latest -> l ∈ logs_of n ->
  exists l', uniqueKey l' = uniqueKey l /\ l' ∈ handed (w_trace w').
Proof. exact (round_hands_out top B c0 fuel w w' latest n l). Qed.

(** C5: How early a log can be handed out: all that a round to head [latest]
    gives the handler are logs of the chain, of blocks less than
    [latest + B - ConfirmBlockNum], with [B] the largest batch size; for [B = 1]
    these are the blocks [ConfirmBlockNum] deep.  It holds for what a failing
    handler got too. *)
Theorem RunOnce_depth top B c0 fuel w latest :
  honest_node -> engine_inv top B c0 w -> 1 <= BatchSize (w_task w) ->
  head ctx w = Ok latest -> bounds c top B latest ->
  let w' := final (RunOnce ctx pick fuel w) in
  exists out lout, handed (w_trace w') = out ++ handed (w_trace w) /\ lost (w_trace w') = lout ++ lost (w_trace w) /\
    forall l, l ∈ out ++ lout -> exists n, l ∈ logs_of n /\ n + c < latest + B.
Proof.
  intros Hhon Hinv Hone Hhd Hb. cbn zeta.
  destruct (engine_start _ _ _ _ _ _ Hinv Hone) as (Hr & Hcp & s & Hsim & Hz & Hcov & Hsh).
  assert (Hb' : forall lt, head ctx w = Ok lt -> bounds c top B lt) by (intros lt; rewrite Hhd; by intros [= <-]).
  destruct (RunOnce_final False (or_intror (spec_failures_keep P)) ctx pick cfg logs_of top B fuel w s Hhon Hr Hcp Hb' Hsim)
    as [Hbr|(st & s' & Hs' & Hrd)]; [by apply unbroken in Hbr|].
  destruct (round_deep logs_of c top B _ _ _ _ Hrd Hb' Hsh Hz) as (_ & out & lout & Ho & Hlo & Hd).
  exists out, lout. rewrite (sim_handed _ _ _ Hs'), (sim_lost _ _ _ Hs'), (sim_handed _ _ _ Hsim), (sim_lost _ _ _ Hsim).
  split_and!; [done|done|]. intros l Hl. specialize (Hd latest Hhd). rewrite Forall_forall in Hd. by apply Hd.
Qed.
End Refines.

(** ** At a concrete task: a chain with logs in the blocks 103, 109, 112 and 121 *)

Definition demo_chain : list LogResult := [log_at 103; log_at 109; log_at 112; log_at 121].

Lemma chain_honest {P} `{PendingPoolLaws P} c chain : Forall pool_keeps chain ->
  @honest_node (ChainRPC chain) P _ _ _ (demo_config c) (chain_logs_of chain).
Proof.
  intros Hk. split.
  - intros cx r r' n [= _ <-]. apply u64_range.
  - intros cx r r' a b logs [= _ <-] l. rewrite list_elem_of_In, filter_In. unfold chain_logs_of.
    setoid_rewrite list_elem_of_In. setoid_rewrite filter_In. split.
    + intros [Hl Hb]. exists (BlockNumUint l). split; [lia|]. split; [done|lia].
    + intros (n & Hn & Hl & Hb). split; [done|lia].
  - intros n l Hl. rewrite Forall_forall in Hk. apply Hk. unfold chain_logs_of in Hl.
    apply list_elem_of_In, filter_In in Hl as [Hl _]. by apply list_elem_of_In.
Qed.

Lemma demo_honest c chain :
  @honest_node (ChainRPC chain) BlockPendingPool _ _ _ (demo_config c) (chain_logs_of chain).
Proof. apply chain_honest. by apply Forall_forall. Qed.

Lemma demo_engine_inv cp B c head chain : 1 <= B -> 0 <= cp ->
  engine_inv (demo_config c) (chain_logs_of chain) 1000 B cp (demo cp B c head chain ∅).
Proof.
  intros HB Hcp. split_and!; [by split|by split|done|done|]. exists (MkSync cp B ∅ [] []). split_and!.
  - split; try done. exists NewBlockPendingPool. done.
  - intros n l Hn. cbn in Hn. lia.
  - intros h logs l Hh. cbn in Hh. by apply lookup_empty_Some in Hh.
Qed.

Lemma demo_bounds c head : 0 <= c <= 1000 -> 0 <= head <= 1000 ->
  forall latest, @RunOnceTotal.head (ChainRPC demo_chain) Memory.MemoryCheckpointStore unit BlockPendingPool _ live
    (demo 100 10 c head demo_chain ∅) = Ok latest -> latest = head /\ bounds c 1000 10 latest.
Proof.
  intros Hc Hh latest [= <-]. cbn. rewrite u64_small by (unfold is_u64, two64; lia). split; [done|].
  split; unfold two64; lia.
Qed.

Lemma RunOnce_invariant_witness :
  let w := demo 100 10 6 125 demo_chain ∅ in
  engine_inv (demo_config 6) (chain_logs_of demo_chain) 1000 10 100 (final (RunOnce live first_case 29 w)) /\
  Checkpoint (w_task (final (RunOnce live first_case 29 w))) = 119.
Proof.
  intros w. split; [|vm_compute; reflexivity].
  apply (RunOnce_invariant live first_case (demo_config 6) (chain_logs_of demo_chain) 1000 10 100 29 w).
  - apply demo_honest.
  - apply demo_engine_inv; lia.
  - cbn. lia.
  - intros latest Hl. by apply (demo_bounds 6 125) in Hl as [_ ?]; [|lia|lia].
  - vm_compute. reflexivity.
Defined.

Lemma RunOnce_delivers_witness :
  exists w', RunOnce live first_case 29 (demo 100 10 6 125 demo_chain ∅) = Return (true, None) w' /\
    exists l', uniqueKey l' = uniqueKey (log_at 112) /\ l' ∈ handed (w_trace w').
Proof.
  exists (final (RunOnce live first_case 29 (demo 100 10 6 125 demo_chain ∅))).
  split; [apply returned_Return; vm_compute; reflexivity|].
  apply (RunOnce_delivers live first_case (demo_config 6) (chain_logs_of demo_chain) 1000 10 100 29
    (demo 100 10 6 125 demo_chain ∅) _ 125 112 (log_at 112)).
  - apply demo_honest.
  - apply demo_engine_inv; lia.
  - cbn. lia.
  - vm_compute. reflexivity.
  - cbn. lia.
  - by destruct (demo_bounds 6 125 ltac:(lia) ltac:(lia) 125); [vm_compute; reflexivity|].
  - apply returned_Return. vm_compute. reflexivity.
  - lia.
  - cbn. lia.
  - vm_compute. apply list_elem_of_here.
Defined.

Lemma RunOnce_depth_witness :
  exists out lout,
    handed (w_trace (final (RunOnce live first_case 29 (demo 100 10 6 125 demo_chain ∅)))) = out ++ [] /\
    forall l, l ∈ out ++ lout -> exists n, l ∈ chain_logs_of demo_chain n /\ n + 6 < 125 + 10.
Proof.
  destruct (RunOnce_depth live first_case (demo_config 6) (chain_logs_of demo_chain) 1000 10 100 29
    (demo 100 10 6 125 demo_chain ∅) 125) as (out & lout & Ho & _ & Hd).
  - apply demo_honest.
  - apply demo_engine_inv; lia.
  - cbn. lia.
  - vm_compute. reflexivity.
  - by destruct (demo_bounds 6 125 ltac:(lia) ltac:(lia) 125); [vm_compute; reflexivity|].
  - exists out, lout. split; [exact Ho|exact Hd].
Defined.
