(* ===== verification/Service.v ===== *)
(** * A task over its life: rounds and restarts

    The steps of a task that runs with a pending pool that outlives the process
    (the Redis pool): rounds of [RunOnce], and restarts from the checkpoint
    store.  By induction over any sequence of them: what the store has is the
    checkpoint of the task, and no log between the first block and the checkpoint
    is lost.  [Incidents.v] has the run in which the in-memory pool loses one. *)

From stdpp Require Import base gmap list strings relations.
From Stdlib Require Import ZArith Lia.
From S2P Require Import Prelude GoStd Json LogTypes Semaphore PendingPool Checkpoint Redis RunOnce RunOnceSpec RunOnceTotal Sync RunOnceRefines.
From S2P Require Import RedisPool Scenario.

Local Open Scope Z_scope.
Local Open Scope go_scope.

(** The blocks whose [Save] failed, the latest first. *)
Definition unsaved (tr : list event) : list Z :=
  omap (fun e => match e with EvSave b (Some _) => Some b | _ => None end) tr.

Lemma unsaved_app tr1 tr2 : unsaved (tr1 ++ tr2) = unsaved tr1 ++ unsaved tr2.
Proof. unfold unsaved. by rewrite omap_app. Qed.

Section Stored.
Context {R S H P : Type}.
Context `{RPCQuerier R, CheckpointStoreSpec S, LogBatchHandler H, PendingPool P}.
Variable ctx : nat -> Ctx.
Variable pick : nat -> bool.
Local Abbreviation world := (world R S H P).

(** The store would be read back as the task's checkpoint. *)
Definition in_store (w : world) : Prop := stored (Store (w_task w)) = Some (Checkpoint (w_task w)).

(** It is, unless a [Save] has failed since [w0]. *)
Definition stored_since (w0 w : world) : Prop :=
  exists new, unsaved (w_trace w) = new ++ unsaved (w_trace w0) /\ (new = [] -> in_store w).

Lemma batch_end_u64 latest cs bs : 0 <= latest -> is_u64 (batch_end latest cs bs).
Proof.
  intros Hl. unfold batch_end. pose proof (u64_sub_range (u64_add cs bs) 1) as Hr. unfold is_u64 in *.
  case_match; lia.
Qed.

(** An outcome that calls no [Save] and leaves store and checkpoint. *)
Lemma stored_since_same w0 w w' evs :
  stored_since w0 w -> w_trace w' = evs ++ w_trace w -> unsaved evs = [] ->
  Store (w_task w') = Store (w_task w) -> Checkpoint (w_task w') = Checkpoint (w_task w) -> stored_since w0 w'.
Proof.
  intros (new & Hn & Hs) Ht He Hst Hcp. exists new. rewrite Ht, unsaved_app, He. split; [done|].
  unfold in_store. by rewrite Hst, Hcp.
Qed.

Lemma process_stored w0 latest cs e logs w x :
  process_result latest cs e logs w x -> is_u64 e -> stored_since w0 w -> stored_since w0 (final x).
Proof.
  intros Hp He Hs.
  destruct Hp as [w' Hnil Ht Htr|p c1 p1 er w' Hp Ha Ht Htr|p c1 p1 c2 p2 er w' Hp Ha cn Ho Ht Htr
    |p c1 p1 c2 p2 c3 w' Hp Ha cn Ho Ht Htr|p c1 p1 c2 p2 rdy c3 h' er w' Hp Ha cn Ho Hne Hhd Ht Htr
    |p c1 p1 c2 p2 rdy c3 h' c4 s' er w' Hp Ha cn Ho Hne Hhd Hsv Ht Htr
    |p c1 p1 c2 p2 rdy c3 h' c4 s' c5 w' Hp Ha cn Ho Hne Hhd Hsv Ht Htr]; cbn [final].
  - eapply (stored_since_same w0 w w' []); [done|done|done|by rewrite Ht|by rewrite Ht].
  - eapply (stored_since_same w0 w w' [_]); [done|exact Htr|done|by rewrite Ht|by rewrite Ht].
  - eapply (stored_since_same w0 w w' [_; _]); [done|exact Htr|done|by rewrite Ht|by rewrite Ht].
  - eapply (stored_since_same w0 w w' [_; _]); [done|exact Htr|done|by rewrite Ht|by rewrite Ht].
  - eapply (stored_since_same w0 w w' [_; _; _]); [done|exact Htr|done|by rewrite Ht|by rewrite Ht].
  - destruct Hs as (new & Hn & _). exists (e :: new). rewrite Htr. cbn. by rewrite <- Hn.
  - destruct Hs as (new & Hn & _). exists new. rewrite Htr. split; [by rewrite <- Hn|].
    intros _. unfold in_store. rewrite Ht. cbn. by eapply Save_ok.
Qed.

Lemma iter_stored w0 latest cs w : sems_ok (w_task w) -> sems_free (w_task w) -> 0 <= latest ->
  stored_since w0 w -> stored_since w0 (final (RunOnce_iter ctx pick latest cs w)).
Proof.
  intros Hok Hfree Hl Hs. destruct (iter_spec ctx pick latest cs w Hok)
    as [e n w' _ Ht Htr|w' Hf _|c1 r' er e bs x w' t end_ _ Ht Htr _ Hx|c1 r' logs w1 x t end_ _ Ht Htr Hp].
  - eapply (stored_since_same w0 w w' []); [done|done|done|by rewrite Ht|by rewrite Ht].
  - by destruct Hf.
  - assert (Hw' : stored_since w0 w')
      by (eapply (stored_since_same w0 w w' [_]); [done|exact Htr|done|by rewrite Ht|by rewrite Ht]).
    by destruct Hx as [(_ & _ & ->)|[(_ & _ & _ & ->)|(_ & _ & ->)]].
  - eapply process_stored; [exact Hp|by apply batch_end_u64|].
    eapply (stored_since_same w0 w w1 [_]); [done|exact Htr|done|by rewrite Ht|by rewrite Ht].
Qed.

(** A round in which no [Save] fails leaves the store with the checkpoint. *)
Lemma RunOnce_stored fuel w :
  sems_ok (w_task w) -> sems_free (w_task w) -> 0 <= Checkpoint (w_task w) -> in_store w ->
  unsaved (w_trace (final (RunOnce ctx pick fuel w))) = unsaved (w_trace w) ->
  in_store (final (RunOnce ctx pick fuel w)).
Proof.
  intros Hok Hfree Hcp Hst Hu.
  enough (stored_since w (final (RunOnce ctx pick fuel w))) as (new & Hn & Hs).
  { apply Hs. rewrite Hu in Hn. destruct new as [|b new]; [done|]. apply (f_equal length) in Hn. cbn in Hn.
    rewrite length_app in Hn. lia. }
  apply RunOnce_keeps; [done|done| |].
  - intros w1 [r Ht] Htr. eapply (stored_since_same w w w1 [_]); [|exact Htr|done|by rewrite Ht|by rewrite Ht].
    by exists [].
  - intros latest cs w0 Hle _ Hok0 Hfree0. apply iter_stored; [done|done|lia].
Qed.
End Stored.

(** ** The life of a task *)

Section Life.
Context {R S H P : Type}.
Context `{RPCQuerier R, CheckpointStoreSpec S, LogBatchHandler H, PendingPoolSpec P}.
Variable cfg : TaskConfig.
Variable logs_of : Z -> list LogResult.
(** The largest block and the largest batch. *)
Variable top B : Z.
Local Abbreviation world := (world R S H P).
Local Abbreviation c := (ConfirmBlockNum cfg).

(** The world of the next round: the node, and the time, have moved on. *)
Definition later (r : R) (clock : nat) (w : world) : world :=
  MkWorld (set_RPC r (w_task w)) clock (w_metrics w) (w_trace w).

(** A new process: the checkpoint loaded from the store, fresh semaphores, the
    batch size of the configuration, and the pool that was there.  The trace goes
    on: it is what the outside world has seen. *)
Definition reboot (r : R) (h : H) (s : S) (v bs : Z) (global local : RPCSemaphore) (w : world) : world :=
  MkWorld (MkTask (Config (w_task w)) v bs r s h global local (Pool (w_task w)) None)
    0 ∅ (w_trace w).

(** One step: a round, wherever it stops, in which neither the handler nor
    [Save] fails, or a restart.  The node is on the chain [logs_of]. *)
Inductive life_step : world -> world -> Prop :=
  | life_round ctx pick fuel r clock w :
      let w0 := later r clock w in
      let w' := final (RunOnce ctx pick fuel w0) in
      1 <= BatchSize (w_task w) -> (forall latest, head ctx w0 = Ok latest -> bounds c top B latest) ->
      lost (w_trace w') = lost (w_trace w) -> unsaved (w_trace w') = unsaved (w_trace w) ->
      life_step w w'
  | life_restart cx r h s v bs n1 n2 global local w :
      store_Load cx (Store (w_task w)) = (s, Ok v) -> 1 <= bs <= B ->
      0 < n1 -> NewRPCSemaphore n1 = Some global -> 0 < n2 -> NewRPCSemaphore n2 = Some local ->
      life_step w (reboot r h s v bs global local w).

(** The invariant of [RunOnceRefines.v], and the store has the checkpoint. *)
Definition life_inv (c0 : Z) (w : world) : Prop :=
  engine_inv cfg logs_of top B c0 w /\ in_store w.

Lemma sim_same (w w' : world) s :
  Config (w_task w') = Config (w_task w) -> Checkpoint (w_task w') = Checkpoint (w_task w) ->
  Pool (w_task w') = Pool (w_task w) -> w_trace w' = w_trace w ->
  sim cfg w s -> sim cfg w' (MkSync (s_cp s) (BatchSize (w_task w')) (s_pool s) (s_handed s) (s_lost s)).
Proof.
  intros Hc Hcp Hp Ht [? ? ? ? ? ?]. split; cbn; rewrite ?Hc, ?Hcp, ?Hp, ?Ht; done.
Qed.

(** The invariant does not mention the RPC, the store, the handler or the time. *)
Lemma engine_inv_same c0 (w w' : world) :
  engine_inv cfg logs_of top B c0 w -> sems_ok (w_task w') -> sems_free (w_task w') -> BatchSize (w_task w') <= B ->
  Config (w_task w') = Config (w_task w) -> Checkpoint (w_task w') = Checkpoint (w_task w) ->
  Pool (w_task w') = Pool (w_task w) -> w_trace w' = w_trace w -> engine_inv cfg logs_of top B c0 w'.
Proof.
  intros (_ & _ & _ & Hcp0 & s & Hsim & Hcov & Hsh) Hok Hfree HB Hc Hcp Hp Ht.
  split_and!; [done|done|done|by rewrite Hcp|].
  exists (MkSync (s_cp s) (BatchSize (w_task w')) (s_pool s) (s_handed s) (s_lost s)).
  split; [by apply (sim_same w)|done].
Qed.

Lemma new_sem n s : NewRPCSemaphore n = Some s -> s = MkSem n 0.
Proof. unfold NewRPCSemaphore. case_match; [done|]. by intros [= <-]. Qed.

Lemma life_step_inv c0 w w' :
  @honest_node R P _ _ _ cfg logs_of -> life_step w w' -> life_inv c0 w -> life_inv c0 w' /\
  Checkpoint (w_task w) <= Checkpoint (w_task w').
Proof.
  intros Hhon Hst [He Hin]. pose proof He as (Hok & Hfree & HB & Hcp & _).
  destruct Hst as [ctx pick fuel r clock w w0 w' Hone Hb Hl Hu|cx r h s v bs n1 n2 gl lc w Hload Hbs Hn1 Hg Hn2 Hlc].
  - assert (He0 : engine_inv cfg logs_of top B c0 w0) by by apply (engine_inv_same c0 w).
    destruct (round_keeps_inv ctx pick cfg logs_of top B c0 fuel w0 Hhon He0 Hone Hb Hl) as [He' Hle].
    split; [|done]. split; [done|]. by apply RunOnce_stored.
  - destruct (Load_ok _ _ _ _ Hload) as [Hs Hv]. unfold in_store in Hin. rewrite Hin in Hv. injection Hv as Hv.
    apply new_sem in Hg, Hlc. subst gl lc.
    split; [|cbn; lia]. split.
    + apply (engine_inv_same c0 w); cbn; try done; try (unfold sems_ok, sems_free; cbn; lia); lia.
    + unfold in_store. cbn. rewrite Hs, Hin. by rewrite Hv.
Qed.

Lemma life_keeps_inv c0 w w' :
  @honest_node R P _ _ _ cfg logs_of -> rtc life_step w w' -> life_inv c0 w -> life_inv c0 w' /\
  Checkpoint (w_task w) <= Checkpoint (w_task w').
Proof.
  intros Hhon. induction 1 as [w|w w1 w' Hst _ IH]; intros Hi; [done|].
  destruct (life_step_inv c0 w w1 Hhon Hst Hi) as [Hi1 Hle]. destruct (IH Hi1). split; [done|lia].
Qed.


End Life.

(** ** At a concrete task: the run of [Incidents.v] with Redis and a file *)

Definition redis_chain : list LogResult := [log_at 105; log_at 115; log_at 121].

Abbreviation RedisWorld :=
  (world (ChainRPC redis_chain) File.FileCheckpointStore unit (RedisPendingPool (MemRedis false))).

Definition redis_start (head : Z) : RedisWorld :=
  MkWorld (MkTask (demo_config 20) 100 10 (MkChain head)
             (File.NewFileCheckpointStore "cp" (MkFS {[ "cp" := "100" ]} None)) tt
             (MkSem 10 0) (MkSem 3 0) (Some (fresh_redis false [])) None) 0 ∅ [].

Definition redis_round (head : Z) (w : RedisWorld) : RedisWorld :=
  final (RunOnce live first_case 60 (later (MkChain head) 0 w)).

(** Three rounds, then a restart at head 1000. *)
Definition redis_rounds : RedisWorld := redis_round 130 (redis_round 129 (redis_round 120 (redis_start 120))).
Definition redis_rebooted : RedisWorld :=
  reboot (MkChain 1000) tt (Store (w_task redis_rounds)) 127 10 (MkSem 10 0) (MkSem 3 0) redis_rounds.

Lemma log_at_json n : is_u64 n -> all_chars (fun c => ascii_Z c <? 128) (FormatUint n) = true -> json_log (log_at n).
Proof. intros Hn Ha. split_and!; try done; by apply utf8_ascii. Qed.

Lemma redis_honest : @honest_node (ChainRPC redis_chain) (RedisPendingPool (MemRedis false)) _ _ _ (demo_config 20) (chain_logs_of redis_chain).
Proof. apply chain_honest. repeat (constructor; [apply log_at_json; [unfold is_u64, two64; lia|by vm_compute]|]). constructor. Qed.

Lemma redis_bounds head (w : RedisWorld) latest : 0 <= head <= 1000 ->
  RunOnceTotal.head live (later (MkChain head) 0 w) = Ok latest -> bounds 20 1000 10 latest.
Proof.
  intros Hh [= <-]. cbn. rewrite u64_small by (unfold is_u64, two64; lia). split; unfold two64; lia.
Qed.

Lemma redis_life_round head (w : RedisWorld) : 0 <= head <= 1000 ->
  (1 <=? BatchSize (w_task w)) && bool_decide (lost (w_trace (redis_round head w)) = lost (w_trace w)) &&
  bool_decide (unsaved (w_trace (redis_round head w)) = unsaved (w_trace w)) = true ->
  life_step (demo_config 20) 1000 10 w (redis_round head w).
Proof.
  intros Hh Hc. rewrite !andb_true_iff, !bool_decide_eq_true in Hc. destruct Hc as [[Hb Hl] Hu].
  apply life_round; [lia| |done|done]. intros latest. by apply redis_bounds.
Qed.

Lemma redis_restart : life_step (demo_config 20) 1000 10 redis_rounds redis_rebooted.
Proof.
  assert (Hv : (store_Load None (Store (w_task redis_rounds))).2 = Ok 127) by (vm_compute; reflexivity).
  unfold redis_rebooted. revert Hv. generalize redis_rounds as w. intros w Hv.
  apply (life_restart (demo_config 20) 1000 10 None (MkChain 1000) tt (Store (w_task w)) 127 10 10 3
    (MkSem 10 0) (MkSem 3 0)); [|lia|lia|done|lia|done].
  cbn [store_Load File.FileCheckpointStore_store snd] in *. by rewrite Hv.
Qed.

Lemma redis_life : rtc (life_step (demo_config 20) 1000 10) (redis_start 120) redis_rebooted.
Proof.
  apply (rtc_l _ _ (redis_round 120 (redis_start 120))); [apply redis_life_round; [lia|vm_compute; reflexivity]|].
  apply (rtc_l _ _ (redis_round 129 (redis_round 120 (redis_start 120)))); [apply redis_life_round; [lia|vm_compute; reflexivity]|].
  apply (rtc_l _ _ redis_rounds); [apply redis_life_round; [lia|vm_compute; reflexivity]|].
  apply rtc_once, redis_restart.
Qed.

Lemma redis_start_inv : life_inv (demo_config 20) (chain_logs_of redis_chain) 1000 10 100 (redis_start 120).
Proof.
  split; [|vm_compute; reflexivity]. split_and!; [by split|by split|cbn; lia|cbn; lia|].
  exists (MkSync 100 10 ∅ [] []). split_and!.
  - split; try done. exists (fresh_redis false []). split; [done|]. split; [apply fresh_wf|]. by vm_compute.
  - intros n l Hn. cbn in Hn. lia.
  - intros h logs l Hh. cbn in Hh. by apply lookup_empty_Some in Hh.
Qed.


