(* ===== verification/Handlers.v ===== *)
(** * The batch handlers ([go/logfilter/logfilter.go])

    [SQLBatchHandler] over a database connection and [KafkaBatchHandler] over a
    writer, both parameters with the laws their drivers document.  The SQL
    handler keeps all of a batch or nothing of it and can be given a batch twice;
    with it, the rows of the table are what [RunOnce] delivers.  A Kafka message
    is a JSON object with the block, the transaction and the address of a log,
    and nothing else of it. *)

From stdpp Require Import base gmap list strings.
From Stdlib Require Import ZArith Lia Ascii.
From Stdlib Require String.
From S2P Require Import Prelude GoStd Json LogTypes Semaphore PendingPool Checkpoint RunOnce RunOnceSpec RunOnceTotal Scenario Sync RunOnceRefines.

Local Open Scope Z_scope.

(** ** [SQLBatchHandler] *)

(** A row of [event_logs]. *)
Record Row := MkRow {
  block_number : string;
  tx_hash : string;
  contract_addr : string;
  topics : string;
  log_data : string }.

#[export] Instance Row_eq_dec : EqDecision Row.
Proof. solve_decision. Defined.

(** The table by its unique index. *)
Abbreviation Table := (gmap (string * string) Row).
Definition row_key (r : Row) : string * string := (block_number r, tx_hash r).

(** [INSERT ... ON CONFLICT (block_number, tx_hash) DO NOTHING]. *)
Definition insert_row (m : Table) (r : Row) : Table :=
  match m !! row_key r with Some _ => m | None => <[row_key r := r]> m end.
Definition insert_rows (m : Table) (rs : list Row) : Table := fold_left insert_row rs m.

(** The methods of [*sql.DB], [*sql.Tx] and [*sql.Stmt] the handler calls, the
    last with the statement it prepares; [T] is a transaction. *)
Class SqlDB (D T : Type) := {
  db_BeginTx : Ctx -> D -> D * result T;
  tx_Prepare : Ctx -> T -> T * option error;
  stmt_Exec : Ctx -> T -> Row -> T * option error;
  tx_Commit : D -> T -> D * option error;
  tx_Rollback : D -> T -> D }.

(** What a database with that unique index promises: the rows of a transaction
    become visible together, when it is committed; an error from [Commit] may be
    a lost reply; [Rollback] of a finished transaction does nothing. *)
Class SqlLaws (D T : Type) `{SqlDB D T} := {
  table : D -> Table;
  tx_rows : T -> list Row;
  Begin_law c d d' r : db_BeginTx c d = (d', r) ->
    table d' = table d /\ match r with Ok t => tx_rows t = [] | Err _ => True end;
  Prepare_law c t t' : tx_Prepare c t = (t', None) -> tx_rows t' = tx_rows t;
  Exec_law c t r t' : stmt_Exec c t r = (t', None) -> tx_rows t' = tx_rows t ++ [r];
  Commit_law d t d' e : tx_Commit d t = (d', e) ->
    match e with
    | None => table d' = insert_rows (table d) (tx_rows t)
    | Some _ => table d' = table d \/ table d' = insert_rows (table d) (tx_rows t)
    end;
  Rollback_law d t : table (tx_Rollback d t) = table d }.

Record SQLBatchHandler (D : Type) := MkSQL { sql_db : D }.
Arguments MkSQL {D} _.
Arguments sql_db {D} _.

Definition NewSQLBatchHandler {D} (db : D) : SQLBatchHandler D := MkSQL db.

Section SQL.
Context {D T : Type} `{SqlDB D T}.

(** The loop that joins the topics: [i] is the index of the next one. *)
Fixpoint join_topics (topicsStr : string) (i : Z) (ts : list string) : string :=
  match ts with
  | [] => topicsStr
  | t :: ts' =>
      let topicsStr := if 0 <? i then topicsStr +:+ "," else topicsStr in
      join_topics (topicsStr +:+ t) (i + 1) ts'
  end.

Definition row_of (l : LogResult) : Row :=
  MkRow (BlockNumber l) (TransactionHash l) (Address l) (join_topics "" 0 (Topics l)) (Data l).

(** [for _, l := range logs]. *)
Fixpoint exec_all (ctx : Ctx) (tx : T) (logs : list LogResult) : T * option error :=
  match logs with
  | [] => (tx, None)
  | l :: logs' =>
      let (tx, err) := stmt_Exec ctx tx (row_of l) in
      match err with Some e => (tx, Some e) | None => exec_all ctx tx logs' end
  end.

(** From [PrepareContext] on; closing the statement has no effect on the data. *)
Definition in_tx (ctx : Ctx) (db : D) (tx : T) (logs : list LogResult) : D * T * option error :=
  let (tx, err) := tx_Prepare ctx tx in
  match err with
  | Some e => (db, tx, Some e)
  | None =>
      let (tx, err) := exec_all ctx tx logs in
      match err with
      | Some e => (db, tx, Some e)
      | None => let (db, err) := tx_Commit db tx in (db, tx, err)
      end
  end.

Definition SQL_HandleBatch (ctx : Ctx) (s : SQLBatchHandler D) (logs : list LogResult) : SQLBatchHandler D * option error :=
  match logs with
  | [] => (s, None)
  | _ =>
      let (db, r) := db_BeginTx ctx (sql_db s) in
      match r with
      | Err e => (MkSQL db, Some e)
      | Ok tx =>
          let '(db, tx, err) := in_tx ctx db tx logs in
          (MkSQL (tx_Rollback db tx), err)
      end
  end.

#[export] Instance SQLBatchHandler_handler : LogBatchHandler (SQLBatchHandler D) := { HandleBatch := SQL_HandleBatch }.
End SQL.

(** The topics are joined with commas. *)
Lemma join_topics_app s i ts : 0 < i -> ts <> [] -> join_topics s i ts = s +:+ "," +:+ String.concat "," ts.
Proof.
  revert s i. induction ts as [|t ts IH]; intros s i Hi Hne; [done|]. cbn [join_topics].
  rewrite (proj2 (Z.ltb_lt 0 i) Hi). destruct ts as [|t' ts].
  - cbn. by rewrite str_app_assoc.
  - rewrite IH by (done || lia). rewrite concat_cons. by rewrite !str_app_assoc.
Qed.

Lemma join_topics_concat ts : join_topics "" 0 ts = String.concat "," ts.
Proof.
  destruct ts as [|t [|t' ts]]; [done|done|]. change (join_topics "" 0 (t :: t' :: ts)) with (join_topics t 1 (t' :: ts)).
  rewrite join_topics_app by done. by rewrite concat_cons.
Qed.

(** ** Rows *)

Lemma insert_row_lookup m r k :
  insert_row m r !! k = match m !! k with Some r' => Some r' | None => if decide (k = row_key r) then Some r else None end.
Proof.
  unfold insert_row. destruct (decide (k = row_key r)) as [->|Hne].
  - destruct (m !! row_key r) as [r'|] eqn:E; [done|]. apply lookup_insert_eq.
  - destruct (m !! row_key r) as [r'|]; [by destruct (m !! k)|]. rewrite lookup_insert_ne by done. by destruct (m !! k).
Qed.

(** The first row of a key is the one that stays. *)
Lemma insert_rows_lookup rs : forall m k,
  insert_rows m rs !! k =
  match m !! k with Some r => Some r | None => List.find (fun r => bool_decide (row_key r = k)) rs end.
Proof.
  induction rs as [|r rs IH]; intros m k; cbn [insert_rows fold_left List.find]; [by destruct (m !! k)|].
  unfold insert_rows in IH. rewrite IH, insert_row_lookup. destruct (m !! k) as [r'|]; [done|].
  destruct (decide (k = row_key r)) as [->|Hne]; [by rewrite bool_decide_true|].
  by rewrite bool_decide_false by congruence.
Qed.

Lemma insert_rows_has m rs r : r ∈ rs -> is_Some (insert_rows m rs !! row_key r).
Proof.
  intros Hr. rewrite insert_rows_lookup. destruct (m !! row_key r); [done|].
  destruct (List.find _ rs) as [r'|] eqn:E; [done|]. apply list_elem_of_In in Hr.
  pose proof (List.find_none _ _ E r Hr) as Hn. cbv beta in Hn. by rewrite bool_decide_true in Hn.
Qed.

Lemma insert_rows_mono m rs k r : m !! k = Some r -> insert_rows m rs !! k = Some r.
Proof. intros Hk. by rewrite insert_rows_lookup, Hk. Qed.

(** Rows whose keys are there change nothing. *)
Lemma insert_rows_known m rs : (forall r, r ∈ rs -> is_Some (m !! row_key r)) -> insert_rows m rs = m.
Proof.
  intros Hall. apply map_eq. intros k. rewrite insert_rows_lookup. destruct (m !! k) as [r|] eqn:E; [done|].
  destruct (List.find _ rs) as [r|] eqn:Ef; [|done]. apply List.find_some in Ef as [Hin Hk%bool_decide_eq_true].
  apply list_elem_of_In, Hall in Hin. rewrite Hk, E in Hin. by destruct Hin.
Qed.

Section SQLSpec.
Context {D T : Type} `{SqlLaws D T}.

Definition rows (s : SQLBatchHandler D) : Table := table (sql_db s).

Lemma exec_all_rows ctx logs : forall (tx tx' : T),
  exec_all ctx tx logs = (tx', None) -> tx_rows tx' = tx_rows tx ++ (row_of <$> logs).
Proof.
  induction logs as [|l logs IH]; intros tx tx'; cbn [exec_all]; [intros [= <-]; by rewrite app_nil_r|].
  destruct (stmt_Exec ctx tx (row_of l)) as [tx1 [e|]] eqn:E; [done|]. intros Hx%IH. apply Exec_law in E.
  rewrite Hx, E. cbn. by rewrite <- app_assoc.
Qed.

(** A batch is kept whole, or nothing of it. *)
Lemma SQL_HandleBatch_cases ctx (s s' : SQLBatchHandler D) logs e : SQL_HandleBatch ctx s logs = (s', e) ->
  let all := insert_rows (rows s) (row_of <$> logs) in
  match e with None => rows s' = all | Some _ => rows s' = rows s \/ rows s' = all end.
Proof.
  unfold SQL_HandleBatch. destruct logs as [|l logs]; [by intros [= <- <-]|].
  destruct (db_BeginTx (T:=T) _ _) as [db1 [tx|e1]] eqn:Eb; apply Begin_law in Eb as [Ht Hr].
  2:{ intros [= <- <-]. by left. }
  unfold in_tx. destruct (tx_Prepare _ _) as [tx1 [e1|]] eqn:Ep.
  { intros [= <- <-]. unfold rows. cbn. rewrite Rollback_law, Ht. by left. }
  apply Prepare_law in Ep. destruct (exec_all _ _ _) as [tx2 [e1|]] eqn:Ex.
  { intros [= <- <-]. unfold rows. cbn. rewrite Rollback_law, Ht. by left. }
  apply exec_all_rows in Ex. rewrite Ep, Hr in Ex. cbn [app] in Ex.
  destruct (tx_Commit _ _) as [db2 e2] eqn:Ec. apply Commit_law in Ec. rewrite Ht, Ex in Ec.
  intros [= <- <-]. unfold rows. cbn. by rewrite Rollback_law.
Qed.

(** C18: The SQL handler keeps all of a batch or nothing of it: on success the
    table has the rows it had and, for every key the batch has and it had not,
    the first log of that key; on an error it is unchanged, or (the reply to the
    commit was lost) as after a success.  Either way, a later batch with keys the
    table has already, such as the same batch again, leaves the table as it is. *)
Theorem SQL_HandleBatch_spec ctx (s s' : SQLBatchHandler D) logs e : SQL_HandleBatch ctx s logs = (s', e) ->
  (e = None \/ rows s' <> rows s ->
     forall k, rows s' !! k =
       match rows s !! k with
       | Some r => Some r
       | None => row_of <$> List.find (fun l => bool_decide ((BlockNumber l, TransactionHash l) = k)) logs
       end) /\
  (forall ctx' logs' s'' e', (forall l, l ∈ logs' -> is_Some (rows s' !! row_key (row_of l))) ->
     SQL_HandleBatch ctx' s' logs' = (s'', e') -> rows s'' = rows s').
Proof.
  intros Hb. split.
  - intros Hor k. assert (Hall : rows s' = insert_rows (rows s) (row_of <$> logs)).
    { apply SQL_HandleBatch_cases in Hb. destruct e; [|done]. destruct Hor as [|Hne]; [done|]. by destruct Hb. }
    rewrite Hall, insert_rows_lookup. destruct (rows s !! k); [done|]. clear.
    induction logs as [|l logs IH]; [done|]. cbn [fmap list_fmap List.find].
    change (row_key (row_of l)) with (BlockNumber l, TransactionHash l). by case_bool_decide.
  - intros ctx' logs' s'' e' Hk Hb'. apply SQL_HandleBatch_cases in Hb'. cbn zeta in Hb'.
    rewrite insert_rows_known in Hb'; [destruct e'; naive_solver|].
    intros r (l & -> & Hl)%list_elem_of_fmap. by apply Hk.
Qed.
End SQLSpec.

(** ** [RunOnce] with the SQL handler *)

Section Delivered.
Context {R S P D T : Type}.
Context `{RPCQuerier R, CheckpointStore S, PendingPoolSpec P, SqlLaws D T}.
Variable ctx : nat -> Ctx.
Variable pick : nat -> bool.
Local Abbreviation world := (world R S (SQLBatchHandler D) P).

(** Every log handed out has its row. *)
Definition rows_ok (w : world) : Prop :=
  forall l, l ∈ handed (w_trace w) -> is_Some (rows (BatchHandler (w_task w)) !! (BlockNumber l, TransactionHash l)).

Lemma rows_ok_same (w w' : world) evs :
  rows_ok w -> w_trace w' = evs ++ w_trace w -> handed evs = [] ->
  BatchHandler (w_task w') = BatchHandler (w_task w) -> rows_ok w'.
Proof.
  intros Hok Ht He Hb l. unfold handed in *. rewrite Ht, omap_app, concat_app, He, Hb. apply Hok.
Qed.

(** After a call of the handler: rows stay, and success adds those of the batch. *)
Lemma rows_ok_handled (w w' : world) evs cx h' out e :
  rows_ok w -> HandleBatch cx (BatchHandler (w_task w)) out = (h', e) -> BatchHandler (w_task w') = h' ->
  w_trace w' = evs ++ w_trace w -> handed evs = (if e is None then out else []) -> rows_ok w'.
Proof.
  intros Hok Hh Hb Ht He l. unfold handed in *. rewrite Ht, omap_app, concat_app, He, Hb, elem_of_app.
  apply SQL_HandleBatch_cases in Hh. cbn zeta in Hh.
  assert (Hold : is_Some (rows (BatchHandler (w_task w)) !! (BlockNumber l, TransactionHash l)) ->
    is_Some (rows h' !! (BlockNumber l, TransactionHash l))).
  { intros [r Hr]. exists r. destruct e as [e|]; [destruct Hh as [->| ->]; [done|]|rewrite Hh]; by apply insert_rows_mono. }
  intros [Hl|Hl]; [|by apply Hold, Hok]. destruct e as [e|]; [by apply not_elem_of_nil in Hl|]. rewrite Hh.
  change (BlockNumber l, TransactionHash l) with (row_key (row_of l)). by apply insert_rows_has, list_elem_of_fmap_2.
Qed.

Lemma process_rows latest cs e logs (w : world) x :
  process_result latest cs e logs w x -> rows_ok w -> rows_ok (final x).
Proof.
  intros Hp Hok.
  destruct Hp as [w' Hnil Ht Htr|p c1 p1 er w' Hp Ha Ht Htr|p c1 p1 c2 p2 er w' Hp Ha cn Ho Ht Htr
    |p c1 p1 c2 p2 c3 w' Hp Ha cn Ho Ht Htr|p c1 p1 c2 p2 rdy c3 h' er w' Hp Ha cn Ho Hne Hhd Ht Htr
    |p c1 p1 c2 p2 rdy c3 h' c4 s' er w' Hp Ha cn Ho Hne Hhd Hsv Ht Htr
    |p c1 p1 c2 p2 rdy c3 h' c4 s' c5 w' Hp Ha cn Ho Hne Hhd Hsv Ht Htr]; cbn [final].
  - eapply (rows_ok_same w w' []); [done|done|done|by rewrite Ht].
  - eapply (rows_ok_same w w' [_]); [done|exact Htr|done|by rewrite Ht].
  - eapply (rows_ok_same w w' [_; _]); [done|exact Htr|done|by rewrite Ht].
  - eapply (rows_ok_same w w' [_; _]); [done|exact Htr|done|by rewrite Ht].
  - eapply (rows_ok_handled w w' [_; _; _]); [done|exact Hhd|by rewrite Ht|exact Htr|done].
  - eapply (rows_ok_handled w w' [_; _; _; _]); [done|exact Hhd|by rewrite Ht|exact Htr|cbn; by rewrite app_nil_r].
  - eapply (rows_ok_handled w w' [_; _; _; _]); [done|exact Hhd|by rewrite Ht|exact Htr|cbn; by rewrite app_nil_r].
Qed.

Lemma RunOnce_rows fuel (w : world) :
  sems_ok (w_task w) -> sems_free (w_task w) -> rows_ok w -> rows_ok (final (RunOnce ctx pick fuel w)).
Proof.
  intros Hok Hfree Hr. apply RunOnce_keeps; [done|done| |].
  - intros w1 [r Ht] Htr. eapply (rows_ok_same w w1 [_]); [done|exact Htr|done|by rewrite Ht].
  - intros latest cs w0 _ _ Hok0 Hfree0 Hr0. destruct (iter_spec ctx pick latest cs w0 Hok0)
      as [e n w' _ Ht Htr|w' Hf _|c1 r' er e bs x w' t end_ _ Ht Htr _ Hx|c1 r' logs w1 x t end_ _ Ht Htr Hp].
    + eapply (rows_ok_same w0 w' []); [done|done|done|by rewrite Ht].
    + by destruct Hf.
    + assert (Hw' : rows_ok w') by (eapply (rows_ok_same w0 w' [_]); [done|exact Htr|done|by rewrite Ht]).
      by destruct Hx as [(_ & _ & ->)|[(_ & _ & _ & ->)|(_ & _ & ->)]].
    + eapply process_rows; [exact Hp|]. eapply (rows_ok_same w0 w1 [_]); [done|exact Htr|done|by rewrite Ht].
Qed.

(** C19: From the chain to the database: when [RunOnce] with the SQL handler
    returns [(true, nil)] at head [latest], the table has a row for every log of
    a block from [c0] to [latest - ConfirmBlockNum], or for another log with the
    same key: the row is under the block number and transaction of that log. *)
Theorem RunOnce_fills_table cfg logs_of top B c0 fuel (w w' : world) latest n l :
  @honest_node R P _ _ _ cfg logs_of -> engine_inv cfg logs_of top B c0 w -> 1 <= BatchSize (w_task w) ->
  head ctx w = Ok latest -> Checkpoint (w_task w) <= latest -> bounds (ConfirmBlockNum cfg) top B latest -> rows_ok w ->
  RunOnce ctx pick fuel w = Return (true, None) w' ->
  c0 <= n -> n + ConfirmBlockNum cfg <= latest -> l ∈ logs_of n ->
  exists l', uniqueKey l' = uniqueKey l /\
    is_Some (rows (BatchHandler (w_task w')) !! (BlockNumber l', TransactionHash l')).
Proof.
  intros Hhon Hinv Hone Hhd Hcp Hb Hrows Hret Hn Hdeep Hl. pose proof Hinv as (Hok & Hfree & _).
  destruct (round_hands_out ctx pick cfg logs_of top B c0 fuel w w' latest n l) as (l' & Hk & Hin); try done.
  exists l'. split; [done|]. pose proof (RunOnce_rows fuel w Hok Hfree Hrows) as Hr. rewrite Hret in Hr. by apply Hr.
Qed.
End Delivered.

(** ** A database in memory *)

(** The table, and what becomes of the next commits: [Some true] is carried out
    with the reply lost, [Some false] is refused. *)
Record MemSql := MkMemSql { ms_table : Table; ms_commits : list (option bool) }.

Definition bad_conn : error := ENew "driver: bad connection".

(** A transaction is the rows inserted in it. *)
#[export] Instance MemSql_db : SqlDB MemSql (list Row) := {
  db_BeginTx ctx d := (d, match ctx with Some e => Err e | None => Ok [] end);
  tx_Prepare ctx t := (t, ctx);
  stmt_Exec ctx t r := match ctx with Some e => (t, Some e) | None => (t ++ [r], None) end;
  tx_Commit d t :=
    let rest := tail (ms_commits d) in
    match hd_error (ms_commits d) with
    | Some (Some false) => (MkMemSql (ms_table d) rest, Some bad_conn)
    | Some (Some true) => (MkMemSql (insert_rows (ms_table d) t) rest, Some bad_conn)
    | _ => (MkMemSql (insert_rows (ms_table d) t) rest, None)
    end;
  tx_Rollback d _ := d }.

#[export] Program Instance MemSql_laws : SqlLaws MemSql (list Row) := { table := ms_table; tx_rows := id }.
Next Obligation. intros [e|] d d' r [= <- <-]; done. Qed.
Next Obligation. by intros [e|] t t' [= <-]. Qed.
Next Obligation. by intros [e|] t r t' [= <-]. Qed.
Next Obligation.
  intros d t d' e. cbn. destruct (hd_error (ms_commits d)) as [[[]|]|]; intros [= <- <-]; cbn; auto.
Qed.
Next Obligation. done. Qed.

Definition two_logs : list LogResult :=
  [MkLog "100" 100 "0xabc" "0xa" ["Transfer"; "0x1"] "01"; MkLog "100" 100 "0xabc" "0xb" ["Approval"] "02"].

Lemma SQL_HandleBatch_spec_witness :
  let s := NewSQLBatchHandler (MkMemSql ∅ [Some true]) in
  let s' := (SQL_HandleBatch None s two_logs).1 in
  (SQL_HandleBatch None s two_logs).2 = Some bad_conn /\
  rows s' = {[ ("100", "0xabc") := MkRow "100" "0xabc" "0xa" "Transfer,0x1" "01" ]} /\
  (SQL_HandleBatch None s' two_logs).2 = None /\ rows (SQL_HandleBatch None s' two_logs).1 = rows s'.
Proof.
  cbn zeta. split; [vm_compute; reflexivity|]. split; [vm_compute; reflexivity|]. split; [vm_compute; reflexivity|].
  set (s := NewSQLBatchHandler (MkMemSql ∅ [Some true])).
  refine (proj2 (SQL_HandleBatch_spec None s (SQL_HandleBatch None s two_logs).1 two_logs
    (SQL_HandleBatch None s two_logs).2 _) None two_logs _ (SQL_HandleBatch None (SQL_HandleBatch None s two_logs).1 two_logs).2 _ _).
  - by destruct (SQL_HandleBatch None s two_logs).
  - intros l Hl. unfold two_logs in Hl. apply elem_of_cons in Hl as [->|Hl]; [vm_compute; by eexists|].
    apply list_elem_of_singleton in Hl as ->. vm_compute. by eexists.
  - by destruct (SQL_HandleBatch None (SQL_HandleBatch None s two_logs).1 two_logs).
Defined.

Definition sql_demo : world (ChainRPC demo_chain) Memory.MemoryCheckpointStore (SQLBatchHandler MemSql) BlockPendingPool :=
  let t := w_task (demo 100 10 6 125 demo_chain ∅) in
  MkWorld (MkTask (Config t) (Checkpoint t) (BatchSize t) (RPC t) (Store t) (NewSQLBatchHandler (MkMemSql ∅ []))
             (RPCSem t) (TaskLocalSem t) (Pool t) (unhealthyStart t)) 0 ∅ [].

Lemma sql_demo_inv : engine_inv (demo_config 6) (chain_logs_of demo_chain) 1000 10 100 sql_demo.
Proof.
  split_and!; [by split|by split|done|done|]. exists (MkSync 100 10 ∅ [] []). split_and!.
  - split; try done. exists NewBlockPendingPool. done.
  - intros n l Hn. cbn in Hn. lia.
  - intros h logs l Hh. cbn in Hh. by apply lookup_empty_Some in Hh.
Qed.

Lemma RunOnce_fills_table_witness :
  exists w', RunOnce live first_case 29 sql_demo = Return (true, None) w' /\
    exists l', uniqueKey l' = uniqueKey (log_at 112) /\
      is_Some (rows (BatchHandler (w_task w')) !! (BlockNumber l', TransactionHash l')).
Proof.
  exists (final (RunOnce live first_case 29 sql_demo)).
  assert (Hret : RunOnce live first_case 29 sql_demo = Return (true, None) (final (RunOnce live first_case 29 sql_demo)))
    by (apply returned_Return; vm_compute; reflexivity).
  split; [exact Hret|].
  apply (RunOnce_fills_table live first_case (demo_config 6) (chain_logs_of demo_chain) 1000 10 100 29
    sql_demo _ 125 112 (log_at 112)); [apply demo_honest|exact sql_demo_inv|cbn; lia|vm_compute; reflexivity|cbn; lia| | |exact Hret|lia|cbn; lia|].
  - split; unfold two64; cbn; lia.
  - intros l Hl. apply not_elem_of_nil in Hl as [].
  - vm_compute. apply list_elem_of_here.
Defined.

(** ** [KafkaBatchHandler] *)

Record message := MkMessage { Key : string; Value : string }.

(** The methods of [*kafka.Writer]; [NewWriter] is the struct literal with the
    given brokers and topic, the least-bytes balancer and topic creation. *)
Class KafkaWriter (W : Type) := {
  NewWriter : list string -> string -> W;
  WriteMessages : Ctx -> W -> list message -> W * option error;
  Writer_Close : W -> W * option error }.

Record KafkaBatchHandler (W : Type) := MkKafka { kafka_w : W }.
Arguments MkKafka {W} _.
Arguments kafka_w {W} _.

Definition NewKafkaBatchHandler {W} `{KafkaWriter W} (brokers : list string) (topic : string) : KafkaBatchHandler W :=
  MkKafka (NewWriter brokers topic).

(** [fmt.Sprintf] of the payload; [%q] is [strconv.Quote]. *)
Definition payload (l : LogResult) : string :=
  "{" +:+ Quote "block" +:+ ":" +:+ Quote (BlockNumber l) +:+ "," +:+ Quote "tx" +:+ ":" +:+ Quote (TransactionHash l) +:+
  "," +:+ Quote "addr" +:+ ":" +:+ Quote (Address l) +:+ "}".

Definition message_of (l : LogResult) : message := MkMessage (TransactionHash l) (payload l).

Definition Kafka_HandleBatch {W} `{KafkaWriter W} (ctx : Ctx) (k : KafkaBatchHandler W) (logs : list LogResult)
    : KafkaBatchHandler W * option error :=
  let (w, err) := WriteMessages ctx (kafka_w k) (map message_of logs) in (MkKafka w, err).

Definition Kafka_Close {W} `{KafkaWriter W} (k : KafkaBatchHandler W) : KafkaBatchHandler W * option error :=
  let (w, err) := Writer_Close (kafka_w k) in (MkKafka w, err).

#[export] Instance KafkaBatchHandler_handler {W} `{KafkaWriter W} : LogBatchHandler (KafkaBatchHandler W) := {
  HandleBatch := Kafka_HandleBatch }.

(** Printable ASCII, such as the hex and decimal strings of [RealRPC]. *)
Definition printable (c : ascii) : bool := (32 <=? ascii_Z c) && (ascii_Z c <=? 126).

Lemma unquote_Quote s : all_chars printable s = true -> forall f rest, (S (String.length s) <= f)%nat ->
  unquote f (quote_body s +:+ String dquote rest) = Some (s, rest).
Proof.
  induction s as [|c s IH]; cbn [all_chars]; intros Hp f rest Hf; (destruct f as [|f]; [cbn in Hf; lia|]); [done|].
  apply andb_prop in Hp as [Hc Hs]. cbn in Hf. specialize (IH Hs f rest ltac:(lia)). cbn [quote_body].
  rewrite str_app_assoc. revert IH. generalize (quote_body s +:+ String dquote rest) as t. intros t IH.
  transitivity (prepend (String c "") (unquote f t)); [|by rewrite IH].
  destruct c as [[] [] [] [] [] [] [] []]; try discriminate Hc; reflexivity.
Qed.

Lemma Quote_app s t : Quote s +:+ t = String dquote (quote_body s +:+ String dquote t).
Proof. unfold Quote. by rewrite str_cons_app, str_app_assoc. Qed.

Lemma quote_body_longer s : (String.length s <= String.length (quote_body s))%nat.
Proof.
  assert (Hone : forall c, (1 <= String.length (quote_body (String c "")))%nat)
    by (intros c; destruct c as [[] [] [] [] [] [] [] []]; vm_compute; lia).
  induction s as [|c s IH]; [done|]. specialize (Hone c). cbn [quote_body] in *. rewrite str_length_app in *.
  change (String.length "") with 0%nat in Hone. cbn [String.length]. lia.
Qed.

Lemma parse_string_Quote s rest : all_chars printable s = true ->
  parse_string (quote_body s +:+ String dquote rest) = Some (s, rest).
Proof.
  intros Hs. apply unquote_Quote; [done|]. rewrite str_length_app. cbn. pose proof (quote_body_longer s). lia.
Qed.

(** One member of the object. *)
Lemma parse_member_Quote f k v rest : all_chars printable k = true -> all_chars printable v = true ->
  parse_members (S (S f)) (Quote k +:+ ":" +:+ Quote v +:+ rest) =
  match skip_ws rest with
  | String "," r => match parse_members (S f) r with Some (l, r') => Some ((k, JStr v) :: l, r') | None => None end
  | String "}" r => Some ([(k, JStr v)], r)
  | _ => None
  end.
Proof.
  intros Hk Hv. rewrite Quote_app. remember (S f) as f' eqn:Ef. cbn [parse_members].
  rewrite skip_ws_start by done. rewrite Ascii.eqb_refl, parse_string_Quote by done.
  change (":" +:+ ?x) with (String ":" x). rewrite skip_ws_start by done. cbn match.
  rewrite Quote_app. subst f'. cbn [parse_value]. rewrite skip_ws_start by done.
  by rewrite Ascii.eqb_refl, parse_string_Quote by done.
Qed.

(** The consumer reads the block, the transaction and the address, no more. *)
Lemma parse_payload l :
  all_chars printable (BlockNumber l) = true -> all_chars printable (TransactionHash l) = true ->
  all_chars printable (Address l) = true ->
  parse (payload l) =
  Some (JObj [("block", JStr (BlockNumber l)); ("tx", JStr (TransactionHash l)); ("addr", JStr (Address l))]).
Proof.
  intros Hb Ht Ha. unfold parse. 
  assert (Hf : exists f, (2 * S (String.length (payload l)) = S (S (S (S (S f)))))%nat).
  { exists (2 * S (String.length (payload l)) - 5)%nat. unfold payload. rewrite !str_length_app. cbn. lia. }
  destruct Hf as [f ->]. unfold payload. change ("{" +:+ ?x) with (String "{" x). remember (S (S (S (S f)))) as g eqn:Eg.
  cbn [parse_value]. rewrite skip_ws_start by done. change (Ascii.eqb "{" dquote) with false.
  change (Ascii.eqb "{" "[") with false. rewrite Ascii.eqb_refl. cbn match.
  rewrite (Quote_app "block"). rewrite skip_ws_start by done. rewrite <- (Quote_app "block"). subst g.
  rewrite parse_member_Quote by done. change ("," +:+ ?x) with (String "," x). rewrite skip_ws_start by done. cbn match.
  rewrite parse_member_Quote by done. change ("," +:+ ?x) with (String "," x). rewrite skip_ws_start by done. cbn match.
  rewrite parse_member_Quote by done. reflexivity.
Qed.

(** C40: The Kafka handler makes one call with one message per log, in the order
    of the batch, and returns what the writer returns.  A message has the
    transaction hash as its key and, for printable ASCII fields, a JSON object
    with exactly the block, the transaction and the address: the topics and the
    data of the log are not sent, and logs that differ only in them give equal
    messages. *)
Theorem Kafka_HandleBatch_spec {W} `{KafkaWriter W} ctx (k : KafkaBatchHandler W) logs :
  (kafka_w (Kafka_HandleBatch ctx k logs).1, (Kafka_HandleBatch ctx k logs).2) =
    WriteMessages ctx (kafka_w k) (map message_of logs) /\
  (forall i l, logs !! i = Some l -> exists m, map message_of logs !! i = Some m /\ Key m = TransactionHash l /\
     (all_chars printable (BlockNumber l) && all_chars printable (TransactionHash l) && all_chars printable (Address l) = true ->
      parse (Value m) =
        Some (JObj [("block", JStr (BlockNumber l)); ("tx", JStr (TransactionHash l)); ("addr", JStr (Address l))]))) /\
  (forall l n tp d, message_of (MkLog (BlockNumber l) n (TransactionHash l) (Address l) tp d) = message_of l).
Proof.
  split; [unfold Kafka_HandleBatch; by destruct (WriteMessages _ _ _)|]. split; [|done]. intros i l Hl. exists (message_of l). rewrite list_lookup_fmap, Hl.
  split; [done|]. split; [done|]. intros [[Hb Ht]%andb_prop Ha]%andb_prop. by apply parse_payload.
Qed.
