(* ===== verification/Protocol.v ===== *)
(** * The order of calls in a round

    An automaton over the calls [RunOnce] makes on its interfaces, with the
    results they return: what may be called when, with which arguments, and where
    the checkpoint is.  Every execution of [RunOnce] is accepted by it; from the
    automaton alone it follows that the successful queries tile the blocks from
    the checkpoint to the head. *)

From stdpp Require Import base gmap list strings.
From Stdlib Require Import ZArith Lia.
From S2P Require Import Prelude GoStd LogTypes Semaphore PendingPool Checkpoint RunOnce Scenario RunOnceSpec RunOnceTotal.

Local Open Scope Z_scope.

(** Where a round is.  [latest] is the head it works to, [cs] the next block to
    query, [e] the end of the batch in work. *)
Inductive phase :=
  | PStart
  | PTop (latest cs : Z)
  | PFetched (latest cs e : Z) (logs : list LogResult)
  | PAdded (latest e : Z)
  | PPopped (latest e : Z) (ready : list LogResult)
  | PHandled (latest e : Z)
  | PDone
  | PFailed.

Record proto := MkProto { p_cp : Z; p_phase : phase }.

(** The next call.  After a failed call there is none, except that a query may
    be repeated from the same block when the node asked for a smaller range. *)
Definition proto_step (c : Z) (st : proto) (ev : event) : option proto :=
  let goto ph := Some (MkProto (p_cp st) ph) in
  match p_phase st, ev with
  | PStart, EvBlockNumber (Ok n) => goto (if n <? p_cp st then PDone else PTop n (p_cp st))
  | PStart, EvBlockNumber (Err _) => goto PFailed
  | PTop n cs, EvGetLogs a b r =>
      if (a =? cs) && (cs <=? b) && (b <=? n) then
        match r with
        | Ok logs => goto (PFetched n cs b logs)
        | Err e => goto (if IsRateLimitOrRangeErr (Some e) then PTop n cs else PFailed)
        end
      else None
  | PFetched n cs b logs, EvAdd h l r =>
      if decide (h = cs /\ l = dedup logs) then goto (if r is Some _ then PFailed else PAdded n b) else None
  | PAdded n b, EvPop lt cn r =>
      if decide (lt = n /\ cn = c) then
        goto (match r with Err _ => PFailed | Ok [] => PTop n (b + 1) | Ok ready => PPopped n b ready end)
      else None
  | PPopped n b ready, EvHandle logs r =>
      if decide (logs = ready) then goto (if r is Some _ then PFailed else PHandled n b) else None
  | PHandled n b, EvSave x r =>
      if decide (x = b) then
        match r with
        | Some _ => goto PFailed
        | None => Some (MkProto b (PTop n (b + 1)))
        end
      else None
  | _, _ => None
  end.

(** A trace lists the latest call first. *)
Definition proto_run (c : Z) (st : option proto) (tr : list event) : option proto :=
  foldr (fun ev st => st ≫= fun st => proto_step c st ev) st tr.

Definition proto_start (cp : Z) : option proto := Some (MkProto cp PStart).

(** ** What the automaton enforces *)

(** The ranges of the successful queries, the latest first. *)
Fixpoint queries (tr : list event) : list (Z * Z) :=
  match tr with
  | [] => []
  | EvGetLogs a b (Ok _) :: tr' => (a, b) :: queries tr'
  | _ :: tr' => queries tr'
  end.

(** The ranges are consecutive, from [lo] to [hi]. *)
Fixpoint tiles (lo hi : Z) (l : list (Z * Z)) : Prop :=
  match l with
  | [] => hi = lo - 1
  | (a, b) :: l' => b = hi /\ a <= b /\ tiles lo (a - 1) l'
  end.

(** The block of the latest successful [Save]. *)
Fixpoint last_saved (cp : Z) (tr : list event) : Z :=
  match tr with
  | [] => cp
  | EvSave b None :: _ => b
  | _ :: tr' => last_saved cp tr'
  end.

(** The last block queried in a phase, when it is determined. *)
Definition reached (cp : Z) (ph : phase) (hi : Z) : Prop :=
  match ph with
  | PStart | PDone => hi = cp - 1
  | PTop n cs => hi = cs - 1 /\ cs <= n + 1
  | PFetched n _ e _ | PAdded n e | PPopped n e _ | PHandled n e => hi = e /\ e <= n
  | PFailed => True
  end.

(** How a step is made: the last call and the state before it. *)
Lemma proto_run_cons c st ev tr st' :
  proto_run c st (ev :: tr) = Some st' <-> exists st1, proto_run c st tr = Some st1 /\ proto_step c st1 ev = Some st'.
Proof. unfold proto_run. cbn. rewrite bind_Some. done. Qed.

Ltac proto_cases ph ev H :=
  destruct ph, ev; cbn in H; try discriminate H; repeat case_match; try discriminate H;
  injection H; clear H; intros; destruct_and?; simplify_eq; cbn in *.

Lemma proto_tiles c cp tr x ph :
  proto_run c (proto_start cp) tr = Some (MkProto x ph) ->
  (ph = PStart -> x = cp) /\ exists hi, tiles cp hi (queries tr) /\ reached cp ph hi /\ x = last_saved cp tr.
Proof.
  revert x ph. induction tr as [|ev tr IH]; intros x ph Hr.
  - injection Hr as <- <-. split; [done|]. by exists (cp - 1).
  - apply proto_run_cons in Hr as ([x1 ph1] & Hr & Hst). apply IH in Hr as (Hx & hi & Ht & Hre & Hls). clear IH.
    cbn [queries last_saved]. revert Hls Ht. generalize (last_saved cp tr) as ls, (queries tr) as qs. intros ls qs Hls Ht.
    unfold proto_step in Hst. cbn [p_cp p_phase] in Hst.
    proto_cases ph1 ev Hst; (split; [done|]); try (exists hi; split_and!; (done || lia)).
    + specialize (Hx eq_refl). exists hi. split_and!; done || lia.
    + exists toBlock. replace (fromBlock - 1) with hi by lia. split_and!; done || lia.
Qed.

Lemma proto_run_None c tr : proto_run c None tr = None.
Proof. unfold proto_run. induction tr as [|ev tr IH]; cbn; [done|]. by rewrite IH. Qed.

Lemma proto_run_app c st new ev old :
  proto_run c st (new ++ ev :: old) = proto_run c (proto_run c st old ≫= fun st1 => proto_step c st1 ev) new.
Proof. unfold proto_run. by rewrite foldr_app. Qed.

(** The state before and after a call of the round. *)
Lemma proto_run_split c st new ev old st' :
  proto_run c st (new ++ ev :: old) = Some st' ->
  exists st1 st2, proto_run c st old = Some st1 /\ proto_step c st1 ev = Some st2 /\ proto_run c (Some st2) new = Some st'.
Proof.
  rewrite proto_run_app. destruct (proto_run c st old) as [st1|]; cbn; [|by rewrite proto_run_None].
  destruct (proto_step c st1 ev) as [st2|] eqn:E2; [by eauto|by rewrite proto_run_None].
Qed.

(** A failed round makes no more calls. *)
Lemma proto_failed_end c x new st : proto_run c (Some (MkProto x PFailed)) new = Some st -> new = [].
Proof.
  destruct new as [|ev new _] using rev_ind; [done|]. rewrite proto_run_app. cbn.
  by rewrite proto_run_None.
Qed.

(** The calls behind each phase. *)
Lemma proto_back c cp tr x ph :
  proto_run c (proto_start cp) tr = Some (MkProto x ph) ->
  match ph with
  | PFetched n cs b logs => exists tr', tr = EvGetLogs cs b (Ok logs) :: tr'
  | PAdded n b => exists cs logs tr',
      tr = EvAdd cs (dedup logs) None :: EvGetLogs cs b (Ok logs) :: tr'
  | PPopped n b rdy => exists cs logs tr', rdy <> [] /\
      tr = EvPop n c (Ok rdy) :: EvAdd cs (dedup logs) None :: EvGetLogs cs b (Ok logs) :: tr'
  | PHandled n b => exists rdy cs logs tr', rdy <> [] /\
      tr = EvHandle rdy None :: EvPop n c (Ok rdy) :: EvAdd cs (dedup logs) None :: EvGetLogs cs b (Ok logs) :: tr'
  | _ => True
  end.
Proof.
  revert x ph. induction tr as [|ev tr IH]; intros x ph Hr; [by injection Hr as <- <-|].
  apply proto_run_cons in Hr as ([x1 ph1] & Hr & Hst). apply IH in Hr. clear IH.
  unfold proto_step in Hst. cbn [p_cp p_phase] in Hst. proto_cases ph1 ev Hst; try done.
  - match goal with Hb : (?a =? ?b) && _ && _ = true |- _ => assert (a = b) as -> by lia end. by eexists.
  - destruct Hr as (tr' & ->). by eexists _, _, _.
  - destruct Hr as (cs & logs' & tr' & ->). by eexists _, _, _.
  - destruct Hr as (cs & logs' & tr' & Hne & ->). by eexists _, _, _, _.
Qed.

Section Protocol.
Context {R S H P : Type}.
Context `{RPCQuerier R, CheckpointStore S, LogBatchHandler H, PendingPool P}.
Variable ctx : nat -> Ctx.
Variable pick : nat -> bool.
Local Abbreviation world := (world R S H P).

(** The calls since [tr0] are accepted and lead to a state in [Q], and the task
    has the automaton's checkpoint. *)
Definition accepted (c cp : Z) (tr0 : list event) (Q : phase -> Prop) (w : world) : Prop :=
  exists tr ph, w_trace w = tr ++ tr0 /\
    proto_run c (proto_start cp) tr = Some (MkProto (Checkpoint (w_task w)) ph) /\ Q ph.

Definition any (_ : phase) : Prop := True.

(** Several calls, from the top of the loop. *)
Lemma accepted_steps c cp tr0 (w w' : world) evs latest cs ph' (Q : phase -> Prop) :
  accepted c cp tr0 (eq (PTop latest cs)) w -> w_trace w' = evs ++ w_trace w ->
  proto_run c (Some (MkProto (Checkpoint (w_task w)) (PTop latest cs))) evs = Some (MkProto (Checkpoint (w_task w')) ph') ->
  Q ph' -> accepted c cp tr0 Q w'.
Proof.
  intros (tr & ph & Htr & Hrun & <-) Htr' Hst HQ'. exists (evs ++ tr), ph'.
  split; [by rewrite Htr', Htr, app_assoc|]. split; [|done]. unfold proto_run in *. by rewrite foldr_app, Hrun.
Qed.

Ltac run_trace He :=
  unfold proto_run; cbn [foldr app mbind option_bind proto_step p_phase p_cp];
  rewrite ?He; cbn [proto_step p_phase p_cp mbind option_bind];
  repeat (rewrite decide_True by done; cbn [proto_step p_phase p_cp mbind option_bind]).

(** The calls [evs] lead to phase [ph]; [He] decides the range check. *)
Ltac extend evs ph Hacc Htr Ht He :=
  eapply (accepted_steps _ _ _ _ _ evs _ _ ph); [exact Hacc|exact Htr| |done]; rewrite Ht; run_trace He; cbn.

Lemma process_accepted c cp tr0 latest cs e logs (w w1 : world) x :
  accepted c cp tr0 (eq (PTop latest cs)) w -> ConfirmBlockNum (Config (w_task w1)) = c ->
  Checkpoint (w_task w1) = Checkpoint (w_task w) -> is_Some (Pool (w_task w1)) ->
  w_trace w1 = EvGetLogs cs e (Ok logs) :: w_trace w ->
  (cs =? cs) && (cs <=? e) && (e <=? latest) = true -> u64_add e 1 = e + 1 ->
  process_result latest cs e logs w1 x ->
  wp (fun n w' => accepted c cp tr0 (eq (PTop latest n)) w') (fun r w' => accepted c cp tr0 any w') (fun _ => False) x.
Proof.
  intros Hacc Hc Hcp [p0 Hpool] Htr1 He Hn Hp.
  destruct Hp as [w' Hnil|p c1 p1 er w' Hp Ha Ht Htr|p c1 p1 c2 p2 er w' Hp Ha cn Ho Ht Htr
    |p c1 p1 c2 p2 c3 w' Hp Ha cn Ho Ht Htr|p c1 p1 c2 p2 rdy c3 h' er w' Hp Ha cn Ho Hne Hhd Ht Htr
    |p c1 p1 c2 p2 rdy c3 h' c4 s' er w' Hp Ha cn Ho Hne Hhd Hsv Ht Htr
    |p c1 p1 c2 p2 rdy c3 h' c4 s' c5 w' Hp Ha cn Ho Hne Hhd Hsv Ht Htr];
    [congruence|..]; cbn [wp]; rewrite Htr1 in Htr; try (unfold cn in Htr; rewrite Hc in Htr); try rewrite Hn.
  all: try (destruct rdy as [|l rdy]; [done|]).
  - extend uconstr:([_; _]) PFailed Hacc Htr Ht He. by rewrite Hcp.
  - extend uconstr:([_; _; _]) PFailed Hacc Htr Ht He. by rewrite Hcp.
  - extend uconstr:([_; _; _]) (PTop latest (e + 1)) Hacc Htr Ht He. by rewrite Hcp.
  - extend uconstr:([_; _; _; _]) PFailed Hacc Htr Ht He. by rewrite Hcp.
  - extend uconstr:([_; _; _; _; _]) PFailed Hacc Htr Ht He. by rewrite Hcp.
  - extend uconstr:([_; _; _; _; _]) (PTop latest (e + 1)) Hacc Htr Ht He. done.
Qed.

Lemma iter_accepted B c cp tr0 latest cs (w : world) :
  runnable B (w_task w) -> 0 <= cs <= latest -> latest + B < two64 -> ConfirmBlockNum (Config (w_task w)) = c ->
  accepted c cp tr0 (eq (PTop latest cs)) w ->
  wp (fun n w' => accepted c cp tr0 (eq (PTop latest n)) w') (fun r w' => accepted c cp tr0 any w') (fun _ => False)
     (RunOnce_iter ctx pick latest cs w).
Proof.
  intros (Hok & Hfree & Hpool & HB) Hcs Hov Hc Hacc.
  destruct (batch_end_small latest cs (BatchSize (w_task w))) as [He Hn]; [lia..|].
  assert (Hb : (cs =? cs) && (cs <=? batch_end latest cs (BatchSize (w_task w))) &&
               (batch_end latest cs (BatchSize (w_task w)) <=? latest) = true) by (rewrite Z.eqb_refl; lia).
  destruct (iter_spec ctx pick latest cs w Hok)
    as [e n w' _ Ht Htr|w' Hf _|c1 r' er e bs x w' t end_ _ Ht Htr _ Hx|c1 r' logs w1 x t end_ _ Ht Htr Hp].
  - destruct Hacc as (tr & ph & Htr0 & Hrun & _). exists tr, ph. by rewrite Htr, Ht.
  - by destruct Hf.
  - subst end_ t. destruct Hx as [(Ei & _ & ->)|[(Ei & _ & _ & ->)|(Ei & _ & ->)]]; cbn [wp].
    + extend uconstr:([_]) (PTop latest cs) Hacc Htr Ht Hb. by rewrite Ei.
    + extend uconstr:([_]) (PTop latest cs) Hacc Htr Ht Hb. by rewrite Ei.
    + extend uconstr:([_]) PFailed Hacc Htr Ht Hb. by rewrite Ei.
  - apply (process_accepted c cp tr0 latest cs end_ logs w w1); try done; by rewrite Ht.
Qed.

Lemma loop_accepted B c cp tr0 latest fuel cs (w : world) :
  runnable B (w_task w) -> 0 <= cs -> latest + B < two64 -> ConfirmBlockNum (Config (w_task w)) = c ->
  accepted c cp tr0 (eq (PTop latest cs)) w ->
  wp (fun _ w' => exists cs', latest < cs' /\ accepted c cp tr0 (eq (PTop latest cs')) w')
     (fun r w' => failed r /\ accepted c cp tr0 any w') (accepted c cp tr0 any) (RunOnce_loop ctx pick fuel latest cs w).
Proof.
  intros Hr Hcs Hov Hc Hacc.
  pose (I := fun cs (w' : world) => 0 <= cs /\ runnable B (w_task w') /\ ConfirmBlockNum (Config (w_task w')) = c /\
               accepted c cp tr0 (eq (PTop latest cs)) w').
  eapply wp_mono; [apply (loop_wp ctx pick latest I (fun r w' => failed r /\ accepted c cp tr0 any w') (accepted c cp tr0 any))| | |]; try done.
  - intros cs0 w0 Hle (Hcs0 & Hr0 & Hc0 & Hacc0). pose proof Hr0 as (Hok & Hfree & _).
    pose proof (iter_outcome ctx pick B latest cs0 w0 Hr0 (conj Hcs0 Hle) Hov) as Ho.
    pose proof (iter_frame ctx pick latest cs0 w0 Hok Hfree) as (Hcfg & _).
    pose proof (iter_accepted B c cp tr0 latest cs0 w0 Hr0 (conj Hcs0 Hle) Hov Hc0 Hacc0) as Ha.
    destruct (RunOnce_iter ctx pick latest cs0 w0); cbn in *; try done.
    destruct Ho as (? & ? & _). split_and!; try done. by rewrite Hcfg.
  - intros cs0 w0 (_ & _ & _ & tr & ph & ? & ? & _). by exists tr, ph.
  - intros _ w' (cs' & Hlt & _ & _ & _ & Ha). by exists cs'.
Qed.

(** The first call, and the whole round. *)
Lemma RunOnce_accepted B fuel (w : world) :
  runnable B (w_task w) -> room ctx B w ->
  let x := RunOnce ctx pick fuel w in
  let acc := accepted (ConfirmBlockNum (Config (w_task w))) (Checkpoint (w_task w)) (w_trace w) in
  acc any (final x) /\
  (returned x = Some (true, None) ->
   acc (fun ph => exists latest, head ctx w = Ok latest /\
          (latest < Checkpoint (w_task w) /\ ph = PDone \/ exists cs, latest < cs /\ ph = PTop latest cs)) (final x)).
Proof.
  intros Hr [Hcp Hroom]. cbn zeta. destruct (RunOnce_cases ctx pick fuel w) as (w1 & Ht & _ & Htr & ->).
  assert (exists r, w_task w1 = set_RPC r (w_task w)) as [r Hr1] by eauto. clear Ht.
  destruct (head ctx w) as [latest|e] eqn:Hhd.
  2:{ cbn [final]. split; [|done]. exists [EvBlockNumber (Err e)], PFailed. by rewrite Hr1. }
  destruct (latest <? Checkpoint (w_task w)) eqn:Hlt.
  { assert (Hst : forall Q : phase -> Prop, Q PDone -> accepted (ConfirmBlockNum (Config (w_task w)))
      (Checkpoint (w_task w)) (w_trace w) Q w1).
    { intros Q HQ. exists [EvBlockNumber (Ok latest)], PDone. rewrite Hr1. split; [done|]. split; [|done]. cbn. by rewrite Hlt. }
    split; [by apply Hst|]. intros _. apply Hst. exists latest. split; [done|]. left. split; [lia|done]. }
  assert (Hacc1 : accepted (ConfirmBlockNum (Config (w_task w))) (Checkpoint (w_task w)) (w_trace w)
    (eq (PTop latest (Checkpoint (w_task w)))) w1).
  { exists [EvBlockNumber (Ok latest)], (PTop latest (Checkpoint (w_task w))). rewrite Hr1. split; [done|]. split; [|done].
    cbn. by rewrite Hlt. }
  assert (Hrun1 : runnable B (w_task w1)) by (rewrite Hr1; exact Hr).
  assert (Hc1 : ConfirmBlockNum (Config (w_task w1)) = ConfirmBlockNum (Config (w_task w))) by by rewrite Hr1.
  pose proof (loop_accepted B _ _ _ latest fuel _ w1 Hrun1 Hcp Hroom Hc1 Hacc1) as Hl.
  unfold bind, return_. destruct (RunOnce_loop _ _ _ _ _ _) as [? w'|r2 w'|w'|w'|w'] eqn:El; cbn in *; try (split; done).
  - destruct Hl as (cs' & Hgt & tr & ph & ? & ? & <-). split; [by exists tr, (PTop latest cs')|]. intros _.
    exists tr, (PTop latest cs'). split_and!; [done|done|]. exists latest. split; [done|]. right. by exists cs'.
  - destruct Hl as [Hf Hl]. split; [done|]. intros [= ->]. by destruct Hf.
Qed.

(** C7: In a round that returns [(true, nil)] with the checkpoint not above
    the head, the successful queries, in order, are consecutive, non-empty
    ranges that tile the blocks from the checkpoint to the head: none is queried
    twice and none is left out. *)
Theorem RunOnce_tiles B fuel (w w' : world) latest :
  runnable B (w_task w) -> room ctx B w -> head ctx w = Ok latest -> Checkpoint (w_task w) <= latest ->
  RunOnce ctx pick fuel w = Return (true, None) w' ->
  exists tr, w_trace w' = tr ++ w_trace w /\ tiles (Checkpoint (w_task w)) latest (queries tr).
Proof.
  intros Hr Hroom Hhd Hcp Hx. destruct (RunOnce_accepted B fuel w Hr Hroom) as [_ Ha]. rewrite Hx in Ha.
  destruct (Ha eq_refl) as (tr & ph & Htr & Hrun & Hph). cbn in Htr. exists tr. split; [done|].
  destruct (proto_tiles _ _ _ _ _ Hrun) as (_ & hi & Ht & Hre & _).
  rewrite Hhd in Hph. destruct Hph as (lt & [= <-] & [[? _]|(cs & Hlt & ->)]); [lia|].
  destruct Hre as [-> Hle]. by replace (cs - 1) with latest in Ht by lia.
Qed.

(** C4: A block is saved as the checkpoint only after the handler accepted, in
    the same batch, all and only the logs popped from the pool, after the batch
    ending at that block was fetched, deduplicated and added to it.  A failed
    handler or save is the last call of the round.  The task's checkpoint is
    the last block saved, or as it was. *)
Theorem RunOnce_saves B fuel (w : world) :
  runnable B (w_task w) -> room ctx B w ->
  let w' := final (RunOnce ctx pick fuel w) in
  exists tr, w_trace w' = tr ++ w_trace w /\
    Checkpoint (w_task w') = last_saved (Checkpoint (w_task w)) tr /\
    forall new ev old, tr = new ++ ev :: old ->
      match ev with
      | EvSave b e => (e <> None -> new = []) /\
          exists ready latest cs logs older, ready <> [] /\
            old = EvHandle ready None :: EvPop latest (ConfirmBlockNum (Config (w_task w))) (Ok ready) ::
                  EvAdd cs (dedup logs) None :: EvGetLogs cs b (Ok logs) :: older
      | EvHandle ready e => (e <> None -> new = []) /\
          exists latest older, old = EvPop latest (ConfirmBlockNum (Config (w_task w))) (Ok ready) :: older
      | _ => True
      end.
Proof.
  intros Hr Hroom. destruct (RunOnce_accepted B fuel w Hr Hroom) as [(tr & ph & Htr & Hrun & _) _].
  exists tr. split; [done|]. destruct (proto_tiles _ _ _ _ _ Hrun) as (_ & _ & _ & _ & Hls). split; [done|].
  intros new ev old ->. destruct (proto_run_split _ _ _ _ _ _ Hrun) as ([x1 ph1] & st2 & Ho & Hst & Hn).
  pose proof (proto_back _ _ _ _ _ Ho) as Hb. unfold proto_step in Hst. cbn [p_cp p_phase] in Hst.
  proto_cases ph1 ev Hst; try exact I.
  all: split; [intros Hf; first [by apply proto_failed_end in Hn|done]|].
  1, 2: destruct Hb as (cs & logs & older & _ & ->); by eexists _, _.
  all: destruct Hb as (rdy & cs & logs & older & Hne & ->); by eexists _, _, _, _, _.
Qed.
End Protocol.

(** ** At a concrete task: batches of 10 from 100, head 125, 6 confirmations *)

Lemma demo_room cp B c head chain : 0 <= cp -> 0 <= head <= 1000 -> B <= 1000 -> room live B (demo cp B c head chain ∅).
Proof.
  intros Hcp Hh HB. split; [done|]. cbn. rewrite u64_small by (unfold is_u64, two64; lia). unfold two64. lia.
Qed.

Lemma RunOnce_tiles_witness :
  let w := demo 100 10 6 125 [log_at 103] ∅ in
  queries (w_trace (final (RunOnce live first_case 29 w))) = [(120, 125); (110, 119); (100, 109)] /\
  exists tr, w_trace (final (RunOnce live first_case 29 w)) = tr ++ [] /\ tiles 100 125 (queries tr).
Proof.
  intros w. split; [vm_compute; reflexivity|].
  apply (RunOnce_tiles live first_case 10 29 w _ 125).
  - apply demo_runnable. lia.
  - apply demo_room; lia.
  - vm_compute. reflexivity.
  - cbn. lia.
  - apply returned_Return. vm_compute. reflexivity.
Defined.

Lemma RunOnce_saves_witness :
  let w := demo 100 10 6 125 [log_at 103] ∅ in
  exists tr, w_trace (final (RunOnce live first_case 29 w)) = tr ++ [] /\ 109 = last_saved 100 tr.
Proof.
  intros w. destruct (RunOnce_saves live first_case 10 29 w) as (tr & Htr & Hcp & _).
  - apply demo_runnable. lia.
  - apply demo_room; lia.
  - exists tr. split; [exact Htr|]. change 100 with (Checkpoint (w_task w)). rewrite <- Hcp. vm_compute. reflexivity.
Defined.
