(* ===== verification/Incidents.v ===== *)
(** * Incidents: where the log filter's behaviour is not the one its README describes

    Concrete runs of [RunOnce] on the environment of [Scenario.v], evaluated by
    the kernel.  Each shows how sharp a hypothesis or bound of the general
    theorems is: a log handed out before its block is deep enough, logs lost when
    the process restarts or when the handler fails, a block handed out twice. *)

From stdpp Require Import base gmap list strings.
From Stdlib Require Import ZArith Lia.
From S2P Require Import Prelude GoStd LogTypes Semaphore PendingPool Checkpoint RunOnce Scenario RunOnceTotal RunOnceRefines.

Local Open Scope Z_scope.

(** A round, and what it returned. *)
Definition round {H} `{LogBatchHandler H} {chain} (w : world (ChainRPC chain) Memory.MemoryCheckpointStore H BlockPendingPool) :=
  final (RunOnce live first_case 200 w).
Definition result_of {H} `{LogBatchHandler H} {chain} (w : world (ChainRPC chain) Memory.MemoryCheckpointStore H BlockPendingPool) :=
  returned (RunOnce live first_case 200 w).
Definition handed_blocks {R S H P} (w : world R S H P) : list Z := BlockNumUint <$> handed (w_trace w).

(** A log is handed out before its block has [ConfirmBlockNum] blocks on top
    of it: with batches of 10 and 6 confirmations, a round to head 110 hands out
    the log of block 109, because its batch starts at block 100. *)
Theorem shallow_log_handed_out :
  let w := round (demo 100 10 6 110 [log_at 109] ∅) in
  result_of (demo 100 10 6 110 [log_at 109] ∅) = Some (true, None) /\
  handed_blocks w = [109] /\ 110 < 109 + 6 /\ Checkpoint (w_task w) = 109.
Proof. vm_compute. auto. Qed.

Definition gap_chain : list LogResult := [log_at 105; log_at 115; log_at 121].
Definition gap1 := round (demo 100 10 20 120 gap_chain ∅).
Definition gap2 := round (at_head 129 gap1).
Definition gap3 := round (at_head 130 gap2).

(** The checkpoint runs ahead of the logs that are still pending: three
    successful rounds, to the heads 120, 129 and 130, save checkpoint 127 while
    the log of block 121 is only in memory.  A process restarted from that
    checkpoint never hands it out; the process that was not restarted does. *)
Theorem restart_loses_log :
  result_of (demo 100 10 20 120 gap_chain ∅) = Some (true, None) /\
  result_of (at_head 129 gap1) = Some (true, None) /\ result_of (at_head 130 gap2) = Some (true, None) /\
  Memory.val (Store (w_task gap3)) = 127 /\
  handed_blocks gap3 = [115; 115; 105] /\
  result_of (at_head 1000 (restarted gap3)) = Some (true, None) /\
  handed_blocks (round (at_head 1000 (restarted gap3))) = [115; 115; 105] /\
  handed_blocks (round (at_head 1000 gap3)) = [121; 121; 115; 115; 105].
Proof. split_and!; vm_compute; reflexivity. Qed.

(** The same run with a handler that fails on its fourth call, in the round to
    head 140, and works again in the round to head 1000. *)
Definition fail3 := round (at_head 130 (round (at_head 129 (round (with_handler (MkHandler [false; false; false; true])
                      (demo 100 10 20 120 gap_chain ∅)))))).
Definition fail4 := round (at_head 140 fail3).

(** A handler that fails once loses logs for good, without any restart: they
    were popped from the pool before the call, their blocks are below the
    checkpoint, and no later round queries them again.  The round does report the
    error. *)
Theorem handler_failure_loses_log :
  result_of (at_head 140 fail3) = Some (false, Some (EWrap "batch handler: " (ENew "insert failed"))) /\
  BlockNumUint <$> lost (w_trace fail4) = [121; 121] /\ Checkpoint (w_task fail4) = 127 /\
  result_of (at_head 1000 fail4) = Some (true, None) /\
  handed_blocks (round (at_head 1000 fail4)) = [115; 115; 105].
Proof. split_and!; vm_compute; reflexivity. Qed.

(** The block of the checkpoint is queried again by the next round, and its
    logs are handed out a second time, although no call failed. *)
Theorem checkpoint_block_handed_out_twice :
  let w1 := round (demo 100 10 6 125 [log_at 119] ∅) in
  let w2 := round (at_head 130 w1) in
  result_of (demo 100 10 6 125 [log_at 119] ∅) = Some (true, None) /\ Checkpoint (w_task w1) = 119 /\
  handed_blocks w1 = [119] /\ result_of (at_head 130 w1) = Some (true, None) /\ handed_blocks w2 = [119; 119].
Proof. split_and!; vm_compute; reflexivity. Qed.
