(* ===== verification/RealRPC.v ===== *)
(** * The production node client ([RealRPC], go/logfilter/logfilter.go)

    The retry loops of [BlockNumber] and [EthGetLogs], and the conversion of
    [fetchRawLogs].  go-ethereum is a parameter: its client (the class
    [EthClient]) and the text conversions of its addresses and hashes. *)

From stdpp Require Import base gmap list strings.
From Stdlib Require Import ZArith Lia.
From Stdlib Require String.
From S2P Require Import Prelude GoStd LogTypes Semaphore PendingPool Checkpoint RunOnce Scenario RunOnceSpec RunOnceTotal.

Local Open Scope Z_scope.

Section RealRPC.
(** go-ethereum's [common.Address] and [common.Hash], and their conversions. *)
Context {Addr Hash : Type}.
Variable HexToAddress : string -> Addr.
Variable HexToHash : string -> Hash.
Variable Address_Hex : Addr -> string.
Variable Hash_Hex : Hash -> string.
Variable Bytes2Hex : list Byte.byte -> string.

(** [ethereum.FilterQuery] and [types.Log], the fields the code uses. *)
Record FilterQuery := MkQuery {
  FromBlock : Z;
  ToBlock : Z;
  Addresses : list Addr;
  QTopics : list (list Hash) }.
Record Log := MkRawLog {
  LAddress : Addr;
  LTopics : list Hash;
  LData : list Byte.byte;
  LBlockNumber : Z;
  LTxHash : Hash }.

(** [ethclient.Client]. *)
Class EthClient (C : Type) := {
  eth_BlockNumber : Ctx -> C -> C * result Z;
  eth_FilterLogs : Ctx -> C -> FilterQuery -> C * result (list Log) }.

Context {C : Type} `{EthClient C}.

Record RealRPC := MkRealRPC { client : C; maxRetries : Z; retryBaseWait : Z }.

(** [NewRealRPC]'s defaults, and its options. *)
Definition RealRPCOption := RealRPC -> RealRPC.
Definition WithMaxRetries (n : Z) : RealRPCOption := fun r => MkRealRPC (client r) n (retryBaseWait r).
Definition WithRetryBaseWait (d : Z) : RealRPCOption := fun r => MkRealRPC (client r) (maxRetries r) d.
Definition NewRealRPC (dial : result C) (opts : list RealRPCOption) : result RealRPC :=
  match dial with
  | Err err => Err err
  | Ok c => Ok (fold_left (fun r o => o r) opts (MkRealRPC c 3 500000000))
  end.

(** A call in progress: the client, how often the context was looked at, the
    retry counter, and the timers started, the latest first. *)
Record retry_state := MkRetry { rs_client : C; rs_clock : nat; rs_retries : Z; rs_waits : list Z }.

(** The wait before the attempt after [attempt]: a [time.Duration]. *)
Definition backoff (base : Z) (attempt : nat) : Z := i64_mul base (i64_shl1 attempt).

Section Retry.
(** The context at each look at it, and whether the timer wins a [select] in
    which both cases are ready. *)
Variable ctx : nat -> Ctx.
Variable timer_first : nat -> bool.

Section Loop.
Context {A : Type}.
Variable call : Ctx -> C -> C * result A.
Variable exhausted : string.
Variable max base : Z.

Local Open Scope go_scope.
Definition retry_prog (B : Type) : Type := M retry_state (result A) B.

Definition do_call : retry_prog (result A) := fun s =>
  let (c', r) := call (ctx (rs_clock s)) (rs_client s) in
  Cont r (MkRetry c' (S (rs_clock s)) (rs_retries s) (rs_waits s)).

Definition count_retry (s : retry_state) : retry_state :=
  MkRetry (rs_client s) (rs_clock s) (rs_retries s + 1) (rs_waits s).

(** [select { case <-ctx.Done(): return ctx.Err(); case <-t.C: }]. *)
Definition sleep (wait : Z) : retry_prog unit := fun s =>
  let s' := MkRetry (rs_client s) (S (rs_clock s)) (rs_retries s) (wait :: rs_waits s) in
  match ctx (rs_clock s) with
  | Some e => if timer_first (rs_clock s) then Cont tt s' else Return (Err e) s'
  | None => Cont tt s'
  end.

Definition run_out (lastErr : option error) : retry_prog Empty_set :=
  return_ (Err (match lastErr with Some e => EWrap exhausted e | None => EWrapNil exhausted end)).

(** [for attempt := 0; attempt <= r.maxRetries; attempt++]. *)
Fixpoint retry_loop (fuel : nat) (attempt : nat) (lastErr : option error) : retry_prog Empty_set :=
  if Z.of_nat attempt <=? max then
    match fuel with
    | O => out_of_fuel
    | S f =>
        r <- do_call ;;
        match r with
        | Ok a => return_ (Ok a)
        | Err err =>
            modify count_retry ;;
            if Z.of_nat attempt =? max then run_out (Some err)
            else sleep (backoff base attempt) ;; retry_loop f (S attempt) (Some err)
        end
    end
  else run_out lastErr.
End Loop.

(** ** What the retry loop does *)

Section LoopFacts.
Context {A : Type}.
Variable call : Ctx -> C -> C * result A.
Variable exhausted : string.
Variable max base : Z.

Local Abbreviation loop := (retry_loop call exhausted max base).

(** With the attempts it has left as fuel the loop returns. *)
Lemma retry_returns fuel : forall attempt lastErr s,
  max < Z.of_nat (fuel + attempt) -> exists r s', loop fuel attempt lastErr s = Return r s'.
Proof.
  induction fuel as [|fuel IH]; intros attempt lastErr s Hf; cbn [retry_loop];
    destruct (Z.leb_spec (Z.of_nat attempt) max); try (unfold run_out; by eexists _, _); [lia|].
  unfold bind, do_call. destruct (call _ _) as [c' [a|e]]; [by eexists _, _|]. cbn.
  destruct (Z.eqb_spec (Z.of_nat attempt) max); [by eexists _, _|].
  unfold sleep. cbn. destruct (ctx (S (rs_clock s))) as [e'|]; [destruct (timer_first _)|];
    first [apply IH; lia|by eexists _, _].
Qed.

(** An error is the context's, or says that the retries are exhausted. *)
Lemma retry_errors fuel : forall attempt lastErr s s' e,
  loop fuel attempt lastErr s = Return (Err e) s' ->
  (exists n, ctx n = Some e) \/ (exists e', e = EWrap exhausted e') \/ e = EWrapNil exhausted.
Proof.
  induction fuel as [|fuel IH]; intros attempt lastErr s s' e; cbn [retry_loop];
    destruct (Z.of_nat attempt <=? max); try discriminate;
    try (unfold run_out, return_; destruct lastErr; intros [= <- _]; eauto; fail).
  unfold bind, do_call. destruct (call _ _) as [c' [a|e1]]; [done|]. cbn.
  destruct (Z.of_nat attempt =? max); [intros [= <- _]; eauto|].
  unfold sleep. cbn. destruct (ctx (S (rs_clock s))) as [e'|] eqn:Ec; [destruct (timer_first _)|]; try apply IH.
  intros [= <- _]. left. eauto.
Qed.

(** A good answer is the answer of some call. *)
Lemma retry_Ok fuel : forall attempt lastErr s s' a,
  loop fuel attempt lastErr s = Return (Ok a) s' -> exists cx c c', call cx c = (c', Ok a).
Proof.
  induction fuel as [|fuel IH]; intros attempt lastErr s s' a; cbn [retry_loop];
    destruct (Z.of_nat attempt <=? max); try discriminate;
    try (unfold run_out, return_; destruct lastErr; discriminate).
  unfold bind, do_call. destruct (call _ _) as [c' [a1|e1]] eqn:E; cbn.
  - intros [= <- _]. eauto.
  - destruct (Z.of_nat attempt =? max); [done|].
    unfold sleep. cbn. destruct (ctx (S (rs_clock s))) as [e'|]; [destruct (timer_first _)|]; try apply IH. done.
Qed.

(** The client after [k] calls on a live context, and the answer of the next one. *)
Definition nth_client (k : nat) (c : C) : C := Nat.iter k (fun c => (call None c).1) c.
Definition answer (k : nat) (c : C) : result A := (call None (nth_client k c)).2.

Lemma answer_S k c c' r : call None c = (c', r) -> answer (S k) c = answer k c'.
Proof.
  intros Hc. unfold answer, nth_client. rewrite Nat.iter_succ_r. by rewrite Hc.
Qed.

Definition fails (k : nat) (c : C) : Prop := is_ok (answer k c) = false.

(** On a live context: the answer of the first call that succeeds, or, when
    the first [n + 1] calls all fail, the last error. *)
Lemma retry_live n : forall fuel attempt lastErr s,
  (forall k, ctx k = None) -> max = Z.of_nat (attempt + n) -> (n < fuel)%nat ->
  (exists k a s', (k <= n)%nat /\ (forall j, (j < k)%nat -> fails j (rs_client s)) /\
     answer k (rs_client s) = Ok a /\ loop fuel attempt lastErr s = Return (Ok a) s' /\
     rs_retries s' = rs_retries s + Z.of_nat k /\
     rs_waits s' = rev (backoff base <$> seq attempt k) ++ rs_waits s) \/
  (exists e s', (forall j, (j <= n)%nat -> fails j (rs_client s)) /\ answer n (rs_client s) = Err e /\
     loop fuel attempt lastErr s = Return (Err (EWrap exhausted e)) s' /\
     rs_retries s' = rs_retries s + Z.of_nat n + 1 /\
     rs_waits s' = rev (backoff base <$> seq attempt n) ++ rs_waits s).
Proof.
  induction n as [|n IH]; intros fuel attempt lastErr s Hctx Hmax Hf; destruct fuel as [|fuel]; try lia;
    cbn [retry_loop]; (destruct (Z.leb_spec (Z.of_nat attempt) max); [|lia]);
    unfold bind, do_call; rewrite Hctx; destruct (call None (rs_client s)) as [c' [a|e]] eqn:Ec; cbn.
  1, 3: left; exists 0%nat, a; eexists; split_and!; [lia|lia|by unfold answer; cbn; rewrite Ec|done|cbn; lia|done].
  - destruct (Z.eqb_spec (Z.of_nat attempt) max); [|lia]. right. exists e. eexists.
    split_and!; [|by unfold answer; cbn; rewrite Ec|done|cbn; lia|done].
    intros j Hj. assert (j = 0)%nat as -> by lia. unfold fails, answer. cbn. by rewrite Ec.
  - destruct (Z.eqb_spec (Z.of_nat attempt) max); [lia|]. unfold sleep. cbn. rewrite Hctx.
    assert (Hf0 : fails 0 (rs_client s)) by (unfold fails, answer; cbn; by rewrite Ec).
    destruct (IH fuel (S attempt) (Some e) (MkRetry c' (S (S (rs_clock s))) (rs_retries s + 1)
      (backoff base attempt :: rs_waits s)) Hctx ltac:(lia) ltac:(lia))
      as [(k & a & s' & Hk & Hfl & Ha & -> & Hr & Hw)|(e' & s' & Hfl & Ha & -> & Hr & Hw)]; cbn in *.
    + left. exists (S k), a, s'. split_and!; [lia| |by rewrite (answer_S _ _ _ _ Ec)|done|lia|].
      * intros [|j] Hj; [done|]. unfold fails. rewrite (answer_S _ _ _ _ Ec). apply Hfl. lia.
      * rewrite Hw. cbn. by rewrite <- app_assoc.
    + right. exists e', s'. split_and!; [|by rewrite (answer_S _ _ _ _ Ec)|done|lia|].
      * intros [|j] Hj; [done|]. unfold fails. rewrite (answer_S _ _ _ _ Ec). apply Hfl. lia.
      * rewrite Hw. cbn. by rewrite <- app_assoc.
Qed.
End LoopFacts.

Definition BlockNumber (fuel : nat) (r : RealRPC) : retry_state -> exec retry_state (result Z) Empty_set :=
  retry_loop eth_BlockNumber "block number retries exhausted: " (maxRetries r) (retryBaseWait r) fuel 0 None.

Definition fetch_filter (fromBlock toBlock : Z) (addresses : list string) (topics : list (list string)) : FilterQuery :=
  MkQuery fromBlock toBlock (map HexToAddress addresses) (map (map HexToHash) topics).

Definition to_LogResult (l : Log) : LogResult :=
  MkLog (FormatUint (LBlockNumber l)) (LBlockNumber l) (Hash_Hex (LTxHash l)) (Address_Hex (LAddress l))
    (map Hash_Hex (LTopics l)) (Bytes2Hex (LData l)).

Definition fetchRawLogs (fromBlock toBlock : Z) (addresses : list string) (topics : list (list string))
    (cx : Ctx) (c : C) : C * result (list LogResult) :=
  let (c', raw) := eth_FilterLogs cx c (fetch_filter fromBlock toBlock addresses topics) in
  (c', match raw with Err err => Err err | Ok logs => Ok (map to_LogResult logs) end).

Definition EthGetLogs (fuel : nat) (r : RealRPC) (fromBlock toBlock : Z) (addresses : list string)
    (topics : list (list string)) : retry_state -> exec retry_state (result (list LogResult)) Empty_set :=
  retry_loop (fetchRawLogs fromBlock toBlock addresses topics) "get logs retries exhausted: "
    (maxRetries r) (retryBaseWait r) fuel 0 None.

(** The shifts and products of [int64] are those of the integers, wrapped once. *)
Lemma backoff_i64 base i : backoff base i = i64 (base * 2 ^ Z.of_nat i).
Proof.
  unfold backoff, i64_mul, i64_shl1. rewrite Z.shiftl_mul_pow2, Z.mul_1_l by lia. generalize (2 ^ Z.of_nat i). intros y.
  unfold i64 at 2. rewrite (Z.mod_eq (y + two63) two64) by done. unfold i64. f_equal.
  replace (base * (y + two63 - two64 * ((y + two63) / two64) - two63) + two63)
    with (base * y + two63 + - (base * ((y + two63) / two64)) * two64) by ring.
  by rewrite Z.mod_add.
Qed.

Lemma waits_i64 base k : backoff base <$> seq 0 k = (fun i => i64 (base * 2 ^ Z.of_nat i)) <$> seq 0 k.
Proof. apply list_fmap_ext. intros i ? _. apply backoff_i64. Qed.

(** C29: With a live context [EthGetLogs] makes at most [maxRetries + 1]
    calls: it returns the logs of the first one that succeeds, converted, or
    the last error wrapped.  The retry counter grows by the number of failed
    calls, and after failed call [i] but the last it waits [retryBaseWait * 2^i]
    nanoseconds, as an [int64]: the product wraps around where it leaves 64 bits. *)
Theorem EthGetLogs_retries fuel r s a b ad tp :
  let call := fetchRawLogs a b ad tp in
  let n := Z.to_nat (maxRetries r) in
  (forall k, ctx k = None) -> 0 <= maxRetries r -> (n < fuel)%nat ->
  (exists k logs s', (k <= n)%nat /\ (forall j, (j < k)%nat -> fails call j (rs_client s)) /\
     answer call k (rs_client s) = Ok logs /\ EthGetLogs fuel r a b ad tp s = Return (Ok logs) s' /\
     rs_retries s' = rs_retries s + Z.of_nat k /\
     rs_waits s' = rev ((fun i => i64 (retryBaseWait r * 2 ^ Z.of_nat i)) <$> seq 0 k) ++ rs_waits s) \/
  (exists e s', (forall j, (j <= n)%nat -> fails call j (rs_client s)) /\ answer call n (rs_client s) = Err e /\
     EthGetLogs fuel r a b ad tp s = Return (Err (EWrap "get logs retries exhausted: " e)) s' /\
     rs_retries s' = rs_retries s + Z.of_nat n + 1 /\
     rs_waits s' = rev ((fun i => i64 (retryBaseWait r * 2 ^ Z.of_nat i)) <$> seq 0 n) ++ rs_waits s).
Proof.
  intros call n Hctx Hmax Hf. setoid_rewrite <- waits_i64. apply retry_live; [done|unfold n; lia|done].
Qed.
End Retry.

(** The waits: they double with each attempt as long as the product is a
    [time.Duration], and from attempt 64 on the shifted bit is gone and the
    client retries without waiting. *)
Theorem backoff_spec base i :
  0 <= base -> (base * 2 ^ Z.of_nat i < two63 -> backoff base i = base * 2 ^ Z.of_nat i) /\
               ((64 <= i)%nat -> backoff base i = 0).
Proof.
  intros Hb. unfold backoff, i64_mul, i64_shl1. rewrite Z.shiftl_mul_pow2, Z.mul_1_l by lia. split.
  - intros Hlt. destruct (decide (base = 0)) as [->|Hne]; [done|].
    pose proof (Z.pow_pos_nonneg 2 (Z.of_nat i) ltac:(lia) ltac:(lia)).
    rewrite (i64_small (2 ^ _)) by (unfold is_i64, two63 in *; nia). apply i64_small. unfold is_i64, two63 in *. nia.
  - intros Hi. replace (2 ^ Z.of_nat i) with (2 ^ (Z.of_nat i - 64) * two64).
    + unfold i64. rewrite (Z.add_comm (_ * two64)), Z.mod_add by done. change (two63 mod two64 - two63) with 0.
      by rewrite Z.mul_0_r.
    + unfold two64. change 18446744073709551616 with (2 ^ 64). rewrite <- Z.pow_add_r by lia. f_equal. lia.
Qed.

(** ** [RealRPC] as the node of a task *)

(** How the context changes and which [select] case wins during a call. *)
Variable later : nat -> Ctx.
Variable timer_first : nat -> bool.

(** A call that starts on a done context finds it done all along. *)
Definition call_ctx (cx : Ctx) (n : nat) : Ctx := if cx is Some _ then cx else later n.

Definition run_call {A} (r : RealRPC) (m : retry_state -> exec retry_state (result A) Empty_set) : RealRPC * result A :=
  let s := MkRetry (client r) 0 0 [] in
  (MkRealRPC (rs_client (final (m s))) (maxRetries r) (retryBaseWait r), default (Err (EWrapNil "")) (returned (m s))).

Definition attempts (r : RealRPC) : nat := S (Z.to_nat (maxRetries r)).

#[export] Instance RealRPC_querier : RPCQuerier RealRPC := {
  rpc_BlockNumber cx r := run_call r (BlockNumber (call_ctx cx) timer_first (attempts r) r);
  rpc_EthGetLogs cx r a b ad tp := run_call r (EthGetLogs (call_ctx cx) timer_first (attempts r) r a b ad tp) }.

Lemma run_call_Ok {A} (r : RealRPC) (m : retry_state -> exec retry_state (result A) Empty_set) a :
  (run_call r m).2 = Ok a -> exists s s', m s = Return (Ok a) s'.
Proof.
  unfold run_call. cbn [snd]. set (s := MkRetry _ _ _ _). destruct (m s) as [[]|x s'|s'|s'|s'] eqn:E; try done.
  cbn. intros ->. eauto.
Qed.

(** What a task gets from the node is what a call of the client returned. *)
Lemma RealRPC_BlockNumber_Ok cx (r r' : RealRPC) n :
  rpc_BlockNumber cx r = (r', Ok n) -> exists cx' c c', eth_BlockNumber cx' c = (c', Ok n).
Proof.
  intros Hq. apply (f_equal snd) in Hq. cbn [snd] in Hq.
  apply run_call_Ok in Hq as (s & s' & Hq). by eapply retry_Ok.
Qed.

Lemma RealRPC_EthGetLogs_Ok cx (r r' : RealRPC) a b ad tp logs :
  rpc_EthGetLogs cx r a b ad tp = (r', Ok logs) ->
  exists cx' c c' raws, eth_FilterLogs cx' c (fetch_filter a b ad tp) = (c', Ok raws) /\ logs = map to_LogResult raws.
Proof.
  intros Hq. apply (f_equal snd) in Hq. cbn [snd] in Hq.
  apply run_call_Ok in Hq as (s & s' & Hq). apply retry_Ok in Hq as (cx' & c & c' & Hq). unfold fetchRawLogs in Hq.
  destruct (eth_FilterLogs cx' c _) as [c1 [raws|e]] eqn:E; [|done]. injection Hq as _ <-. eauto 10.
Qed.

(** [ctx.Err()] is [context.Canceled] or [context.DeadlineExceeded]. *)
Definition context_errors (ctx : nat -> Ctx) : Prop :=
  forall n e, ctx n = Some e -> e = ECanceled \/ e = EDeadlineExceeded.

Lemma wrapped_not_range pre e :
  strip_prefix pre "block range too large" = None -> strip_prefix pre "query timeout" = None ->
  strip_prefix pre "rate limit exceeded" = None -> IsRateLimitOrRangeErr (Some (EWrap pre e)) = false.
Proof.
  intros H1 H2 H3. unfold IsRateLimitOrRangeErr.
  apply (Error_wrap_neq _ e) in H1, H2, H3. apply String.eqb_neq in H1, H2, H3. by rewrite H1, H2, H3.
Qed.

(** No error of [EthGetLogs] is one the task shrinks its batch for. *)
Lemma EthGetLogs_no_range ctx cx r r' a b ad tp er :
  context_errors ctx -> context_errors later -> (exists n, cx = ctx n) ->
  rpc_EthGetLogs cx r a b ad tp = (r', Err er) -> IsRateLimitOrRangeErr (Some er) = false.
Proof.
  intros Hctx Hlater [n0 ->]. cbn [rpc_EthGetLogs RealRPC_querier]. unfold run_call. intros Hr. injection Hr as _ He.
  destruct (retry_returns (call_ctx (ctx n0)) timer_first (fetchRawLogs a b ad tp) "get logs retries exhausted: " (maxRetries r) (retryBaseWait r)
    (attempts r) 0 None (MkRetry (client r) 0 0 [])) as (res & s' & Hret); [unfold attempts; lia|].
  unfold EthGetLogs in He. rewrite Hret in He. cbn in He. subst res.
  apply retry_errors in Hret as [[n Hn]|[[e' ->]| ->]]; [|by apply wrapped_not_range|done].
  unfold call_ctx in Hn. assert (He : er = ECanceled \/ er = EDeadlineExceeded) by (destruct (ctx n0) as [e0|] eqn:E; [apply (Hctx n0)|apply (Hlater n)]; congruence).
  by destruct He as [-> | ->].
Qed.

Context {St Hd Pl : Type}.
Context `{CheckpointStore St, LogBatchHandler Hd, PendingPool Pl}.

(** C34: The batch of a production task never shrinks.  [RealRPC] wraps every
    error of the node, [IsRateLimitOrRangeErr] compares whole messages, and so
    no error of [EthGetLogs] is recognised: whatever the node answers, and also
    when it asks for smaller ranges, [RunOnce] leaves the batch size as it is. *)
Theorem RealRPC_never_shrinks ctx pick fuel (w : world RealRPC St Hd Pl) :
  context_errors ctx -> context_errors later -> sems_ok (w_task w) -> sems_free (w_task w) ->
  BatchSize (w_task (final (RunOnce ctx pick fuel w))) = BatchSize (w_task w).
Proof.
  intros Hctx Hlater Hok Hfree. apply RunOnce_batch; [|done|done].
  intros n r r' a b ad tp er Hq. by eapply (EthGetLogs_no_range ctx (ctx n)); [..|exact Hq]; eauto.
Qed.
End RealRPC.

(** ** A node that only knows small ranges *)

(** It answers [FilterLogs] for at most [limit] blocks. *)
Record LimitedNode := MkLimited { limited_head : Z; limit : Z }.

#[export] Instance LimitedNode_client : @EthClient string string LimitedNode := {
  eth_BlockNumber _ c := (c, Ok (limited_head c));
  eth_FilterLogs _ c q :=
    (c, if limit c <? ToBlock q - FromBlock q + 1 then Err (ENew "block range too large") else Ok []) }.

Definition limited_querier : RPCQuerier (@RealRPC LimitedNode) :=
  RealRPC_querier id id id id hex_EncodeToString live first_case.

Definition limited_task : world (@RealRPC LimitedNode) Memory.MemoryCheckpointStore unit BlockPendingPool :=
  MkWorld (MkTask (demo_config 6) 100 10 (MkRealRPC (MkLimited 125 5) 3 500000000) (Memory.NewMemoryCheckpointStore 100) tt
    (MkSem 10 0) (MkSem 3 0) (Some NewBlockPendingPool) None) 0 ∅ [].

Lemma EthGetLogs_retries_witness :
  let r := MkRealRPC (MkLimited 125 5) 3 500000000 in
  exists s', EthGetLogs id id id id hex_EncodeToString live first_case 4 r 100 109 [] [] (MkRetry (client r) 0 0 []) =
      Return (Err (EWrap "get logs retries exhausted: " (ENew "block range too large"))) s' /\
    rs_retries s' = 4 /\ rs_waits s' = [2000000000; 1000000000; 500000000].
Proof.
  intros r.
  destruct (EthGetLogs_retries id id id id hex_EncodeToString live first_case 4 r (MkRetry (client r) 0 0 []) 100 109 [] [])
    as [(k & logs & s' & _ & _ & Ha & Hr & _)|(e & s' & _ & Ha & Hr & Hn & Hw)]; [done|cbn; lia|cbn; lia| |].
  - exfalso. apply (f_equal returned) in Hr. vm_compute in Hr. discriminate Hr.
  - vm_compute in Ha. injection Ha as <-. exists s'. split; [exact Hr|]. split; [exact Hn|].
    rewrite Hw. vm_compute. reflexivity.
Defined.

Lemma backoff_spec_witness : backoff 500000000 2 = 2000000000 /\ backoff 500000000 64 = 0.
Proof.
  split; [apply (backoff_spec 500000000 2); [lia|reflexivity]|apply (backoff_spec 500000000 64); lia].
Defined.

Lemma RealRPC_never_shrinks_witness :
  let w' := final (@RunOnce _ _ _ _ limited_querier _ _ _ live first_case 100 limited_task) in
  BatchSize (w_task w') = 10 /\ fst <$> returned (@RunOnce _ _ _ _ limited_querier _ _ _ live first_case 100 limited_task) = Some false.
Proof.
  intros w'. split; [|vm_compute; reflexivity].
  apply (RealRPC_never_shrinks id id id id hex_EncodeToString live first_case live first_case 100 limited_task);
    [done|done|by split|by split].
Defined.
