(* ===== verification/TaskLoop.v ===== *)
(** * The main loop of a task and its watchdog ([LogTask.TaskLoop], [TaskRunner])

    [TaskLoop] runs rounds until one fails, the history is caught up, or the
    context is done; the goroutine [RunAll] starts for each task restarts it with
    growing pauses.  The theorems say when each of them ends and with what, what
    the health gauges show, and how long the pauses are. *)

From stdpp Require Import base gmap list strings relations.
From Stdlib Require Import ZArith Lia.
From S2P Require Import Prelude GoStd LogTypes Semaphore PendingPool Checkpoint RunOnce Scenario RunOnceSpec RunOnceTotal.

Local Open Scope Z_scope.

(** ** The pauses of the watchdog *)

(** [backoff *= 2; if backoff > task.MaxBackoff { backoff = task.MaxBackoff }]. *)
Definition next_backoff (MaxBackoff backoff : Z) : Z :=
  let doubled := i64_mul backoff 2 in if MaxBackoff <? doubled then MaxBackoff else doubled.

(** The pauses: the first is [RestartBackoff], the later ones double, up to [MaxBackoff]. *)
Definition nth_backoff (MaxBackoff base : Z) (i : nat) : Z := Nat.iter i (next_backoff MaxBackoff) base.

Lemma next_backoff_small M b : 0 <= b -> 0 <= M -> b < 2 ^ 62 -> M < 2 ^ 62 -> next_backoff M b = Z.min M (2 * b).
Proof.
  intros Hb HM Hb2 HM2. unfold next_backoff, i64_mul. rewrite i64_small by (unfold is_i64, two63; lia).
  destruct (Z.ltb_spec M (b * 2)); lia.
Qed.

Section TaskLoop.
Context {R S H P : Type}.
Context `{RPCQuerier R, CheckpointStore S, LogBatchHandler H, PendingPool P}.
(** The environment: the context, the ready case a [select] takes, the time, and
    the pool [NewBlockPendingPool] makes. *)
Variable ctx : nat -> Ctx.
Variable pick : nat -> bool.
Variable now : nat -> Z.
Variable NewPool : P.

Local Abbreviation world := (world R S H P).
Local Open Scope go_scope.

(** [TaskLoop] returns an [error]. *)
Definition loop_prog (A : Type) : Type := M world (option error) A.

Definition label (w : world) : list string := [TaskName (Config (w_task w))].
Definition set_gauge (name : string) (v : Z) (w : world) : world := with_metrics (metric_set name (label w) v) w.
Definition gauge_of (name : string) (w : world) : Z := metric_get (w_metrics w) name (label w).

Definition call_RunOnce (fuel : nat) : loop_prog (bool * option error) := fun w =>
  match RunOnce ctx pick fuel w with
  | Return r w' => Cont r w'
  | Cont e _ => match e with end
  | Blocked w' => Blocked w'
  | Panicked w' => Panicked w'
  | OutOfFuel w' => OutOfFuel w'
  end.

(** [select { case <-ctx.Done(): return ctx.Err(); default: }]. *)
Definition poll_ctx : loop_prog unit := fun w =>
  match now_ctx ctx w with Some e => Return (Some e) (tick w) | None => Cont tt (tick w) end.

(** [select { case <-ctx.Done(): return ctx.Err(); case <-time.After(d): }]. *)
Definition wait_ctx : loop_prog unit := fun w =>
  match now_ctx ctx w with
  | Some e => if pick (w_clock w) then Cont tt (tick w) else Return (Some e) (tick w)
  | None => Cont tt (tick w)
  end.

(** [t.unhealthyStart = time.Now()] unless it is set, and the gauge, here in
    nanoseconds. *)
Definition mark_unhealthy (w : world) : world :=
  let start := default (now (w_clock w)) (unhealthyStart (w_task w)) in
  let w1 := tick (with_task (set_unhealthyStart (Some start)) w) in
  set_gauge metricTaskUnhealthySec (now (w_clock w1) - start) w1.

Definition mark_healthy (w : world) : world :=
  set_gauge metricTaskUnhealthySec 0 (with_task (set_unhealthyStart None) w).

(** The body of [for]. *)
Definition TaskLoop_iter (fuel : nat) : loop_prog unit :=
  poll_ctx ;;
  r <- call_RunOnce fuel ;;
  match r with
  | (_, Some err) => modify mark_unhealthy ;; return_ (Some err)
  | (caughtUp, None) =>
      modify mark_healthy ;;
      live <- gets (fun w => LiveMode (Config (w_task w))) ;;
      if negb live then return_ None
      else if caughtUp then modify (set_gauge metricTaskLiveMode 1) ;; wait_ctx
      else modify (set_gauge metricTaskLiveMode 0)
  end.

Fixpoint TaskLoop_loop (rounds fuel : nat) : loop_prog Empty_set :=
  match rounds with
  | O => out_of_fuel
  | Datatypes.S n => TaskLoop_iter fuel ;; TaskLoop_loop n fuel
  end.

(** The deferred function. *)
Definition TaskLoop_deferred (w : world) : world :=
  set_gauge metricTaskUnhealthySec 0 (set_gauge metricTaskHealth 0 w).

(** [defer f] runs it on every return, and when the body panics. *)
Definition with_defer {A} (f : world -> world) (m : loop_prog A) : loop_prog A := fun w =>
  match m w with
  | Return r w' => Return r (f w')
  | Panicked w' => Panicked (f w')
  | x => x
  end.

Definition TaskLoop (rounds fuel : nat) : loop_prog Empty_set :=
  modify (fun w => match Pool (w_task w) with None => with_task (set_Pool (Some NewPool)) w | Some _ => w end) ;;
  modify (set_gauge metricTaskHealth 1) ;;
  with_defer TaskLoop_deferred (TaskLoop_loop rounds fuel).

(** ** When it ends *)

Lemma label_set_gauge name v w : label (set_gauge name v w) = label w.
Proof. done. Qed.

Lemma gauge_set name v name' w :
  gauge_of name' (set_gauge name v w) = if decide (name = name') then v else gauge_of name' w.
Proof.
  unfold gauge_of, set_gauge. cbn. rewrite metric_get_set. change (label (with_metrics _ w)) with (label w).
  repeat case_decide; congruence.
Qed.

(** Every return of the loop is a failed round, a done context, or, for a task
    that is not live, a finished one. *)
Definition loop_end (r : option error) (w : world) : Prop :=
  match r with
  | None => LiveMode (Config (w_task w)) = false /\ unhealthyStart (w_task w) = None
  | Some e => (exists n, ctx n = Some e) \/ exists start, unhealthyStart (w_task w) = Some start
  end.

Lemma iter_end fuel w : wp (fun _ _ => True) loop_end (fun _ => True) (TaskLoop_iter fuel w).
Proof.
  unfold TaskLoop_iter. unfold bind at 1, poll_ctx, now_ctx.
  destruct (ctx (w_clock w)) as [e|] eqn:Ec; [left; by eexists|].
  unfold bind at 1, call_RunOnce. destruct (RunOnce ctx pick fuel (tick w)) as [[]|[b [e|]] w'|w'|w'|w']; try exact I.
  - cbn. right. by eexists.
  - unfold bind at 1, modify at 1, bind at 1, gets. cbn.
    destruct (LiveMode (Config (w_task w'))) eqn:El; cbn; [|done].
    destruct b; cbn; [|done]. unfold wait_ctx, now_ctx. cbn.
    destruct (ctx (w_clock w')) as [e|] eqn:Ec'; [|done]. destruct (pick (w_clock w')); [done|]. left. by eexists.
Qed.

Lemma loop_ends rounds fuel : forall w, wp (fun _ _ => True) loop_end (fun _ => True) (TaskLoop_loop rounds fuel w).
Proof.
  induction rounds as [|rounds IH]; intros w; [done|]. cbn [TaskLoop_loop]. apply wp_bind.
  eapply wp_mono; [apply iter_end| |done|done]. intros [] w' _. apply IH.
Qed.

(** The world in which the loop is entered. *)
Definition entered (w : world) : world :=
  set_gauge metricTaskHealth 1 (match Pool (w_task w) with None => with_task (set_Pool (Some NewPool)) w | Some _ => w end).

Lemma TaskLoop_entered rounds fuel w :
  TaskLoop rounds fuel w = with_defer TaskLoop_deferred (TaskLoop_loop rounds fuel) (entered w).
Proof. done. Qed.

(** A round after which the loop goes on. *)
Definition continues (fuel : nat) (w w' : world) : Prop := TaskLoop_iter fuel w = Cont tt w'.

Lemma continues_final fuel w : went_on (TaskLoop_iter fuel w) = true -> continues fuel w (final (TaskLoop_iter fuel w)).
Proof. apply went_on_Cont. Qed.

(** The last iteration, from the world it starts in: the context was done, or
    the round failed, or it was the one round of a task that is not live. *)
Inductive last_round (fuel : nat) (w : world) : option error -> world -> Prop :=
  | last_polled e : now_ctx ctx w = Some e -> last_round fuel w (Some e) (tick w)
  | last_failed b e w1 : now_ctx ctx w = None -> RunOnce ctx pick fuel (tick w) = Return (b, Some e) w1 ->
      last_round fuel w (Some e) (mark_unhealthy w1)
  | last_history b w1 : now_ctx ctx w = None -> RunOnce ctx pick fuel (tick w) = Return (b, None) w1 ->
      LiveMode (Config (w_task w1)) = false -> last_round fuel w None (mark_healthy w1)
  | last_waiting w1 e : now_ctx ctx w = None -> RunOnce ctx pick fuel (tick w) = Return (true, None) w1 ->
      let w2 := set_gauge metricTaskLiveMode 1 (mark_healthy w1) in
      now_ctx ctx w2 = Some e -> last_round fuel w (Some e) (tick w2).

Lemma iter_last fuel w r w' : TaskLoop_iter fuel w = Return r w' -> last_round fuel w r w'.
Proof.
  unfold TaskLoop_iter. unfold bind at 1, poll_ctx. destruct (now_ctx ctx w) as [e|] eqn:Ec; [intros [= <- <-]; by apply last_polled|].
  unfold bind at 1, call_RunOnce. destruct (RunOnce ctx pick fuel (tick w)) as [[]|[b [e|]] w1|w1|w1|w1] eqn:Er; try done.
  - intros [= <- <-]. by eapply last_failed.
  - unfold bind at 1, modify at 1, bind at 1, gets. cbn -[now_ctx].
    destruct (LiveMode (Config (w_task w1))) eqn:El; cbn -[now_ctx]; [|intros [= <- <-]; by eapply last_history].
    destruct b; [|done]. unfold bind, modify, wait_ctx.
    destruct (now_ctx ctx (set_gauge metricTaskLiveMode 1 (mark_healthy w1))) as [e|] eqn:Ew; [|done].
    destruct (pick _); [done|]. intros [= <- <-]. by eapply last_waiting.
Qed.

(** The loop returns after some rounds that went on, by its last iteration. *)
Lemma loop_last fuel r w' rounds : forall w, TaskLoop_loop rounds fuel w = Return r w' ->
  exists k wk, (k < rounds)%nat /\ nsteps (continues fuel) k w wk /\ TaskLoop_iter fuel wk = Return r w'.
Proof.
  induction rounds as [|rounds IH]; intros w; [done|]. cbn [TaskLoop_loop]. unfold bind.
  destruct (TaskLoop_iter fuel w) as [[] w1|r1 w1|w1|w1|w1] eqn:Ei; try done.
  - intros (k & wk & Hk & Hs & Hl)%IH. exists (Datatypes.S k), wk. split; [lia|]. split; [by eapply nsteps_l|done].
  - intros [= <- <-]. exists 0%nat, w. split; [lia|]. split; [constructor|done].
Qed.

Lemma loop_after fuel r w' k : forall rounds w wk, nsteps (continues fuel) k w wk -> (k < rounds)%nat ->
  TaskLoop_iter fuel wk = Return r w' -> TaskLoop_loop rounds fuel w = Return r w'.
Proof.
  induction k as [|k IH]; intros [|rounds] w wk Hs Hk Hl; try lia; cbn [TaskLoop_loop]; unfold bind.
  - inversion Hs; subst. by rewrite Hl.
  - inversion Hs as [|? ? w1 ? Hc Hs1]; subst. unfold continues in Hc. rewrite Hc. eapply IH; [done|lia|done].
Qed.

(** [TaskLoop] returns in its last round, and then runs the deferred function. *)
Lemma TaskLoop_last rounds fuel w r w' : TaskLoop rounds fuel w = Return r w' ->
  exists k wk w1, nsteps (continues fuel) k (entered w) wk /\ last_round fuel wk r w1 /\ w' = TaskLoop_deferred w1.
Proof.
  rewrite TaskLoop_entered. unfold with_defer.
  destruct (TaskLoop_loop rounds fuel (entered w)) as [[]|r1 w1|w1|w1|w1] eqn:El; try done. intros [= <- <-].
  apply loop_last in El as (k & wk & _ & Hs & Hl). exists k, wk, w1. split; [done|]. split; [by apply iter_last|done].
Qed.

(** The first round that fails, however many went before, is the last. *)
Lemma TaskLoop_fails k rounds fuel w wk b e w1 :
  nsteps (continues fuel) k (entered w) wk -> (k < rounds)%nat ->
  now_ctx ctx wk = None -> RunOnce ctx pick fuel (tick wk) = Return (b, Some e) w1 ->
  TaskLoop rounds fuel w = Return (Some e) (TaskLoop_deferred (mark_unhealthy w1)).
Proof.
  intros Hs Hk Hc Hr. rewrite TaskLoop_entered. unfold with_defer.
  rewrite (loop_after fuel (Some e) (mark_unhealthy w1) k rounds _ wk); [done|done|done|].
  unfold TaskLoop_iter. unfold bind at 1, poll_ctx. rewrite Hc. unfold bind at 1, call_RunOnce. by rewrite Hr.
Qed.

Lemma TaskLoop_unfold rounds fuel w :
  exists w1, Config (w_task w1) = Config (w_task w) /\ is_Some (Pool (w_task w1)) /\ unhealthyStart (w_task w1) = unhealthyStart (w_task w) /\
    (exists p, w_task w1 = set_Pool (Some p) (w_task w)) /\
    TaskLoop rounds fuel w = with_defer TaskLoop_deferred (TaskLoop_loop rounds fuel) w1.
Proof.
  unfold TaskLoop. destruct (Pool (w_task w)) as [p|] eqn:Ep.
  - unfold bind, modify. rewrite Ep. exists (set_gauge metricTaskHealth 1 w). split_and!; try done.
    exists p. cbn. rewrite <- Ep. by destruct (w_task w).
  - unfold bind, modify. rewrite Ep. exists (set_gauge metricTaskHealth 1 (with_task (set_Pool (Some NewPool)) w)).
    split_and!; try done; by eexists.
Qed.

Lemma TaskLoop_returns rounds fuel w r w' : TaskLoop rounds fuel w = Return r w' -> loop_end r w'.
Proof.
  destruct (TaskLoop_unfold rounds fuel w) as (w1 & _ & _ & _ & _ & ->). unfold with_defer.
  pose proof (loop_ends rounds fuel w1) as Hl.
  destruct (TaskLoop_loop rounds fuel w1); try done. intros [= <- <-]. cbn in Hl. by destruct r0.
Qed.

(** C32: What [TaskLoop] ends with, after some number of rounds that went on.  It
    returns [nil] only for a task that is not live, when its round was good; an
    error is that of the context, seen at a look, or the very error the last
    [RunOnce] returned, and then the task remembers since when it is unhealthy:
    since before, if it was, or since now.  When it has returned, the health gauge
    is 0, and so is the gauge of the seconds it is unhealthy, also after a failed
    round, so that an alert on it cannot fire. *)
Theorem TaskLoop_ends rounds fuel w r w' :
  TaskLoop rounds fuel w = Return r w' ->
  (exists k wk, nsteps (continues fuel) k (entered w) wk /\
    match r with
    | None =>
        exists b w1, RunOnce ctx pick fuel (tick wk) = Return (b, None) w1 /\
          LiveMode (Config (w_task w')) = false /\ unhealthyStart (w_task w') = None
    | Some e =>
        (exists n, ctx n = Some e) \/
        exists b w1, RunOnce ctx pick fuel (tick wk) = Return (b, Some e) w1 /\
          unhealthyStart (w_task w') = Some (default (now (w_clock w1)) (unhealthyStart (w_task w1)))
    end) /\
  gauge_of metricTaskHealth w' = 0 /\ gauge_of metricTaskUnhealthySec w' = 0.
Proof.
  intros (k & wk & w1 & Hs & Hl & ->)%TaskLoop_last. split; [|unfold TaskLoop_deferred; by rewrite !gauge_set].
  exists k, wk. split; [done|]. destruct Hl as [e Hc|b e w1 _ Hr|b w1 _ Hr Hlive|w1 e _ _ w2 Hc]; [left; by eexists|right| |left; by eexists].
  - by exists b, w1.
  - by exists b, w1.
Qed.

(** ** What every round keeps, the loop keeps *)

(** The worlds differ only in the metrics, the time and [unhealthyStart]. *)
Definition same_task (w w' : world) : Prop :=
  exists u, w_task w' = set_unhealthyStart u (w_task w) /\ w_trace w' = w_trace w.

Lemma same_task_intro (w w' : world) : w_task w' = w_task w -> w_trace w' = w_trace w -> same_task w w'.
Proof. intros Ht Htr. exists (unhealthyStart (w_task w)). split; [rewrite Ht; by destruct (w_task w)|done]. Qed.

Section Keeps.
Variable Q : world -> Prop.
Hypothesis Q_same : forall w w', same_task w w' -> Q w -> Q w'.
Variable fuel : nat.
Hypothesis Q_round : forall w, Q w -> Q (final (RunOnce ctx pick fuel w)).

Lemma iter_keeps w : Q w -> Q (final (TaskLoop_iter fuel w)).
Proof.
  intros HQ. unfold TaskLoop_iter. unfold bind at 1, poll_ctx.
  assert (HQ1 : Q (tick w)) by (by apply (Q_same w), HQ; apply same_task_intro).
  destruct (now_ctx ctx w); [exact HQ1|]. pose proof (Q_round _ HQ1) as HQ2.
  unfold bind at 1, call_RunOnce. destruct (RunOnce ctx pick fuel (tick w)) as [[]|[b [e|]] w'|w'|w'|w']; cbn [final] in HQ2; try exact HQ2.
  - apply (Q_same w'), HQ2. by eexists.
  - assert (HQ3 : Q (mark_healthy w')) by (apply (Q_same w'), HQ2; by eexists).
    unfold bind at 1, modify at 1, bind at 1, gets. destruct (negb _); [exact HQ3|].
    destruct b; [|apply (Q_same (mark_healthy w')), HQ3; by apply same_task_intro].
    unfold bind, modify, wait_ctx.
    assert (HQ4 : Q (tick (set_gauge metricTaskLiveMode 1 (mark_healthy w'))))
      by (apply (Q_same (mark_healthy w')), HQ3; by apply same_task_intro).
    destruct (now_ctx ctx _); [|exact HQ4]. destruct (pick _); exact HQ4.
Qed.

Lemma loop_keeps rounds : forall w, Q w -> Q (final (TaskLoop_loop rounds fuel w)).
Proof.
  induction rounds as [|rounds IH]; intros w HQ; [exact HQ|]. cbn [TaskLoop_loop]. pose proof (iter_keeps w HQ) as HQ'.
  unfold bind. destruct (TaskLoop_iter fuel w); [by apply IH|done..].
Qed.

(** For a task that has its pool. *)
Lemma TaskLoop_keeps rounds w : is_Some (Pool (w_task w)) -> Q w -> Q (final (TaskLoop rounds fuel w)).
Proof.
  intros [p Hp] HQ. unfold TaskLoop. unfold bind at 1, modify at 1, bind, modify. rewrite Hp.
  assert (HQ1 : Q (set_gauge metricTaskHealth 1 w)) by (apply (Q_same w), HQ; by apply same_task_intro).
  apply (loop_keeps rounds) in HQ1. unfold with_defer.
  destruct (TaskLoop_loop rounds fuel (set_gauge metricTaskHealth 1 w)) as [[]|r w'|w'|w'|w']; cbn [final] in *; try done;
    (apply (Q_same w'), HQ1; by apply same_task_intro).
Qed.
End Keeps.

(** ** A live task keeps going *)

(** The head never comes near the end of [uint64], whatever the node answers,
    and [fuel] is enough for a round. *)
Definition roomy (B top : Z) : Prop :=
  top + B < two64 /\ forall cx (r r' : R) n, rpc_BlockNumber cx r = (r', Ok n) -> n <= top.

Definition loop_ready (B : Z) (w : world) : Prop :=
  runnable B (w_task w) /\ 0 <= Checkpoint (w_task w) /\ LiveMode (Config (w_task w)) = true.

Lemma roomy_room B top (w : world) : roomy B top -> 0 <= Checkpoint (w_task w) -> room ctx B w.
Proof.
  intros [Htop Hhd] Hcp. split; [done|]. destruct (head ctx w) as [latest|] eqn:E; [|done].
  unfold head in E. destruct (rpc_BlockNumber _ _) as [r' r] eqn:Eq. cbn in E. subst r. apply Hhd in Eq. lia.
Qed.

Lemma roomy_enough B top (w : world) : roomy B top -> runnable B (w_task w) -> 0 <= Checkpoint (w_task w) ->
  (enough ctx w <= Z.to_nat (top + 1 + Z.log2 B))%nat.
Proof.
  intros [Htop Hhd] (_ & _ & _ & HB) Hcp. unfold enough. destruct (head ctx w) as [latest|] eqn:E; [|lia].
  unfold head in E. destruct (rpc_BlockNumber _ _) as [r' r] eqn:Eq. cbn in E. subst r. apply Hhd in Eq.
  unfold todo. pose proof (Z.log2_le_mono (BatchSize (w_task w)) B). lia.
Qed.

Lemma health_quiet : metricTaskHealth ∉ round_metrics.
Proof. by apply (bool_decide_unpack _). Qed.

Lemma iter_live B top fuel w :
  @healthy R S H P _ _ _ _ ctx -> roomy B top -> (Z.to_nat (top + 1 + Z.log2 B) <= fuel)%nat -> loop_ready B w ->
  exists w', TaskLoop_iter fuel w = Cont tt w' /\ loop_ready B w' /\ gauge_of metricTaskUnhealthySec w' = 0 /\
    gauge_of metricTaskLiveMode w' = 1 /\ gauge_of metricTaskHealth w' = gauge_of metricTaskHealth w.
Proof.
  intros Hh Hroomy Hfuel (Hr & Hcp & Hlive). unfold TaskLoop_iter. unfold bind at 1, poll_ctx, now_ctx.
  rewrite (healthy_ctx _ Hh). pose proof (roomy_enough B top (tick w) Hroomy Hr Hcp) as He.
  pose proof (roomy_room B top (tick w) Hroomy Hcp) as Hroom.
  destruct (RunOnce_healthy ctx pick B fuel (tick w) Hh Hr Hroom ltac:(lia)) as [w1 Hw1].
  pose proof (RunOnce_frame ctx pick B fuel (tick w) Hr Hroom) as Hf. pose proof Hr as (Hok & Hfree & _).
  pose proof (RunOnce_batch ctx pick fuel (tick w) (healthy_no_range ctx Hh) Hok Hfree) as Hb.
  pose proof (RunOnce_checkpoint ctx pick fuel (tick w) Hok Hfree Hcp) as Hcp1.
  assert (Hq : gauge_of metricTaskHealth w1 = gauge_of metricTaskHealth w).
  { pose proof (RunOnce_quiet ctx pick metricTaskHealth (label w) health_quiet fuel (tick w)) as Hq.
    rewrite Hw1 in Hq. cbn [final] in Hq. unfold gauge_of, label. destruct Hf as [Hcf _]. rewrite Hw1 in Hcf. cbn [final] in Hcf.
    rewrite Hcf. exact Hq. }
  rewrite Hw1 in Hf, Hb, Hcp1. cbn [final] in Hf, Hb, Hcp1. destruct (frame_sems _ _ Hf) as [Hs1 Hs2].
  destruct Hf as (Hcfg & _ & _ & Hpool & _).
  unfold bind at 1, call_RunOnce. rewrite Hw1. unfold bind at 1, modify at 1, bind at 1, gets. cbn.
  rewrite Hcfg. cbn. rewrite Hlive. cbn. unfold bind, modify, wait_ctx, now_ctx. cbn. rewrite (healthy_ctx _ Hh).
  eexists. split; [reflexivity|]. split; [|split; [|split]].
  - split; [|split; [exact Hcp1|cbn; by rewrite Hcfg]]. destruct Hr as (_ & _ & Hp & HB).
    split; [exact (Hs1 Hok)|]. split; [exact (Hs2 Hfree)|]. split; [exact (Hpool Hp)|]. cbn. by rewrite Hb.
  - change (gauge_of metricTaskUnhealthySec (set_gauge metricTaskLiveMode 1 (mark_healthy w1)) = 0).
    unfold mark_healthy. by rewrite !gauge_set.
  - change (gauge_of metricTaskLiveMode (set_gauge metricTaskLiveMode 1 (mark_healthy w1)) = 1). by rewrite gauge_set.
  - rewrite <- Hq. change (gauge_of metricTaskHealth (set_gauge metricTaskLiveMode 1 (mark_healthy w1)) = gauge_of metricTaskHealth w1).
    unfold mark_healthy. by rewrite !gauge_set.
Qed.

(** C31: A live task whose calls do not fail keeps running: however many rounds
    it is given, [TaskLoop] has not returned, and its gauges show a live and
    healthy task: health 1, live mode 1, no seconds unhealthy. *)
Theorem TaskLoop_live B top rounds fuel w :
  @healthy R S H P _ _ _ _ ctx -> roomy B top -> (Z.to_nat (top + 1 + Z.log2 B) <= fuel)%nat ->
  runnable B (w_task w) \/ runnable B (set_Pool (Some NewPool) (w_task w)) ->
  0 <= Checkpoint (w_task w) -> LiveMode (Config (w_task w)) = true ->
  exists w', TaskLoop (Datatypes.S rounds) fuel w = OutOfFuel w' /\
    gauge_of metricTaskHealth w' = 1 /\ gauge_of metricTaskUnhealthySec w' = 0 /\ gauge_of metricTaskLiveMode w' = 1.
Proof.
  intros Hh Hroomy Hfuel Hr Hcp Hlive. rewrite TaskLoop_entered.
  assert (Hready : loop_ready B (entered w) /\ gauge_of metricTaskHealth (entered w) = 1).
  { unfold entered. rewrite gauge_set. split; [|done]. unfold loop_ready, runnable in *.
    destruct (Pool (w_task w)) as [p|] eqn:Ep; cbn; (split; [|done]); rewrite ?Ep in *; naive_solver. }
  destruct Hready as [Hready Hhealth]. unfold with_defer.
  enough (Hl : exists w', TaskLoop_loop (Datatypes.S rounds) fuel (entered w) = OutOfFuel w' /\
    gauge_of metricTaskHealth w' = 1 /\ gauge_of metricTaskUnhealthySec w' = 0 /\ gauge_of metricTaskLiveMode w' = 1)
    by (destruct Hl as (w' & -> & ?); eauto).
  clear Hr Hcp Hlive. revert Hready Hhealth. generalize (entered w). induction rounds as [|rounds IH]; intros w1 Hready Hhealth;
    destruct (iter_live B top fuel w1 Hh Hroomy Hfuel Hready) as (w' & Hi & Hready' & Hu & Hg & Hhl);
    rewrite Hhealth in Hhl; cbn [TaskLoop_loop]; unfold bind at 1; rewrite Hi; [by eexists|]. by apply IH.
Qed.

(** ** The watchdog: the goroutine [RunAll] starts for a task *)

(** The task's world, [backoff], and the pauses made, the latest first. *)
Record watch := MkWatch { wt_world : world; wt_backoff : Z; wt_pauses : list Z }.

Definition on_world (f : world -> world) (s : watch) : watch := MkWatch (f (wt_world s)) (wt_backoff s) (wt_pauses s).
Definition watch_prog (A : Type) : Type := M watch unit A.

Definition call_TaskLoop (rounds fuel : nat) : watch_prog (option error) := fun s =>
  let put w := on_world (fun _ => w) s in
  match TaskLoop rounds fuel (wt_world s) with
  | Return r w' => Cont r (put w')
  | Cont e _ => match e with end
  | Blocked w' => Blocked (put w')
  | Panicked w' => Panicked (put w')
  | OutOfFuel w' => OutOfFuel (put w')
  end.

Definition watch_ctx : watch_prog Ctx := fun s => Cont (now_ctx ctx (wt_world s)) (on_world tick s).

(** [select { case <-ctx.Done(): return; case <-timer.C: }], the pause noted. *)
Definition watch_pause : watch_prog unit := fun s =>
  let w := wt_world s in
  let s' := MkWatch (tick w) (wt_backoff s) (wt_backoff s :: wt_pauses s) in
  match now_ctx ctx w with
  | Some _ => if pick (w_clock w) then Cont tt s' else Return tt s'
  | None => Cont tt s'
  end.

Definition watch_iter (rounds fuel : nat) : watch_prog unit :=
  c <- watch_ctx ;;
  match c with
  | Some _ => return_ tt
  | None =>
      modify (on_world (with_metrics (metric_add metricTaskRunning [] 1))) ;;
      err <- call_TaskLoop rounds fuel ;;
      modify (on_world (with_metrics (metric_add metricTaskRunning [] (-1)))) ;;
      c <- watch_ctx ;;
      if errors_Is err c then return_ tt
      else
        modify (on_world (fun w => with_metrics (metric_add metricTaskRestartTotal (label w) 1) w)) ;;
        watch_pause ;;
        modify (fun s => MkWatch (wt_world s) (next_backoff (MaxBackoff (Config (w_task (wt_world s)))) (wt_backoff s)) (wt_pauses s))
  end.

Fixpoint watch_loop (restarts rounds fuel : nat) : watch_prog Empty_set :=
  match restarts with
  | O => out_of_fuel
  | Datatypes.S n => watch_iter rounds fuel ;; watch_loop n rounds fuel
  end.

Definition watch_start (w : world) : watch := MkWatch w (RestartBackoff (Config (w_task w))) [].

(** The goroutine of [w]'s task. *)
Definition watch_task (restarts rounds fuel : nat) (w : world) : exec watch unit Empty_set :=
  watch_loop restarts rounds fuel (watch_start w).

(** ** When the watchdog stops, and how long it pauses *)

Lemma TaskLoop_frame rounds fuel w r w' :
  sems_ok (w_task w) -> TaskLoop rounds fuel w = Return r w' ->
  Config (w_task w') = Config (w_task w) /\ sems_ok (w_task w').
Proof.
  intros Hok. destruct (TaskLoop_unfold rounds fuel w) as (w1 & _ & _ & _ & [p Ht] & ->).
  assert (Hw1 : Config (w_task w1) = Config (w_task w) /\ sems_ok (w_task w1)) by by rewrite Ht. clear Ht Hok.
  unfold with_defer. intros Hr.
  pose (Q := fun w' : world => Config (w_task w') = Config (w_task w) /\ sems_ok (w_task w')).
  enough (Hl : wp (fun _ => Q) (fun _ => Q) (fun _ => True) (TaskLoop_loop rounds fuel w1))
    by (destruct (TaskLoop_loop rounds fuel w1); try discriminate; injection Hr as _ <-; exact Hl).
  clear Hr. change (Q w1) in Hw1. revert w1 Hw1. induction rounds as [|rounds IH]; intros w1 Hw1; [done|].
  cbn [TaskLoop_loop]. apply wp_bind. unfold TaskLoop_iter. unfold bind at 1, poll_ctx.
  destruct (now_ctx ctx w1); [exact Hw1|]. unfold bind at 1, call_RunOnce.
  destruct (RunOnce ctx pick fuel (tick w1)) as [[]|[b [e|]] w2|w2|w2|w2] eqn:E; try done;
    (apply RunOnce_return_frame in E; [|apply Hw1]);
    assert (HQ2 : Q w2) by (split; [destruct E as [HE _]; rewrite HE; apply Hw1|apply (proj1 (frame_sems _ _ E)), Hw1]);
    [exact HQ2|].
  unfold bind, modify, gets. cbn. destruct (LiveMode _); cbn; [|exact HQ2].
  destruct b; cbn; [|by apply IH]. unfold wait_ctx. destruct (now_ctx ctx _); [destruct (pick _)|]; cbn; try (by apply IH). exact HQ2.
Qed.

(** The pauses made so far are the first ones of the sequence. *)
Definition paused (cfg : TaskConfig) (s : watch) : Prop :=
  exists k, rev (wt_pauses s) = nth_backoff (MaxBackoff cfg) (RestartBackoff cfg) <$> seq 0 k /\
    wt_backoff s = nth_backoff (MaxBackoff cfg) (RestartBackoff cfg) k.

Definition stopped (cfg : TaskConfig) : Prop := (exists n e, ctx n = Some e) \/ LiveMode cfg = false.

Lemma paused_snoc cfg s s' :
  paused cfg s -> wt_pauses s' = wt_backoff s :: wt_pauses s ->
  wt_backoff s' = next_backoff (MaxBackoff cfg) (wt_backoff s) -> paused cfg s'.
Proof.
  intros (k & Hp & Hb) Hp' Hb'. exists (Datatypes.S k). rewrite Hp', Hb', Hb. split; [|done].
  cbn [rev]. by rewrite Hp, seq_S, fmap_app.
Qed.

(** Part of a sequence of pauses. *)
Definition pauses_of (cfg : TaskConfig) (s : watch) : Prop :=
  exists k, rev (wt_pauses s) = nth_backoff (MaxBackoff cfg) (RestartBackoff cfg) <$> seq 0 k.

Lemma paused_pauses cfg s : paused cfg s -> pauses_of cfg s.
Proof. intros (k & ? & _). by exists k. Qed.

Lemma watch_iter_spec rounds fuel cfg s :
  paused cfg s -> Config (w_task (wt_world s)) = cfg -> sems_ok (w_task (wt_world s)) ->
  wp (fun _ s' => paused cfg s' /\ Config (w_task (wt_world s')) = cfg /\ sems_ok (w_task (wt_world s')))
     (fun _ s' => pauses_of cfg s' /\ stopped cfg) (pauses_of cfg) (watch_iter rounds fuel s).
Proof.
  intros Hp Hc Hok. pose proof (paused_pauses _ _ Hp) as Hps. unfold watch_iter. unfold bind at 1, watch_ctx, now_ctx.
  destruct (ctx _) as [e|] eqn:E0; [split; [done|left; by eauto]|].
  unfold bind at 1, modify at 1, bind at 1, call_TaskLoop.
  destruct (TaskLoop rounds fuel _) as [[]|r w'|w'|w'|w'] eqn:Et; try exact Hps.
  pose proof (TaskLoop_returns _ _ _ _ _ Et) as Hend.
  apply TaskLoop_frame in Et as [Hc' Hok']; [|exact Hok]. cbn in Hc'. rewrite Hc in Hc'.
  unfold bind at 1, modify at 1, bind at 1. cbn.
  destruct (errors_Is r (ctx (w_clock w'))) eqn:Ei.
  { split; [done|]. destruct (ctx (w_clock w')) as [e|] eqn:E1; [left; by eauto|]. destruct r; [done|].
    right. rewrite <- Hc'. apply Hend. }
  unfold bind, modify, watch_pause, now_ctx. cbn.
  assert (Hnext : forall w2, paused cfg (MkWatch w2 (next_backoff (MaxBackoff cfg) (wt_backoff s)) (wt_backoff s :: wt_pauses s)))
    by (intros w2; by eapply paused_snoc).
  destruct (ctx (Datatypes.S (w_clock w'))) as [e|] eqn:E2; [destruct (pick _)|]; cbn; rewrite ?Hc'.
  - split; [apply Hnext|done].
  - split; [|left; by eauto]. destruct (Hnext w') as (k & Hk & _). by exists k.
  - split; [apply Hnext|done].
Qed.

(** C30: The watchdog of a live task gives up only when the context is done,
    whatever fails and however often; for a task that is not live, it also ends
    after a round that caught up.  Wherever it is stopped, its pauses were the
    first ones of the back-off sequence, in order. *)
Theorem watch_task_spec restarts rounds fuel w :
  sems_ok (w_task w) ->
  let x := watch_task restarts rounds fuel w in
  let cfg := Config (w_task w) in
  (exists k, rev (wt_pauses (final x)) = nth_backoff (MaxBackoff cfg) (RestartBackoff cfg) <$> seq 0 k) /\
  (returned x = Some tt -> (exists n e, ctx n = Some e) \/ LiveMode cfg = false).
Proof.
  intros Hok. cbn zeta. unfold watch_task. set (cfg := Config (w_task w)).
  enough (Hl : forall s, paused cfg s -> Config (w_task (wt_world s)) = cfg -> sems_ok (w_task (wt_world s)) ->
    wp (fun _ _ => False) (fun _ s' => pauses_of cfg s' /\ stopped cfg) (pauses_of cfg) (watch_loop restarts rounds fuel s)).
  { assert (Hp0 : paused cfg (watch_start w)) by by exists 0%nat. specialize (Hl _ Hp0 eq_refl Hok).
    destruct (watch_loop restarts rounds fuel (watch_start w)) as [[]|[] s'|s'|s'|s']; cbn in *; [|by split..].
    destruct Hl. by split. }
  induction restarts as [|n IH]; intros s Hp Hc Hs; [by apply paused_pauses|]. cbn [watch_loop]. apply wp_bind.
  eapply wp_mono; [by apply watch_iter_spec| |done|done]. cbn. intros _ s' (? & ? & ?). by apply IH.
Qed.
End TaskLoop.

(** The pauses of the watchdog: with [RestartBackoff] and [MaxBackoff]
    below [2^62] nanoseconds pause [i] is [RestartBackoff] for [i = 0] and
    [min (MaxBackoff) (RestartBackoff * 2^i)] afterwards.  It never resets, and a
    [MaxBackoff] left at 0 makes every restart after the first one immediate. *)
Theorem nth_backoff_spec M b i :
  0 <= b < 2 ^ 62 -> 0 <= M < 2 ^ 62 ->
  nth_backoff M b i = (if (i =? 0)%nat then b else Z.min M (b * 2 ^ Z.of_nat i)) /\ 0 <= nth_backoff M b i < 2 ^ 62.
Proof.
  intros Hb HM. unfold nth_backoff. induction i as [|i [IH Hr]]; [done|].
  change (Nat.iter (S i) (next_backoff M) b) with (next_backoff M (Nat.iter i (next_backoff M) b)).
  rewrite next_backoff_small by lia. split; [|lia]. rewrite IH. cbn [Nat.eqb].
  rewrite Nat2Z.inj_succ, Z.pow_succ_r by lia. pose proof (Z.pow_pos_nonneg 2 (Z.of_nat i)).
  destruct i; cbn [Nat.eqb]; [change (2 ^ Z.of_nat 0) with 1|]; nia.
Qed.

Lemma nth_backoff_spec_witness :
  nth_backoff 60000000000 1000000000 3 = 8000000000 /\ nth_backoff 60000000000 1000000000 10 = 60000000000.
Proof.
  split; [apply (nth_backoff_spec 60000000000 1000000000 3); lia|apply (nth_backoff_spec 60000000000 1000000000 10); lia].
Defined.

(** ** Concrete tasks *)

(** A node whose head stays at 125 and that has no logs; one that is down. *)
Inductive IdleNode := Idle.
Inductive DownNode := Down.

#[export] Instance IdleNode_querier : RPCQuerier IdleNode := {
  rpc_BlockNumber _ r := (r, Ok 125);
  rpc_EthGetLogs _ r _ _ _ _ := (r, Ok []) }.
#[export] Instance DownNode_querier : RPCQuerier DownNode := {
  rpc_BlockNumber _ r := (r, Err (ENew "connection refused"));
  rpc_EthGetLogs _ r _ _ _ _ := (r, Err (ENew "connection refused")) }.

Definition node_task {R} (r : R) : world R Memory.MemoryCheckpointStore unit BlockPendingPool :=
  MkWorld (MkTask (demo_config 6) 100 10 r (Memory.NewMemoryCheckpointStore 100) tt
    (MkSem 10 0) (MkSem 3 0) (Some NewBlockPendingPool) None) 0 ∅ [].

Definition ticks (n : nat) : Z := Z.of_nat n.

Lemma TaskLoop_ends_witness :
  exists r w', TaskLoop live first_case ticks NewBlockPendingPool 5 9 (node_task Down) = Return r w' /\
    r <> None /\ gauge_of metricTaskUnhealthySec w' = 0.
Proof.
  set (x := TaskLoop live first_case ticks NewBlockPendingPool 5 9 (node_task Down)).
  assert (Hx : x = Return (Some (EWrap "get latest block: " (ENew "connection refused"))) (final x))
    by (apply returned_Return; vm_compute; reflexivity).
  destruct (TaskLoop_ends live first_case ticks NewBlockPendingPool 5 9 (node_task Down) _ _ Hx) as (_ & _ & Hg). eexists _, _. split; [exact Hx|]. split; [done|exact Hg].
Defined.

Lemma IdleNode_healthy : @healthy IdleNode Memory.MemoryCheckpointStore unit BlockPendingPool _ _ _ _ live.
Proof. split; try done. intros c p latest n. cbn. unfold PopConfirmed. by destruct (fold_left _ _ _). Qed.

Lemma TaskLoop_live_witness :
  exists w', TaskLoop live first_case ticks NewBlockPendingPool 50 200 (node_task Idle) = OutOfFuel w' /\
    gauge_of metricTaskHealth w' = 1 /\ gauge_of metricTaskLiveMode w' = 1.
Proof.
  destruct (TaskLoop_live live first_case ticks NewBlockPendingPool 10 125 49 200 (node_task Idle)) as (w' & Hw & Hh & _ & Hg).
  - apply IdleNode_healthy.
  - split; [done|]. intros cx r r' n Hq. cbn in Hq. injection Hq. lia.
  - cbn. lia.
  - left. split_and!; done || lia || by eexists.
  - done.
  - done.
  - exists w'. split; [exact Hw|]. split; [exact Hh|exact Hg].
Defined.

Lemma watch_task_spec_witness :
  let x := watch_task live first_case ticks NewBlockPendingPool 8 5 9 (node_task Down) in
  rev (wt_pauses (final x)) = [1000000000; 2000000000; 4000000000; 8000000000; 16000000000; 32000000000; 60000000000; 60000000000] /\
  exists k, rev (wt_pauses (final x)) = nth_backoff 60000000000 1000000000 <$> seq 0 k.
Proof.
  intros x. split; [vm_compute; reflexivity|].
  apply (watch_task_spec live first_case ticks NewBlockPendingPool 8 5 9 (node_task Down)). by split.
Defined.
