(* ===== verification/LoopSteps.v ===== *)
(** * [TaskLoop] in small steps

    [TaskLoop] and the rounds it runs, cut at the points where other goroutines
    can act: the looks at the context, the waits for a token of a semaphore, the
    query on the node, the releases, the pause.  [loop_piece] is the code from one
    such place to the next, made of the definitions of [RunOnce.v] and
    [TaskLoop.v]; [TaskLoop_pieces] says that run one after the other the pieces
    are [TaskLoop]. *)

From stdpp Require Import base gmap list strings relations.
From Stdlib Require Import ZArith Lia.
From S2P Require Import Prelude GoStd LogTypes Semaphore PendingPool RunOnce RunOnceSpec RunOnceTotal TaskLoop.

Local Open Scope Z_scope.
Local Open Scope go_scope.

(** At the top of [TaskLoop]'s loop; in [BlockNumber]; at the top of [RunOnce]'s
    loop; in the two [Acquire]s; in [EthGetLogs]; before the two [Release]s, the
    second also after a global [Acquire] that gave up; past them; past the round;
    in the pause of a task that has caught up. *)
Inductive loop_place :=
  | AtPoll
  | AtHead
  | AtIter (latest cs : Z)
  | AtLocal (latest cs : Z)
  | AtGlobal (latest cs : Z)
  | InQuery (latest cs : Z)
  | AtReleaseGlobal (latest cs end_ : Z) (r : result (list LogResult))
  | AtReleaseLocal (latest cs : Z) (x : error + Z * result (list LogResult))
  | Queried (latest cs : Z) (er : Z * result (list LogResult))
  | RoundDone (r : bool * option error)
  | InPause.

Section LoopSteps.
Context {R S H P : Type}.
Context `{RPCQuerier R, CheckpointStore S, LogBatchHandler H, PendingPool P}.
Variable ctx : nat -> Ctx.
Variable pick : nat -> bool.
Variable now : nat -> Z.

Local Abbreviation world := (world R S H P).
Local Abbreviation prog := (prog (R:=R) (S:=S) (H:=H) (P:=P)).
Local Abbreviation loop_prog := (loop_prog (R:=R) (S:=S) (H:=H) (P:=P)).

(** [RunOnce] returns to [TaskLoop]. *)
Definition in_round (m : prog loop_place) : loop_prog loop_place := fun w =>
  match m w with
  | Cont l w' => Cont l w'
  | Return r w' => Cont (RoundDone r) w'
  | Blocked w' => Blocked w'
  | Panicked w' => Panicked w'
  | OutOfFuel w' => OutOfFuel w'
  end.

(** The pieces of [RunOnce]: from its start, *)
Definition head_piece : prog loop_place :=
  r <- call_BlockNumber ctx ;;
  match r with
  | Err e => inc_request "fail" ;; return_ (false, Some (EWrap "get latest block: " e))
  | Ok latestBlock =>
      inc_request "ok" ;;
      cp <- gets (fun w => Checkpoint (w_task w)) ;;
      if latestBlock <? cp then return_ (true, None) else ret (AtIter latestBlock cp)
  end.

(** around the query, *)
Definition local_piece (latest cs : Z) : prog loop_place :=
  e <- sem_acquire ctx pick TaskLocalSem set_TaskLocalSem ;;
  check (fun e => e) e ;;
  ret (AtGlobal latest cs).

Definition global_piece (latest cs : Z) : prog loop_place :=
  e <- sem_acquire ctx pick RPCSem set_RPCSem ;;
  match e with
  | Some e => ret (AtReleaseLocal latest cs (inl e))
  | None => ret (InQuery latest cs)
  end.

Definition query_piece (latest cs : Z) : prog loop_place :=
  bs <- gets (fun w => BatchSize (w_task w)) ;;
  let end_ := batch_end latest cs bs in
  r <- call_EthGetLogs ctx cs end_ ;;
  ret (AtReleaseGlobal latest cs end_ r).

Definition release_piece (latest cs : Z) (x : error + Z * result (list LogResult)) : prog loop_place :=
  sem_release TaskLocalSem set_TaskLocalSem ;;
  match x with
  | inl e => return_ (false, Some e)
  | inr er => ret (Queried latest cs er)
  end.

(** and past it. *)
Definition queried_piece (latest cs : Z) (er : Z * result (list LogResult)) : prog loop_place :=
  next <- match er.2 with
          | Err e => fetch_failed cs e
          | Ok logs => process ctx latest cs er.1 logs
          end ;;
  ret (AtIter latest next).

(** [TaskLoop] past the call of [RunOnce]. *)
Definition done_piece (r : bool * option error) : loop_prog loop_place :=
  match r with
  | (_, Some err) => modify (mark_unhealthy now) ;; return_ (Some err)
  | (caughtUp, None) =>
      modify mark_healthy ;;
      live <- gets (fun w => LiveMode (Config (w_task w))) ;;
      if negb live then return_ None
      else if caughtUp then modify (set_gauge metricTaskLiveMode 1) ;; ret InPause
      else modify (set_gauge metricTaskLiveMode 0) ;; ret AtPoll
  end.

Definition loop_piece (l : loop_place) : loop_prog loop_place :=
  match l with
  | AtPoll => poll_ctx ctx ;; ret AtHead
  | AtHead => in_round head_piece
  | AtIter latest cs =>
      if cs <=? latest then in_round (poll ctx ;; ret (AtLocal latest cs)) else ret (RoundDone (true, None))
  | AtLocal latest cs => in_round (local_piece latest cs)
  | AtGlobal latest cs => in_round (global_piece latest cs)
  | InQuery latest cs => in_round (query_piece latest cs)
  | AtReleaseGlobal latest cs end_ r =>
      in_round (sem_release RPCSem set_RPCSem ;; ret (AtReleaseLocal latest cs (inr (end_, r))))
  | AtReleaseLocal latest cs x => in_round (release_piece latest cs x)
  | Queried latest cs er => in_round (queried_piece latest cs er)
  | RoundDone r => done_piece r
  | InPause => wait_ctx ctx pick ;; ret AtPoll
  end.

(** ** The pieces are [TaskLoop] *)

Definition piece_step (x y : loop_place * world) : Prop := loop_piece x.1 x.2 = Cont y.1 y.2.

(** From [l] in [w] the pieces go where the execution [x] of a part of [RunOnce]
    does; [k] is the place where that part ends. *)
Definition follows {A} (l : loop_place) (w : world) (k : A -> loop_place) (x : exec world (bool * option error) A) : Prop :=
  match x with
  | Cont a w' => rtc piece_step (l, w) (k a, w')
  | Return r w' => rtc piece_step (l, w) (RoundDone r, w')
  | Blocked w' => exists l' w1, rtc piece_step (l, w) (l', w1) /\ loop_piece l' w1 = Blocked w'
  | Panicked w' => exists l' w1, rtc piece_step (l, w) (l', w1) /\ loop_piece l' w1 = Panicked w'
  | OutOfFuel _ => True
  end.

Lemma follows_after {A} l w l1 w1 (k : A -> loop_place) x :
  rtc piece_step (l, w) (l1, w1) -> follows l1 w1 k x -> follows l w k x.
Proof.
  intros Hr. destruct x; cbn; try done; try (by intros; etrans);
    intros (l' & w2 & Hr' & Hl); exists l', w2; (split; [by etrans|done]).
Qed.

Lemma follows_bind {A B} l w (k1 : A -> loop_place) (k : B -> loop_place) (m : prog A) (f : A -> prog B) :
  follows l w k1 (m w) -> (forall a w1, follows (k1 a) w1 k (f a w1)) -> follows l w k (bind m f w).
Proof. unfold bind. destruct (m w) as [a w1|r w1|w1|w1|w1]; cbn; try done. intros Hr Hf. by eapply follows_after. Qed.

(** A piece that does all of [m]. *)
Lemma follows_piece {A} l w (k : A -> loop_place) (m : prog A) :
  loop_piece l w = in_round (bind m (fun a => ret (k a))) w -> follows l w k (m w).
Proof.
  unfold in_round, bind, ret. intros Hl. destruct (m w) as [a w1|r w1|w1|w1|w1] eqn:E; cbn; try done;
    first [apply rtc_once; exact Hl|exists l, w; split; [apply rtc_refl|exact Hl]].
Qed.

Ltac by_piece E :=
  cbn [loop_piece fst snd]; unfold piece_step, in_round, local_piece, global_piece, query_piece, release_piece, bind, gets;
  cbn [loop_piece fst snd]; unfold in_round, local_piece, global_piece, query_piece, release_piece, bind, gets;
  rewrite ?E; reflexivity.
Ltac stuck l w E := exists l, w; split; [apply rtc_refl|by_piece E].

Lemma fetch_follows latest cs w : cs <= latest ->
  follows (AtIter latest cs) w (Queried latest cs) (fetch ctx pick latest cs w).
Proof.
  intros Hle. unfold fetch. apply (follows_bind _ _ (fun _ => AtLocal latest cs)).
  { apply follows_piece. cbn [loop_piece]. by rewrite (proj2 (Z.leb_le _ _) Hle). }
  intros _ w1. unfold bind at 1. destruct (sem_acquire ctx pick TaskLocalSem set_TaskLocalSem w1) as [e w2|r w2|w2|w2|w2] eqn:E1;
    [|apply rtc_once; by_piece E1|stuck (AtLocal latest cs) w1 E1|stuck (AtLocal latest cs) w1 E1|done].
  destruct e as [e|]; [apply rtc_once; by_piece E1|].
  apply (follows_after _ _ (AtGlobal latest cs) w2); [apply rtc_once; by_piece E1|]. clear E1.
  cbn [check]. rewrite bind_ret. unfold bind at 1.
  destruct (sem_acquire ctx pick RPCSem set_RPCSem w2) as [e w3|r w3|w3|w3|w3] eqn:E2;
    [|apply rtc_once; by_piece E2|stuck (AtGlobal latest cs) w2 E2|stuck (AtGlobal latest cs) w2 E2|done].
  destruct e as [e|].
  - apply (follows_after _ _ (AtReleaseLocal latest cs (inl e)) w3); [apply rtc_once; by_piece E2|]. clear E2.
    unfold bind. destruct (sem_release TaskLocalSem set_TaskLocalSem w3) as [[] w4|r w4|w4|w4|w4] eqn:E3;
      [apply rtc_once; by_piece E3|apply rtc_once; by_piece E3|stuck (AtReleaseLocal latest cs (inl e)) w3 E3|stuck (AtReleaseLocal latest cs (inl e)) w3 E3|done].
  - apply (follows_after _ _ (InQuery latest cs) w3); [apply rtc_once; by_piece E2|]. clear E2.
    unfold bind at 1, gets, bind at 1.
    destruct (call_EthGetLogs ctx cs (batch_end latest cs (BatchSize (w_task w3))) w3) as [r w4|r w4|w4|w4|w4] eqn:E3;
      [|apply rtc_once; by_piece E3|stuck (InQuery latest cs) w3 E3|stuck (InQuery latest cs) w3 E3|done].
    apply (follows_after _ _ (AtReleaseGlobal latest cs (batch_end latest cs (BatchSize (w_task w3))) r) w4); [apply rtc_once; by_piece E3|].
    clear E3. generalize (batch_end latest cs (BatchSize (w_task w3))). intros end_. unfold bind at 1.
    destruct (sem_release RPCSem set_RPCSem w4) as [[] w5|r' w5|w5|w5|w5] eqn:E4;
      [|apply rtc_once; by_piece E4|stuck (AtReleaseGlobal latest cs end_ r) w4 E4|stuck (AtReleaseGlobal latest cs end_ r) w4 E4|done].
    apply (follows_after _ _ (AtReleaseLocal latest cs (inr (end_, r))) w5); [apply rtc_once; by_piece E4|]. clear E4. unfold bind.
    destruct (sem_release TaskLocalSem set_TaskLocalSem w5) as [[] w6|r' w6|w6|w6|w6] eqn:E5;
      [apply rtc_once; by_piece E5|apply rtc_once; by_piece E5|stuck (AtReleaseLocal latest cs (inr (end_, r))) w5 E5
      |stuck (AtReleaseLocal latest cs (inr (end_, r))) w5 E5|done].
Qed.

Lemma iter_follows latest cs w : cs <= latest ->
  follows (AtIter latest cs) w (AtIter latest) (RunOnce_iter ctx pick latest cs w).
Proof.
  intros Hle. unfold RunOnce_iter. apply (follows_bind _ _ (Queried latest cs)); [by apply fetch_follows|].
  intros er w1. apply (follows_piece (Queried latest cs er) w1 (AtIter latest)
    (match er.2 with Err e => fetch_failed cs e | Ok logs => process ctx latest cs er.1 logs end)). done.
Qed.

Lemma loop_follows latest fuel : forall cs w,
  follows (AtIter latest cs) w (fun _ => RoundDone (true, None)) (RunOnce_loop ctx pick fuel latest cs w).
Proof.
  induction fuel as [|fuel IH]; intros cs w; cbn [RunOnce_loop]; destruct (Z.leb_spec cs latest) as [Hle|Hgt]; try done.
  1, 3: apply rtc_once; unfold piece_step; cbn [fst snd loop_piece]; by rewrite (proj2 (Z.leb_gt _ _) Hgt).
  apply (follows_bind _ _ (AtIter latest)); [by apply iter_follows|apply IH].
Qed.

Lemma RunOnce_follows fuel w : follows AtHead w (fun e : Empty_set => match e with end) (RunOnce ctx pick fuel w).
Proof.
  unfold RunOnce.
  assert (Hp : loop_piece AtHead w = in_round head_piece w) by done. unfold head_piece, in_round in Hp. unfold bind at 1 in Hp. unfold bind at 1.
  destruct (call_BlockNumber ctx w) as [[latest|e] w1|r w1|w1|w1|w1]; try done;
    try (by apply rtc_once); try (by exists AtHead, w; split; [apply rtc_refl|]).
  unfold bind at 1 in Hp. unfold bind at 1. destruct (inc_request "ok" w1) as [[] w2|r w2|w2|w2|w2]; try done;
    try (by apply rtc_once); try (by exists AtHead, w; split; [apply rtc_refl|]).
  unfold bind at 1, gets in Hp. unfold bind at 1, gets. destruct (latest <? Checkpoint (w_task w2)); [by apply rtc_once|].
  apply (follows_after _ _ (AtIter latest (Checkpoint (w_task w2))) w2); [by apply rtc_once|].
  apply (follows_bind _ _ (fun _ => RoundDone (true, None))); [apply loop_follows|]. intros [] w3. apply rtc_refl.
Qed.

(** Where the pieces go when a part of [TaskLoop] runs. *)
Definition arrives {A} (l : loop_place) (w : world) (x : exec world (option error) A) : Prop :=
  match x with
  | Cont _ w' => rtc piece_step (l, w) (AtPoll, w')
  | Return r w' => exists l' w1, rtc piece_step (l, w) (l', w1) /\ loop_piece l' w1 = Return r w'
  | Blocked w' => exists l' w1, rtc piece_step (l, w) (l', w1) /\ loop_piece l' w1 = Blocked w'
  | Panicked w' => exists l' w1, rtc piece_step (l, w) (l', w1) /\ loop_piece l' w1 = Panicked w'
  | OutOfFuel _ => True
  end.

Lemma arrives_after {A} l w l1 w1 (x : exec world (option error) A) :
  rtc piece_step (l, w) (l1, w1) -> arrives l1 w1 x -> arrives l w x.
Proof.
  intros Hr. destruct x; cbn; try done; try (by intros; etrans);
    intros (l' & w2 & Hr' & Hl); exists l', w2; (split; [by etrans|done]).
Qed.

Lemma iter_arrives fuel w : arrives AtPoll w (TaskLoop_iter ctx pick now fuel w).
Proof.
  unfold TaskLoop_iter. unfold bind at 1. destruct (poll_ctx ctx w) as [[] w1|r w1|w1|w1|w1] eqn:Ep; try done;
    try (by exists AtPoll, w; split; [apply rtc_refl|cbn [loop_piece]; unfold bind; rewrite Ep]).
  apply (arrives_after _ _ AtHead w1); [apply rtc_once; unfold piece_step; cbn [fst snd loop_piece]; unfold bind; by rewrite Ep|].
  pose proof (RunOnce_follows fuel w1) as Hr. unfold bind at 1, call_RunOnce.
  destruct (RunOnce ctx pick fuel w1) as [[]|r w2|w2|w2|w2]; cbn [follows] in Hr; try done.
  apply (arrives_after _ _ _ _ _ Hr). clear.
  assert (Hd : loop_piece (RoundDone r) w2 = done_piece r w2) by done. destruct r as [b [e|]]; [by eexists _, _; split; [apply rtc_refl|]|].
  unfold done_piece in Hd. unfold bind at 1, modify at 1, bind at 1, gets in Hd. unfold bind at 1, modify at 1, bind at 1, gets.
  destruct (negb _); [by eexists _, _; split; [apply rtc_refl|]|]. destruct b; [|by apply rtc_once].
  unfold bind at 1, modify in Hd. unfold bind at 1, modify.
  eapply arrives_after; [apply rtc_once; exact Hd|]. clear Hd.
  apply arrives_after with (l1 := InPause) (w1 := set_gauge metricTaskLiveMode 1 (mark_healthy w2)); [apply rtc_refl|].
  generalize (set_gauge metricTaskLiveMode 1 (mark_healthy w2)). intros w3.
  assert (Hp : loop_piece InPause w3 = bind (wait_ctx ctx pick) (fun _ => ret AtPoll) w3) by done. unfold bind in Hp.
  destruct (wait_ctx ctx pick w3) as [[] w4|r w4|w4|w4|w4]; try done; [by apply rtc_once|..]; by exists InPause, w3; split; [apply rtc_refl|].
Qed.

Lemma loop_arrives rounds fuel : forall w, arrives AtPoll w (TaskLoop_loop ctx pick now rounds fuel w).
Proof.
  induction rounds as [|rounds IH]; intros w; [done|]. cbn [TaskLoop_loop]. pose proof (iter_arrives fuel w) as Hi. unfold bind.
  destruct (TaskLoop_iter ctx pick now fuel w); cbn [arrives] in Hi; try done. by eapply arrives_after.
Qed.

(** Run one after the other, the pieces are [TaskLoop] without its deferred
    function. *)
Theorem TaskLoop_pieces NewPool rounds fuel w :
  match TaskLoop ctx pick now NewPool rounds fuel w with
  | Return r w' => exists l w1 w2, rtc piece_step (AtPoll, entered NewPool w) (l, w1) /\ loop_piece l w1 = Return r w2 /\ w' = TaskLoop_deferred w2
  | Blocked w' => exists l w1, rtc piece_step (AtPoll, entered NewPool w) (l, w1) /\ loop_piece l w1 = Blocked w'
  | Panicked w' => exists l w1 w2, rtc piece_step (AtPoll, entered NewPool w) (l, w1) /\ loop_piece l w1 = Panicked w2 /\ w' = TaskLoop_deferred w2
  | Cont _ _ | OutOfFuel _ => True
  end.
Proof.
  rewrite TaskLoop_entered. unfold with_defer. pose proof (loop_arrives rounds fuel (entered NewPool w)) as Ha.
  destruct (TaskLoop_loop ctx pick now rounds fuel (entered NewPool w)) as [[]|r w1|w1|w1|w1]; cbn [arrives] in Ha; naive_solver.
Qed.

(** ** What a piece does to the tokens *)

(** The tokens the task holds at a place. *)
Definition holds_global (l : loop_place) : Z :=
  match l with InQuery _ _ | AtReleaseGlobal _ _ _ _ => 1 | _ => 0 end.
Definition holds_local (l : loop_place) : Z :=
  match l with AtGlobal _ _ | InQuery _ _ | AtReleaseGlobal _ _ _ _ | AtReleaseLocal _ _ _ => 1 | _ => 0 end.

(** [dg] and [dl] tokens are taken from the semaphores, and the rest that a piece
    must leave is as it was. *)
Definition moved (dg dl : Z) (t t' : LogTask R S H P) : Prop :=
  Config t' = Config t /\ (is_Some (Pool t) -> is_Some (Pool t')) /\
  sem_cap (RPCSem t') = sem_cap (RPCSem t) /\ sem_len (RPCSem t') = sem_len (RPCSem t) + dg /\
  sem_cap (TaskLocalSem t') = sem_cap (TaskLocalSem t) /\ sem_len (TaskLocalSem t') = sem_len (TaskLocalSem t) + dl.

Definition piece_ok (l : loop_place) (w : world) (x : exec world (option error) loop_place) : Prop :=
  wp (fun l' w' => moved (holds_global l' - holds_global l) (holds_local l' - holds_local l) (w_task w) (w_task w'))
     (fun r w' => moved (- holds_global l) (- holds_local l) (w_task w) (w_task w') /\ (r = None -> LiveMode (Config (w_task w')) = false))
     (fun _ => True) x.

Lemma frame_moved t t' : frame t t' -> moved 0 0 t t'.
Proof. intros (Hc & Hr & Hl & Hp & _). unfold moved. rewrite Hc, Hr, Hl. split_and!; try done; lia. Qed.

Lemma queried_frame latest cs er w : frame (w_task w) (w_task (final (queried_piece latest cs er w))).
Proof.
  unfold queried_piece. destruct er as [end_ [logs|e]]; cbn [fst snd]; unfold bind at 1.
  - destruct (process_spec ctx latest cs end_ logs w) as [Hp%process_frame _].
    destruct (process ctx latest cs end_ logs w); exact Hp.
  - unfold fetch_failed, bind at 1, inc_request. destruct (IsRateLimitOrRangeErr (Some e)); [|done].
    unfold bind, modify, gets. cbn. by destruct (_ <? 1).
Qed.

Lemma queried_next latest cs er w :
  wp (fun l' _ => exists n, l' = AtIter latest n) (fun _ _ => True) (fun _ => True) (queried_piece latest cs er w).
Proof.
  unfold queried_piece. destruct er as [end_ [logs|e]]; cbn [fst snd]; unfold bind at 1;
    [destruct (process _ _ _ _ _ _)|destruct (fetch_failed _ _ _)]; cbn; eauto.
Qed.

Ltac by_moved := unfold moved; cbn; split_and!; try done; lia.

Lemma loop_piece_ok l w : piece_ok l w (loop_piece l w).
Proof.
  unfold piece_ok. destruct l as [| |latest cs|latest cs|latest cs|latest cs|latest cs end_ r|latest cs x|latest cs er|[b [e|]]|]; cbn [loop_piece].
  - unfold bind, poll_ctx. destruct (now_ctx ctx w); cbn; [split; [|done]|]; by_moved.
  - unfold in_round, head_piece, bind, call_BlockNumber. destruct (rpc_BlockNumber _ _) as [r' [n|e]]; cbn; [|by_moved].
    destruct (n <? Checkpoint (w_task w)); by_moved.
  - destruct (cs <=? latest); [|by_moved]. unfold in_round, bind, poll. destruct (now_ctx ctx w); by_moved.
  - unfold in_round, local_piece, bind, sem_acquire. destruct (Acquire _ _ _ _) as [[[s m] e]|] eqn:Ea; [|done].
    apply Acquire_inv in Ea as [(e' & _ & -> & -> & _)|(-> & _ & -> & _)]; by_moved.
  - unfold in_round, global_piece, bind, sem_acquire. destruct (Acquire _ _ _ _) as [[[s m] e]|] eqn:Ea; [|done].
    apply Acquire_inv in Ea as [(e' & _ & -> & -> & _)|(-> & _ & -> & _)]; by_moved.
  - unfold in_round, query_piece, bind, gets, call_EthGetLogs. destruct (rpc_EthGetLogs _ _ _ _ _ _); by_moved.
  - unfold in_round, bind, sem_release. destruct (Release _ _) as [[s m]|] eqn:Er; [|done].
    apply Release_inv in Er as (_ & -> & _); by_moved.
  - unfold in_round, release_piece, bind, sem_release. destruct (Release _ _) as [[s m]|] eqn:Er; [|done].
    apply Release_inv in Er as (_ & -> & _); destruct x; by_moved.
  - unfold in_round. pose proof (frame_moved _ _ (queried_frame latest cs er w)) as Hm. pose proof (queried_next latest cs er w) as Hn.
    destruct (queried_piece latest cs er w) as [l' w'|r w'|w'|w'|w']; cbn in Hm, Hn |- *; try done. by destruct Hn as [n ->].
  - split; [by_moved|done].
  - unfold done_piece, bind, modify, gets. cbn. destruct (LiveMode (Config (w_task w))) eqn:El; cbn; [|split; [by_moved|done]]. destruct b; by_moved.
  - unfold bind, wait_ctx. destruct (now_ctx ctx w); [destruct (pick _)|]; cbn; try (split; [|done]); by_moved.
Qed.

(** ** A context that has ended *)

(** A release finds the token its task holds. *)
Definition tokens_there (l : loop_place) (w : world) : Prop :=
  match l with
  | AtReleaseGlobal _ _ _ _ => 0 < sem_len (RPCSem (w_task w))
  | AtReleaseLocal _ _ _ => 0 < sem_len (TaskLocalSem (w_task w))
  | _ => True
  end.

Lemma process_goes_on latest cs e logs (w : world) : is_Some (Pool (w_task w)) ->
  wp (fun _ _ => True) (fun _ _ => True) (fun _ => False) (process ctx latest cs e logs w).
Proof.
  intros Hp. destruct (process_spec ctx latest cs e logs w) as [Hr _]. eapply wp_mono; [by eapply process_outcome|done..].
Qed.

Lemma queried_goes_on latest cs er w : is_Some (Pool (w_task w)) ->
  wp (fun _ _ => True) (fun _ _ => True) (fun _ => False) (queried_piece latest cs er w).
Proof.
  intros Hp. unfold queried_piece. apply wp_bind. destruct er as [end_ [logs|e]]; cbn [fst snd].
  - eapply wp_mono; [by apply process_goes_on|done..].
  - unfold fetch_failed, bind, inc_request. destruct (IsRateLimitOrRangeErr (Some e)); [|done].
    unfold modify, gets. cbn. by destruct (_ <? 1).
Qed.

Lemma in_round_goes_on (m : prog loop_place) w :
  wp (fun _ _ => True) (fun _ _ => True) (fun _ => False) (m w) -> wp (fun _ _ => True) (fun _ _ => True) (fun _ => False) (in_round m w).
Proof. unfold in_round. by destruct (m w). Qed.

(** The pieces left to [TaskLoop]'s return. *)
Definition loop_left (l : loop_place) : Z :=
  match l with
  | AtPoll => 4 | InPause => 5 | RoundDone _ => 6 | AtIter _ _ => 7 | AtHead | Queried _ _ _ => 8
  | AtReleaseLocal _ _ _ => 9 | AtReleaseGlobal _ _ _ _ => 10 | InQuery _ _ => 11 | AtGlobal _ _ => 12 | AtLocal _ _ => 13
  end.

(** Under a context that has ended, no piece waits and none panics: an [Acquire]
    of a full semaphore returns; *)
Lemma loop_piece_goes_on e l w :
  (forall n, ctx n = Some e) -> is_Some (Pool (w_task w)) -> tokens_there l w ->
  wp (fun _ _ => True) (fun _ _ => True) (fun _ => False) (loop_piece l w).
Proof.
  intros Hc Hp Ht. destruct l as [| |latest cs|latest cs|latest cs|latest cs|latest cs end_ r|latest cs x|latest cs er|[b [er|]]|];
    cbn [loop_piece tokens_there] in *; try apply in_round_goes_on.
  - unfold bind, poll_ctx, now_ctx. by rewrite Hc.
  - unfold head_piece, bind, call_BlockNumber. destruct (rpc_BlockNumber _ _) as [r' [n|er]]; cbn; [|done]. by destruct (n <? _).
  - destruct (cs <=? latest); [|done]. apply in_round_goes_on. unfold bind, poll, now_ctx. by rewrite Hc.
  - unfold local_piece, bind, sem_acquire, Acquire, now_ctx. rewrite Hc. destruct (_ <? _); [destruct (pick _)|]; done.
  - unfold global_piece, bind, sem_acquire, Acquire, now_ctx. rewrite Hc. destruct (_ <? _); [destruct (pick _)|]; done.
  - unfold query_piece, bind, gets, call_EthGetLogs. by destruct (rpc_EthGetLogs _ _ _ _ _ _).
  - unfold bind, sem_release. by rewrite Release_held.
  - unfold release_piece, bind, sem_release. rewrite Release_held by done. by destruct x.
  - by apply queried_goes_on.
  - done.
  - unfold done_piece, bind, modify, gets. cbn. destruct (LiveMode _); [|done]. by destruct b.
  - unfold bind, wait_ctx, now_ctx. rewrite Hc. by destruct (pick _).
Qed.

(** and each piece but the last is one less. *)
Lemma loop_piece_left e l w l' w' :
  (forall n, ctx n = Some e) \/ (exists latest cs er, l = Queried latest cs er) ->
  loop_piece l w = Cont l' w' -> loop_left l' < loop_left l.
Proof.
  intros Hc Hl. enough (Hw : wp (fun l' _ => loop_left l' < loop_left l) (fun _ _ => True) (fun _ => True) (loop_piece l w)) by by rewrite Hl in Hw.
  clear Hl l' w'. destruct Hc as [Hc|(latest & cs & er & ->)].
  2:{ cbn [loop_piece]. unfold in_round. pose proof (queried_next latest cs er w) as Hn.
      destruct (queried_piece latest cs er w); cbn in *; try done. by destruct Hn as [n ->]. }
  destruct l as [| |latest cs|latest cs|latest cs|latest cs|latest cs end_ r|latest cs x|latest cs er|[b [er|]]|]; cbn [loop_piece].
  - unfold bind, poll_ctx, now_ctx. by rewrite Hc.
  - unfold in_round, head_piece, bind, call_BlockNumber. destruct (rpc_BlockNumber _ _) as [r' [n|er]]; cbn; [|done]. by destruct (n <? _).
  - destruct (cs <=? latest); [|done]. unfold in_round, bind, poll, now_ctx. by rewrite Hc.
  - unfold in_round, local_piece, bind, sem_acquire, Acquire, now_ctx. rewrite Hc. destruct (_ <? _); [destruct (pick _)|]; done.
  - unfold in_round, global_piece, bind, sem_acquire, Acquire, now_ctx. rewrite Hc. destruct (_ <? _); [destruct (pick _)|]; done.
  - unfold in_round, query_piece, bind, gets, call_EthGetLogs. by destruct (rpc_EthGetLogs _ _ _ _ _ _).
  - unfold in_round, bind, sem_release. by destruct (Release _ _) as [[]|].
  - unfold in_round, release_piece, bind, sem_release. destruct (Release _ _) as [[]|]; [|done]. by destruct x.
  - unfold in_round. pose proof (queried_next latest cs er w) as Hn. destruct (queried_piece latest cs er w); cbn in *; try done. by destruct Hn as [n ->].
  - done.
  - unfold done_piece, bind, modify, gets. cbn. destruct (LiveMode _); [|done]. by destruct b.
  - unfold bind, wait_ctx, now_ctx. rewrite Hc. by destruct (pick _).
Qed.
End LoopSteps.
