(* ===== verification/Runner.v ===== *)
(** * Many tasks and the shutdown ([TaskRunner], [NewShutdownContext], [StartMetricsServer])

    A process that runs the tasks of a [TaskRunner] under [NewShutdownContext]
    with the metrics server: the goroutine that calls [RunAll], one goroutine per
    task, the one that waits for a signal, and the server.  A step of the process
    is a step of one of them, in any order; a signal, the end of the parent
    context and a failure of the server may come at any time.  Inside [TaskLoop] a
    goroutine goes from place to place by the pieces of [LoopSteps.v].  The tasks
    share the context, the wait group, the metrics and the global semaphore: a
    task that waits in [RPCSem.Acquire] waits until another one releases a token
    or the context ends. *)

From stdpp Require Import base gmap list strings relations.
From Stdlib Require Import ZArith Lia.
From S2P Require Import Prelude GoStd LogTypes Semaphore PendingPool Checkpoint RunOnce Scenario RunOnceSpec RunOnceTotal TaskLoop LoopSteps.

Local Open Scope Z_scope.

Section Runner.
Context {R S H P : Type}.
Context `{RPCQuerier R, CheckpointStore S, LogBatchHandler H, PendingPool P}.
Variable NewPool : P.

Local Abbreviation world := (world R S H P).
Local Abbreviation LogTask := (LogTask R S H P).

(** ** The goroutine of a task *)

(** Not started; at the top of [for]; at a place of [TaskLoop]; past it, with its
    error; in the [select] of the pause; returned. *)
Inductive place := NotStarted | AtTop | Running (l : loop_place) | Decide (err : option error) | Pausing | Gone.

Record worker := MkWorker { wk_world : world; wk_backoff : Z; wk_place : place }.

Definition go_to (p : place) (k : worker) : worker := MkWorker (wk_world k) (wk_backoff k) p.

(** What all tasks have a pointer to: the global semaphore and the metrics. *)
Record shared := MkShared { sh_rpc : RPCSemaphore; sh_metrics : Metrics }.

(** The world of a goroutine that runs, and what it leaves to the others. *)
Definition lend (sh : shared) (w : world) : world :=
  MkWorld (set_RPCSem (sh_rpc sh) (w_task w)) (w_clock w) (sh_metrics sh) (w_trace w).
Definition shared_of (w : world) : shared := MkShared (RPCSem (w_task w)) (w_metrics w).

(** The looks a piece takes at a context that is [c] when the piece ends: the
    piece past the query makes several calls, and the others take one look. *)
Definition looks (l : loop_place) (c : Ctx) (ctx : nat -> Ctx) : Prop :=
  match l with
  | Queried _ _ _ => forall n e, ctx n = Some e -> c = Some e
  | _ => forall n, ctx n = c
  end.

(** A step of a started goroutine under context [c]: what it adds to the wait
    group and to the gauge of running tasks, and what it does to what is shared. *)
Inductive worker_step (c : Ctx) (sh : shared) : worker -> Z -> Z -> shared -> worker -> Prop :=
  | step_top_done k e : wk_place k = AtTop -> c = Some e -> worker_step c sh k (-1) 0 sh (go_to Gone k)
  | step_top k : wk_place k = AtTop -> c = None ->
      let w := entered NewPool (lend sh (wk_world k)) in
      worker_step c sh k 0 1 (shared_of w) (MkWorker w (wk_backoff k) (Running AtPoll))
  | step_piece k l ctx pick now l' w' :
      wk_place k = Running l -> looks l c ctx ->
      loop_piece ctx pick now l (lend sh (wk_world k)) = Cont l' w' ->
      worker_step c sh k 0 0 (shared_of w') (MkWorker w' (wk_backoff k) (Running l'))
  | step_return k l ctx pick now r w' :
      wk_place k = Running l -> looks l c ctx ->
      loop_piece ctx pick now l (lend sh (wk_world k)) = Return r w' ->
      let w1 := TaskLoop_deferred w' in
      worker_step c sh k 0 (-1) (shared_of w1) (MkWorker w1 (wk_backoff k) (Decide r))
  | step_shutdown k err : wk_place k = Decide err -> errors_Is err c = true -> worker_step c sh k (-1) 0 sh (go_to Gone k)
  | step_failed k err : wk_place k = Decide err -> errors_Is err c = false ->
      let w := lend sh (wk_world k) in
      let w1 := with_metrics (metric_add metricTaskRestartTotal (label w) 1) w in
      worker_step c sh k 0 0 (shared_of w1) (MkWorker w1 (wk_backoff k) Pausing)
  | step_pause_done k e : wk_place k = Pausing -> c = Some e -> worker_step c sh k (-1) 0 sh (go_to Gone k)
  | step_restart k : wk_place k = Pausing ->
      worker_step c sh k 0 0 sh (MkWorker (wk_world k) (next_backoff (MaxBackoff (Config (w_task (wk_world k)))) (wk_backoff k)) AtTop).

(** ** The runner, the signal and the server *)

Definition TaskRunner : Type := list LogTask.
Definition NewTaskRunner : TaskRunner := [].
Definition AddTask (t : LogTask) (r : TaskRunner) : TaskRunner := r ++ [t].

(** The goroutine of [NewShutdownContext]: in its [select]; past the message; past
    [cancel()]; before [signal.Stop]; returned. *)
Inductive listener := Listening | Cancelling | Closing | Stopping | Ended.

(** The server: serving, unable to, or shut down by its goroutine. *)
Inductive server := Serving | Failed | ShutDown.

#[export] Instance server_eq_dec : EqDecision server.
Proof. solve_decision. Defined.

Record proc := MkProc {
  pr_ctx : Ctx;
  pr_sigCh : bool;
  pr_listener : listener;
  pr_stopCh : bool;
  pr_server : server;
  pr_shared : shared;
  pr_workers : list worker;
  pr_spawned : nat;
  pr_wg : Z;
  pr_running : Z;
  pr_returned : bool }.

Definition set_ctx v p := MkProc v (pr_sigCh p) (pr_listener p) (pr_stopCh p) (pr_server p) (pr_shared p) (pr_workers p) (pr_spawned p) (pr_wg p) (pr_running p) (pr_returned p).
Definition set_sigCh v p := MkProc (pr_ctx p) v (pr_listener p) (pr_stopCh p) (pr_server p) (pr_shared p) (pr_workers p) (pr_spawned p) (pr_wg p) (pr_running p) (pr_returned p).
Definition set_listener v p := MkProc (pr_ctx p) (pr_sigCh p) v (pr_stopCh p) (pr_server p) (pr_shared p) (pr_workers p) (pr_spawned p) (pr_wg p) (pr_running p) (pr_returned p).
Definition set_stopCh v p := MkProc (pr_ctx p) (pr_sigCh p) (pr_listener p) v (pr_server p) (pr_shared p) (pr_workers p) (pr_spawned p) (pr_wg p) (pr_running p) (pr_returned p).
Definition set_server v p := MkProc (pr_ctx p) (pr_sigCh p) (pr_listener p) (pr_stopCh p) v (pr_shared p) (pr_workers p) (pr_spawned p) (pr_wg p) (pr_running p) (pr_returned p).
Definition set_returned v p := MkProc (pr_ctx p) (pr_sigCh p) (pr_listener p) (pr_stopCh p) (pr_server p) (pr_shared p) (pr_workers p) (pr_spawned p) (pr_wg p) (pr_running p) v.

(** Worker [i] becomes [k]. *)
Definition put_worker (i : nat) (sh : shared) (k : worker) (spawned : nat) (dwg drun : Z) (p : proc) : proc :=
  MkProc (pr_ctx p) (pr_sigCh p) (pr_listener p) (pr_stopCh p) (pr_server p) sh (<[i := k]> (pr_workers p)) spawned
    (pr_wg p + dwg) (pr_running p + drun) (pr_returned p).

(** [cancel()]: the first end of a context counts. *)
Definition cancel (c : Ctx) : Ctx := match c with Some e => Some e | None => Some ECanceled end.

(** The environment: a signal (the channel holds one, and none is sent any more
    after [signal.Stop]), the end of the parent context, a server that cannot
    listen. *)
Inductive env_step : proc -> proc -> Prop :=
  | env_signal p : pr_listener p <> Ended -> pr_sigCh p = false -> env_step p (set_sigCh true p)
  | env_parent p e : pr_ctx p = None -> env_step p (set_ctx (Some e) p)
  | env_server p : pr_server p = Serving -> env_step p (set_server Failed p).

(** The goroutine of [NewShutdownContext]. *)
Inductive listener_step : proc -> proc -> Prop :=
  | step_heard p : pr_listener p = Listening -> pr_sigCh p = true ->
      listener_step p (set_listener Cancelling (set_sigCh false p))
  | step_ctx_done p e : pr_listener p = Listening -> pr_ctx p = Some e -> listener_step p (set_listener Stopping p)
  | step_cancel p : pr_listener p = Cancelling -> listener_step p (set_listener Closing (set_ctx (cancel (pr_ctx p)) p))
  | step_close p : pr_listener p = Closing -> listener_step p (set_listener Stopping (set_stopCh true p))
  | step_stop p : pr_listener p = Stopping -> listener_step p (set_listener Ended p).

(** The goroutine of [StartMetricsServer] that waits for [stopCh]. *)
Inductive server_step : proc -> proc -> Prop :=
  | step_server p : pr_stopCh p = true -> pr_server p <> ShutDown -> server_step p (set_server ShutDown p).

(** [RunAll]: [wg.Add(1)] and [go] for the next task, and [wg.Wait()]. *)
Inductive run_all_step : proc -> proc -> Prop :=
  | step_spawn p k : pr_workers p !! pr_spawned p = Some k ->
      run_all_step p (put_worker (pr_spawned p) (pr_shared p)
        (MkWorker (wk_world k) (RestartBackoff (Config (w_task (wk_world k)))) AtTop) (Datatypes.S (pr_spawned p)) 1 0 p)
  | step_wait p : pr_workers p !! pr_spawned p = None -> pr_wg p = 0 -> pr_returned p = false ->
      run_all_step p (set_returned true p).

Inductive step : proc -> proc -> Prop :=
  | step_env p p' : env_step p p' -> step p p'
  | step_listener p p' : listener_step p p' -> step p p'
  | step_metrics p p' : server_step p p' -> step p p'
  | step_run_all p p' : run_all_step p p' -> step p p'
  | step_worker p i k dwg drun sh k' : pr_workers p !! i = Some k -> worker_step (pr_ctx p) (pr_shared p) k dwg drun sh k' ->
      step p (put_worker i sh k' (pr_spawned p) dwg drun p).

(** The process when [RunAll] is called, under a parent context, with the
    semaphore [rpc] for all tasks. *)
Definition start (parent : Ctx) (rpc : RPCSemaphore) (r : TaskRunner) : proc :=
  MkProc parent false Listening false Serving (MkShared rpc ∅) (map (fun t => MkWorker (MkWorld t 0 ∅ []) 0 NotStarted) r) 0 0 0 false.

(** ** What every step keeps *)

Definition alive (k : worker) : Z := match wk_place k with NotStarted | Gone => 0 | _ => 1 end.
Definition in_loop (k : worker) : Z := match wk_place k with Running _ => 1 | _ => 0 end.
Definition config (k : worker) : TaskConfig := Config (w_task (wk_world k)).

(** The tokens a goroutine holds. *)
Definition has_global (k : worker) : Z := match wk_place k with Running l => holds_global l | _ => 0 end.
Definition has_own (k : worker) : Z := match wk_place k with Running l => holds_local l | _ => 0 end.

(** The tokens in the task's own semaphore that nobody here holds. *)
Definition own_rest (k : worker) : Z := sem_len (TaskLocalSem (w_task (wk_world k))) - has_own k.

(** What the goroutine knows where it is: it has its pool; it has returned because
    of the context, or because its task is not live and is finished. *)
Definition placed (c : Ctx) (k : worker) : Prop :=
  match wk_place k with
  | Running _ => is_Some (Pool (w_task (wk_world k)))
  | Decide None => LiveMode (config k) = false
  | Gone => is_Some c \/ LiveMode (config k) = false
  | _ => True
  end.

Record proc_inv (rpc : RPCSemaphore) (r : TaskRunner) (p : proc) : Prop := {
  inv_wg : pr_wg p = sumZ alive (pr_workers p);
  inv_running : pr_running p = sumZ in_loop (pr_workers p);
  inv_tokens : sem_len (sh_rpc (pr_shared p)) = sem_len rpc + sumZ has_global (pr_workers p);
  inv_tasks : map config (pr_workers p) = map Config r;
  inv_own k : k ∈ pr_workers p -> 0 <= own_rest k;
  inv_placed k : k ∈ pr_workers p -> placed (pr_ctx p) k;
  inv_spawned i k : pr_workers p !! i = Some k -> wk_place k = NotStarted <-> (pr_spawned p <= i)%nat;
  inv_returned : pr_returned p = true -> pr_workers p !! pr_spawned p = None /\ pr_wg p = 0;
  inv_stop : pr_stopCh p = true -> is_Some (pr_ctx p) /\ (pr_listener p = Stopping \/ pr_listener p = Ended);
  inv_closing : pr_listener p = Closing -> is_Some (pr_ctx p);
  inv_down : pr_server p = ShutDown -> pr_stopCh p = true }.

(** What a step of a goroutine does to the sums. *)
Record stepped (c : Ctx) (sh : shared) (k : worker) (dwg drun : Z) (sh' : shared) (k' : worker) : Prop := {
  st_before : alive k = 1;
  st_alive : alive k' = 1 + dwg;
  st_loop : in_loop k' = in_loop k + drun;
  st_tokens : sem_len (sh_rpc sh') = sem_len (sh_rpc sh) - has_global k + has_global k';
  st_own : own_rest k' = own_rest k;
  st_started : wk_place k' <> NotStarted;
  st_config : config k' = config k;
  st_placed : placed c k' }.

Lemma entered_task (w : world) : let t' := w_task (entered NewPool w) in
  Config t' = Config (w_task w) /\ RPCSem t' = RPCSem (w_task w) /\ TaskLocalSem t' = TaskLocalSem (w_task w) /\ is_Some (Pool t').
Proof. unfold entered. destruct (Pool (w_task w)) eqn:Ep; cbn; rewrite ?Ep; eauto 6. Qed.

Lemma worker_step_spec c sh k dwg drun sh' k' :
  worker_step c sh k dwg drun sh' k' -> placed c k -> stepped c sh k dwg drun sh' k'.
Proof.
  unfold placed. intros Hs Hpl.
  destruct Hs as [k e Hp Hc|k Hp Hc|k l ctx pick now l' w' Hp Hl Ht|k l ctx pick now r w' Hp Hl Ht|k err Hp Hi|k err Hp Hi|k e Hp Hc|k Hp];
    rewrite Hp in Hpl.
  2:{ destruct (entered_task (lend sh (wk_world k))) as (Hcf & Hr & Ho & Hpool). subst w.
      split; unfold alive, in_loop, has_global, own_rest, has_own, config, placed; rewrite ?Hp; cbn -[entered] in *; rewrite ?Hcf, ?Hr, ?Ho; done || lia. }
  2,3: pose proof (loop_piece_ok ctx pick now l (lend sh (wk_world k))) as Hok; rewrite Ht in Hok.
  2: destruct Hok as (Hcf & Hpool & _ & Hr & _ & Ho).
  3: destruct Hok as [(Hcf & Hpool & _ & Hr & _ & Ho) Hlive].
  all: cbn in *; split; unfold alive, in_loop, has_global, own_rest, has_own, config, placed; rewrite ?Hp; cbn; rewrite ?Hcf, ?Hr, ?Ho; eauto; try done; try lia.
  - destruct r; [done|]. exact (Hlive eq_refl).
  - destruct err as [e|]; [left|by right]. destruct c; [eauto|done].
Qed.

Lemma placed_mono c c' k : (is_Some c -> is_Some c') -> placed c k -> placed c' k.
Proof. unfold placed. destruct (wk_place k) as [| | |[]| |]; try done. naive_solver. Qed.

(** Steps that leave the workers alone. *)
Lemma proc_inv_same rpc r p p' :
  proc_inv rpc r p -> pr_shared p' = pr_shared p -> pr_workers p' = pr_workers p -> pr_spawned p' = pr_spawned p -> pr_wg p' = pr_wg p ->
  pr_running p' = pr_running p -> pr_returned p' = pr_returned p -> (is_Some (pr_ctx p) -> is_Some (pr_ctx p')) ->
  (pr_stopCh p' = true -> is_Some (pr_ctx p') /\ (pr_listener p' = Stopping \/ pr_listener p' = Ended)) ->
  (pr_listener p' = Closing -> is_Some (pr_ctx p')) -> (pr_server p' = ShutDown -> pr_stopCh p' = true) ->
  proc_inv rpc r p'.
Proof.
  intros [] Hsh Hk Hs Hwg Hrun Hret Hc Hstop Hcl Hd. split; rewrite ?Hsh, ?Hk, ?Hs, ?Hwg, ?Hrun, ?Hret; try done.
  intros k Hin. eapply placed_mono; [exact Hc|]. auto.
Qed.

(** A step of worker [i], from what it does to it; [spawned] moves past the
    worker that is started. *)
Lemma put_worker_inv rpc r p i k sh k' spawned dwg drun :
  proc_inv rpc r p -> pr_workers p !! i = Some k ->
  alive k' = alive k + dwg -> in_loop k' = in_loop k + drun ->
  sem_len (sh_rpc sh) = sem_len (sh_rpc (pr_shared p)) - has_global k + has_global k' ->
  own_rest k' = own_rest k -> config k' = config k -> placed (pr_ctx p) k' ->
  (wk_place k' = NotStarted <-> (spawned <= i)%nat) ->
  (forall j, j <> i -> (spawned <= j)%nat <-> (pr_spawned p <= j)%nat) ->
  pr_returned p = false ->
  proc_inv rpc r (put_worker i sh k' spawned dwg drun p).
Proof.
  intros [Hwg Hrun Htok Htasks Hown Hpl Hsp Hret Hstop Hcl Hd] Hi Ha Hin Ht Ho Hcf Hpk Hns Hj Hr.
  assert (Hall : forall k0, k0 ∈ <[i:=k']> (pr_workers p) -> k0 = k' \/ k0 ∈ pr_workers p).
  { intros k0 Hk0. apply list_elem_of_lookup in Hk0 as [j Hk0].
    apply list_lookup_insert_Some in Hk0 as [(_ & <- & _)|(_ & Hk0)]; [by left|right]. by eapply list_elem_of_lookup_2. }
  split; cbn; try done.
  - rewrite (sumZ_insert _ _ i k k') by done. lia.
  - rewrite (sumZ_insert _ _ i k k') by done. lia.
  - rewrite (sumZ_insert _ _ i k k') by done. lia.
  - rewrite list_fmap_insert, Hcf, <- Htasks. apply list_insert_id. by rewrite list_lookup_fmap, Hi.
  - intros k0 [->|Hk0]%Hall; [|auto]. rewrite Ho. apply Hown. by eapply list_elem_of_lookup_2.
  - intros k0 [->|Hk0]%Hall; auto.
  - intros j k0 Hk0. apply list_lookup_insert_Some in Hk0 as [(<- & <- & _)|(Hne & Hk0)]; [done|].
    rewrite (Hj j) by congruence. by apply Hsp.
  - by rewrite Hr.
Qed.

Lemma alive_nonneg k : 0 <= alive k.
Proof. unfold alive. by destruct (wk_place k). Qed.
Lemma in_loop_nonneg k : 0 <= in_loop k.
Proof. unfold in_loop. by destruct (wk_place k). Qed.
Lemma has_global_nonneg k : 0 <= has_global k.
Proof. unfold has_global. by destruct (wk_place k) as [| |[]| | |]. Qed.

(** While a worker lives, [RunAll] has not returned. *)
Lemma alive_counted rpc r p i k : proc_inv rpc r p -> pr_workers p !! i = Some k -> alive k = 1 -> 0 < pr_wg p /\ pr_returned p = false.
Proof.
  intros Hi Hk Ha. pose proof (sumZ_elem_le alive _ k (fun y _ => alive_nonneg y) (list_elem_of_lookup_2 _ _ _ Hk)) as Hle.
  rewrite <- (inv_wg _ _ _ Hi) in Hle. split; [lia|]. destruct (pr_returned p) eqn:E; [|done].
  apply (inv_returned _ _ _ Hi) in E as [_ E]. lia.
Qed.

Lemma step_inv rpc r p p' : proc_inv rpc r p -> step p p' -> proc_inv rpc r p'.
Proof.
  intros Hi Hs. destruct Hs as [p p' Hs|p p' Hs|p p' Hs|p p' Hs|p i k dwg drun sh k' Hk Hs].
  - destruct Hs as [p|p e|p]; apply (proc_inv_same rpc r p); try done; cbn; try apply Hi; eauto.
    intros Hst. apply (inv_stop _ _ _ Hi) in Hst as [_ ?]. eauto.
  - destruct Hs as [p Hl Hsg|p e Hl Hc|p Hl|p Hl|p Hl]; apply (proc_inv_same rpc r p); try done; cbn; try apply Hi; eauto;
      try (intros Hst; apply (inv_stop _ _ _ Hi) in Hst as [? Hst]; rewrite Hl in Hst; naive_solver);
      unfold cancel; destruct (pr_ctx p) eqn:Ec; eauto.
    pose proof (inv_closing _ _ _ Hi Hl) as Hx. rewrite Ec in Hx. by destruct Hx.
  - destruct Hs as [p]; apply (proc_inv_same rpc r p); try done; cbn; apply Hi.
  - destruct Hs as [p k Hk|p Hn Hwg Hr].
    + assert (Hns : wk_place k = NotStarted) by by apply (inv_spawned _ _ _ Hi _ _ Hk).
      eapply put_worker_inv; try done; cbn; unfold alive, in_loop; rewrite ?Hns; try done.
      * unfold has_global. cbn. rewrite Hns. lia.
      * unfold own_rest, has_own. cbn. by rewrite Hns.
      * split; [done|lia].
      * lia.
      * destruct (pr_returned p) eqn:E; [|done]. apply (inv_returned _ _ _ Hi) in E as [E _]. congruence.
    + destruct Hi. by split.
  - pose proof (list_elem_of_lookup_2 _ _ _ Hk) as Hin.
    destruct (worker_step_spec _ _ _ _ _ _ _ Hs (inv_placed _ _ _ Hi _ Hin)) as [Ha Ha' Hl Ht Ho Hn Hcf Hpl].
    eapply put_worker_inv; try done; [lia| |by eapply alive_counted].
    pose proof (inv_spawned _ _ _ Hi _ _ Hk) as Hsp. split; [done|]. intros Hle. apply Hsp in Hle.
    unfold alive in Ha. by rewrite Hle in Ha.
Qed.

Lemma start_inv parent rpc r : Forall sems_ok r -> proc_inv rpc r (start parent rpc r).
Proof.
  intros Hok.
  assert (Hz : forall f, (forall w, f (MkWorker w 0 NotStarted) = 0) -> sumZ f (pr_workers (start parent rpc r)) = 0).
  { intros f Hf. apply sumZ_zero. intros k (t & -> & _)%list_elem_of_fmap. apply Hf. }
  split; try done; rewrite ?Hz by done; cbn; try done; try lia.
  - by rewrite map_map.
  - intros k (t & -> & Ht)%list_elem_of_fmap. eapply Forall_forall in Hok as [_ Hl]; [|exact Ht]. unfold own_rest. cbn. lia.
  - by intros k (t & -> & _)%list_elem_of_fmap.
  - intros i k Hk. apply list_lookup_fmap_Some in Hk as (t & -> & _). split; [lia|done].
Qed.

Lemma reachable_proc_inv parent rpc r p : Forall sems_ok r -> rtc step (start parent rpc r) p -> proc_inv rpc r p.
Proof.
  intros Hok Hr. pose proof (start_inv parent rpc r Hok) as Hi. induction Hr as [|p q p' Hs _ IH]; [done|].
  apply IH. by eapply step_inv.
Qed.

(** C14: What holds at every moment of a run of [RunAll].  The wait group counts
    the goroutines that were started and have not returned, so that its counter
    does not go below zero and [Wait] waits for all of them; the gauge of running
    tasks is the number of tasks inside [TaskLoop]; the tokens taken from the
    global semaphore are those of the tasks that are in their query or about to
    release.  When [RunAll] has returned, every goroutine has, each because the
    context had ended or because its task is not live and had finished.  [stopCh]
    is closed once at most, and only when the context has ended. *)
Theorem RunAll_accounts parent rpc r p :
  Forall sems_ok r -> rtc step (start parent rpc r) p ->
  pr_wg p = sumZ alive (pr_workers p) /\
  (forall i k dwg drun sh k', pr_workers p !! i = Some k -> worker_step (pr_ctx p) (pr_shared p) k dwg drun sh k' -> 0 <= pr_wg p + dwg) /\
  pr_running p = sumZ in_loop (pr_workers p) /\
  sem_len (sh_rpc (pr_shared p)) = sem_len rpc + sumZ has_global (pr_workers p) /\
  (pr_returned p = true -> forall i t, r !! i = Some t ->
     exists k, pr_workers p !! i = Some k /\ wk_place k = Gone /\ (is_Some (pr_ctx p) \/ LiveMode (Config t) = false)) /\
  (pr_listener p = Closing -> pr_stopCh p = false) /\ (pr_stopCh p = true -> is_Some (pr_ctx p)).
Proof.
  intros Hok Hr. pose proof (reachable_proc_inv _ _ _ _ Hok Hr) as Hi. pose proof Hi as [Hwg Hrun Htok Htasks Hown Hpl Hsp Hret Hstop Hcl Hd].
  split; [done|]. split.
  { intros i k dwg drun sh k' Hk Hs. pose proof (list_elem_of_lookup_2 _ _ _ Hk) as Hin.
    destruct (worker_step_spec _ _ _ _ _ _ _ Hs (Hpl _ Hin)) as [Ha Ha' _ _ _ _ _ _].
    pose proof (alive_nonneg k'). destruct (alive_counted _ _ _ _ _ Hi Hk Ha). lia. }
  split; [done|]. split; [done|]. split; [|split].
  - intros Hre i t Ht. apply Hret in Hre as [Hn Hz].
    assert (Hk : exists k, pr_workers p !! i = Some k /\ config k = Config t).
    { assert (Hx : map config (pr_workers p) !! i = Some (Config t)) by (rewrite Htasks; by rewrite list_lookup_fmap, Ht).
      apply list_lookup_fmap_Some in Hx as (k & Hk & Hi'). eauto. }
    destruct Hk as (k & Hk & Hcf). exists k. split; [done|]. pose proof (list_elem_of_lookup_2 _ _ _ Hk) as Hin.
    pose proof (Hpl _ Hin) as Hp. rewrite Hwg in Hz.
    pose proof (sumZ_elem_le alive _ k (fun y _ => alive_nonneg y) Hin) as Hle. rewrite Hz in Hle.
    pose proof (proj1 (Hsp _ _ Hk)) as Hns. apply lookup_ge_None in Hn. apply lookup_lt_Some in Hk.
    unfold alive, placed in *. destruct (wk_place k); try lia; [specialize (Hns eq_refl); lia|]. by rewrite <- Hcf.
  - intros Hl. apply not_true_iff_false. intros [_ E]%Hstop. rewrite Hl in E. naive_solver.
  - by intros [? _]%Hstop.
Qed.

(** ** The shutdown *)

(** The steps that are left once the context has ended. *)
Definition worker_left (k : worker) : Z :=
  match wk_place k with Gone => 0 | AtTop => 1 | NotStarted | Pausing => 2 | Decide _ => 3 | Running l => loop_left l end.
Definition listener_left (l : listener) : Z :=
  match l with Ended => 0 | Stopping => 1 | Closing => 2 | Cancelling => 3 | Listening => 5 end.
Definition left_to_do (p : proc) : Z :=
  sumZ worker_left (pr_workers p) + listener_left (pr_listener p) + (if pr_sigCh p then 0 else 1) +
  (match pr_server p with Serving => 2 | Failed => 1 | ShutDown => 0 end) + (if pr_returned p then 0 else 1).

Lemma worker_left_nonneg k : 0 <= worker_left k.
Proof. unfold worker_left. destruct (wk_place k) as [| |[]| | |]; cbn; lia. Qed.

Lemma left_nonneg p : 0 <= left_to_do p.
Proof.
  unfold left_to_do. pose proof (sumZ_nonneg worker_left (pr_workers p) (fun k _ => worker_left_nonneg k)).
  destruct (pr_listener p), (pr_sigCh p), (pr_server p), (pr_returned p); cbn; lia.
Qed.

Lemma loop_left_enough l : 4 <= loop_left l.
Proof. destruct l; cbn; lia. Qed.

Lemma worker_step_left e sh k dwg drun sh' k' : worker_step (Some e) sh k dwg drun sh' k' -> worker_left k' < worker_left k.
Proof.
  intros Hs. unfold worker_left.
  destruct Hs as [k e' Hp Hc|k Hp Hc|k l ctx pick now l' w' Hp Hl Ht|k l ctx pick now r w' Hp Hl Ht|k err Hp Hi|k err Hp Hi|k e' Hp Hc|k Hp];
    rewrite Hp; cbn; try done.
  - eapply (loop_piece_left _ _ _ e); [|exact Ht]. destruct l; try (by left); right; eauto.
  - pose proof (loop_left_enough l). lia.
Qed.

(** Each step of a process whose context has ended brings it closer to its end. *)
Lemma step_left rpc r p p' : proc_inv rpc r p -> is_Some (pr_ctx p) -> step p p' ->
  is_Some (pr_ctx p') /\ left_to_do p' < left_to_do p.
Proof.
  intros Hi Hc Hs. unfold left_to_do.
  destruct Hs as [p p' Hs|p p' Hs|p p' Hs|p p' Hs|p i k dwg drun sh k' Hk Hs]; [destruct Hs as [p Hl Hsg|p e Hn|p Hsv]| | | |]; cbn.
  - rewrite Hsg. split; [done|lia].
  - rewrite Hn in Hc. by destruct Hc.
  - rewrite Hsv. split; [done|lia].
  - destruct Hs as [p Hl Hsg|p e Hl He|p Hl|p Hl|p Hl]; cbn; rewrite ?Hl, ?Hsg; cbn; (split; [|lia]); try done.
    destruct Hc as [e Hc]. rewrite Hc. by eexists.
  - destruct Hs as [p Hst Hsv]; cbn. split; [done|]. destruct (pr_server p); [lia|lia|done].
  - destruct Hs as [p k Hk|p Hn Hwg Hr]; cbn; [|rewrite Hr; split; [done|lia]]. split; [done|].
    rewrite (sumZ_insert _ _ _ _ _ Hk). unfold worker_left. rewrite (proj2 (inv_spawned _ _ _ Hi _ _ Hk)) by lia. cbn. lia.
  - split; [done|]. rewrite (sumZ_insert _ _ _ _ _ Hk). destruct Hc as [e Hc]. rewrite Hc in Hs. apply worker_step_left in Hs. lia.
Qed.

(** The token a goroutine is about to release is there. *)
Lemma tokens_held rpc r p k l : 0 <= sem_len rpc -> proc_inv rpc r p -> k ∈ pr_workers p -> wk_place k = Running l ->
  tokens_there l (lend (pr_shared p) (wk_world k)).
Proof.
  intros Hrpc Hi Hin Hp. pose proof (inv_own _ _ _ Hi k Hin) as Ho. pose proof (inv_tokens _ _ _ Hi) as Ht.
  pose proof (sumZ_elem_le has_global _ k (fun y _ => has_global_nonneg y) Hin) as Hle.
  unfold own_rest, has_own in Ho. unfold has_global in Hle at 1. rewrite Hp in Ho, Hle.
  destruct l; cbn in *; done || lia.
Qed.

(** A goroutine that has started and not returned can step, wherever it is: no
    piece of [TaskLoop] waits once the context has ended. *)
Lemma worker_can_step e sh k : alive k = 1 -> placed (Some e) k ->
  (forall l, wk_place k = Running l -> tokens_there l (lend sh (wk_world k))) ->
  exists dwg drun sh' k', worker_step (Some e) sh k dwg drun sh' k'.
Proof.
  unfold alive, placed. destruct (wk_place k) as [| |l|err| |] eqn:E; try done; intros _ Hpl Ht.
  - do 4 eexists. by eapply step_top_done.
  - assert (Hc : looks l (Some e) (fun _ => Some e)) by (destruct l; cbn; auto).
    pose proof (loop_piece_goes_on (fun _ => Some e) (fun _ => true) (fun _ => 0) e l (lend sh (wk_world k)) ltac:(done) Hpl (Ht l eq_refl)) as Hg.
    destruct (loop_piece _ _ _ l (lend sh (wk_world k))) as [l' w'|r w'|w'|w'|w'] eqn:El; cbn in Hg; try done; do 4 eexists;
      [by eapply step_piece|by eapply step_return].
  - destruct (errors_Is err (Some e)) eqn:Ei; do 4 eexists; [by eapply step_shutdown|by eapply step_failed].
  - do 4 eexists. by eapply step_pause_done.
Qed.

(** Where the process can go no further. *)
Lemma stuck_ended rpc r p : 0 <= sem_len rpc -> proc_inv rpc r p -> is_Some (pr_ctx p) -> nf step p ->
  pr_returned p = true /\ pr_listener p = Ended /\ (pr_stopCh p = true -> pr_server p = ShutDown) /\
  forall k, k ∈ pr_workers p -> wk_place k = Gone.
Proof.
  intros Hrpc Hi [e Hc] Hnf. unfold nf in Hnf.
  assert (Hgone : forall k, k ∈ pr_workers p -> alive k = 0).
  { intros k [i Hk]%list_elem_of_lookup. destruct (decide (alive k = 1)) as [Ha|Ha]; [|unfold alive in *; by destruct (wk_place k)].
    pose proof (list_elem_of_lookup_2 _ _ _ Hk) as Hin. pose proof (inv_placed _ _ _ Hi k Hin) as Hpl. rewrite Hc in Hpl.
    destruct (worker_can_step e (pr_shared p) k Ha Hpl) as (dwg & drun & sh' & k' & Hs); [intros l; by eapply tokens_held|].
    destruct Hnf. eexists. eapply step_worker; [exact Hk|]. by rewrite Hc. }
  assert (Hn : pr_workers p !! pr_spawned p = None).
  { destruct (pr_workers p !! pr_spawned p) as [k|] eqn:Hk; [|done]. destruct Hnf. eexists. eapply step_run_all, step_spawn, Hk. }
  split; [|split; [|split]].
  - apply not_false_iff_true. intros Hr. destruct Hnf. eexists. eapply step_run_all, step_wait; [done| |done].
    rewrite (inv_wg _ _ _ Hi). by apply sumZ_zero.
  - destruct (pr_listener p) eqn:Hl; [..|done]; destruct Hnf; eexists; eapply step_listener;
      [by eapply step_ctx_done|by eapply step_cancel|by eapply step_close|by eapply step_stop].
  - intros Hst. destruct (decide (pr_server p = ShutDown)) as [|Hne]; [done|]. destruct Hnf. eexists. by eapply step_metrics, step_server.
  - intros k Hk. pose proof (Hgone k Hk) as Ha. apply list_elem_of_lookup in Hk as [i Hk].
    pose proof (inv_spawned _ _ _ Hi _ _ Hk) as Hsp. apply lookup_ge_None in Hn. apply lookup_lt_Some in Hk.
    unfold alive in Ha. destruct (wk_place k); try done. destruct Hsp as [Hsp _]. specialize (Hsp eq_refl). lia.
Qed.

(** The signal was heard, or missed: then the goroutine has left by the other
    case of its [select]. *)
Definition heard (p : proc) : Prop := pr_listener p = Cancelling \/ pr_listener p = Closing \/ pr_stopCh p = true.
Definition missed (p : proc) : Prop := (pr_listener p = Stopping \/ pr_listener p = Ended) /\ pr_stopCh p = false.

Lemma heard_step p p' : step p p' -> heard p -> heard p'.
Proof.
  unfold heard. intros Hs. destruct Hs as [p p' Hs|p p' Hs|p p' Hs|p p' Hs|p i k dwg drun sh k' Hk Hs]; [| | | |done];
    destruct Hs; cbn; intuition congruence.
Qed.

Lemma missed_step p p' : step p p' -> missed p -> missed p'.
Proof.
  unfold missed. intros Hs. destruct Hs as [p p' Hs|p p' Hs|p p' Hs|p p' Hs|p i k dwg drun sh k' Hk Hs]; [| | | |done];
    destruct Hs; cbn; intuition congruence.
Qed.

Lemma rtc_keeps (Q : proc -> Prop) : (forall p p', step p p' -> Q p -> Q p') -> forall p p', rtc step p p' -> Q p -> Q p'.
Proof. intros HQ p p' Hr. induction Hr; eauto. Qed.

(** C13: The shutdown completes.  Once the context has ended, by a signal or by
    its parent, every run of the process is finite, whatever the order of its
    steps and wherever the tasks are: at the top, in a query, waiting for a token
    another task holds or for one nobody will return, before a release, in a
    pause.  Where the process can go no further [RunAll] has returned, every
    goroutine with it, no task is counted as running, and the global semaphore has
    all its tokens back.  The calls on the node, the pool, the handler and the
    store are taken to return.  The metrics server is shut down then if the signal
    was heard; if the parent ended first, [stopCh] is never closed and the server
    keeps serving. *)
Theorem shutdown_completes parent rpc r p :
  0 <= sem_len rpc -> Forall sems_ok r -> rtc step (start parent rpc r) p -> is_Some (pr_ctx p) ->
  sn step p /\
  forall p', rtc step p p' -> nf step p' ->
    pr_returned p' = true /\ (forall k, k ∈ pr_workers p' -> wk_place k = Gone) /\ pr_wg p' = 0 /\ pr_running p' = 0 /\
    sem_len (sh_rpc (pr_shared p')) = sem_len rpc /\
    (heard p -> pr_server p' = ShutDown) /\ (missed p -> pr_stopCh p' = false /\ pr_server p' <> ShutDown).
Proof.
  intros Hrpc Hok Hr Hc. pose proof (reachable_proc_inv _ _ _ _ Hok Hr) as Hi. clear Hr. split.
  - remember (Z.to_nat (left_to_do p)) as n eqn:Hn. revert p Hi Hc Hn. induction (lt_wf n) as [n _ IH]. intros p Hi Hc ->.
    constructor. intros p' Hs. cbn in Hs. destruct (step_left _ _ _ _ Hi Hc Hs) as [Hc' Hlt]. pose proof (left_nonneg p').
    eapply IH; [|by eapply step_inv|done|reflexivity]. lia.
  - intros p' Hr Hnf.
    assert (Hq : proc_inv rpc r p' /\ is_Some (pr_ctx p')).
    { apply (rtc_keeps (fun q => proc_inv rpc r q /\ is_Some (pr_ctx q))) with p; [|done|done].
      intros q q' Hs [Hq Hcq]. split; [by eapply step_inv|by eapply step_left]. }
    destruct Hq as [Hi' Hc']. destruct (stuck_ended _ _ _ Hrpc Hi' Hc' Hnf) as (Hret & Hl & Hsv & Hg).
    split; [done|]. split; [done|]. rewrite (inv_wg _ _ _ Hi'), (inv_running _ _ _ Hi'), (inv_tokens _ _ _ Hi').
    split; [apply sumZ_zero; intros k Hk; unfold alive; by rewrite Hg|].
    split; [apply sumZ_zero; intros k Hk; unfold in_loop; by rewrite Hg|].
    split; [rewrite (sumZ_zero has_global) by (intros k Hk; unfold has_global; by rewrite Hg); lia|]. split.
    + intros Hh. apply (rtc_keeps heard heard_step _ _ Hr) in Hh. apply Hsv. unfold heard in Hh. rewrite Hl in Hh. naive_solver.
    + intros Hm. apply (rtc_keeps missed missed_step _ _ Hr) in Hm as [_ Hst]. split; [done|].
      intros Hd. apply (inv_down _ _ _ Hi') in Hd. congruence.
Qed.

(** ** Pieces of one goroutine, with a live context *)

Fixpoint run_pieces (n : nat) (x : shared * worker) : option (shared * worker) :=
  match n, wk_place x.2 with
  | O, _ => Some x
  | Datatypes.S n, Running l =>
      match loop_piece live first_case ticks l (lend x.1 (wk_world x.2)) with
      | Cont l' w' => run_pieces n (shared_of w', MkWorker w' (wk_backoff x.2) (Running l'))
      | _ => None
      end
  | _, _ => None
  end.

Lemma run_pieces_steps n i x' : forall p k, pr_workers p !! i = Some k -> pr_ctx p = None ->
  run_pieces n (pr_shared p, k) = Some x' -> rtc step p (put_worker i x'.1 x'.2 (pr_spawned p) 0 0 p).
Proof.
  induction n as [|n IH]; intros p k Hk Hc; cbn.
  - intros [= <-]. cbn. unfold put_worker. rewrite list_insert_id, !Z.add_0_r by done. by destruct p.
  - destruct (wk_place k) as [| |l| | |] eqn:Hp; try done.
    destruct (loop_piece _ _ _ l _) as [l' w'|r w'|w'|w'|w'] eqn:El; try done. intros Hr. eapply rtc_l.
    { eapply (step_worker _ i); [exact Hk|]. rewrite Hc. eapply (step_piece _ _ _ _ live); [exact Hp|by destruct l|exact El]. }
    eapply (IH (put_worker i _ _ _ 0 0 p)) in Hr; [|apply list_lookup_insert_eq; by eapply lookup_lt_Some|done].
    unfold put_worker in *. cbn in *. by rewrite list_insert_insert_eq, !Z.add_0_r in *.
Qed.
End Runner.

(** ** Two tasks that share one token: when the signal comes the first is in its
    query, and the second waits in [RPCSem.Acquire]. *)

Definition idle_task := w_task (node_task Idle).
Definition demo_runner : TaskRunner := AddTask idle_task (AddTask idle_task NewTaskRunner).
Definition one_token : RPCSemaphore := MkSem 1 0.

(** A goroutine [n] pieces past the top of [for]. *)
Definition enter (sh : shared) : shared * worker :=
  let w := entered NewBlockPendingPool (lend sh (MkWorld idle_task 0 ∅ [])) in
  (shared_of w, MkWorker w 1000000000 (Running AtPoll)).
Definition pieces_in (n : nat) (sh : shared) : shared * worker := default (enter sh) (run_pieces n (enter sh)).

Definition first_in := pieces_in 5 (MkShared one_token ∅).
Definition second_in := pieces_in 4 first_in.1.
Definition demo_proc : proc :=
  MkProc (Some ECanceled) false Closing false Serving second_in.1 [first_in.2; second_in.2] 2 2 2 false.

Lemma demo_places : map (fun k => wk_place k) (pr_workers demo_proc) = [Running (InQuery 125 100); Running (AtGlobal 125 100)] /\
  sh_rpc (pr_shared demo_proc) = MkSem 1 1.
Proof. split; vm_compute; reflexivity. Qed.

Lemma pieces_in_runs n sh : is_Some (run_pieces n (enter sh)) -> run_pieces n (enter sh) = Some (pieces_in n sh).
Proof. unfold pieces_in. intros [x ->]. done. Qed.

Lemma demo_steps x y : run_pieces 5 (enter (MkShared one_token ∅)) = Some x -> run_pieces 4 (enter x.1) = Some y ->
  rtc (step NewBlockPendingPool) (start None one_token demo_runner)
    (MkProc (Some ECanceled) false Closing false Serving y.1 [x.2; y.2] 2 2 2 false).
Proof.
  intros Hx Hy.
  eapply rtc_l; [eapply step_run_all, step_spawn; reflexivity|].
  eapply rtc_l; [eapply step_run_all, step_spawn; reflexivity|].
  eapply rtc_l; [eapply (step_worker _ _ 0); [reflexivity|eapply step_top; reflexivity]|].
  etrans; [eapply (run_pieces_steps _ 5 0 x); [reflexivity|reflexivity|exact Hx]|].
  eapply rtc_l; [eapply (step_worker _ _ 1); [reflexivity|eapply step_top; reflexivity]|].
  etrans; [eapply (run_pieces_steps _ 4 1 y); [reflexivity|reflexivity|exact Hy]|].
  eapply rtc_l; [eapply step_env, env_signal; [discriminate|reflexivity]|].
  eapply rtc_l; [eapply step_listener, step_heard; reflexivity|].
  eapply rtc_l; [eapply step_listener, step_cancel; reflexivity|].
  apply rtc_refl.
Qed.

Lemma demo_proc_reachable : rtc (step NewBlockPendingPool) (start None one_token demo_runner) demo_proc.
Proof. apply demo_steps; apply pieces_in_runs; vm_compute; eexists; reflexivity. Qed.

Lemma demo_runner_ok : Forall sems_ok demo_runner.
Proof. repeat constructor; done. Qed.

Lemma RunAll_accounts_witness :
  pr_wg demo_proc = 2 /\ pr_running demo_proc = sumZ in_loop (pr_workers demo_proc) /\
  sem_len (sh_rpc (pr_shared demo_proc)) = sumZ has_global (pr_workers demo_proc).
Proof.
  destruct (RunAll_accounts NewBlockPendingPool None one_token demo_runner demo_proc demo_runner_ok demo_proc_reachable) as (_ & _ & Hr & Ht & _).
  split; [reflexivity|]. split; [exact Hr|exact Ht].
Defined.

Lemma shutdown_completes_witness :
  sn (step NewBlockPendingPool) demo_proc /\
  forall p', rtc (step NewBlockPendingPool) demo_proc p' -> nf (step NewBlockPendingPool) p' ->
    pr_returned p' = true /\ sem_len (sh_rpc (pr_shared p')) = 0 /\ pr_server p' = ShutDown.
Proof.
  destruct (shutdown_completes NewBlockPendingPool None one_token demo_runner demo_proc ltac:(done) demo_runner_ok demo_proc_reachable
    ltac:(by eexists)) as [Hsn He].
  split; [exact Hsn|]. intros p' Hr Hnf. destruct (He p' Hr Hnf) as (Hret & _ & _ & _ & Ht & Hh & _).
  split; [exact Hret|]. split; [exact Ht|]. apply Hh. right. by left.
Defined.
