(* ===== verification/LoopInvariant.v ===== *)
(** * What the main loop keeps

    The invariants of single rounds ([RunOnceRefines.v], [Protocol.v]) over a
    whole run of [TaskLoop], at any moment of it and however it ends: the
    checkpoint does not move back, nothing below the first block is queried, and
    as long as neither the handler nor a call on the pool has failed nothing from
    the first block to the checkpoint is lost. *)

From stdpp Require Import base gmap list strings.
From Stdlib Require Import ZArith Lia.
From S2P Require Import Prelude GoStd LogTypes Semaphore PendingPool Checkpoint RunOnce Scenario RunOnceSpec RunOnceTotal Sync.
From S2P Require Import RunOnceRefines Service Protocol TaskLoop.

Local Open Scope Z_scope.
Local Open Scope go_scope.

(** ** The queries and saves of a trace *)

Lemma tiles_from lo hi l : tiles lo hi l -> lo - 1 <= hi /\ Forall (fun q => lo <= q.1) l.
Proof.
  revert hi. induction l as [|[a b] l IH]; intros hi; cbn [tiles]; [intros ->; split; [lia|done]|].
  intros (-> & Hab & Ht). destruct (IH _ Ht) as [Hle Hall]. split; [lia|]. constructor; [cbn; lia|done].
Qed.

(** The blocks a round saves are not below the one it starts at. *)
Lemma proto_saved_from c cp tr x ph :
  proto_run c (proto_start cp) tr = Some (MkProto x ph) ->
  cp <= x /\ match ph with
             | PTop _ b | PAdded _ b | PPopped _ b _ | PHandled _ b | PFetched _ _ b _ => cp <= b
             | _ => True
             end.
Proof.
  revert x ph. induction tr as [|ev tr IH]; intros x ph Hr; [by injection Hr as <- <-|].
  apply proto_run_cons in Hr as ([x1 ph1] & Hr & Hst). apply IH in Hr as [Hx Hph]. clear IH.
  unfold proto_step in Hst. cbn [p_cp p_phase] in Hst. proto_cases ph1 ev Hst; split; done || lia.
Qed.

Lemma queries_app tr1 tr2 : queries (tr1 ++ tr2) = queries tr1 ++ queries tr2.
Proof. induction tr1 as [|[| a b [|]| | | |] tr1 IH]; cbn; [done|..]; by rewrite ?IH. Qed.

Lemma lost_app tr1 tr2 : lost (tr1 ++ tr2) = lost tr1 ++ lost tr2.
Proof. unfold lost. by rewrite omap_app, concat_app. Qed.

Lemma pool_failures_app tr1 tr2 : pool_failures (tr1 ++ tr2) = pool_failures tr1 ++ pool_failures tr2.
Proof. unfold pool_failures. by rewrite omap_app. Qed.

Lemma shaped_empty logs_of top B : shaped logs_of top B ∅.
Proof. intros h logs l Hh. by apply lookup_empty_Some in Hh. Qed.

Section Loop.
Context {R S H P : Type}.
Context `{RPCQuerier R, CheckpointStore S, LogBatchHandler H, PendingPoolLaws P}.
Variable ctx : nat -> Ctx.
Variable pick : nat -> bool.
Variable now : nat -> Z.
Variable NewPool : P.
Variable cfg : TaskConfig.
Variable logs_of : Z -> list LogResult.
Variable top B : Z.
Local Abbreviation world := (world R S H P).

(** The node is on the chain [logs_of], its head stays below [top], and it does
    not ask for smaller ranges. *)
Hypothesis honest : @honest_node R P _ _ _ cfg logs_of.
Hypothesis heads : forall cx (r r' : R) n, rpc_BlockNumber cx r = (r', Ok n) -> bounds (ConfirmBlockNum cfg) top B n.
Hypothesis no_range : @no_range_errors R _ ctx.

(** From block [c0] on, and since the trace was [tr0]. *)
Definition loop_inv (c0 : Z) (tr0 : list event) (w : world) : Prop :=
  runnable B (w_task w) /\ 0 <= c0 <= Checkpoint (w_task w) /\ Config (w_task w) = cfg /\
  (exists tr, w_trace w = tr ++ tr0 /\ Forall (fun q => c0 <= q.1) (queries tr)) /\
  (lost (w_trace w) = [] -> pool_failures (w_trace w) = [] -> engine_inv cfg logs_of top B c0 w).

Lemma head_bounds (w : world) latest : head ctx w = Ok latest -> bounds (ConfirmBlockNum cfg) top B latest.
Proof.
  unfold head. destruct (rpc_BlockNumber _ _) as [r' r] eqn:E. cbn. intros ->. by eapply heads.
Qed.

Lemma loop_inv_same c0 tr0 (w w' : world) : same_task w w' -> loop_inv c0 tr0 w -> loop_inv c0 tr0 w'.
Proof.
  intros (u & Ht & Htr) (Hr & Hcp & Hc & Htr0 & He). unfold loop_inv. rewrite Ht, Htr.
  split; [exact Hr|]. split; [exact Hcp|]. split; [exact Hc|]. split; [exact Htr0|].
  intros Hl Hpf. specialize (He Hl Hpf). destruct Hr as (? & ? & ? & ?).
  eapply engine_inv_same; [exact He|rewrite Ht; cbn; try done; lia..|done].
Qed.

Lemma loop_inv_round c0 tr0 fuel (w : world) :
  loop_inv c0 tr0 w -> loop_inv c0 tr0 (final (RunOnce ctx pick fuel w)).
Proof.
  intros (Hr & Hcp & Hc & (tr1 & Htr1 & Hq1) & He). pose proof Hr as (Hok & Hfree & Hp & HB).
  assert (Hroom : room ctx B w).
  { split; [lia|]. destruct (head ctx w) as [latest|] eqn:E; [|done]. apply head_bounds in E as [? ? ? ?]. lia. }
  pose proof (RunOnce_frame ctx pick B fuel w Hr Hroom) as Hf. destruct (frame_sems _ _ Hf) as [Hs1 Hs2].
  pose proof (RunOnce_batch ctx pick fuel w no_range Hok Hfree) as Hb.
  destruct (RunOnce_accepted ctx pick B fuel w Hr Hroom) as [(tr & ph & Htr & Hrun & _) _].
  destruct (proto_tiles _ _ _ _ _ Hrun) as (_ & hi & Ht & _ & _). apply tiles_from in Ht as [_ Hq].
  pose proof (proto_saved_from _ _ _ _ _ Hrun) as [Hx _].
  assert (Hmono : lost (w_trace (final (RunOnce ctx pick fuel w))) = [] -> lost (w_trace w) = [])
    by (rewrite Htr, lost_app; by intros [_ ?]%app_eq_nil).
  assert (Hmonop : pool_failures (w_trace (final (RunOnce ctx pick fuel w))) = [] -> pool_failures (w_trace w) = [])
    by (rewrite Htr, pool_failures_app; by intros [_ ?]%app_eq_nil).
  split; [|split; [lia|split; [|split]]].
  - destruct Hf as (_ & _ & _ & Hpool & _). split; [auto|split; [auto|split; [auto|lia]]].
  - destruct Hf as (Hcfg & _). by rewrite Hcfg.
  - exists (tr ++ tr1). split; [by rewrite Htr, Htr1, app_assoc|]. rewrite queries_app. apply Forall_app. split; [|done].
    eapply Forall_impl; [exact Hq|]. cbn. lia.
  - intros Hl Hpf. specialize (Hmono Hl). specialize (Hmonop Hpf).
    destruct (round_inv True (or_introl I) ctx pick cfg logs_of top B c0 fuel w honest (He Hmono Hmonop) ltac:(lia) (head_bounds w))
      as [[_ Hbr]|[? _]]; [congruence|by destruct Hbr|done].
Qed.

(** At every moment of a run of the loop, and when it has ended. *)
Lemma TaskLoop_inv c0 rounds fuel (w : world) :
  loop_inv c0 (w_trace w) w ->
  loop_inv c0 (w_trace w) (final (TaskLoop ctx pick now NewPool rounds fuel w)).
Proof.
  intros Hi. pose proof Hi as ((_ & _ & Hp & _) & _).
  apply (TaskLoop_keeps ctx pick now NewPool (loop_inv c0 (w_trace w))); [|intros; by apply loop_inv_round|done|done].
  intros w1 w2 Hs. by apply loop_inv_same.
Qed.

(** Where a run begins: nothing is covered yet. *)
Lemma loop_inv_start (w : world) p :
  runnable B (w_task w) -> 0 <= Checkpoint (w_task w) -> Config (w_task w) = cfg -> Pool (w_task w) = Some p ->
  pool_wf p -> shaped logs_of top B (contents p) -> loop_inv (Checkpoint (w_task w)) (w_trace w) w.
Proof.
  intros Hr Hcp Hc Hp Hwf Hsh. unfold loop_inv. split; [done|]. split; [lia|]. split; [done|]. split; [by exists []|]. intros _ _. pose proof Hr as (Hok & Hfree & _ & HB).
  split_and!; try done; [lia|].
  exists (MkSync (Checkpoint (w_task w)) (BatchSize (w_task w)) (contents p) (handed (w_trace w)) (lost (w_trace w))).
  split_and!; [|intros n l Hn; cbn in Hn; lia|done]. split; try done. by exists p.
Qed.

(** The logs of the blocks from [c0] to the checkpoint, spelled out. *)
Definition accounted_for (c0 : Z) (w : world) : Prop :=
  forall n l, c0 <= n < Checkpoint (w_task w) -> l ∈ logs_of n ->
    exists l', uniqueKey l' = uniqueKey l /\
      (l' ∈ handed (w_trace w) \/
       exists p h logs, Pool (w_task w) = Some p /\ h <= n /\ contents p !! h = Some logs /\ l' ∈ logs).

Lemma engine_accounted c0 (w : world) : engine_inv cfg logs_of top B c0 w -> accounted_for c0 w.
Proof.
  intros (_ & _ & _ & _ & s & Hsim & Hcov & _) n l Hn Hl. rewrite (sim_cp _ _ _ Hsim) in Hn.
  destruct (Hcov n l Hn Hl) as (l' & Hk & Hor). exists l'. split; [done|].
  rewrite (sim_handed _ _ _ Hsim). destruct Hor as [Hin|(h & logs & Hle & Hh & Hin)]; [by left|right].
  destruct (sim_pool _ _ _ Hsim) as (p & Hp & _ & Heq). exists p, h, logs. split_and!; try done.
  rewrite pool_equiv_lookup in Heq. apply Heq; [|done]. intros ->. by apply not_elem_of_nil in Hin.
Qed.
End Loop.

(** ** A pool no call on which fails *)

Section Infallible.
Context {R S H P : Type}.
Context `{RPCQuerier R, CheckpointStore S, LogBatchHandler H, PendingPool P}.
Variable ctx : nat -> Ctx.
Variable pick : nat -> bool.
Variable infallible : P -> Prop.
Hypothesis Add_infallible : forall cx p h logs p' r, infallible p -> pool_Add cx p h logs = (p', r) -> r = None /\ infallible p'.
Hypothesis Pop_infallible : forall cx p latest c p' r, infallible p -> pool_PopConfirmed cx p latest c = (p', r) ->
  is_ok r = true /\ infallible p'.
Hypothesis Count_infallible : forall cx p, infallible p -> infallible (pool_Count cx p).1.
Local Abbreviation world := (world R S H P).

Definition no_pool_failure (w : world) : Prop :=
  sems_ok (w_task w) /\ sems_free (w_task w) /\ (exists p, Pool (w_task w) = Some p /\ infallible p) /\ pool_failures (w_trace w) = [].

Lemma process_infallible latest cs e logs (w : world) x :
  (exists p, Pool (w_task w) = Some p /\ infallible p) -> pool_failures (w_trace w) = [] -> process_result latest cs e logs w x ->
  (exists p, Pool (w_task (final x)) = Some p /\ infallible p) /\ pool_failures (w_trace (final x)) = [].
Proof.
  intros (p0 & Hp0 & Hi) Hf Hp.
  destruct Hp as [w' Hn|p c1 p1 er w' Hp Ha Ht Htr|p c1 p1 c2 p2 er w' Hp Ha cn Ho Ht Htr
    |p c1 p1 c2 p2 c3 w' Hp Ha cn Ho Ht Htr|p c1 p1 c2 p2 rdy c3 h' er w' Hp Ha cn Ho Hne Hhd Ht Htr
    |p c1 p1 c2 p2 rdy c3 h' c4 s' er w' Hp Ha cn Ho Hne Hhd Hsv Ht Htr
    |p c1 p1 c2 p2 rdy c3 h' c4 s' c5 w' Hp Ha cn Ho Hne Hhd Hsv Ht Htr]; [congruence|..];
    rewrite Hp0 in Hp; injection Hp as <-; apply Add_infallible in Ha as [Hr Hi1]; try done;
    apply Pop_infallible in Ho as [Hr2 Hi2]; try done; cbn [final]; rewrite Ht, Htr; cbn; eauto.
Qed.

Lemma iter_infallible latest cs (w : world) : no_pool_failure w -> no_pool_failure (final (RunOnce_iter ctx pick latest cs w)).
Proof.
  intros (Hok & Hfree & Hp & Hf). pose proof (iter_frame ctx pick latest cs w Hok Hfree) as Hfr.
  destruct (frame_sems _ _ Hfr) as [Hs1 Hs2]. split; [auto|]. split; [auto|]. clear Hfr Hs1 Hs2.
  destruct (iter_spec ctx pick latest cs w Hok)
    as [e n w' _ Ht Htr|w' Hnf _|c1 r' er e bs x w' t end_ _ Ht Htr Hb Hx|c1 r' logs w1 x t end_ Hq Ht Htr Hpr].
  - cbn. by rewrite Ht, Htr.
  - by destruct Hnf.
  - assert (final x = w') as -> by (destruct Hx as [(_ & _ & ->)|[(_ & _ & _ & ->)|(_ & _ & ->)]]; done).
    by rewrite Ht, Htr.
  - eapply process_infallible; [| |exact Hpr]; [by rewrite Ht|by rewrite Htr].
Qed.

Lemma RunOnce_infallible fuel (w : world) : no_pool_failure w -> no_pool_failure (final (RunOnce ctx pick fuel w)).
Proof.
  intros Hq. destruct (RunOnce_cases ctx pick fuel w) as (w1 & Ht & _ & Htr & ->).
  assert (Hq1 : no_pool_failure w1).
  { destruct Hq as (Hok & Hfree & Hp & Hf). unfold no_pool_failure. rewrite Ht, Htr. done. }
  clear Ht Htr Hq. destruct (RunOnceTotal.head ctx w) as [latest|e]; [|done]. destruct (latest <? _); [done|].
  enough (Hl : wp (fun _ => no_pool_failure) (fun _ => no_pool_failure) no_pool_failure
    (RunOnce_loop ctx pick fuel latest (Checkpoint (w_task w)) w1))
    by (unfold bind, return_; by destruct (RunOnce_loop _ _ _ _ _ _)).
  eapply wp_mono; [apply (loop_wp ctx pick latest (fun _ => no_pool_failure) (fun _ => no_pool_failure) no_pool_failure)|..]; try done.
  - intros cs w0 _ Hq0. apply (iter_infallible latest cs) in Hq0. by destruct (RunOnce_iter _ _ _ _ _).
  - by intros _ w0 (_ & _ & ?).
Qed.

Lemma TaskLoop_infallible now NewPool rounds fuel (w : world) :
  no_pool_failure w -> no_pool_failure (final (TaskLoop ctx pick now NewPool rounds fuel w)).
Proof.
  intros Hq. apply (TaskLoop_keeps ctx pick now NewPool no_pool_failure); [|intros; by apply RunOnce_infallible|by destruct Hq as (_ & _ & (p & -> & _) & _); eexists|done].
  intros w0 w1 (u & Ht & Htr). unfold no_pool_failure. by rewrite Ht, Htr.
Qed.
End Infallible.
