(* ===== verification/Daemon.v ===== *)
(** * The daemon ([main], go/logfilter/main.go)

    The program that is run: it reads its settings, dials the node, chooses the
    first block (the setting, the checkpoint file or the head of the chain), the
    pending pool and the handler, and runs [TaskLoop] until it returns.  The
    metrics server and the goroutine that waits for a signal appear as the
    context, which the signal cancels.  The theorems are about the composition:
    where a process starts, that the task is well typed, how the process ends, and
    what it has handed out at any moment. *)

From stdpp Require Import base gmap list strings relations.
From Stdlib Require Import ZArith Lia Ascii.
From Stdlib Require String.
From S2P Require Import Prelude GoStd Json LogTypes Semaphore PendingPool Checkpoint Redis Env JsonCheckpoint RedisPool RunOnce Scenario.
From S2P Require Import RunOnceSpec RunOnceTotal Sync RunOnceRefines Service Handlers Protocol RealRPC TaskLoop LoopInvariant.

Local Open Scope Z_scope.
Local Open Scope go_scope.
#[local] Arguments FormatUint : simpl never.
#[local] Arguments ParseUint : simpl never.

(** ** Interface values that hold one of two types *)

#[export] Instance sum_handler {A B} `{LogBatchHandler A, LogBatchHandler B} : LogBatchHandler (A + B) := {
  HandleBatch ctx h logs :=
    match h with
    | inl a => let (a', e) := HandleBatch ctx a logs in (inl a', e)
    | inr b => let (b', e) := HandleBatch ctx b logs in (inr b', e)
    end }.

#[export] Instance sum_pool {A B} `{PendingPool A, PendingPool B} : PendingPool (A + B) := {
  pool_Add ctx p h logs :=
    match p with
    | inl a => let (a', e) := pool_Add ctx a h logs in (inl a', e)
    | inr b => let (b', e) := pool_Add ctx b h logs in (inr b', e)
    end;
  pool_PopConfirmed ctx p latest c :=
    match p with
    | inl a => let (a', r) := pool_PopConfirmed ctx a latest c in (inl a', r)
    | inr b => let (b', r) := pool_PopConfirmed ctx b latest c in (inr b', r)
    end;
  pool_Count ctx p :=
    match p with
    | inl a => let (a', r) := pool_Count ctx a in (inl a', r)
    | inr b => let (b', r) := pool_Count ctx b in (inr b', r)
    end }.

(** A pool of either type keeps the contract when both do. *)
#[export] Program Instance sum_pool_laws {A B} `{PendingPoolLaws A, PendingPoolLaws B} : PendingPoolLaws (A + B) := {
  pool_keeps l := pool_keeps (P:=A) l /\ pool_keeps (P:=B) l;
  pool_wf p := match p with inl a => pool_wf a | inr b => pool_wf b end;
  contents p := match p with inl a => contents a | inr b => contents b end }.
Next Obligation.
  intros A B ?? ?? ctx [a|b] h logs p' Hwf Hh Hk; cbn.
  - destruct (pool_Add ctx a h logs) as [a' e] eqn:E. intros [= <- ->]. eapply pool_Add_ok; try done.
    by eapply Forall_impl; [exact Hk|intros l []].
  - destruct (pool_Add ctx b h logs) as [b' e] eqn:E. intros [= <- ->]. eapply pool_Add_ok; try done.
    by eapply Forall_impl; [exact Hk|intros l []].
Qed.
Next Obligation.
  intros A B ?? ?? ctx [a|b] latest c p' out Hwf; cbn.
  - destruct (pool_PopConfirmed ctx a latest c) as [a' r] eqn:E. intros [= <- ->]. by eapply pool_Pop_ok.
  - destruct (pool_PopConfirmed ctx b latest c) as [b' r] eqn:E. intros [= <- ->]. by eapply pool_Pop_ok.
Qed.
Next Obligation.
  intros A B ?? ?? ctx [a|b] Hwf; cbn.
  - pose proof (pool_Count_same ctx a Hwf). by destruct (pool_Count ctx a).
  - pose proof (pool_Count_same ctx b Hwf). by destruct (pool_Count ctx b).
Qed.

Lemma FormatUint_utf8 n : utf8 (FormatUint n).
Proof.
  apply utf8_ascii. apply fmt_digits_all; [lia| |done]. intros d Hd.
  assert (Hall : forallb (fun n => ascii_Z (digit_char (Z.of_nat n)) <? 128) (seq 0 10) = true) by reflexivity.
  rewrite forallb_forall in Hall. specialize (Hall (Z.to_nat d)). rewrite Z2Nat.id in Hall by lia. apply Hall, in_seq. lia.
Qed.

(** ** Settings *)

Record Settings := MkSettings {
  rpcURL : string;
  contracts : list string;
  confirmBlocks : Z;
  batchSize : Z;
  startBlock : Z;
  liveInterval : Z;
  redisAddr : string;
  checkpointFile : string;
  kafkaBrokers : string;
  kafkaTopic : string }.

(** What [main] reads; an interval that does not parse is the duration 0. *)
Definition read_settings (Getenv : string -> string) : Settings :=
  MkSettings (env Getenv "RPC_URL" "")
    (map TrimSpace (Split1 "," (env Getenv "CONTRACT_ADDRESS" "")))
    (envUint64 Getenv "CONFIRM_BLOCKS" 6)
    (envUint64 Getenv "BATCH_SIZE" 1000)
    (envUint64 Getenv "START_BLOCK" 0)
    (default 0 (ParseDuration (env Getenv "LIVE_POLL_INTERVAL" "12s")))
    (env Getenv "REDIS_ADDR" "")
    (env Getenv "CHECKPOINT_FILE" "./checkpoint.json")
    (env Getenv "KAFKA_BROKERS" "")
    (env Getenv "KAFKA_TOPIC" "evm_logs").

(** The [log.Fatal] for a setting that is required. *)
Definition missing_setting (st : Settings) : option string :=
  if String.eqb (rpcURL st) "" then Some "RPC_URL is required"
  else match contracts st with
       | [] => Some "CONTRACT_ADDRESS is required"
       | a :: _ => if String.eqb a "" then Some "CONTRACT_ADDRESS is required" else None
       end.

Section Daemon.
(** go-ethereum, Redis and Kafka. *)
Context {Addr Hash C D W : Type}.
Variable HexToAddress : string -> Addr.
Variable HexToHash : string -> Hash.
Variable Address_Hex : Addr -> string.
Variable Hash_Hex : Hash -> string.
Variable Bytes2Hex : list Byte.byte -> string.
Context `{EthClient Addr Hash C, RedisClient D, KafkaWriter W}.
Variable Dial : string -> result C.
Variable NewClient : string -> D.

(** The environment: the variables; the context of the task, which the signal
    cancels, at each look, during the calls on the node too; which ready case a
    [select] takes; the time; the order in which maps are visited. *)
Variable Getenv : string -> string.
Variable ctx : nat -> Ctx.
Variable during : nat -> Ctx.
Variable timer_first : nat -> bool.
Variable pick : nat -> bool.
Variable now : nat -> Z.
Variable range_order : nat -> PoolMap -> list (Z * list LogResult).

Local Abbreviation RealRPC := (@RealRPC C).
Local Abbreviation pool := (BlockPendingPool + RedisPendingPool D)%type.
Local Abbreviation handler := (unit + KafkaBatchHandler W)%type.
Local Abbreviation world := (world RealRPC fileCheckpoint handler pool).

#[local] Instance node : RPCQuerier RealRPC :=
  RealRPC_querier HexToAddress HexToHash Address_Hex Hash_Hex Bytes2Hex during timer_first.
#[local] Instance memory_pool : PendingPool BlockPendingPool := BlockPendingPool_pool range_order.

(** [rpc.BlockNumber(context.Background())]. *)
Definition chain_head (rpc : RealRPC) : RealRPC * result Z :=
  run_call rpc (BlockNumber (fun _ => None) timer_first (attempts rpc) rpc).

(** The block to resume from: a saved one above 0. *)
Definition resume_block (store : fileCheckpoint) : option Z :=
  match Load store with Ok saved => if 0 <? saved then Some saved else None | Err _ => None end.

(** [startBlock] as it is when the task is built. *)
Definition first_block (start : Z) (store : fileCheckpoint) (rpc : RealRPC) : RealRPC * result Z :=
  if start =? 0 then
    match resume_block store with
    | Some saved => (rpc, Ok saved)
    | None => chain_head rpc
    end
  else (rpc, Ok start).

Definition choose_pool (st : Settings) : pool :=
  if negb (String.eqb (redisAddr st) "")
  then inr (NewRedisPendingPool (NewClient (redisAddr st)) "logfilter")
  else inl NewBlockPendingPool.

Definition choose_handler (st : Settings) : handler :=
  if negb (String.eqb (kafkaBrokers st) "")
  then inr (NewKafkaBatchHandler (Split1 "," (kafkaBrokers st)) (kafkaTopic st))
  else inl tt.

(** The fields of the task that stay as they are. *)
Definition daemon_config (st : Settings) : TaskConfig :=
  MkConfig "primary" (contracts st) [] true (liveInterval st) 5000000000 120000000000 (confirmBlocks st).

(** [main] up to the task: the message of [log.Fatal], a panic, or the task. *)
Inductive started := Fatal (msg : string) | StartPanic | Started (w : world).

Definition start_up (files : FileSystem) : started :=
  let st := read_settings Getenv in
  match missing_setting st with
  | Some msg => Fatal msg
  | None =>
      match NewRealRPC (Dial (rpcURL st)) [WithMaxRetries 3] with
      | Err err => Fatal ("dial rpc: " +:+ Error err)
      | Ok rpc =>
          let store := MkFileCheckpoint (checkpointFile st) files in
          let (rpc, start) := first_block (startBlock st) store rpc in
          match start with
          | Err err => Fatal ("get chain head: " +:+ Error err)
          | Ok start =>
              match NewRPCSemaphore 10, NewRPCSemaphore 3 with
              | Some global, Some local =>
                  Started (MkWorld (MkTask (daemon_config st) start (batchSize st) rpc store (choose_handler st)
                                      global local (Some (choose_pool st)) None) 0 ∅ [])
              | _, _ => StartPanic
              end
          end
      end
  end.

(** How the process ends. *)
Inductive exit_status := TaskFailed (err : error) | Stopped.
Definition exit_code (e : exit_status) : Z := match e with TaskFailed _ => 1 | Stopped => 0 end.

(** From [task.TaskLoop] on. *)
Definition run_task (rounds fuel : nat) (w : world) : exec world exit_status Empty_set :=
  match TaskLoop ctx pick now (inl NewBlockPendingPool) rounds fuel w with
  | Return (Some err) w' =>
      match now_ctx ctx w' with
      | None => Return (TaskFailed err) (tick w')
      | Some _ => Return Stopped (tick w')
      end
  | Return None w' => Return Stopped w'
  | Cont e _ => match e with end
  | Blocked w' => Blocked w'
  | Panicked w' => Panicked w'
  | OutOfFuel w' => OutOfFuel w'
  end.

(** [main]: a [log.Fatal], or the run of the task. *)
Definition main (rounds fuel : nat) (files : FileSystem) : started + exec world exit_status Empty_set :=
  match start_up files with
  | Started w => inr (run_task rounds fuel w)
  | x => inl x
  end.
(** ** The start *)

Local Abbreviation st := (read_settings Getenv).

(** A task that was started, field by field. *)
Lemma start_up_inv files w : start_up files = Started w ->
  missing_setting st = None /\
  (exists rpc0 rpc start, NewRealRPC (Dial (rpcURL st)) [WithMaxRetries 3] = Ok rpc0 /\
     first_block (startBlock st) (MkFileCheckpoint (checkpointFile st) files) rpc0 = (rpc, Ok start) /\
     w = MkWorld (MkTask (daemon_config st) start (batchSize st) rpc (MkFileCheckpoint (checkpointFile st) files)
                    (choose_handler st) (MkSem 10 0) (MkSem 3 0) (Some (choose_pool st)) None) 0 ∅ []).
Proof.
  unfold start_up. cbv zeta. destruct (missing_setting st); [done|]. destruct (NewRealRPC _ _) as [rpc0|e]; [|done].
  destruct (first_block _ _ rpc0) as [rpc [start|e]] eqn:E; [|done]. intros Hs. split; [done|]. exists rpc0, rpc, start.
  split; [done|]. split; [done|]. cbn in Hs. by injection Hs as <-.
Qed.

(** C21: Where a process starts.  A positive START_BLOCK is the first block,
    whatever the checkpoint file says; without it, the block the last process
    saved is.  Without either, and also when the file was cut short by a failed
    [Save], it is the head of the chain: the blocks since the last checkpoint are
    then passed over in silence. *)
Theorem start_up_resumes files w :
  start_up files = Started w ->
  let f := MkFileCheckpoint (checkpointFile st) files in
  let start := Checkpoint (w_task w) in
  (0 < startBlock st -> start = startBlock st) /\
  (startBlock st = 0 -> forall f0 b, is_u64 b -> path f0 = checkpointFile st ->
     (0 < b -> Save f0 b = (f, None) -> start = b) /\
     (forall n e, fs_torn (fs f0) = Some (n, e) -> (n < String.length (checkpoint_text b))%nat -> Save f0 b = (f, Some e) ->
        exists rpc, (chain_head rpc).2 = Ok start)) /\
  (startBlock st = 0 -> fs_files files !! checkpointFile st = None -> exists rpc, (chain_head rpc).2 = Ok start).
Proof.
  intros Hs. cbv zeta. destruct (start_up_inv _ _ Hs) as (_ & rpc0 & rpc & start & _ & Hf & ->). cbn [w_task Checkpoint].
  unfold first_block in Hf. split; [|split].
  - intros Hp. destruct (Z.eqb_spec (startBlock st) 0); [lia|]. by injection Hf as _ <-.
  - intros Hz f0 b Hb Hpath. rewrite Hz, Z.eqb_refl in Hf. unfold resume_block in Hf. split.
    + intros Hpos Hsv. rewrite (Save_Load f0 b _ Hb Hsv) in Hf. destruct (Z.ltb_spec 0 b); [|lia]. by injection Hf as _ <-.
    + intros n e Ht Hn Hsv. unfold Save, WriteFile in Hsv. rewrite Ht in Hsv. injection Hsv as _ Hfs.
      assert (Hl : Load (MkFileCheckpoint (checkpointFile st) files) = Err (EJson (str_take n (checkpoint_text b)))).
      { unfold Load, ReadFile. rewrite <- Hfs, <- Hpath. cbn [fs path fs_files]. rewrite lookup_insert_eq. unfold Unmarshal.
        destruct Hb. by rewrite torn_text. }
      rewrite Hl in Hf. exists rpc0. by rewrite Hf.
  - intros Hz Hn. rewrite Hz, Z.eqb_refl in Hf. unfold resume_block in Hf.
    assert (Hl : Load (MkFileCheckpoint (checkpointFile st) files) = Ok 0)
      by (unfold Load, ReadFile; cbn [fs path]; by rewrite Hn).
    rewrite Hl in Hf. cbn in Hf. exists rpc0. by rewrite Hf.
Qed.

Lemma envUint64_range key def : is_u64 def -> is_u64 (envUint64 Getenv key def).
Proof.
  intros Hd. destruct (envUint64_spec Getenv key def) as [(n & Hn & ->)|[_ ->]]; [|done]. by apply ParseUint_range in Hn.
Qed.

Lemma Split1_nonempty sep s : Split1 sep s <> [].
Proof. destruct s as [|c s]; [done|]. cbn. case_match; [done|]. by destruct (Split1 sep s). Qed.

(** What the node says is a [uint64]. *)
Definition u64_client : Prop := forall cx (c c' : C) n, eth_BlockNumber cx c = (c', Ok n) -> is_u64 n.

Lemma chain_head_range rpc n : u64_client -> (chain_head rpc).2 = Ok n -> is_u64 n.
Proof.
  intros Hc Hh. apply run_call_Ok in Hh as (s & s' & Hh). apply retry_Ok in Hh as (cx & c & c' & Hq). by eapply Hc.
Qed.

Lemma first_block_range store rpc0 rpc start : u64_client ->
  first_block (startBlock st) store rpc0 = (rpc, Ok start) -> is_u64 start.
Proof.
  intros Hc. unfold first_block. destruct (_ =? 0).
  - unfold resume_block. destruct (Load store) as [saved|e] eqn:El.
    + destruct (0 <? saved); [intros [= _ <-]; by apply Load_range in El|]. intros Hh. apply (chain_head_range rpc0); [done|]. by rewrite Hh.
    + intros Hh. apply (chain_head_range rpc0); [done|]. by rewrite Hh.
  - intros [= _ <-]. apply envUint64_range. unfold is_u64, two64. lia.
Qed.

(** C20: The task is well typed, whatever the environment and the checkpoint file
    hold: the first block, the batch size and the number of confirmations are
    [uint64]s and the polling interval is an [int64]; the address list is not
    empty and does not start with the empty string; both semaphores are free, and
    the task has a pool and is live.  With a batch size of at least 1 it is a task
    [RunOnce] can run. *)
Theorem start_up_typed files w :
  u64_client -> start_up files = Started w ->
  let t := w_task w in
  is_u64 (Checkpoint t) /\ is_u64 (BatchSize t) /\ is_u64 (ConfirmBlockNum (Config t)) /\ is_i64 (LivePollInterval (Config t)) /\
  (exists a l, TaskAddress (Config t) = a :: l /\ a <> "") /\
  RPCSem t = MkSem 10 0 /\ TaskLocalSem t = MkSem 3 0 /\ is_Some (Pool t) /\ LiveMode (Config t) = true /\
  (1 <= BatchSize t -> runnable (BatchSize t) t).
Proof.
  intros Hc Hs. destruct (start_up_inv _ _ Hs) as (Hm & rpc0 & rpc & start & _ & Hf & ->). cbn -[read_settings].
  apply first_block_range in Hf; [|done]. split; [exact Hf|]. split; [apply envUint64_range; unfold is_u64, two64; lia|].
  split; [apply envUint64_range; unfold is_u64, two64; lia|]. split.
  { cbn. destruct (ParseDuration _) as [d|] eqn:E; [by apply ParseDuration_range in E|]. cbn. unfold is_i64, two63. lia. }
  split.
  { unfold missing_setting in Hm. destruct (String.eqb _ _); [done|]. destruct (contracts st) as [|a l]; [done|].
    destruct (String.eqb_spec a ""); [done|]. by exists a, l. }
  split_and!; try done; by eexists.
Qed.

(** ** The end *)

(** The look at the context after the loop changes nothing but the time. *)
Lemma run_task_final rounds fuel w :
  let w' := final (TaskLoop ctx pick now (inl NewBlockPendingPool) rounds fuel w) in
  w_task (final (run_task rounds fuel w)) = w_task w' /\ w_trace (final (run_task rounds fuel w)) = w_trace w'.
Proof.
  cbn zeta. unfold run_task. destruct (TaskLoop _ _ _ _ _ _ _) as [[]|[err|] w1|w1|w1|w1]; try done.
  cbn. by destruct (now_ctx ctx w1).
Qed.

Lemma main_started rounds fuel files w :
  start_up files = Started w -> main rounds fuel files = inr (run_task rounds fuel w).
Proof. unfold main. by intros ->. Qed.

(** A context that has ended stays so. *)
Definition ends_for_good : Prop := forall m n e, (m <= n)%nat -> ctx m = Some e -> ctx n = Some e.

Local Abbreviation task_entered := (entered (inl NewBlockPendingPool)).
Local Abbreviation goes_on fuel := (continues ctx pick now fuel).

(** C22: How a process ends, under a context that stays ended.  It stops with
    status 0 only when the signal has cancelled the context.  It ends with status 1
    only when, after some number of rounds that went on, [RunOnce] returned an
    error under a live context, and that error is the one reported.  And the first
    round that fails is enough, however many good ones went before: unless the
    context has ended by then, the process ends with that error, and no further
    round is run. *)
Theorem run_task_ends rounds fuel w :
  ends_for_good -> sems_ok (w_task w) -> LiveMode (Config (w_task w)) = true ->
  (forall s w', run_task rounds fuel w = Return s w' ->
     match s with
     | Stopped => exit_code s = 0 /\ exists n e, ctx n = Some e
     | TaskFailed e => exit_code s = 1 /\
         exists k wk b w1, nsteps (goes_on fuel) k (task_entered w) wk /\ now_ctx ctx wk = None /\
           RunOnce ctx pick fuel (tick wk) = Return (b, Some e) w1
     end) /\
  (forall k wk b e w1, nsteps (goes_on fuel) k (task_entered w) wk -> (k < rounds)%nat ->
     now_ctx ctx wk = None -> RunOnce ctx pick fuel (tick wk) = Return (b, Some e) w1 ->
     exists s w', run_task rounds fuel w = Return s w' /\ w_trace w' = w_trace w1 /\
       ((s = TaskFailed e /\ now_ctx ctx (mark_unhealthy now w1) = None) \/ (s = Stopped /\ exists n e', ctx n = Some e'))).
Proof.
  intros Hgood Hok Hlive. split.
  - intros s w' Hr. unfold run_task in Hr.
    destruct (TaskLoop _ _ _ _ _ _ _) as [[]|[err|] w1|w1|w1|w1] eqn:Et; try discriminate.
    + destruct (now_ctx ctx w1) eqn:Ec; injection Hr as <- <-; (split; [done|]); [by eexists _, _|].
      apply TaskLoop_last in Et as (k & wk & w2 & Hs & Hl & ->). unfold now_ctx in Ec. cbn in Ec.
      inversion Hl as [e Hc|b e w3 Hc Hr|b w3 Hc Hr|w3 e Hc Hr w4 Hc4]; subst.
      * apply (Hgood _ (Datatypes.S (w_clock wk))) in Hc; [|lia]. cbn in Ec. congruence.
      * by exists k, wk, b, w3.
      * apply (Hgood _ (Datatypes.S (w_clock w4))) in Hc4; [|lia]. cbn in Ec, Hc4. congruence.
    + exfalso. destruct (TaskLoop_frame _ _ _ _ _ _ _ _ _ Hok Et) as [Hc _].
      apply TaskLoop_returns in Et as [Hl _]. congruence.
  - intros k wk b e w1 Hs Hk Hc Hr. unfold run_task.
    rewrite (TaskLoop_fails ctx pick now (inl NewBlockPendingPool) k rounds fuel w wk b e w1 Hs Hk Hc Hr).
    change (now_ctx ctx (TaskLoop_deferred (mark_unhealthy now w1))) with (now_ctx ctx (mark_unhealthy now w1)).
    destruct (now_ctx ctx (mark_unhealthy now w1)) as [e'|] eqn:Ec; eexists _, _; (split; [reflexivity|]; split; [done|]).
    + right. split; [done|]. by eexists _, _.
    + by left.
Qed.

(** ** What a process has done *)

(** go-ethereum on one chain: [raw_of] are the logs of a block that match a
    query, the head stays below [top], and the texts of addresses, hashes and
    data are ASCII, as hexadecimal is. *)
Variable raw_of : list Addr -> list (list Hash) -> Z -> list (@Log Addr Hash).
Variable top : Z.
Record honest_client : Prop := {
  client_head cx (c c' : C) n : eth_BlockNumber cx c = (c', Ok n) -> 0 <= n <= top;
  client_logs cx (c c' : C) q raws : eth_FilterLogs cx c q = (c', Ok raws) ->
    forall l, l ∈ raws <-> exists n, FromBlock q <= n <= ToBlock q /\ l ∈ raw_of (Addresses q) (QTopics q) n;
  client_number ad tp n l : l ∈ raw_of ad tp n -> LBlockNumber l = n /\ is_u64 n;
  address_text a : utf8 (Address_Hex a);
  hash_text h : utf8 (Hash_Hex h);
  data_text bs : utf8 (Bytes2Hex bs) }.

(** The logs of a block, as the task sees them. *)
Definition daemon_logs (n : Z) : list LogResult :=
  map (to_LogResult Address_Hex Hash_Hex Bytes2Hex) (raw_of (map HexToAddress (contracts st)) [] n).

Hypothesis range_order_perm : forall n m, range_order n m ≡ₚ map_to_list m.
Context `{!RedisLaws D}.
#[local] Instance memory_pool_laws : PendingPoolLaws BlockPendingPool := BlockPendingPool_laws range_order range_order_perm.

Lemma node_honest : honest_client -> top < two64 ->
  @honest_node RealRPC pool _ _ _ (daemon_config st) daemon_logs.
Proof.
  intros Hc Htop. split.
  - intros cx r r' n Hq. apply RealRPC_BlockNumber_Ok in Hq as (cx' & c & c' & Hq). apply (client_head Hc) in Hq.
    unfold is_u64. lia.
  - intros cx r r' a b logs Hq. apply RealRPC_EthGetLogs_Ok in Hq as (cx' & c & c' & raws & Hq & ->).
    pose proof (client_logs Hc _ _ _ _ _ Hq) as Hl. intros l. rewrite list_elem_of_fmap. unfold daemon_logs.
    setoid_rewrite Hl. cbn [fetch_filter FromBlock ToBlock Addresses QTopics]. setoid_rewrite list_elem_of_fmap. naive_solver.
  - intros n l (raw & -> & Hraw)%list_elem_of_fmap. destruct (client_number Hc _ _ _ _ Hraw) as [Hn Hu]. split; [exact I|].
    split_and!; cbn; rewrite ?Hn; try done; try apply Hu; try apply FormatUint_utf8; try apply (hash_text Hc);
      try apply (address_text Hc); try apply (data_text Hc).
    apply Forall_forall. intros x (h & -> & _)%list_elem_of_fmap. apply (hash_text Hc).
Qed.

(** The first world of a process satisfies the invariant of the loop. *)
Lemma start_up_inv_loop files w :
  honest_client -> context_errors ctx -> context_errors during ->
  bounds (confirmBlocks st) top (batchSize st) top -> 1 <= batchSize st ->
  pool_wf (choose_pool st) -> shaped daemon_logs top (batchSize st) (contents (choose_pool st)) ->
  start_up files = Started w ->
  loop_inv (daemon_config st) daemon_logs top (batchSize st) (Checkpoint (w_task w)) (w_trace w) w.
Proof.
  intros Hc Hctx Hdur Hb Hone Hwf Hsh Hs. destruct (start_up_inv _ _ Hs) as (_ & rpc0 & rpc & start & _ & Hf & ->).
  apply first_block_range in Hf.
  2:{ intros cx c c' n Hq. apply (client_head Hc) in Hq. destruct Hb. unfold is_u64. lia. }
  apply (loop_inv_start (daemon_config st) daemon_logs top (batchSize st) _ (choose_pool st)); try done.
  apply Hf.
Qed.

(** Without Redis no call on the pool fails. *)
Lemma memory_no_failure rounds fuel files w :
  redisAddr st = "" -> start_up files = Started w -> pool_failures (w_trace (final (run_task rounds fuel w))) = [].
Proof.
  intros Hr Hs. destruct (run_task_final rounds fuel w) as [_ ->].
  pose (sure := fun p : pool => match p with inl _ => True | inr _ => False end).
  apply (TaskLoop_infallible ctx pick sure).
  - intros cx [p|p] h logs p' r; [|done]. by intros _ [= <- <-].
  - intros cx [p|p] latest c p' r; [|done]. intros _. cbn. unfold PendingPool.PopConfirmed.
    destruct (fold_left _ _ _) as [out data]. by intros [= <- <-].
  - by intros cx [p|p].
  - destruct (start_up_inv _ _ Hs) as (_ & ? & ? & ? & _ & _ & ->). unfold choose_pool. rewrite Hr.
    split_and!; try done. by eexists.
Qed.

(** C2: The promise of the daemon, from the settings to the handler, for a batch
    size of at least 1 on a chain the node reports faithfully (and whose head stays
    away from the end of [uint64]).  The pool of pending logs it starts with is
    empty or, in Redis, as runs with batches no larger leave it.  Then at every
    moment of the process and when it has ended: its checkpoint has not moved back,
    it has queried no block before the first one, and, unless the handler or a call
    on the pool has failed, every log of the configured contracts in the blocks
    from the first one to before the checkpoint was accepted by the handler or
    waits in the pool.  Without Redis no call on the pool fails. *)
Theorem daemon_keeps_promise files rounds fuel w x :
  honest_client -> context_errors ctx -> context_errors during ->
  bounds (confirmBlocks st) top (batchSize st) top -> 1 <= batchSize st ->
  pool_wf (choose_pool st) -> shaped daemon_logs top (batchSize st) (contents (choose_pool st)) ->
  start_up files = Started w -> main rounds fuel files = inr x ->
  let first := Checkpoint (w_task w) in
  let w' := final x in
  first <= Checkpoint (w_task w') /\ Forall (fun q => first <= q.1) (queries (w_trace w')) /\
  (redisAddr st = "" -> pool_failures (w_trace w') = []) /\
  (lost (w_trace w') = [] -> pool_failures (w_trace w') = [] -> accounted_for daemon_logs first w').
Proof.
  intros Hc Hctx Hdur Hb Hone Hwf Hsh Hs Hm. unfold main in Hm. rewrite Hs in Hm. injection Hm as <-.
  pose proof (start_up_inv_loop files w Hc Hctx Hdur Hb Hone Hwf Hsh Hs) as Hi.
  assert (Hw : w_trace w = []) by by destruct (start_up_inv _ _ Hs) as (_ & ? & ? & ? & _ & _ & ->).
  assert (Hhon : honest_node (P:=pool) (daemon_config st) daemon_logs) by (apply node_honest; [done|]; destruct Hb; lia).
  assert (Hheads : forall cx (r r' : RealRPC) n, rpc_BlockNumber cx r = (r', Ok n) ->
    bounds (ConfirmBlockNum (daemon_config st)) top (batchSize st) n).
  { intros cx r r' n Hq. apply RealRPC_BlockNumber_Ok in Hq as (cx' & c & c' & Hq). apply (client_head Hc) in Hq.
    destruct Hb. split; try done. apply Hq. }
  assert (Hno : no_range_errors (R:=RealRPC) ctx).
  { intros n r r' a b ad tp er Hq. by eapply (EthGetLogs_no_range _ _ _ _ _ _ _ ctx (ctx n)); [..|exact Hq]; eauto. }
  apply (TaskLoop_inv ctx pick now (inl NewBlockPendingPool) _ _ _ _ Hhon Hheads Hno _ rounds fuel) in Hi.
  destruct (run_task_final rounds fuel w) as [Ht Htr]. destruct Hi as (_ & Hcp & _ & (tr & Htr' & Hq) & He).
  rewrite Hw, app_nil_r in Htr'. unfold accounted_for. rewrite Ht, Htr. split; [lia|]. split; [by rewrite Htr'|].
  split; [rewrite <- Htr; intros Hre; by eapply memory_no_failure|]. intros Hl Hpf.
  by eapply engine_accounted, He.
Qed.
End Daemon.

(** ** A concrete daemon *)

(** A client on a chain of logs, each a block and a transaction; addresses play
    no role in it. *)
Record DemoClient (chain : list (Z * Z)) := MkDemoClient { demo_head : Z }.
Arguments MkDemoClient {chain} _.
Arguments demo_head {chain} _.

Definition demo_log (l : Z * Z) : @Log unit Z := MkRawLog tt [7] [Byte.x2a] l.1 l.2.
Definition demo_raw_of (chain : list (Z * Z)) (_ : list unit) (_ : list (list Z)) (n : Z) : list (@Log unit Z) :=
  map demo_log (List.filter (fun l => l.1 =? n) chain).

#[export] Instance DemoClient_client chain : @EthClient unit Z (DemoClient chain) := {
  eth_BlockNumber _ c := (c, Ok (demo_head c mod 1000));
  eth_FilterLogs _ c q :=
    (c, Ok (map demo_log (List.filter (fun l => (FromBlock q <=? l.1) && (l.1 <=? ToBlock q)) chain))) }.

(** A Kafka writer that keeps what it is given. *)
#[export] Instance MemWriter : KafkaWriter (list message) := {
  NewWriter _ _ := [];
  WriteMessages _ w ms := (w ++ ms, None);
  Writer_Close w := (w, None) }.

Definition vars (l : list (string * string)) (key : string) : string :=
  default "" (snd <$> List.find (fun kv => String.eqb kv.1 key) l).

(** The environment variables of the demo, and further ones. *)
Definition demo_vars (l : list (string * string)) : string -> string :=
  vars (l ++ [("RPC_URL", "http://node:8545"); ("CONTRACT_ADDRESS", " 0xa , 0xb"); ("BATCH_SIZE", "10"); ("LIVE_POLL_INTERVAL", "12")]).

Definition eth_chain : list (Z * Z) := [(103, 1); (103, 2); (112, 1); (121, 1)].

Section Demo.
Variable more : list (string * string).
Variable ctx : nat -> Ctx.
Variable head : Z.

Definition demo_dial (_ : string) : result (DemoClient eth_chain) := Ok (MkDemoClient head).
Definition demo_redis (_ : string) : MemRedis false := MkRedis ∅ [].
Definition demo_start : FileSystem -> started :=
  start_up (W:=list message) demo_dial demo_redis (demo_vars more) first_case.
Definition demo_main : nat -> nat -> FileSystem -> _ :=
  main (W:=list message) (fun _ => tt) (fun _ => 0) (fun _ => "0xa") FormatUint hex_EncodeToString demo_dial demo_redis
    (demo_vars more) ctx live first_case first_case ticks list_order.
End Demo.

Lemma demo_text bs : utf8 (hex_EncodeToString bs).
Proof.
  apply utf8_ascii. induction bs as [|b bs IH]; [done|]. cbn [hex_EncodeToString all_chars].
  rewrite IH. destruct b; reflexivity.
Qed.

Lemma demo_client_logs chain cx (c c' : DemoClient chain) q raws : eth_FilterLogs cx c q = (c', Ok raws) ->
  forall l, l ∈ raws <-> exists n, FromBlock q <= n <= ToBlock q /\ l ∈ demo_raw_of chain (Addresses q) (QTopics q) n.
Proof.
  intros [= _ <-] l. rewrite list_elem_of_fmap. unfold demo_raw_of. setoid_rewrite list_elem_of_fmap.
  setoid_rewrite list_elem_of_In. setoid_rewrite List.filter_In. split.
  - intros (x & -> & Hx & Hr). exists x.1. split; [lia|]. exists x. by rewrite Z.eqb_refl.
  - intros (n & Hn & x & -> & Hx & Hr). exists x. split; [done|]. split; [done|]. lia.
Qed.

Lemma demo_honest_client : @honest_client unit Z (DemoClient eth_chain) (fun _ => "0xa") FormatUint hex_EncodeToString _
  (demo_raw_of eth_chain) 999.
Proof.
  split.
  - intros cx c c' n [= _ <-]. pose proof (Z.mod_pos_bound (demo_head c) 1000 eq_refl). lia.
  - apply demo_client_logs.
  - intros ad tp n l (x & -> & Hx)%list_elem_of_fmap. apply list_elem_of_In, List.filter_In in Hx as [Hx He%Z.eqb_eq].
    split; [done|]. subst n. unfold is_u64, two64. cbn in Hx. destruct Hx as [<-|[<-|[<-|[<-|[]]]]]; cbn; lia.
  - intros a. by apply utf8_ascii.
  - apply FormatUint_utf8.
  - apply demo_text.
Qed.

Lemma start_up_typed_witness :
  exists w, demo_start [("START_BLOCK", "100")] 125 (MkFS ∅ None) = Started w /\
    Checkpoint (w_task w) = 100 /\ TaskAddress (Config (w_task w)) = ["0xa"; "0xb"] /\
    LivePollInterval (Config (w_task w)) = 0 /\ runnable 10 (w_task w).
Proof.
  destruct (demo_start [("START_BLOCK", "100")] 125 (MkFS ∅ None)) as [m| |w] eqn:E; [vm_compute in E; discriminate E..|].
  assert (Hw : (Checkpoint (w_task w), TaskAddress (Config (w_task w)), LivePollInterval (Config (w_task w)), BatchSize (w_task w)) = (100, ["0xa"; "0xb"], 0, 10))
    by (vm_compute in E; injection E as <-; reflexivity).
  injection Hw as H1 H2 H3 H4. exists w. split; [done|]. split; [done|]. split; [done|]. split; [done|]. rewrite <- H4 at 1.
  apply (start_up_typed (W:=list message) (demo_dial 125) demo_redis (demo_vars [("START_BLOCK", "100")]) first_case (MkFS ∅ None) w);
    [|exact E|lia].
  intros cx c c' n [= _ <-]. pose proof (Z.mod_pos_bound (demo_head c) 1000 eq_refl). unfold is_u64, two64. lia.
Defined.

Lemma start_up_resumes_witness :
  let torn := (Save (MkFileCheckpoint "./checkpoint.json" (MkFS {[ "./checkpoint.json" := checkpoint_text 80 ]} (Some (15%nat, ENew "disk full")))) 90).1 in
  exists w, demo_start [] 125 (fs torn) = Started w /\ (exists rpc, (chain_head (C:=DemoClient eth_chain) first_case rpc).2 = Ok (Checkpoint (w_task w))) /\
    Checkpoint (w_task w) = 125.
Proof.
  intros torn. destruct (demo_start [] 125 (fs torn)) as [m| |w] eqn:E; [vm_compute in E; discriminate E..|].
  exists w. split; [done|]. split; [|vm_compute in E; injection E as <-; reflexivity].
  destruct (start_up_resumes (W:=list message) (demo_dial 125) demo_redis (demo_vars []) first_case (fs torn) w E) as (_ & Hr & _).
  destruct (Hr eq_refl (MkFileCheckpoint "./checkpoint.json" (MkFS {[ "./checkpoint.json" := checkpoint_text 80 ]} (Some (15%nat, ENew "disk full")))) 90)
    as [_ Ht]; [unfold is_u64, two64; lia|reflexivity|].
  apply (Ht 15%nat (ENew "disk full")); [reflexivity|vm_compute; lia|vm_compute; reflexivity].
Defined.

(** The signal comes at the 40th look at the context. *)
Definition signalled (n : nat) : Ctx := if (n <? 40)%nat then None else Some ECanceled.

Lemma signalled_errors : context_errors signalled.
Proof. intros n e. unfold signalled. case_match; [done|]. intros [= <-]. by left. Qed.
Lemma live_errors : context_errors live.
Proof. done. Qed.

Abbreviation demo_settings := (read_settings (demo_vars [("START_BLOCK", "100")])).
Lemma daemon_room : bounds (confirmBlocks demo_settings) 999 (batchSize demo_settings) 999 /\ 1 <= batchSize demo_settings.
Proof. split; [split|]; vm_compute; congruence || done. Qed.
Lemma demo_no_redis : redisAddr demo_settings = "".
Proof. vm_compute. reflexivity. Qed.
Lemma demo_pool : choose_pool demo_redis demo_settings = inl NewBlockPendingPool.
Proof. vm_compute. reflexivity. Qed.

(** The first world of the demo, and its run. *)
Definition daemon_world {C} (client : C) :
    world (@RealRPC C) fileCheckpoint (unit + KafkaBatchHandler (list message)) (BlockPendingPool + RedisPendingPool (MemRedis false)) :=
  MkWorld (MkTask (daemon_config demo_settings) 100 10 (MkRealRPC client 3 500000000)
             (MkFileCheckpoint "./checkpoint.json" (MkFS ∅ None)) (inl tt) (MkSem 10 0) (MkSem 3 0)
             (Some (inl NewBlockPendingPool)) None) 0 ∅ [].
Definition daemon_run {C} `{@EthClient unit Z C} (client : C) (ctx : nat -> Ctx) :=
  run_task (fun _ => tt) (fun _ => 0) (fun _ => "0xa") FormatUint hex_EncodeToString ctx live first_case first_case ticks list_order
    9 100 (daemon_world client).
Abbreviation demo_client := (MkDemoClient (chain:=eth_chain) 125).

Lemma demo_started : demo_start [("START_BLOCK", "100")] 125 (MkFS ∅ None) = Started (daemon_world demo_client).
Proof. vm_compute. reflexivity. Qed.

Lemma demo_runs : demo_main [("START_BLOCK", "100")] signalled 125 9 100 (MkFS ∅ None) = inr (daemon_run demo_client signalled).
Proof. unfold demo_main, daemon_run. apply main_started. exact demo_started. Qed.

Lemma demo_ran :
  let x := daemon_run demo_client signalled in
  returned x = Some Stopped /\ Checkpoint (w_task (final x)) = 125 /\ lost (w_trace (final x)) = [].
Proof. split; [|split]; vm_compute; reflexivity. Qed.

Lemma daemon_keeps_promise_witness :
  let x := daemon_run demo_client signalled in
  returned x = Some Stopped /\ Checkpoint (w_task (final x)) = 125 /\
  Forall (fun q => 100 <= q.1) (queries (w_trace (final x))) /\
  accounted_for (map (to_LogResult (fun _ => "0xa") FormatUint hex_EncodeToString) ∘ demo_raw_of eth_chain [tt; tt] []) 100 (final x).
Proof.
  intros x. destruct demo_ran as (Hr & Hcp & Hl). split; [exact Hr|]. split; [exact Hcp|].
  destruct (daemon_keeps_promise (W:=list message) (fun _ => tt) (fun _ => 0) (fun _ => "0xa") FormatUint hex_EncodeToString (demo_dial 125) demo_redis
    (demo_vars [("START_BLOCK", "100")]) signalled live first_case first_case ticks list_order (demo_raw_of eth_chain) 999
    list_order_perm (MkFS ∅ None) 9 100 (daemon_world demo_client) x) as (_ & Hq & Hp & Ha).
  - exact demo_honest_client.
  - exact signalled_errors.
  - exact live_errors.
  - exact (proj1 daemon_room).
  - exact (proj2 daemon_room).
  - rewrite demo_pool. exact I.
  - rewrite demo_pool. apply shaped_empty.
  - exact demo_started.
  - exact demo_runs.
  - split; [exact Hq|exact (Ha Hl (Hp demo_no_redis))].
Defined.

(** A node that goes down after a number of answers. *)
Record FlakyClient := MkFlaky { up_for : nat }.
#[export] Instance FlakyClient_client : @EthClient unit Z FlakyClient := {
  eth_BlockNumber _ c :=
    match up_for c with O => (c, Err (ENew "connection refused")) | S n => (MkFlaky n, Ok 125) end;
  eth_FilterLogs _ c _ :=
    match up_for c with O => (c, Err (ENew "connection refused")) | S n => (MkFlaky n, Ok []) end }.

Abbreviation down_error :=
  (EWrap "get latest block: " (EWrap "block number retries exhausted: " (ENew "connection refused"))).
Abbreviation flaky_querier := (RealRPC_querier (C:=FlakyClient) (fun _ => tt) (fun _ => 0) (fun _ => "0xa") FormatUint hex_EncodeToString live first_case).

Abbreviation demo_pool_ops := (sum_pool (H:=BlockPendingPool_pool list_order) (H0:=RedisPendingPool_pool)).

(** It is up for one round of four calls: the head and three batches. *)
Definition flaky_world := daemon_world (MkFlaky 4).
Definition flaky_entered := entered (R:=@RealRPC FlakyClient) (inl NewBlockPendingPool) flaky_world.
Abbreviation flaky_round := (@TaskLoop_iter _ _ _ _ flaky_querier _ _ demo_pool_ops live first_case ticks 100 flaky_entered).

Lemma flaky_round_on : went_on flaky_round = true.
Proof. vm_compute. reflexivity. Qed.

Lemma flaky_round_goes_on : @continues _ _ _ _ flaky_querier _ _ demo_pool_ops live first_case ticks 100 flaky_entered (final flaky_round).
Proof. apply continues_final. exact flaky_round_on. Qed.

Abbreviation flaky_failure := (@RunOnce _ _ _ _ flaky_querier _ _ demo_pool_ops live first_case 100 (tick (final flaky_round))).

Lemma flaky_round_fails : flaky_failure = Return (false, Some down_error) (final flaky_failure).
Proof. apply returned_Return. vm_compute. reflexivity. Qed.

Lemma live_ends_for_good : ends_for_good live.
Proof. by intros m n e _. Qed.

Lemma run_task_ends_witness : exists s w', daemon_run (MkFlaky 4) live = Return s w' /\ s = TaskFailed down_error.
Proof.
  destruct (run_task_ends (fun _ => tt) (fun _ => 0) (fun _ => "0xa") FormatUint hex_EncodeToString live live first_case first_case ticks list_order
    9 100 flaky_world) as [_ Hf]; [exact live_ends_for_good|by split|reflexivity|].
  destruct (Hf 1%nat (final flaky_round) false down_error (final flaky_failure)) as (s & w' & Hr & _ & Hs).
  - eapply nsteps_l; [exact flaky_round_goes_on|apply nsteps_O].
  - lia.
  - reflexivity.
  - exact flaky_round_fails.
  - exists s, w'. split; [exact Hr|]. destruct Hs as [[Hs _]|[_ (n & e & He)]]; [exact Hs|discriminate He].
Defined.
