(* ===== verification/Relayer.v ===== *)
(** * The bridge relayer ([go/bridge/relayer.go])

    The relayer forwards deposits seen on Ethereum as mints on SCDO and burns
    seen on SCDO as withdrawals on Ethereum.  Its two chain clients are given by
    the class [ChainClient]; what the [select] of [Run] receives is an explicit
    sequence of inputs, so that every interleaving of the two event streams, of
    closed channels and of the end of the context is covered. *)

From stdpp Require Import base gmap list strings.
From Stdlib Require Import ZArith Lia.
From S2P Require Import Prelude GoStd LogTypes.

Local Open Scope Z_scope.

Record DepositedEvent := MkDeposited {
  Token : string;
  User : string;
  DAmount : Z;
  Nonce : Z;
  DestChainID : Z;
  DSourceBlock : Z;
  DTxHash : string }.

Record BurnedEvent := MkBurned {
  From : string;
  BAmount : Z;
  WithdrawNonce : Z;
  BSourceBlock : Z;
  BTxHash : string }.

(** [ChainClient]: the events of a watch arrive on the channel it returns. *)
Class ChainClient (C : Type) := {
  WatchDeposited : Ctx -> C -> Z -> C * option error;
  WatchBurned : Ctx -> C -> Z -> C * option error;
  Mint : Ctx -> C -> string -> Z -> Z -> C * result string;
  Withdraw : Ctx -> C -> string -> Z -> Z -> C * result string }.

(** A call on a client, and its result. *)
Inductive call :=
  | CWatchDeposited (fromBlock : Z) (e : option error)
  | CWatchBurned (fromBlock : Z) (e : option error)
  | CMint (to : string) (amount sourceNonce : Z) (r : result string)
  | CWithdraw (to : string) (amount nonce : Z) (r : result string).

(** What the [select] of [Run] receives. *)
Inductive input :=
  | InDone (e : error)
  | InDeposit (d : DepositedEvent)
  | InDepositsClosed
  | InBurn (b : BurnedEvent)
  | InBurnsClosed.

Section Relayer.
Context {E C : Type} `{ChainClient E, ChainClient C}.

(** The struct, with the calls made so far, the latest first. *)
Record Relayer := MkRelayer {
  eth : E;
  scdo : C;
  ethFromBlock : Z;
  scdoFromBlock : Z;
  pollInterval : Z;
  seenMinted : gmap Z bool;
  seenWithdrawn : gmap Z bool;
  calls : list call }.

Definition set_eth v r := MkRelayer v (scdo r) (ethFromBlock r) (scdoFromBlock r) (pollInterval r) (seenMinted r) (seenWithdrawn r) (calls r).
Definition set_scdo v r := MkRelayer (eth r) v (ethFromBlock r) (scdoFromBlock r) (pollInterval r) (seenMinted r) (seenWithdrawn r) (calls r).
Definition set_seenMinted v r := MkRelayer (eth r) (scdo r) (ethFromBlock r) (scdoFromBlock r) (pollInterval r) v (seenWithdrawn r) (calls r).
Definition set_seenWithdrawn v r := MkRelayer (eth r) (scdo r) (ethFromBlock r) (scdoFromBlock r) (pollInterval r) (seenMinted r) v (calls r).
Definition note (c : call) r := MkRelayer (eth r) (scdo r) (ethFromBlock r) (scdoFromBlock r) (pollInterval r) (seenMinted r) (seenWithdrawn r) (c :: calls r).

Definition Option := Relayer -> Relayer.
Definition WithStartBlock (ethFrom scdoFrom : Z) : Option := fun r =>
  MkRelayer (eth r) (scdo r) ethFrom scdoFrom (pollInterval r) (seenMinted r) (seenWithdrawn r) (calls r).
Definition WithPollInterval (d : Z) : Option := fun r =>
  MkRelayer (eth r) (scdo r) (ethFromBlock r) (scdoFromBlock r) d (seenMinted r) (seenWithdrawn r) (calls r).
Definition New (eth : E) (scdo : C) (opts : list Option) : Relayer :=
  fold_left (fun r o => o r) opts (MkRelayer eth scdo 0 0 12000000000 ∅ ∅ []).

(** Reading a Go map: the zero value when the key is absent. *)
Definition seen (m : gmap Z bool) (n : Z) : bool := default false (m !! n).

Definition handleDeposit (ctx : Ctx) (d : DepositedEvent) (r : Relayer) : Relayer :=
  if seen (seenMinted r) (Nonce d) then r
  else
    let r := set_seenMinted (<[Nonce d := true]> (seenMinted r)) r in
    let (c', tx) := Mint ctx (scdo r) (User d) (DAmount d) (Nonce d) in
    let r := note (CMint (User d) (DAmount d) (Nonce d) tx) (set_scdo c' r) in
    match tx with
    | Err _ => set_seenMinted (delete (Nonce d) (seenMinted r)) r
    | Ok _ => r
    end.

Definition handleBurn (ctx : Ctx) (b : BurnedEvent) (r : Relayer) : Relayer :=
  if seen (seenWithdrawn r) (WithdrawNonce b) then r
  else
    let r := set_seenWithdrawn (<[WithdrawNonce b := true]> (seenWithdrawn r)) r in
    let (c', tx) := Withdraw ctx (eth r) (From b) (BAmount b) (WithdrawNonce b) in
    let r := note (CWithdraw (From b) (BAmount b) (WithdrawNonce b) tx) (set_eth c' r) in
    match tx with
    | Err _ => set_seenWithdrawn (delete (WithdrawNonce b) (seenWithdrawn r)) r
    | Ok _ => r
    end.

Definition watch_deposits (ctx : Ctx) (r : Relayer) : Relayer * option error :=
  let (c', e) := WatchDeposited ctx (eth r) (ethFromBlock r) in
  (note (CWatchDeposited (ethFromBlock r) e) (set_eth c' r), e).
Definition watch_burns (ctx : Ctx) (r : Relayer) : Relayer * option error :=
  let (c', e) := WatchBurned ctx (scdo r) (scdoFromBlock r) in
  (note (CWatchBurned (scdoFromBlock r) e) (set_scdo c' r), e).

(** One turn of [for { select ... }]: the relayer, and the error [Run] returns,
    if it returns.  While it works the context is not yet seen to be done. *)
Definition Run_step (i : input) (r : Relayer) : Relayer * option error :=
  match i with
  | InDone e => (r, Some e)
  | InDeposit d => (handleDeposit None d r, None)
  | InDepositsClosed => watch_deposits None r
  | InBurn b => (handleBurn None b r, None)
  | InBurnsClosed => watch_burns None r
  end.

Fixpoint Run_loop (inputs : list input) (r : Relayer) : Relayer * option error :=
  match inputs with
  | [] => (r, None)
  | i :: is_ =>
      match Run_step i r with
      | (r', Some e) => (r', Some e)
      | (r', None) => Run_loop is_ r'
      end
  end.

(** [Run]: [None] while it is still running after these inputs. *)
Definition Run (inputs : list input) (r : Relayer) : Relayer * option error :=
  match watch_deposits None r with
  | (r, Some err) => (r, Some (EWrap "watch deposits: " err))
  | (r, None) =>
      match watch_burns None r with
      | (r, Some err) => (r, Some (EWrap "watch burns: " err))
      | (r, None) => Run_loop inputs r
      end
  end.

End Relayer.
Arguments Relayer : clear implicits.

(** ** Counting calls *)

Definition is_mint (n : Z) (c : call) : bool := match c with CMint _ _ n' _ => n' =? n | _ => false end.
Definition is_withdraw (n : Z) (c : call) : bool := match c with CWithdraw _ _ n' _ => n' =? n | _ => false end.
Definition succeeded (c : call) : bool :=
  match c with
  | CWatchDeposited _ e | CWatchBurned _ e => negb (if e is Some _ then true else false)
  | CMint _ _ _ r | CWithdraw _ _ _ r => is_ok r
  end.

Definition count {A} (p : A -> bool) (l : list A) : nat := length (List.filter p l).

Lemma count_cons {A} (p : A -> bool) x l : count p (x :: l) = ((if p x then 1 else 0) + count p l)%nat.
Proof. unfold count. cbn. by destruct (p x). Qed.

Definition minted (n : Z) (cs : list call) : nat := count (fun c => is_mint n c && succeeded c) cs.
Definition withdrawn (n : Z) (cs : list call) : nat := count (fun c => is_withdraw n c && succeeded c) cs.

Definition deposit_of (i : input) : option DepositedEvent := match i with InDeposit d => Some d | _ => None end.
Definition burn_of (i : input) : option BurnedEvent := match i with InBurn b => Some b | _ => None end.

Section Facts.
Context {E C : Type} `{ChainClient E, ChainClient C}.
Local Abbreviation Relayer := (Relayer E C).

Lemma seen_insert m n n' : seen (<[n := true]> m) n' = (n =? n') || seen m n'.
Proof.
  unfold seen. destruct (Z.eqb_spec n n') as [->|Hne]; [by rewrite lookup_insert_eq|by rewrite lookup_insert_ne].
Qed.

Lemma seen_delete m n n' : seen (delete n m) n' = negb (n =? n') && seen m n'.
Proof.
  unfold seen. destruct (Z.eqb_spec n n') as [->|Hne]; [by rewrite lookup_delete_eq|by rewrite lookup_delete_ne].
Qed.

(** The invariant: the maps are exactly the nonces whose call succeeded, once. *)
Definition relayer_inv (r : Relayer) : Prop :=
  forall n, minted n (calls r) = (if seen (seenMinted r) n then 1 else 0)%nat /\
            withdrawn n (calls r) = (if seen (seenWithdrawn r) n then 1 else 0)%nat.

(** What the handlers do, by the two cases that make a call. *)
Lemma handleDeposit_cases ctx d (r : Relayer) :
  (seen (seenMinted r) (Nonce d) = true /\ handleDeposit ctx d r = r) \/
  (seen (seenMinted r) (Nonce d) = false /\
   let tx := (Mint ctx (scdo r) (User d) (DAmount d) (Nonce d)).2 in
   let r' := handleDeposit ctx d r in
   calls r' = CMint (User d) (DAmount d) (Nonce d) tx :: calls r /\ seenWithdrawn r' = seenWithdrawn r /\
   (forall n, seen (seenMinted r') n = ((Nonce d =? n) && is_ok tx) || seen (seenMinted r) n)).
Proof.
  unfold handleDeposit. destruct (seen (seenMinted r) (Nonce d)) eqn:Es; [by left|right; split; [done|]].
  destruct (Mint _ _ _ _ _) as [c' [tx|e]]; cbn; (split; [done|split; [done|]]); intros n.
  - by rewrite seen_insert, andb_true_r.
  - rewrite seen_delete, seen_insert, andb_false_r. destruct (Z.eqb_spec (Nonce d) n) as [<-|]; [by rewrite Es|done].
Qed.

Lemma handleBurn_cases ctx b (r : Relayer) :
  (seen (seenWithdrawn r) (WithdrawNonce b) = true /\ handleBurn ctx b r = r) \/
  (seen (seenWithdrawn r) (WithdrawNonce b) = false /\
   let tx := (Withdraw ctx (eth r) (From b) (BAmount b) (WithdrawNonce b)).2 in
   let r' := handleBurn ctx b r in
   calls r' = CWithdraw (From b) (BAmount b) (WithdrawNonce b) tx :: calls r /\ seenMinted r' = seenMinted r /\
   (forall n, seen (seenWithdrawn r') n = ((WithdrawNonce b =? n) && is_ok tx) || seen (seenWithdrawn r) n)).
Proof.
  unfold handleBurn. destruct (seen (seenWithdrawn r) (WithdrawNonce b)) eqn:Es; [by left|right; split; [done|]].
  destruct (Withdraw _ _ _ _ _) as [c' [tx|e]]; cbn; (split; [done|split; [done|]]); intros n.
  - by rewrite seen_insert, andb_true_r.
  - rewrite seen_delete, seen_insert, andb_false_r. destruct (Z.eqb_spec (WithdrawNonce b) n) as [<-|]; [by rewrite Es|done].
Qed.

Lemma count_and {A} (p q : A -> bool) x l :
  count (fun c => p c && q c) (x :: l) = ((if p x && q x then 1 else 0) + count (fun c => p c && q c) l)%nat.
Proof. apply (count_cons (fun c => p c && q c)). Qed.

Lemma watch_inv_step ctx (r : Relayer) :
  relayer_inv r -> relayer_inv (watch_deposits ctx r).1 /\ relayer_inv (watch_burns ctx r).1.
Proof.
  intros Hinv. unfold watch_deposits, watch_burns.
  destruct (WatchDeposited _ _ _), (WatchBurned _ _ _). split; exact Hinv.
Qed.

Lemma Run_step_inv i (r : Relayer) : relayer_inv r -> relayer_inv (Run_step i r).1.
Proof.
  intros Hinv. destruct i as [e|d| |b|]; cbn [Run_step fst]; try apply watch_inv_step; try done; intros n; destruct (Hinv n) as [Hm Hw].
  - destruct (handleDeposit_cases None d r) as [[_ ->]|(Hs & Hc & Hsw & Hsm)]; [done|]. cbv zeta in *.
    rewrite Hc, Hsw, Hsm. unfold minted, withdrawn. rewrite !count_and. cbn [is_mint is_withdraw succeeded andb].
    fold (minted n (calls r)) (withdrawn n (calls r)). rewrite Hm, Hw. split; [|done].
    destruct (Z.eqb_spec (Nonce d) n) as [<-|]; cbn; [rewrite Hs|done]. by destruct (is_ok _).
  - destruct (handleBurn_cases None b r) as [[_ ->]|(Hs & Hc & Hsm & Hsw)]; [done|]. cbv zeta in *.
    rewrite Hc, Hsw, Hsm. unfold minted, withdrawn. rewrite !count_and. cbn [is_mint is_withdraw succeeded andb].
    fold (minted n (calls r)) (withdrawn n (calls r)). rewrite Hm, Hw. split; [done|].
    destruct (Z.eqb_spec (WithdrawNonce b) n) as [<-|]; cbn; [rewrite Hs|done]. by destruct (is_ok _).
Qed.

Lemma Run_loop_inv inputs : forall r : Relayer, relayer_inv r -> relayer_inv (Run_loop inputs r).1.
Proof.
  induction inputs as [|i is_ IH]; intros r Hinv; [done|]. cbn [Run_loop]. pose proof (Run_step_inv i r Hinv) as Hs.
  destruct (Run_step i r) as [r' [e|]]; [done|]. by apply IH.
Qed.

Lemma Run_inv inputs (r : Relayer) : relayer_inv r -> relayer_inv (Run inputs r).1.
Proof.
  intros Hinv. unfold Run. pose proof (proj1 (watch_inv_step None r Hinv)) as H1.
  destruct (watch_deposits None r) as [r1 [e|]]; [done|]. pose proof (proj2 (watch_inv_step None r1 H1)) as H2.
  destruct (watch_burns None r1) as [r2 [e|]]; [done|]. by apply Run_loop_inv.
Qed.

(** The options do not touch the maps. *)
Definition harmless (o : @Option E C) : Prop :=
  forall r, seenMinted (o r) = seenMinted r /\ seenWithdrawn (o r) = seenWithdrawn r /\ calls (o r) = calls r.

Lemma New_inv e c opts : Forall harmless opts -> relayer_inv (New e c opts).
Proof.
  unfold New. intros Ho. assert (H1 : relayer_inv (MkRelayer e c 0 0 12000000000 ∅ ∅ [])) by (intros n; done).
  revert H1. generalize (MkRelayer e c 0 0 12000000000 ∅ ∅ []) as r.
  induction Ho as [|o opts Ho _ IH]; intros r Hr; [done|]. cbn. apply IH. intros n. destruct (Ho r) as (-> & -> & ->). apply Hr.
Qed.

(** ** What a run calls *)

(** The deposit, or burn, a call was made for. *)
Definition justified (inputs : list input) (c : call) : Prop :=
  match c with
  | CMint to a n _ => exists d, InDeposit d ∈ inputs /\ User d = to /\ DAmount d = a /\ Nonce d = n
  | CWithdraw to a n _ => exists b, InBurn b ∈ inputs /\ From b = to /\ BAmount b = a /\ WithdrawNonce b = n
  | _ => True
  end.

(** An input was dealt with: its nonce has a successful call, or the call for
    this very event failed. *)
Definition dealt_with (cs : list call) (i : input) : Prop :=
  match i with
  | InDeposit d => minted (Nonce d) cs = 1%nat \/ exists e, CMint (User d) (DAmount d) (Nonce d) (Err e) ∈ cs
  | InBurn b => withdrawn (WithdrawNonce b) cs = 1%nat \/ exists e, CWithdraw (From b) (BAmount b) (WithdrawNonce b) (Err e) ∈ cs
  | _ => True
  end.

(** One turn adds at most one call, the one its input asks for, and deals with it. *)
Lemma Run_step_calls i (r : Relayer) :
  relayer_inv r ->
  let r' := (Run_step i r).1 in
  dealt_with (calls r') i /\
  (calls r' = calls r \/ exists c, calls r' = c :: calls r /\ justified [i] c /\
     forall n, (is_mint n c = true -> exists d, i = InDeposit d /\ Nonce d = n) /\
               (is_withdraw n c = true -> exists b, i = InBurn b /\ WithdrawNonce b = n)).
Proof.
  intros Hinv. cbn zeta. pose proof (Run_step_inv i r Hinv) as Hinv'. revert Hinv'.
  destruct i as [e|d| |b|]; cbn [Run_step fst]; intros Hinv'; [split; [exact I|by left]| | | |].
  - destruct (handleDeposit_cases None d r) as [[Hs Heq]|(Hs & Hc & _ & Hsm)]; cbv zeta in *.
    + rewrite Heq. split; [|by left]. left. destruct (Hinv (Nonce d)) as [-> _]. by rewrite Hs.
    + split.
      * destruct (Mint None (scdo r) _ _ _).2 as [tx|e] eqn:Et; cbn in Hsm.
        -- left. destruct (Hinv' (Nonce d)) as [-> _]. by rewrite Hsm, Z.eqb_refl.
        -- right. exists e. rewrite Hc. apply list_elem_of_here.
      * right. eexists. split; [exact Hc|]. split; [exists d; split_and!; try done; by apply list_elem_of_singleton|].
        intros n. cbn. split; [|done]. intros Hn%Z.eqb_eq. eauto.
  - unfold watch_deposits. destruct (WatchDeposited _ _ _). cbn. split; [done|]. right. eexists. split; [done|]. by split.
  - destruct (handleBurn_cases None b r) as [[Hs Heq]|(Hs & Hc & _ & Hsw)]; cbv zeta in *.
    + rewrite Heq. split; [|by left]. left. destruct (Hinv (WithdrawNonce b)) as [_ ->]. by rewrite Hs.
    + split.
      * destruct (Withdraw None (eth r) _ _ _).2 as [tx|e] eqn:Et; cbn in Hsw.
        -- left. destruct (Hinv' (WithdrawNonce b)) as [_ ->]. by rewrite Hsw, Z.eqb_refl.
        -- right. exists e. rewrite Hc. apply list_elem_of_here.
      * right. eexists. split; [exact Hc|]. split; [exists b; split_and!; try done; by apply list_elem_of_singleton|].
        intros n. cbn. split; [done|]. intros Hn%Z.eqb_eq. eauto.
  - unfold watch_burns. destruct (WatchBurned _ _ _). cbn. split; [done|]. right. eexists. split; [done|]. by split.
Qed.

Lemma justified_mono inputs inputs' c : (forall i, i ∈ inputs -> i ∈ inputs') -> justified inputs c -> justified inputs' c.
Proof. intros Hi. destruct c; cbn; try done; intros (x & Hx & ?); eauto. Qed.

Definition deposits_of (n : Z) : list input -> nat :=
  count (fun i => match i with InDeposit d => Nonce d =? n | _ => false end).
Definition burns_of (n : Z) : list input -> nat :=
  count (fun i => match i with InBurn b => WithdrawNonce b =? n | _ => false end).

(** Dealt with stays dealt with. *)
Lemma dealt_with_step i j (r : Relayer) :
  relayer_inv r -> dealt_with (calls r) j -> dealt_with (calls (Run_step i r).1) j.
Proof.
  intros Hinv Hd. pose proof (Run_step_inv i r Hinv) as Hinv'. destruct (Run_step_calls i r Hinv) as [_ Hc]. cbn zeta in Hc.
  destruct Hc as [->|(c & Hc & _ & _)]; [done|].
  destruct j as [e|d| |b|]; cbn in *; try done; (destruct Hd as [Hd|[e Hd]]; [left|right; exists e; rewrite Hc; by right]).
  - destruct (Hinv' (Nonce d)) as [Hm _]. revert Hm. rewrite Hc. unfold minted in *. rewrite count_and, Hd.
    destruct (is_mint _ _ && _), (seen _ _); cbn; lia.
  - destruct (Hinv' (WithdrawNonce b)) as [_ Hm]. revert Hm. rewrite Hc. unfold withdrawn in *. rewrite count_and, Hd.
    destruct (is_withdraw _ _ && _), (seen _ _); cbn; lia.
Qed.

Lemma Run_loop_calls inputs : forall (r r' : Relayer) err,
  relayer_inv r -> Run_loop inputs r = (r', err) ->
  (forall c, c ∈ calls r' -> c ∈ calls r \/ justified inputs c) /\
  (forall n, count (is_mint n) (calls r') <= count (is_mint n) (calls r) + deposits_of n inputs /\
             count (is_withdraw n) (calls r') <= count (is_withdraw n) (calls r) + burns_of n inputs)%nat /\
  (forall j, dealt_with (calls r) j -> dealt_with (calls r') j) /\
  (err = None -> forall i, i ∈ inputs -> dealt_with (calls r') i).
Proof.
  induction inputs as [|i is_ IH]; intros r r' err Hinv Hr.
  { injection Hr as <- <-. split_and!; [by left|intros n; cbn; lia|done|]. intros _ i Hi. by apply not_elem_of_nil in Hi. }
  cbn [Run_loop] in Hr. pose proof (Run_step_inv i r Hinv) as Hinv1. destruct (Run_step_calls i r Hinv) as [Hd Hc]. cbn zeta in *.
  pose proof (fun j => dealt_with_step i j r Hinv) as Hmono.
  destruct (Run_step i r) as [r1 e1]. cbn [fst] in *.
  assert (Hstep : (forall c, c ∈ calls r1 -> c ∈ calls r \/ justified (i :: is_) c) /\
    forall n, (count (is_mint n) (calls r1) <= count (is_mint n) (calls r) + deposits_of n [i] /\
               count (is_withdraw n) (calls r1) <= count (is_withdraw n) (calls r) + burns_of n [i])%nat).
  { destruct Hc as [->|(c & -> & Hj & Hn)]; [split; [by left|intros; lia]|]. split.
    - intros c' [->|Hin]%elem_of_cons; [right|by left]. eapply justified_mono; [|exact Hj].
      intros j ->%list_elem_of_singleton. apply list_elem_of_here.
    - intros n. rewrite !count_cons. unfold deposits_of, burns_of. rewrite !count_cons. destruct (Hn n) as [H1 H2]. split.
      + destruct (is_mint n c); [|lia]. destruct (H1 eq_refl) as (d & -> & Hd1). cbn. rewrite (proj2 (Z.eqb_eq _ _) Hd1). lia.
      + destruct (is_withdraw n c); [|lia]. destruct (H2 eq_refl) as (b & -> & Hb1). cbn. rewrite (proj2 (Z.eqb_eq _ _) Hb1). lia. }
  destruct Hstep as [Hj Hn].
  assert (Hsplit : forall n, deposits_of n (i :: is_) = (deposits_of n [i] + deposits_of n is_)%nat /\
                             burns_of n (i :: is_) = (burns_of n [i] + burns_of n is_)%nat)
    by (intros n; unfold deposits_of, burns_of; rewrite !count_cons; cbn; lia).
  destruct e1 as [e|].
  { injection Hr as <- <-. split_and!; [done| |done|done]. intros n. specialize (Hn n). destruct (Hsplit n). lia. }
  destruct (IH r1 r' err Hinv1 Hr) as (Hj2 & Hn2 & Hm2 & Hd2). split_and!.
  - intros c Hin. destruct (Hj2 c Hin) as [Hin1|Hjust]; [by apply Hj|right].
    eapply justified_mono; [|exact Hjust]. intros; by apply list_elem_of_further.
  - intros n. specialize (Hn n). specialize (Hn2 n). destruct (Hsplit n). lia.
  - intros j Hj0. by apply Hm2, Hmono.
  - intros -> j [->|Hin]%elem_of_cons; [by apply Hm2|by apply Hd2].
Qed.

(** [Run] from a new relayer, after its first two watches. *)
Lemma Run_start inputs (r0 r' : Relayer) err :
  relayer_inv r0 -> calls r0 = [] -> Run inputs r0 = (r', err) ->
  (exists r, relayer_inv r /\ (forall n, count (is_mint n) (calls r) = 0%nat /\ count (is_withdraw n) (calls r) = 0%nat) /\
     (forall c, c ∈ calls r -> justified [] c) /\ Run_loop inputs r = (r', err)) \/
  (err <> None /\ (forall n, count (is_mint n) (calls r') = 0%nat /\ count (is_withdraw n) (calls r') = 0%nat) /\
   (forall c, c ∈ calls r' -> justified [] c)).
Proof.
  intros Hinv H0c. unfold Run. pose proof (proj1 (watch_inv_step None r0 Hinv)) as H1. revert H1.
  unfold watch_deposits. destruct (WatchDeposited _ _ _) as [c1 e1]. cbn [fst]. intros H1.
  destruct e1 as [e1|].
  { intros [= <- <-]. right. split; [done|]. cbn. rewrite H0c. split; [by intros n|].
    intros c Hc. apply list_elem_of_singleton in Hc as ->. done. }
  pose proof (proj2 (watch_inv_step None _ H1)) as H2. revert H2.
  unfold watch_burns. destruct (WatchBurned _ _ _) as [c2 e2]. cbn [fst]. intros H2. destruct e2 as [e2|].
  { intros [= <- <-]. right. split; [done|]. cbn. rewrite H0c. split; [by intros n|].
    intros c [->|Hc%list_elem_of_singleton]%elem_of_cons; [done|by subst c]. }
  intros Hr. left. eexists. split; [exact H2|]. split_and!; [| |exact Hr].
  - cbn. rewrite H0c. by intros n.
  - cbn. rewrite H0c. intros c [->|Hc%list_elem_of_singleton]%elem_of_cons; [done|by subst c].
Qed.

Lemma New_calls e c opts : Forall harmless opts -> calls (New e c opts) = [].
Proof.
  unfold New. intros Ho. assert (H1 : calls (MkRelayer e c 0 0 12000000000 ∅ ∅ []) = []) by done.
  revert H1. generalize (MkRelayer e c 0 0 12000000000 ∅ ∅ []) as r.
  induction Ho as [|o opts Ho _ IH]; intros r Hr; [done|]. cbn. apply IH. by destruct (Ho r) as (_ & _ & ->).
Qed.

(** C16: No nonce is minted twice and none is withdrawn twice by one run of the
    relayer, whatever the clients answer and however the events arrive,
    repeated, reordered or replayed after a closed channel; and the relayer
    itself never retries: a nonce gets at most as many calls as its event was
    delivered. *)
Theorem Run_at_most_once e c opts inputs n :
  Forall harmless opts ->
  let cs := calls (Run inputs (New e c opts)).1 in
  (minted n cs <= 1)%nat /\ (withdrawn n cs <= 1)%nat /\
  (count (is_mint n) cs <= deposits_of n inputs)%nat /\ (count (is_withdraw n) cs <= burns_of n inputs)%nat.
Proof.
  intros Ho. cbn zeta. pose proof (New_inv e c opts Ho) as Hinv. destruct (Run_inv inputs _ Hinv n) as [-> ->].
  split; [by case_match; lia|]. split; [by case_match; lia|]. destruct (Run inputs (New e c opts)) as [r' err] eqn:Hr.
  destruct (Run_start inputs _ r' err Hinv (New_calls e c opts Ho) Hr) as [(r & Hi & Hn & _ & Hl)|(_ & Hn & _)]; cbn [fst].
  - destruct (Run_loop_calls inputs r r' err Hi Hl) as (_ & Hc & _). specialize (Hc n). destruct (Hn n). lia.
  - destruct (Hn n). lia.
Qed.

(** C17: The relayer forwards what it sees and nothing else: every mint has the
    user, amount and nonce of a deposit that was delivered, every withdrawal
    those of a burn; and as long as [Run] has not returned, each delivered
    deposit has either its nonce minted, or its own mint failed, and each burn
    likewise. *)
Theorem Run_forwards e c opts inputs :
  Forall harmless opts ->
  let '(r, err) := Run inputs (New e c opts) in
  (forall cl, cl ∈ calls r -> justified inputs cl) /\
  (err = None -> forall i, i ∈ inputs -> dealt_with (calls r) i).
Proof.
  intros Ho. pose proof (New_inv e c opts Ho) as Hinv. destruct (Run inputs (New e c opts)) as [r' err] eqn:Hr.
  assert (Hmono : forall cl, justified [] cl -> justified inputs cl).
  { intros cl Hj. eapply justified_mono; [|exact Hj]. intros j Hj'. by apply not_elem_of_nil in Hj'. }
  destruct (Run_start inputs _ r' err Hinv (New_calls e c opts Ho) Hr) as [(r & Hi & _ & Hj & Hl)|(He & _ & Hj)].
  - destruct (Run_loop_calls inputs r r' err Hi Hl) as (Hc & _ & _ & Hd). split; [|done].
    intros cl [Hcl|Hcl]%Hc; [by apply Hmono, Hj|done].
  - split; [by intros cl Hcl; apply Hmono, Hj|]. by intros ->.
Qed.

(** The fields of an event [Run] looks at. *)
Definition blind (i : input) : input :=
  match i with
  | InDeposit d => InDeposit (MkDeposited "" (User d) (DAmount d) (Nonce d) 0 0 "")
  | InBurn b => InBurn (MkBurned (From b) (BAmount b) (WithdrawNonce b) 0 "")
  | _ => i
  end.

Lemma Run_step_blind i (r : Relayer) : Run_step (blind i) r = Run_step i r.
Proof. by destruct i. Qed.

(** The token and the destination chain of a deposit do not matter: a run
    in which they are erased is the same run, so a deposit of any token, or for
    another chain, is minted as the pegged asset like any other.  And once a
    burn's nonce has been withdrawn, a later burn with that nonce is dropped,
    whoever made it and whatever its amount. *)
Theorem Run_blind inputs (r : Relayer) :
  Run_loop (blind <$> inputs) r = Run_loop inputs r /\
  forall b b', WithdrawNonce b' = WithdrawNonce b ->
    is_ok (Withdraw None (eth r) (From b) (BAmount b) (WithdrawNonce b)).2 = true ->
    Run_loop [InBurn b; InBurn b'] r = Run_loop [InBurn b] r.
Proof.
  split.
  - revert r. induction inputs as [|i is_ IH]; intros r; [done|]. cbn [fmap list_fmap Run_loop].
    rewrite Run_step_blind. destruct (Run_step i r) as [r' [e|]]; [done|]. apply IH.
  - intros b b' Hn Hok. cbn [Run_loop Run_step].
    destruct (handleBurn_cases None b' (handleBurn None b r)) as [[_ ->]|(Hs & _)]; [done|].
    exfalso. rewrite Hn in Hs. destruct (handleBurn_cases None b r) as [[Hs1 Heq]|(_ & _ & _ & Hsw)].
    + rewrite Heq in Hs. congruence.
    + cbv zeta in Hsw. rewrite Hsw, Hok, Z.eqb_refl in Hs. done.
Qed.

(** The memory of what was withdrawn ends with the process.  If the client
    accepts a withdrawal whenever it is asked (as [BridgeLock.withdraw] does: it
    checks the admin's signature and keeps no nonces), then a burn that is
    replayed to a new relayer after a restart is paid out a second time. *)
Theorem restart_withdraws_again (e : E) (c : C) opts b :
  Forall harmless opts ->
  (forall cx (e : E) from, (WatchDeposited cx e from).2 = None) -> (forall cx (c : C) from, (WatchBurned cx c from).2 = None) ->
  (forall cx (e : E) to a n, is_ok (Withdraw cx e to a n).2 = true) ->
  let r1 := (Run [InBurn b] (New e c opts)).1 in
  let r2 := (Run [InBurn b] (New (eth r1) (scdo r1) opts)).1 in
  withdrawn (WithdrawNonce b) (calls r1) = 1%nat /\ withdrawn (WithdrawNonce b) (calls r2) = 1%nat /\
  forall cl, cl ∈ calls r1 \/ cl ∈ calls r2 -> is_withdraw (WithdrawNonce b) cl = true ->
    exists tx, cl = CWithdraw (From b) (BAmount b) (WithdrawNonce b) tx.
Proof.
  intros Ho Hwd Hwb Hw. cbn zeta.
  assert (Hrun : forall e0 c0, let r := (Run [InBurn b] (New e0 c0 opts)).1 in
    withdrawn (WithdrawNonce b) (calls r) = 1%nat /\
    forall cl, cl ∈ calls r -> is_withdraw (WithdrawNonce b) cl = true -> exists tx, cl = CWithdraw (From b) (BAmount b) (WithdrawNonce b) tx).
  { intros e0 c0. cbn zeta. pose proof (New_inv e0 c0 opts Ho) as Hinv. pose proof (New_calls e0 c0 opts Ho) as Hc0.
    unfold Run. pose proof (proj1 (watch_inv_step None _ Hinv)) as Hi1. revert Hi1. unfold watch_deposits.
    pose proof (Hwd None (eth (New e0 c0 opts)) (ethFromBlock (New e0 c0 opts))) as He1.
    destruct (WatchDeposited _ _ _) as [c1 e1]. cbn in He1. subst e1. cbn [fst]. intros Hi1.
    pose proof (proj2 (watch_inv_step None _ Hi1)) as Hi2. revert Hi2. unfold watch_burns.
    match goal with |- context [WatchBurned None ?x ?y] => pose proof (Hwb None x y) as He2; destruct (WatchBurned None x y) as [c2 e2] end.
    cbn in He2. subst e2. cbn [fst]. intros Hi2. cbn [Run_loop Run_step].
    match goal with |- context [handleBurn None b ?r] => set (r2 := r) in *; destruct (handleBurn_cases None b r2) as [[Hs _]|(_ & Hc & _)] end.
    - exfalso. destruct (Hi2 (WithdrawNonce b)) as [_ Hwn]. rewrite Hs in Hwn. cbn in Hwn. rewrite Hc0 in Hwn. done.
    - cbv zeta in Hc. cbn [fst]. rewrite Hc. unfold withdrawn. rewrite count_and. cbn [is_withdraw succeeded]. rewrite Hw, Z.eqb_refl.
      subst r2. cbn [calls note set_scdo set_eth]. rewrite Hc0. split; [done|].
      intros cl Hcl Hx. repeat (apply elem_of_cons in Hcl as [->|Hcl]; [try discriminate Hx; by eexists|]). by apply not_elem_of_nil in Hcl. }
  destruct (Hrun e c) as [H1 H2]. destruct (Hrun (eth (Run [InBurn b] (New e c opts)).1) (scdo (Run [InBurn b] (New e c opts)).1)) as [H3 H4].
  split_and!; [done|done|]. intros cl [Hcl|Hcl]; auto.
Qed.
End Facts.

(** ** Two clients that accept everything, and one whose mints fail *)

Inductive Accepting := Accept.
Inductive Rejecting := Reject.

#[export] Instance Accepting_client : ChainClient Accepting := {
  WatchDeposited _ c _ := (c, None);
  WatchBurned _ c _ := (c, None);
  Mint _ c _ _ _ := (c, Ok "0xminttx");
  Withdraw _ c _ _ _ := (c, Ok "0xwithdrawtx") }.
#[export] Instance Rejecting_client : ChainClient Rejecting := {
  WatchDeposited _ c _ := (c, None);
  WatchBurned _ c _ := (c, None);
  Mint _ c _ _ _ := (c, Err (ENew "nonce too low"));
  Withdraw _ c _ _ _ := (c, Err (ENew "bad signature")) }.

Definition demo_options {E C} : list (@Option E C) := [WithStartBlock 100 200; WithPollInterval 1000000000].

Lemma demo_harmless {E C} : Forall harmless (@demo_options E C).
Proof. repeat constructor. Qed.

Definition dep (token : string) (n : Z) : DepositedEvent := MkDeposited token "0xuser1" 100 n 1 100 "0xd".

Lemma Run_at_most_once_witness :
  let cs := calls (Run [InDeposit (dep "0xt" 1); InDepositsClosed; InDeposit (dep "0xt" 1)] (New Accept Accept demo_options)).1 in
  minted 1 cs = 1%nat /\ count (is_mint 1) cs = 1%nat /\ (minted 1 cs <= 1)%nat.
Proof.
  intros cs. split; [reflexivity|]. split; [reflexivity|].
  apply (Run_at_most_once Accept Accept demo_options
    [InDeposit (dep "0xt" 1); InDepositsClosed; InDeposit (dep "0xt" 1)] 1 demo_harmless).
Defined.

Lemma Run_forwards_witness :
  let r := Run [InDeposit (dep "0xt" 1); InDeposit (dep "0xt" 2)] (New Accept Reject demo_options) in
  r.2 = None /\ dealt_with (calls r.1) (InDeposit (dep "0xt" 2)) /\ minted 2 (calls r.1) = 0%nat.
Proof.
  intros r. split; [reflexivity|]. split; [|reflexivity].
  refine (proj2 (Run_forwards Accept Reject demo_options [InDeposit (dep "0xt" 1); InDeposit (dep "0xt" 2)] demo_harmless) eq_refl _ _).
  apply list_elem_of_further, list_elem_of_here.
Defined.

Lemma Run_blind_witness :
  let r := New Accept Accept demo_options in
  Run_loop [InDeposit (dep "0xscam" 1)] r = Run_loop [InDeposit (dep "0xt" 1)] r /\
  Run_loop [InBurn (MkBurned "0xmallory" 1 7 300 "0xb"); InBurn (MkBurned "0xalice" 1000 7 301 "0xc")] r =
  Run_loop [InBurn (MkBurned "0xmallory" 1 7 300 "0xb")] r.
Proof.
  intros r. destruct (Run_blind [InDeposit (dep "0xscam" 1)] r) as [H1 H2].
  destruct (Run_blind [InDeposit (dep "0xt" 1)] r) as [H3 _].
  split; [rewrite <- H1, <- H3; reflexivity|]. apply H2; reflexivity.
Defined.

Lemma restart_withdraws_again_witness :
  let b := MkBurned "0xuser2" 50 7 300 "0xb" in
  let r1 := (Run [InBurn b] (New Accept Accept demo_options)).1 in
  let r2 := (Run [InBurn b] (New (eth r1) (scdo r1) demo_options)).1 in
  withdrawn 7 (calls r1) = 1%nat /\ withdrawn 7 (calls r2) = 1%nat.
Proof.
  intros b r1 r2.
  destruct (restart_withdraws_again Accept Accept demo_options b demo_harmless) as (H1 & H2 & _); [done|done|done|].
  split; [exact H1|exact H2].
Defined.
